(* ===== verification/_CoqProject ===== *)
-Q . S2P
Prelude.v
Mem.v
Packet.v
XskRing.v
FillQueue.v
Murmur.v
CityHash.v
HashMap.v
Maglev.v
LoadBalancer.v
BalancerSpec.v
DataPath.v
Buffers.v
QueueSpec.v
PoolAlloc.v
MicaTable.v
MicaSpec.v
Seqlock.v
MicaCache.v
MicaLossy.v
MicaRefine.v
MicaLru.v
MicaFull.v
Apps.v
AppTypes.v
MicaApp.v
Progress.v
Wire.v
EndToEnd.v
IntMap.v
Config.v
Kern.v
Shm.v
ShmSpec.v
ShmSpace.v
ShmAlloc.v
PoolShm.v
MallocAlloc.v
DynAlloc.v
DynSpec.v
DynRun.v
