(* ===== verification/Prelude.v ===== *)
(** * Toasty: a verification library

    Toasty receives packets over AF_XDP and hands the packet buffers back to the kernel last
    in, first out, so that the next packet lands in a buffer that is still in the cache.  On
    top of the socket it runs one of seven applications.  The library models the user-space
    program [src/bpf/AF_XDP/toasty.c] with everything it is built from, and proves what makes
    it correct: no packet buffer is lost or used twice, what is sent answers what was received
    whichever buffers are reused, the data structures of the applications implement finite
    maps, the allocators never hand out the same memory twice.

    ** The parts and how they interact

    - One socket and its UMEM.  Four single-producer single-consumer rings are shared with the
      kernel: fill, RX, TX and completion ([XskRing], from [xdp/xsk.h] with the project's
      [custom_xsk_ring_prod__fill_addr], and [lib/libxdp/xsk.c] for their set-up).  Used
      addresses go back through the fill ring, at its tail (FIFO) or swapped into the slots
      the kernel takes next (warm) ([FillQueue]).  [receive], [forward], [l3forward] and
      [complete_tx_forward] move a batch between the rings and call the application
      ([DataPath]).
    - The application is behind the class [DataPath.Handler]: the theorems on the data path
      hold for every instance, and [Apps] is the instance of the program, the switch
      [process_packet] over NAT, IDS, decryption, L2 and L3 forwarding ([Packet], over the
      byte memory of [Mem]), the load balancer ([LoadBalancer]) and the key-value store
      ([Apps], [MicaApp]).
    - The load balancer keeps services, tables and sessions in chained hash maps.  It is
      written against the class [HashMap.Dict]; the hash map of [maglev/hashmap.c] is one
      instance and the finite map is another, and what one computes the other does.  The
      tables are built by [Maglev]; keys are hashed by [Murmur].
    - The key-value store is MICA: the table [MicaTable] over the circular log [PoolAlloc],
      whose pages come from [Shm]; keys are hashed by [CityHash].  [DynAlloc] and
      [MallocAlloc] are the allocators the table can be built with instead of the log.
    - [Config] is the command line and the set-up that leads to the first state of the data
      path, [Kern] the XDP program that spreads packets over the sockets.

    ** Files

    - [Prelude]: machine integers ([wrap], [swrap]), C operators, list and bit lemmas, the
      tactics [zlia] and [wrap_push] with the hints of the database [cint].
    - [Mem]: byte memory, little-endian accesses, frames ([same_outside]).
    - [Packet]: [process_packet_nat], [_ids], [_decryption], [_l2fwd] and
      [process_packet_l3fwd_same_port] of [toasty.c].
    - [XskRing]: [xsk_ring_prod__*] and [xsk_ring_cons__*]; [prod_wf] and [cons_wf] relate the
      wrapping counters and cached indices to a queue.
    - [FillQueue]: the refill loop shared by [receive] and [complete_tx_forward], and the
      queue operation it implements.
    - [DataPath]: the loops of [toasty.c] as functions on a [world] (rings, counters,
      application); [Buffers]: socket and kernel as a transition system and its invariant;
      [QueueSpec]: the contracts of the loops on queues.
    - [Murmur], [CityHash]: [maglev/murmurhash.h], [ported-mica/city.c], [ported-mica/hash.c].
    - [HashMap], [Maglev], [LoadBalancer]: [maglev/hashmap.c], [configure],
      [maglev/load_balancer.h], [process_packet_maglev], [load_services], and the packet
      handler of [maglev/main.c].
    - [PoolAlloc]: [alloc_pool.c], [util.h]; [MicaTable]: [table.c], [table.h]; [MicaSpec]: the
      invariant of the table; [MicaCache]: every operation against a lossy map; [MicaRefine]:
      set-up and runs; [MicaFull], [MicaApp]: the application, which never evicts.
    - [Apps]: the switch over the applications; [AppTypes]: they keep the types of their state.
    - [Seqlock]: the bucket versions of [table.c] with any number of threads, one shared access
      per step.
    - [Progress]: data path and applications together, from the state that [main] sets up.
    - [Wire]: the kernel with its memory accesses, which writes packets into the buffers it has
      taken and sends the bytes of the descriptors it is given, and the class [Implements]: an
      application answers packets in its buffer like a [server] that has no buffers.
      [EndToEnd]: the servers for L2 forwarding and the key-value store, and the two theorems
      on what goes over the wire.
    - [IntMap]: [hashmap.c].  [Config], [Kern]: options and set-up of [toasty.c],
      [toasty_kern.c] with [lookup_bpf_map] and [enter_xsks_into_map].
    - [Shm]: [shm.c]; [ShmSpec]: ownership of pages; [ShmAlloc]: blocks; [PoolShm]: how the log
      gets its memory, mapped twice, and gives it back.
    - [MallocAlloc]: [alloc_malloc.c].  [DynAlloc]: [alloc_dynamic.c]; [DynSpec]: the region as a
      row of chunks; [DynRun]: sequences of requests.

    ** Conventions

    A w-bit integer is a [Z], wrapped where the C type wraps.  A structure is a record and a
    function a definition of the same name, from state to state; [None] is a failed
    assertion, an exit, undefined behaviour (an access outside an object) or a wait that no
    other thread ends.  What the kernel, libbpf or [malloc] answers is an argument.  Pointers
    are addresses or indices, so aliases are equal numbers in one store.

    ** What the theorems show

    - Data path: [buffers_conserved] (in every interleaving of application and kernel each
      buffer is at exactly one place), [receive_refines], [forward_refines],
      [complete_refines] (the loops are operations on queues), [toasty_answers_in_order] (the
      packets that go out are the server's answers to those that came in, in their order),
      [warm_buffers_invisible] (so the warm mode sends what the FIFO mode sends),
      [toasty_batch_is_served] (with the applications of the program every batch gets through:
      no wait, no fault),
      [start_fills_umem] (the command line leads to a state where these hold or to an exit);
      [reserve_wait_skips], [l3forward_reserves_twice], [forward_drops_offset] and
      [warm_refill_drained] are the cases where the program departs from it.
    - Packets: [l3fwd_handles] (checksum included), [handlers_keep_types] (every application
      leaves a UMEM of bytes and globals within their C types).
    - Load balancer: [configure_balanced], [maglev_rows_permute] (the table), the refinement
      [socket_batch_refines] and [load_services_refines] (hash maps behave as finite maps),
      [new_session_served], [reply_known], [maglev_idempotent], [insert_rep_keeps_sum];
      [maglev_backend0_repeats] is an overflow in the table.
    - MICA: [mica_refines_lossy_map] (every run answers as a map that may forget),
      [mica_set_then_get], [mica_delete_then_get], [mica_app_serves] (the application never
      fails and never forgets), [pool_valid_items_intact], [pool_serves_all],
      [pool_memory_circular] (the address space is the circle that the log takes it for),
      [city_hashes_total]; [mica_move_to_head_breaks_headers] is the limit
      of the in-place updates.
    - Threads: [seqlock_excludes] (one writer at a time), [seqlock_reads_atomic] (an accepted
      read is one state of the bucket), [seqlock_version_wraps] (the bound is sharp).
    - Memory: [shm_tables_consistent], [shm_map_shows_pages], [malloc_free_roundtrip],
      [dynamic_blocks_safe]; [shm_memuse_never_falls], [dynamic_requests_out_of_range].
    - [insertions_make_a_map] and [deletion_loses_keys] (integer map),
      [shared_umem_one_socket] (XDP program).

    ** Fuel and bounds

    Loops that end by a counter take it as fuel: [city64_loop] and the others of [CityHash] one
    round per block of the length ([city_hashes_total]: always enough), [pop_loop] the bytes
    that an allocation is short of ([pool_serves_all]), [skip_taken] and [rounds] the table
    size plus one ([rounds_spec]: the table is full before), [probe] one round of the table,
    [class_loop] the classes left.  Loops that wait for the kernel take the list of its steps
    ([wait_fq]) and those over system calls the list of answers; [None] at its end is a loop
    that is still waiting, and the theorems on them state when they end.  Where a theorem
    bounds a parameter, the bound is that of the program or of a C type: 264 bytes is the
    largest request the size classes distinguish, 2^38 bytes the largest log that the 40-bit
    offsets tell apart.

    ** Not modelled

    - libbpf, libxdp and xdp-tools, except the ring interface the project changed: vendored
      upstream code.  Kernel and library headers: their constants are definitions.
    - Process glue of [toasty.c] and [maglev/main.c]: system calls for sockets, signals,
      scheduling, log files and statistics, [usage], the raw-socket and thread loops around
      the packet handler of [main.c].  They are input and output and hold no data structure.
    - Printing, statistics counters and prefetching of MICA ([mehcached_print_*],
      [mehcached_prefetch_*]), and [mehcached_process_batch], which is commented out.
      Reading /proc and the file names of huge pages in [shm.c].
    - [hash_md4] of [hash.c], which calls OpenSSL.
    - Code that [config.h] and [hash.h] compile out (tables without eviction, tables over the
      other allocators).
    - Weak memory: [Seqlock] interleaves atomic accesses. *)
From stdpp Require Export base tactics list gmap numbers sorting.
From Stdlib Require Export ZArith Lia Permutation.

#[global] Set Default Goal Selector "!".
#[global] Open Scope Z_scope.

(** ** Machine integers

    A [w]-bit unsigned C integer is a [Z] in [0, 2^w); arithmetic is done on [Z]
    and wrapped where the C type wraps.  A signed integer is read back in two's
    complement. *)

Definition wrap (w z : Z) : Z := z mod 2 ^ w.

Definition swrap (w z : Z) : Z :=
  let m := z mod 2 ^ w in if m <? 2 ^ (w - 1) then m else m - 2 ^ w.

Declare Scope cint_scope.
Delimit Scope cint_scope with C.
Abbreviation u8 := (wrap 8).
Abbreviation u16 := (wrap 16).
Abbreviation u32 := (wrap 32).
Abbreviation u64 := (wrap 64).
Abbreviation s32 := (swrap 32).
Abbreviation s64 := (swrap 64).
Notation "x &' y" := (Z.land x y) (at level 43, left associativity) : cint_scope.
Notation "x |' y" := (Z.lor x y) (at level 50, left associativity) : cint_scope.
Notation "x ^' y" := (Z.lxor x y) (at level 46, left associativity) : cint_scope.
Notation "x <<' y" := (Z.shiftl x y) (at level 40, left associativity) : cint_scope.
Notation "x >>' y" := (Z.shiftr x y) (at level 40, left associativity) : cint_scope.
#[global] Open Scope cint_scope.

(** [zlia] is [lia] with the wraps unfolded and quotients and remainders by
    constants made explicit. *)
Ltac zlia :=
  unfold wrap, swrap in *; Z.to_euclidean_division_equations; lia.

Create HintDb cint.

Lemma wrap_range w z : 0 <= w -> 0 <= wrap w z < 2 ^ w.
Proof. intros. apply Z.mod_pos_bound. lia. Qed.

Lemma wrap_small w z : 0 <= z < 2 ^ w -> wrap w z = z.
Proof. apply Z.mod_small. Qed.

Lemma wrap_wrap w z : 0 <= w -> wrap w (wrap w z) = wrap w z.
Proof. intros. apply wrap_small, wrap_range; lia. Qed.

Lemma wrap_add_l w a b : wrap w (wrap w a + b) = wrap w (a + b).
Proof. apply Zplus_mod_idemp_l. Qed.

Lemma wrap_add_r w a b : wrap w (a + wrap w b) = wrap w (a + b).
Proof. apply Zplus_mod_idemp_r. Qed.

Lemma wrap_sub_l w a b : wrap w (wrap w a - b) = wrap w (a - b).
Proof. apply Zminus_mod_idemp_l. Qed.

Lemma wrap_sub_r w a b : wrap w (a - wrap w b) = wrap w (a - b).
Proof. apply Zminus_mod_idemp_r. Qed.

#[export] Hint Rewrite wrap_add_l wrap_add_r wrap_sub_l wrap_sub_r : cint.

(** The wraps under sums and differences are idle. *)
Ltac wrap_push := autorewrite with cint in *.

Lemma swrap_range w z : 0 < w -> - 2 ^ (w - 1) <= swrap w z < 2 ^ (w - 1).
Proof.
  intros Hw. unfold swrap.
  assert (2 ^ w = 2 * 2 ^ (w - 1)) as Hp by (rewrite <- Z.pow_succ_r by lia; f_equal; lia).
  pose proof (Z.mod_pos_bound z (2 ^ w) ltac:(lia)). destruct (Z.ltb_spec (z mod 2 ^ w) (2 ^ (w - 1))); lia.
Qed.

Lemma swrap_small w z : 0 < w -> - 2 ^ (w - 1) <= z < 2 ^ (w - 1) -> swrap w z = z.
Proof.
  intros Hw Hz. unfold swrap.
  assert (2 ^ w = 2 * 2 ^ (w - 1)) as Hp by (rewrite <- Z.pow_succ_r by lia; f_equal; lia).
  destruct (decide (0 <= z)).
  - rewrite Z.mod_small by lia. destruct (Z.ltb_spec z (2 ^ (w - 1))); lia.
  - replace (z mod 2 ^ w) with (z + 2 ^ w).
    + destruct (Z.ltb_spec (z + 2 ^ w) (2 ^ (w - 1))); lia.
    + rewrite <- (Z.mod_add z 1) by lia. rewrite Z.mod_small; lia.
Qed.

(** A mask of ones is a remainder, also of a value already wrapped at a width
    that is at least as large. *)
Lemma land_mask a k : 0 <= k -> Z.land a (2 ^ k - 1) = a mod 2 ^ k.
Proof. intros. rewrite <- Z.land_ones, Z.ones_equiv by lia. f_equal; lia. Qed.

Lemma wrap_mod_pow2 w a k : 0 <= k <= w -> wrap w a mod 2 ^ k = a mod 2 ^ k.
Proof.
  intros. unfold wrap.
  rewrite <- (Znumtheory.Zmod_div_mod (2 ^ k) (2 ^ w) a); [done|lia|lia|].
  exists (2 ^ (w - k)). rewrite <- Z.pow_add_r by lia. f_equal; lia.
Qed.

(** Bit fields side by side add up. *)
Lemma land_shiftl_small a b k : 0 <= b < 2 ^ k -> Z.land (Z.shiftl a k) b = 0.
Proof.
  intros Hb. assert (0 <= k) by (destruct (decide (0 <= k)); [done|rewrite Z.pow_neg_r in Hb; lia]).
  apply Z.bits_inj'. intros n Hn. rewrite Z.land_spec, Z.bits_0, Z.shiftl_spec by done.
  destruct (decide (n < k)); [by rewrite Z.testbit_neg_r by lia|].
  rewrite <- (Z.mod_small b (2 ^ k)), Z.mod_pow2_bits_high by lia. apply andb_false_r.
Qed.

Lemma lor_shiftl a b k : 0 <= b < 2 ^ k -> Z.lor (Z.shiftl a k) b = a * 2 ^ k + b.
Proof.
  intros Hb. assert (0 <= k) by (destruct (decide (0 <= k)); [done|rewrite Z.pow_neg_r in Hb; lia]).
  rewrite <- Z.lxor_lor by (by apply land_shiftl_small).
  rewrite <- Z.add_nocarry_lxor by (by apply land_shiftl_small).
  by rewrite Z.shiftl_mul_pow2.
Qed.

(** ** Lists *)

Lemma lookup_seqZ_range (a n : Z) (i : nat) :
  Z.of_nat i < n -> seqZ a n !! i = Some (a + Z.of_nat i).
Proof. intros. apply lookup_seqZ_lt. lia. Qed.

Lemma lxor_range a b w :
  0 <= w -> 0 <= a < 2 ^ w -> 0 <= b < 2 ^ w -> 0 <= Z.lxor a b < 2 ^ w.
Proof.
  intros Hw Ha Hb. assert (0 <= Z.lxor a b) by (apply Z.lxor_nonneg; lia).
  split; [done|].
  rewrite <- (Z.mod_small a (2 ^ w)), <- (Z.mod_small b (2 ^ w)) by lia.
  assert (Z.lxor (a mod 2 ^ w) (b mod 2 ^ w) = (Z.lxor a b) mod 2 ^ w) as ->.
  { apply Z.bits_inj'. intros n Hn. rewrite Z.lxor_spec.
    destruct (decide (n < w)).
    - by rewrite !Z.mod_pow2_bits_low, Z.lxor_spec by lia.
    - by rewrite !Z.mod_pow2_bits_high by lia. }
  apply Z.mod_pos_bound. lia.
Qed.

(** ** Little-endian byte strings *)

Fixpoint le_bytes (n : nat) (v : Z) : list Z :=
  match n with O => [] | S n' => u8 v :: le_bytes n' (v / 2 ^ 8) end.

Fixpoint le_value (bs : list Z) : Z :=
  match bs with [] => 0 | b :: bs' => b + 2 ^ 8 * le_value bs' end.

Lemma le_bytes_length n v : length (le_bytes n v) = n.
Proof. revert v. induction n as [|n IH]; intros v; simpl; [done|]. by rewrite IH. Qed.

Lemma le_value_bytes n v : le_value (le_bytes n v) = v mod 2 ^ (8 * Z.of_nat n).
Proof.
  revert v. induction n as [|n IH]; intros v; [by rewrite Z.mod_1_r|].
  cbn [le_bytes le_value]. rewrite IH.
  replace (8 * Z.of_nat (S n)) with (8 + 8 * Z.of_nat n) by lia.
  rewrite Z.pow_add_r, Z.rem_mul_r by lia. unfold wrap. lia.
Qed.

Lemma le_bytes_inj n v w :
  0 <= v < 2 ^ (8 * Z.of_nat n) -> 0 <= w < 2 ^ (8 * Z.of_nat n) ->
  le_bytes n v = le_bytes n w -> v = w.
Proof.
  intros Hv Hw He%(f_equal le_value). rewrite !le_value_bytes in He.
  by rewrite !Z.mod_small in He.
Qed.

Lemma le_value_range bs :
  Forall (fun b => 0 <= b < 2 ^ 8) bs -> 0 <= le_value bs < 2 ^ (8 * Z.of_nat (length bs)).
Proof.
  induction 1 as [|b bs Hb _ IH]; [simpl; lia|]. cbn [le_value length].
  replace (8 * Z.of_nat (S (length bs))) with (8 + 8 * Z.of_nat (length bs)) by lia.
  rewrite Z.pow_add_r by lia. lia.
Qed.
