(* ===== verification/Mem.v ===== *)
(** * Byte memory

    A mapped region of memory is a finite map from addresses to bytes; an access
    outside the map is undefined behaviour and yields [None].  Multi-byte
    accesses are little-endian, as on the x86-64 target. *)
From S2P Require Import Prelude.

Abbreviation mem := (gmap Z Z).

Definition load8 (m : mem) (a : Z) : option Z := m !! a.

Definition store8 (m : mem) (a v : Z) : option mem :=
  match m !! a with Some _ => Some (<[a := u8 v]> m) | None => None end.

Fixpoint load (n : nat) (m : mem) (a : Z) : option Z :=
  match n with
  | O => Some 0
  | S n' => b ← load8 m a; r ← load n' m (a + 1); Some (b + 2 ^ 8 * r)
  end.

Fixpoint store (n : nat) (m : mem) (a v : Z) : option mem :=
  match n with
  | O => Some m
  | S n' => m' ← store8 m a v; store n' m' (a + 1) (v >>' 8)
  end.

Fixpoint load_bytes (n : nat) (m : mem) (a : Z) : option (list Z) :=
  match n with
  | O => Some []
  | S n' => b ← load8 m a; bs ← load_bytes n' m (a + 1); Some (b :: bs)
  end.

Fixpoint store_bytes (m : mem) (a : Z) (bs : list Z) : option mem :=
  match bs with
  | [] => Some m
  | b :: bs' => m' ← store8 m a b; store_bytes m' (a + 1) bs'
  end.

(** [memcpy] between disjoint objects. *)
Definition memcpy (m : mem) (dst src : Z) (n : nat) : option mem :=
  bs ← load_bytes n m src; store_bytes m dst bs.

(** [htons], [ntohs]: a byte swap. *)
Definition bswap16 (v : Z) : Z := ((v &' 255) <<' 8) |' ((v >>' 8) &' 255).
Abbreviation htons := bswap16.
Abbreviation ntohs := bswap16.

(** The value of [inet_addr("a.b.c.d")]: the four bytes in memory order. *)
Definition inet_addr (a b c d : Z) : Z := a + 2 ^ 8 * b + 2 ^ 16 * c + 2 ^ 24 * d.

(** A buffer of bytes laid out from [a] on. *)
Fixpoint mem_of (a : Z) (bs : list Z) : mem :=
  match bs with [] => ∅ | b :: bs' => <[a := b]> (mem_of (a + 1) bs') end.

Definition mapped (m : mem) (a n : Z) : Prop := forall x, a <= x < a + n -> is_Some (m !! x).
Definition bytes_ok (m : mem) : Prop := forall x b, m !! x = Some b -> 0 <= b < 2 ^ 8.

(** [same_except m m' a n]: [m'] has the same cells as [m] and agrees with it
    outside [a, a+n). *)
Definition same_except (m m' : mem) (a n : Z) : Prop :=
  (forall x, is_Some (m' !! x) <-> is_Some (m !! x)) /\
  (forall x, ~ (a <= x < a + n) -> m' !! x = m !! x).

Create HintDb mem.

Lemma mapped_sub m a n b k : mapped m a n -> a <= b -> b + k <= a + n -> mapped m b k.
Proof. intros H ?? x ?. apply H. lia. Qed.

Lemma same_except_refl m a n : same_except m m a n.
Proof. by split. Qed.

Lemma same_except_mapped m m' a n b k : same_except m m' a n -> mapped m b k -> mapped m' b k.
Proof. intros [H _] Hm x Hx. by apply H, Hm. Qed.

Lemma same_except_sub m m' a n b k :
  same_except m m' a n -> b <= a -> a + n <= b + k -> same_except m m' b k.
Proof. intros [H1 H2] ??. split; [done|]. intros x Hx. apply H2. lia. Qed.

Lemma same_except_trans m m1 m2 a n :
  same_except m m1 a n -> same_except m1 m2 a n -> same_except m m2 a n.
Proof.
  intros [H1 H2] [H3 H4]. split; [intros x; by rewrite H3, H1|].
  intros x Hx. by rewrite H4, H2.
Qed.

#[export] Hint Resolve same_except_refl same_except_mapped : mem.

Lemma store8_spec m a v :
  is_Some (m !! a) -> store8 m a v = Some (<[a := u8 v]> m) /\
  same_except m (<[a := u8 v]> m) a 1 /\ (bytes_ok m -> bytes_ok (<[a := u8 v]> m)).
Proof.
  intros [b Hb]. unfold store8. rewrite Hb. split; [done|]. split; [split|].
  - intros x. rewrite lookup_insert. case_decide; [subst|done]. rewrite Hb. by split; eauto.
  - intros x Hx. rewrite lookup_insert_ne by lia. done.
  - intros Hok x c. rewrite lookup_insert. case_decide; [|by eauto].
    intros [= <-]. apply wrap_range. lia.
Qed.

Lemma store8_inv m a v m' : store8 m a v = Some m' -> is_Some (m !! a) /\ m' = <[a := u8 v]> m.
Proof. unfold store8. destruct (m !! a) eqn:E; [|done]. intros [= <-]. by eauto. Qed.

(** ** Stores *)

Lemma store_Some n : forall m a v, mapped m a (Z.of_nat n) -> is_Some (store n m a v).
Proof.
  induction n as [|n IH]; intros m a v Hm; simpl; [by eauto|].
  destruct (store8_spec m a v) as (-> & Hs & _); [apply Hm; lia|]. simpl.
  apply IH. eapply same_except_mapped; [done|]. eapply mapped_sub; [done|lia..].
Qed.

Lemma store_frame n : forall m a v m',
  store n m a v = Some m' ->
  same_except m m' a (Z.of_nat n) /\ (bytes_ok m -> bytes_ok m') /\ mapped m' a (Z.of_nat n).
Proof.
  induction n as [|n IH]; intros m a v m' Hst; simpl in Hst.
  { injection Hst as <-. split; [apply same_except_refl|]. split; [done|]. intros x Hx. lia. }
  apply bind_Some in Hst as (m1 & Hm1 & Hst).
  apply store8_inv in Hm1 as [Ha ->].
  destruct (store8_spec m a v Ha) as (_ & Hs & Hok).
  destruct (IH _ _ _ _ Hst) as (Hs' & Hok' & Hmap). split; [|split; [by auto|]].
  - eapply same_except_trans; eapply same_except_sub; (done || lia).
  - intros x Hx. destruct (decide (x = a)) as [->|]; [|apply Hmap; lia].
    apply Hs'. rewrite lookup_insert_eq. by eauto.
Qed.

Lemma load_ext n : forall m m' a,
  (forall x, a <= x < a + Z.of_nat n -> m' !! x = m !! x) -> load n m' a = load n m a.
Proof.
  induction n as [|n IH]; intros m m' a He; [done|]. simpl. unfold load8.
  rewrite He by lia. destruct (m !! a); simpl; [|done]. rewrite (IH m m'); [done|].
  intros x Hx. apply He. lia.
Qed.

Lemma load_frame n m m' a b k :
  same_except m m' b k -> a + Z.of_nat n <= b \/ b + k <= a -> load n m' a = load n m a.
Proof. intros [_ Hs] Hd. apply load_ext. intros x Hx. apply Hs. lia. Qed.

Lemma shiftr8_div v : v >>' 8 = v / 2 ^ 8.
Proof. by rewrite Z.shiftr_div_pow2. Qed.

Lemma load_store_same n : forall m a v m',
  store n m a v = Some m' -> load n m' a = Some (v mod 2 ^ (8 * Z.of_nat n)).
Proof.
  induction n as [|n IH]; intros m a v m' Hst; simpl in Hst.
  { simpl. by rewrite Z.mod_1_r. }
  apply bind_Some in Hst as (m1 & Hm1 & Hst). apply store8_inv in Hm1 as [_ ->].
  destruct (store_frame _ _ _ _ _ Hst) as ((_ & Hs) & _).
  simpl. unfold load8. rewrite Hs, lookup_insert_eq by lia. simpl.
  rewrite (IH _ _ _ _ Hst). simpl. f_equal. rewrite shiftr8_div.
  replace (8 * Z.of_nat (S n)) with (8 + 8 * Z.of_nat n) by lia.
  rewrite Z.pow_add_r, Z.rem_mul_r by lia. unfold wrap. lia.
Qed.

Lemma load_range n : forall m a v,
  bytes_ok m -> load n m a = Some v -> 0 <= v < 2 ^ (8 * Z.of_nat n).
Proof.
  induction n as [|n IH]; intros m a v Hok Hl; simpl in Hl.
  { injection Hl as <-. simpl. lia. }
  apply bind_Some in Hl as (b & Hb & Hl). apply bind_Some in Hl as (r & Hr & Hl).
  injection Hl as <-. apply Hok in Hb. apply IH in Hr; [|done].
  replace (8 * Z.of_nat (S n)) with (8 + 8 * Z.of_nat n) by lia.
  rewrite Z.pow_add_r by lia. nia.
Qed.

Lemma load_Some n : forall m a, mapped m a (Z.of_nat n) -> is_Some (load n m a).
Proof.
  induction n as [|n IH]; intros m a Hm; simpl; [by eauto|].
  destruct (Hm a) as [b Hb]; [lia|]. unfold load8. rewrite Hb. simpl.
  destruct (IH m (a + 1)) as [r ->]; [eapply mapped_sub; [done|lia..]|]. simpl. by eauto.
Qed.

(** ** Byte strings *)

Lemma load_bytes_Some n : forall m a, mapped m a (Z.of_nat n) -> is_Some (load_bytes n m a).
Proof.
  induction n as [|n IH]; intros m a Hm; simpl; [by eauto|].
  destruct (Hm a) as [b Hb]; [lia|]. unfold load8. rewrite Hb. simpl.
  destruct (IH m (a + 1)) as [r ->]; [eapply mapped_sub; [done|lia..]|]. simpl. by eauto.
Qed.

Lemma load_bytes_lookup n : forall m a bs,
  load_bytes n m a = Some bs <->
  length bs = n /\ forall i, (i < n)%nat -> m !! (a + Z.of_nat i) = bs !! i.
Proof.
  induction n as [|n IH]; intros m a bs; simpl.
  { split; [intros [= <-]; split; [done|lia]|]. by intros [->%nil_length_inv _]. }
  unfold load8. split.
  - intros (b & Hb & (bs' & Hbs & [= <-])%bind_Some)%bind_Some.
    apply IH in Hbs as [<- Hl]. split; [done|]. intros [|i] Hi; simpl.
    + by rewrite Z.add_0_r.
    + rewrite <- Hl by lia. f_equal. lia.
  - intros [Hlen Hl]. destruct bs as [|b bs]; simplify_eq/=.
    pose proof (Hl 0%nat ltac:(lia)) as H0. rewrite Z.add_0_r in H0. rewrite H0. simpl.
    assert (load_bytes (length bs) m (a + 1) = Some bs) as ->; [|done].
    apply IH. split; [done|]. intros i Hi. specialize (Hl (S i) ltac:(lia)).
    simpl in Hl. rewrite <- Hl. f_equal. lia.
Qed.

Lemma store_bytes_Some bs : forall m a,
  mapped m a (Z.of_nat (length bs)) -> is_Some (store_bytes m a bs).
Proof.
  induction bs as [|b bs IH]; intros m a Hm; simpl in *; [by eauto|].
  destruct (store8_spec m a b) as (-> & Hs & _); [apply Hm; lia|]. simpl.
  apply IH. eapply same_except_mapped; [done|]. eapply mapped_sub; [done|lia..].
Qed.

Lemma store_bytes_spec bs : forall m a m',
  store_bytes m a bs = Some m' ->
  same_except m m' a (Z.of_nat (length bs)) /\ (bytes_ok m -> bytes_ok m') /\
  forall i, (i < length bs)%nat -> m' !! (a + Z.of_nat i) = u8 <$> bs !! i.
Proof.
  induction bs as [|b bs IH]; intros m a m' Hst; simpl in Hst.
  { injection Hst as <-. split; [apply same_except_refl|]. split; [done|]. simpl. lia. }
  apply bind_Some in Hst as (m1 & Hm1 & Hst). apply store8_inv in Hm1 as [Ha ->].
  destruct (store8_spec m a b Ha) as (_ & Hs & Hok).
  destruct (IH _ _ _ Hst) as (Hs' & Hok' & Hl). split; [|split; [by auto|]].
  - eapply same_except_trans; eapply same_except_sub; (done || (simpl; lia)).
  - intros [|i] Hi; simpl in *.
    + destruct Hs' as [_ Hs']. rewrite Z.add_0_r, Hs', lookup_insert_eq by lia. done.
    + rewrite <- Hl by lia. f_equal. lia.
Qed.

Lemma fmap_u8_id bs : Forall (fun b => 0 <= b < 2 ^ 8) bs -> u8 <$> bs = bs.
Proof. induction 1 as [|b bs Hb _ IH]; [done|]. csimpl. by rewrite IH, wrap_small. Qed.

Lemma load_bytes_range n m a bs :
  bytes_ok m -> load_bytes n m a = Some bs -> Forall (fun b => 0 <= b < 2 ^ 8) bs.
Proof.
  intros Hok [Hlen Hl]%load_bytes_lookup. apply Forall_lookup. intros i b Hi.
  apply (Hok (a + Z.of_nat i)). rewrite Hl, Hi; [done|].
  rewrite <- Hlen. by eapply lookup_lt_Some.
Qed.

Lemma load_store_bytes m a bs m' :
  store_bytes m a bs = Some m' -> Forall (fun b => 0 <= b < 2 ^ 8) bs ->
  load_bytes (length bs) m' a = Some bs.
Proof.
  intros (_ & _ & Hl)%store_bytes_spec Hb. apply load_bytes_lookup. split; [done|].
  intros i Hi. rewrite Hl by done. pose proof (list_lookup_fmap u8 bs i) as He.
  rewrite fmap_u8_id in He by done. by rewrite <- He.
Qed.

Lemma load_bytes_frame n m m' a b k :
  same_except m m' b k -> a + Z.of_nat n <= b \/ b + k <= a ->
  load_bytes n m' a = load_bytes n m a.
Proof.
  intros [_ Hs] Hd. apply option_eq. intros bs. rewrite !load_bytes_lookup.
  split; intros [? Hl]; (split; [done|]); intros i Hi; rewrite <- Hl by done.
  - symmetry. apply Hs. lia.
  - apply Hs. lia.
Qed.

Lemma mem_of_lookup bs : forall a x,
  mem_of a bs !! x = if decide (a <= x) then bs !! Z.to_nat (x - a) else None.
Proof.
  induction bs as [|b bs IH]; intros a x; simpl.
  { rewrite lookup_empty. by case_decide. }
  rewrite lookup_insert. case_decide as Hx; [subst|rewrite IH].
  - rewrite decide_True, Z.sub_diag by lia. done.
  - repeat case_decide; try lia; try done.
    by replace (Z.to_nat (x - a)) with (S (Z.to_nat (x - (a + 1)))) by lia.
Qed.

Lemma mem_of_mapped a bs : mapped (mem_of a bs) a (Z.of_nat (length bs)).
Proof. intros x Hx. rewrite mem_of_lookup, decide_True by lia. apply lookup_lt_is_Some. lia. Qed.

Lemma mem_of_bytes_ok a bs : Forall (fun b => 0 <= b < 2 ^ 8) bs -> bytes_ok (mem_of a bs).
Proof.
  intros Hf x b. rewrite mem_of_lookup. case_decide; [|done].
  intros Hl. eapply Forall_lookup in Hf; eauto.
Qed.

Lemma bswap16_range v : 0 <= bswap16 v < 2 ^ 16.
Proof.
  unfold bswap16. change 255 with (Z.ones 8). rewrite !Z.land_ones by lia.
  assert (0 <= v mod 2 ^ 8 < 2 ^ 8) by (apply Z.mod_pos_bound; lia).
  assert (0 <= (v >>' 8) mod 2 ^ 8 < 2 ^ 8) by (apply Z.mod_pos_bound; lia).
  rewrite lor_shiftl by done. lia.
Qed.

#[global] Arguments load : simpl never.
#[global] Arguments store : simpl never.
#[global] Arguments load_bytes : simpl never.
#[global] Arguments store_bytes : simpl never.
#[global] Arguments wrap : simpl never.
#[global] Arguments swrap : simpl never.
