(* ===== verification/Packet.v ===== *)
(** * Packet handlers without application state

    The handlers of [toasty.c] for NAT, IDS, decryption, L2 and L3 forwarding, on
    the byte memory of the UMEM; [data] is the address of the packet.  [None] is
    an access outside the mapped memory. *)
From S2P Require Import Prelude Mem.

(** Offsets of the [ether_header], [iphdr] and [udphdr] fields. *)
Definition sizeof_ether_header : Z := 14.
Definition sizeof_udphdr : Z := 8.
Definition ETH_ALEN : nat := 6.
Definition ETH_P_IP : Z := 0x0800.
Definition ip_of (data : Z) : Z := data + sizeof_ether_header.

Definition iphdr_ihl (m : mem) (ip : Z) : option Z := b ← load8 m ip; Some (b &' 15).
Definition iphdr_version (m : mem) (ip : Z) : option Z := b ← load8 m ip; Some (b >>' 4).
Definition ip_ttl (ip : Z) : Z := ip + 8.
Definition ip_protocol (ip : Z) : Z := ip + 9.
Definition ip_check (ip : Z) : Z := ip + 10.
Definition ip_saddr (ip : Z) : Z := ip + 12.
Definition ip_daddr (ip : Z) : Z := ip + 16.
Definition udp_source (udp : Z) : Z := udp.
Definition udp_len (udp : Z) : Z := udp + 4.

(** [udp = data + sizeof(struct ether_header) + ip->ihl * 4] *)
Definition udp_of (m : mem) (data : Z) : option Z :=
  ihl ← iphdr_ihl m (ip_of data);
  let ip_header_len := ihl * 4 in
  Some (data + sizeof_ether_header + ip_header_len).

(** ** NAT *)

Definition nat_ip : Z := inet_addr 203 0 113 5.
Definition nat_port : Z := 12345.

Definition process_packet_nat (m : mem) (data length addr : Z) : option mem :=
  udp ← udp_of m data;
  m1 ← store 4 m (ip_saddr (ip_of data)) nat_ip;
  store 2 m1 (udp_source udp) (htons nat_port).

(** ** IDS: [dummy_count] is a global.  The index is an [int], compared with a [size_t]. *)

Fixpoint ids_loop (fuel : nat) (m : mem) (pkt length i dummy_count : Z) : option Z :=
  match fuel with
  | O => None
  | S fuel' =>
      if u64 i <? length then
        b ← load8 m (pkt + i);
        ids_loop fuel' m pkt length (s32 (i + 64))
          (if b =? 97 then s32 (dummy_count + 1) else dummy_count)
      else Some dummy_count
  end.

Definition process_packet_ids (m : mem) (data length addr dummy_count : Z) : option Z :=
  ids_loop (S (Z.to_nat ((length + 63) / 64))) m data length 0 dummy_count.

(** ** Decryption *)

(** [for (int i = 0; i < payload_len; i++)]: [n] iterations are left. *)
Fixpoint decrypt_loop (n : nat) (m : mem) (payload i decryption_key : Z) : option mem :=
  match n with
  | O => Some m
  | S n' =>
      b ← load8 m (payload + i);
      m1 ← store8 m (payload + i) (u8 (b + decryption_key));
      decrypt_loop n' m1 payload (i + 1) decryption_key
  end.

(** [udp_length - sizeof(struct udphdr)] is computed as [size_t], then made [int]. *)
Definition payload_len_of (udp_length : Z) : Z := s32 (u64 (udp_length - sizeof_udphdr)).

Definition process_packet_decryption (decryption_key : Z) (m : mem)
    (data length addr : Z) : option mem :=
  udp ← udp_of m data;
  let payload := udp + sizeof_udphdr in
  raw_len ← load 2 m (udp_len udp);
  let udp_length := ntohs raw_len in
  let payload_len := payload_len_of udp_length in
  decrypt_loop (Z.to_nat payload_len) m payload 0 decryption_key.

(** ** L2 forwarding *)

(** The three structure assignments through [tmp]. *)
Definition swap_macs (m : mem) (data : Z) : option mem :=
  tmp ← load_bytes ETH_ALEN m (data + 6);
  dst ← load_bytes ETH_ALEN m data;
  m1 ← store_bytes m (data + 6) dst;
  store_bytes m1 data tmp.

Definition process_packet_l2fwd (m : mem) (data length addr : Z) : option mem :=
  swap_macs m data.

(** ** L3 forwarding *)

(** [while (length > 1)] of [ip_checksum]: (sum, ptr, length) afterwards. *)
Fixpoint csum_words (fuel : nat) (m : mem) (ptr length sum : Z) : option (Z * Z * Z) :=
  match fuel with
  | O => None
  | S fuel' =>
      if 1 <? length then
        w ← load 2 m ptr;
        csum_words fuel' m (ptr + 2) (length - 2) (u32 (sum + w))
      else Some (sum, ptr, length)
  end.

(** [while (sum >> 16)] *)
Fixpoint csum_reduce (fuel : nat) (sum : Z) : option Z :=
  match fuel with
  | O => None
  | S fuel' =>
      if sum >>' 16 =? 0 then Some sum
      else csum_reduce fuel' (u32 ((sum &' 0xFFFF) + (sum >>' 16)))
  end.

Definition ip_checksum (m : mem) (vdata length : Z) : option Z :=
  '(sum, ptr, length') ← csum_words (S (Z.to_nat (length / 2))) m vdata length 0;
  sum' ← (if 0 <? length' then b ← load8 m ptr; Some (u32 (sum + b)) else Some sum);
  sum'' ← csum_reduce 4 sum';
  Some (u16 (Z.lnot sum'')).

Definition process_packet_l3fwd_same_port (m : mem) (data length addr : Z) : option (mem * Z) :=
  h_proto ← load 2 m (data + 12);
  if negb (ntohs h_proto =? ETH_P_IP) then Some (m, 0) else
  let ip := ip_of data in
  version ← iphdr_version m ip;
  ihl ← iphdr_ihl m ip;
  if negb (version =? 4) || (ihl <? 5) then Some (m, 0) else
  ttl ← load8 m (ip_ttl ip);
  if ttl <=? 1 then Some (m, 0) else
  m1 ← store8 m (ip_ttl ip) (ttl - 1);
  m2 ← store 2 m1 (ip_check ip) 0;
  check ← ip_checksum m2 ip (ihl * 4);
  m3 ← store 2 m2 (ip_check ip) check;
  tmp_mac ← load_bytes ETH_ALEN m3 data;
  m4 ← memcpy m3 data (data + 6) ETH_ALEN;
  m5 ← store_bytes m4 (data + 6) tmp_mac;
  Some (m5, 1).

(** ** Headers *)

Lemma udp_of_Some m data b :
  m !! ip_of data = Some b -> udp_of m data = Some (data + 14 + (b &' 15) * 4).
Proof. intros Hb. unfold udp_of, iphdr_ihl, load8. by rewrite Hb. Qed.

Lemma udp_of_ext m m' data :
  m' !! ip_of data = m !! ip_of data -> udp_of m' data = udp_of m data.
Proof. intros He. unfold udp_of, iphdr_ihl, load8. by rewrite He. Qed.

Lemma nibble_range b : 0 <= b &' 15 < 16.
Proof. change 15 with (Z.ones 4). rewrite Z.land_ones by lia. apply Z.mod_pos_bound. lia. Qed.

(** A store of a value that fits reads back. *)
Lemma load_store_fit n m a v m' :
  store n m a v = Some m' -> 0 <= v < 2 ^ (8 * Z.of_nat n) -> load n m' a = Some v.
Proof. intros Hst Hv. rewrite (load_store_same _ _ _ _ _ Hst). by rewrite Z.mod_small. Qed.

(** NAT rewrites the source address and port and nothing else. *)
Lemma nat_spec m data length addr b :
  m !! ip_of data = Some b -> 5 <= b &' 15 ->
  mapped m data (14 + (b &' 15) * 4 + 8) ->
  let udp := data + 14 + (b &' 15) * 4 in
  exists m', process_packet_nat m data length addr = Some m' /\
    load 4 m' (ip_saddr (ip_of data)) = Some nat_ip /\
    load 2 m' (udp_source udp) = Some (htons nat_port) /\
    forall x, ~ (ip_saddr (ip_of data) <= x < ip_saddr (ip_of data) + 4) ->
              ~ (udp <= x < udp + 2) -> m' !! x = m !! x.
Proof.
  intros Hb Hihl Hm udp. pose proof (nibble_range b).
  unfold process_packet_nat. rewrite (udp_of_Some _ _ _ Hb). simpl.
  unfold ip_of, ip_saddr, sizeof_ether_header in *. fold udp.
  destruct (store_Some 4 m (data + 14 + 12) nat_ip) as [m1 H1].
  { eapply mapped_sub; [done|lia..]. }
  rewrite H1. simpl.
  destruct (store_frame 4 _ _ _ _ H1) as (Hs1 & _ & _).
  destruct (store_Some 2 m1 udp (htons nat_port)) as [m2 H2].
  { eapply same_except_mapped; [done|]. eapply mapped_sub; [done|lia..]. }
  destruct (store_frame 2 _ _ _ _ H2) as (Hs2 & _ & _).
  exists m2. split; [done|]. split; [|split].
  - rewrite (load_frame _ _ _ _ _ _ Hs2) by lia. by apply (load_store_fit 4 m).
  - by apply (load_store_fit 2 m1).
  - intros x Hx1 Hx2. destruct Hs1 as [_ Hs1], Hs2 as [_ Hs2]. rewrite Hs2, Hs1; (done || lia).
Qed.

(** ** IDS *)

(** Whether the byte [k] strides of 64 into the packet is an ['a']. *)
Definition sampled_a (m : mem) (pkt k : Z) : bool := bool_decide (m !! (pkt + 64 * k) = Some 97).

Definition count_sampled (m : mem) (pkt k n : Z) : Z :=
  Z.of_nat (List.length (List.filter (sampled_a m pkt) (seqZ k n))).

Lemma count_sampled_range m pkt k n : 0 <= n -> 0 <= count_sampled m pkt k n <= n.
Proof.
  intros. unfold count_sampled. pose proof (List.filter_length_le (sampled_a m pkt) (seqZ k n)).
  rewrite length_seqZ in *. lia.
Qed.

Lemma count_sampled_cons m pkt k n :
  0 < n -> count_sampled m pkt k n =
    (if sampled_a m pkt k then 1 else 0) + count_sampled m pkt (k + 1) (n - 1).
Proof.
  intros. unfold count_sampled. rewrite seqZ_cons by done. simpl.
  replace (Z.succ k) with (k + 1) by lia. replace (Z.pred n) with (n - 1) by lia.
  destruct (sampled_a m pkt k); simpl; lia.
Qed.

Lemma ids_loop_spec fuel : forall m pkt length k cnt n,
  0 <= k -> 0 <= n -> k + n = Z.max k ((length + 63) / 64) -> (Z.to_nat n < fuel)%nat ->
  mapped m pkt length -> length <= 2 ^ 31 - 64 -> 64 * k <= length + 63 ->
  - 2 ^ 31 <= cnt -> cnt + count_sampled m pkt k n < 2 ^ 31 ->
  ids_loop fuel m pkt length (64 * k) cnt = Some (cnt + count_sampled m pkt k n).
Proof.
  induction fuel as [|fuel IH]; intros m pkt length k cnt n Hk Hn Hkn Hf Hm Hl Hkl Hc1 Hc2; [lia|].
  simpl. rewrite (wrap_small 64 (64 * k)) by lia. destruct (Z.ltb_spec (64 * k) length) as [Hlt|Hge].
  - assert (k < (length + 63) / 64) by (apply Z.div_le_lower_bound with (b := 64) in Hlt || zlia; zlia).
    destruct (Hm (pkt + 64 * k)) as [b Hb]; [lia|]. unfold load8. rewrite Hb. simpl.
    rewrite count_sampled_cons in * by lia.
    pose proof (count_sampled_range m pkt (k + 1) (n - 1)).
    assert (sampled_a m pkt k = (b =? 97)) as Hsa.
    { unfold sampled_a. rewrite Hb. destruct (Z.eqb_spec b 97) as [->|]; [done|].
      apply bool_decide_eq_false. congruence. }
    rewrite Hsa in *. rewrite swrap_small by lia. replace (64 * k + 64) with (64 * (k + 1)) by lia.
    replace (if b =? 97 then s32 (cnt + 1) else cnt) with (cnt + if b =? 97 then 1 else 0)
      by (destruct (b =? 97); rewrite ?swrap_small; lia).
    rewrite IH with (n := n - 1); try done; [f_equal; lia|lia| |zlia|lia|..].
    all: destruct (b =? 97); lia.
  - assert (n = 0) as -> by (assert ((length + 63) / 64 <= k) by zlia; lia).
    unfold count_sampled. simpl. by rewrite Z.add_0_r.
Qed.

Lemma ids_spec m data length addr cnt :
  0 <= length <= 2 ^ 31 - 64 -> mapped m data length ->
  - 2 ^ 31 <= cnt -> cnt + (length + 63) / 64 < 2 ^ 31 ->
  process_packet_ids m data length addr cnt =
    Some (cnt + count_sampled m data 0 ((length + 63) / 64)).
Proof.
  intros Hl Hm H1 H2. unfold process_packet_ids.
  assert (0 <= (length + 63) / 64) by zlia.
  pose proof (count_sampled_range m data 0 ((length + 63) / 64)).
  apply (ids_loop_spec _ m data length 0); lia || done.
Qed.

(** ** Decryption *)

Lemma decrypt_loop_spec n : forall m payload i k,
  mapped m (payload + i) (Z.of_nat n) ->
  exists m', decrypt_loop n m payload i k = Some m' /\
    forall x, m' !! x =
      if decide (payload + i <= x < payload + i + Z.of_nat n)
      then (fun b => u8 (b + k)) <$> m !! x else m !! x.
Proof.
  induction n as [|n IH]; intros m payload i k Hm.
  { exists m. split; [done|]. intros x. by rewrite decide_False by lia. }
  cbn [decrypt_loop]. destruct (Hm (payload + i)) as [b Hb]; [lia|].
  unfold load8. rewrite Hb. cbn [mbind option_bind].
  destruct (store8_spec m (payload + i) (u8 (b + k))) as (-> & Hs & _); [by eauto|].
  cbn [mbind option_bind]. rewrite wrap_wrap by lia.
  edestruct (IH (<[payload + i:=u8 (b + k)]> m) payload (i + 1) k) as (m' & -> & Hm').
  { intros x Hx. rewrite lookup_insert_ne by lia. apply Hm. lia. }
  exists m'. split; [done|]. intros x. rewrite Hm'.
  destruct (decide (x = payload + i)) as [->|].
  - rewrite decide_False, decide_True, lookup_insert_eq, Hb by lia. done.
  - rewrite lookup_insert_ne by done. repeat case_decide; (done || lia).
Qed.

Lemma payload_len_small L : 0 <= L < 2 ^ 16 -> payload_len_of L = L - 8.
Proof.
  intros HL. unfold payload_len_of, sizeof_udphdr.
  destruct (decide (8 <= L)).
  - rewrite (wrap_small 64), swrap_small; lia.
  - replace (u64 (L - 8)) with (L - 8 + 2 ^ 64) by zlia.
    unfold swrap. replace ((L - 8 + 2 ^ 64) mod 2 ^ 32) with (L - 8 + 2 ^ 32) by zlia.
    destruct (Z.ltb_spec (L - 8 + 2 ^ 32) (2 ^ (32 - 1))); lia.
Qed.

(** The handler shifts [udp->len - 8] bytes after the UDP header by the key,
    whatever the length of the packet. *)
Lemma decryption_spec k m data length addr b raw :
  m !! ip_of data = Some b ->
  let udp := data + 14 + (b &' 15) * 4 in
  load 2 m (udp_len udp) = Some raw ->
  let n := ntohs raw - 8 in
  mapped m (udp + 8) n ->
  exists m', process_packet_decryption k m data length addr = Some m' /\
    forall x, m' !! x =
      if decide (udp + 8 <= x < udp + 8 + n)
      then (fun c => u8 (c + k)) <$> m !! x else m !! x.
Proof.
  intros Hb udp Hraw n Hm. unfold process_packet_decryption.
  rewrite (udp_of_Some _ _ _ Hb). cbn [mbind option_bind]. fold udp. rewrite Hraw.
  cbn [mbind option_bind]. pose proof (bswap16_range raw).
  rewrite payload_len_small by lia. fold n. unfold sizeof_udphdr.
  destruct (decrypt_loop_spec (Z.to_nat n) m (udp + 8) 0 k) as (m' & -> & Hm').
  { rewrite Z.add_0_r. destruct (decide (0 <= n)); [by rewrite Z2Nat.id|].
    intros x Hx. lia. }
  exists m'. split; [done|]. intros x. rewrite Hm', Z.add_0_r. repeat case_decide; (done || lia).
Qed.

(** ** L2 forwarding *)

Lemma swap_macs_spec m data dst src :
  bytes_ok m -> load_bytes ETH_ALEN m data = Some dst ->
  load_bytes ETH_ALEN m (data + 6) = Some src ->
  exists m', swap_macs m data = Some m' /\
    load_bytes ETH_ALEN m' data = Some src /\ load_bytes ETH_ALEN m' (data + 6) = Some dst /\
    same_except m m' data 12 /\ bytes_ok m'.
Proof.
  intros Hok Hd Hs. unfold swap_macs. rewrite Hs. cbn [mbind option_bind].
  rewrite Hd. cbn [mbind option_bind]. unfold ETH_ALEN in *.
  pose proof (load_bytes_range _ _ _ _ Hok Hd) as Hdr.
  pose proof (load_bytes_range _ _ _ _ Hok Hs) as Hsr.
  apply load_bytes_lookup in Hd as Hd', Hs as Hs'.
  destruct Hd' as [Hdl Hdm], Hs' as [Hsl Hsm].
  destruct (store_bytes_Some dst m (data + 6)) as [m1 H1].
  { rewrite Hdl. intros x Hx. replace x with (data + 6 + Z.of_nat (Z.to_nat (x - data - 6))) by lia.
    rewrite Hsm by lia. apply lookup_lt_is_Some. lia. }
  rewrite H1. cbn [mbind option_bind].
  destruct (store_bytes_spec _ _ _ _ H1) as (Hs1 & Hok1 & _). rewrite Hdl in Hs1.
  destruct (store_bytes_Some src m1 data) as [m2 H2].
  { rewrite Hsl. eapply same_except_mapped; [done|]. intros x Hx.
    replace x with (data + Z.of_nat (Z.to_nat (x - data))) by lia.
    rewrite Hdm by lia. apply lookup_lt_is_Some. lia. }
  destruct (store_bytes_spec _ _ _ _ H2) as (Hs2 & Hok2 & _). rewrite Hsl in Hs2.
  exists m2. split; [done|]. split; [|split; [|split; [|by auto]]].
  - rewrite <- Hsl. by eapply load_store_bytes.
  - rewrite (load_bytes_frame 6 _ _ _ _ _ Hs2) by lia.
    pose proof (load_store_bytes _ _ _ _ H1 Hdr) as Hl. by rewrite Hdl in Hl.
  - eapply same_except_trans; eapply same_except_sub; (done || lia).
Qed.

(** Equal cells inside and outside a range are equal memories. *)
Lemma mem_eq_range m m' a n bs :
  load_bytes n m a = Some bs -> load_bytes n m' a = Some bs ->
  (forall x, ~ (a <= x < a + Z.of_nat n) -> m' !! x = m !! x) -> m' = m.
Proof.
  intros [_ Hm]%load_bytes_lookup [_ Hm']%load_bytes_lookup Ho.
  apply map_eq. intros x. destruct (decide (a <= x < a + Z.of_nat n)); [|by apply Ho].
  replace x with (a + Z.of_nat (Z.to_nat (x - a))) by lia. by rewrite Hm, Hm' by lia.
Qed.

Lemma load_bytes_split n k m a bs cs :
  load_bytes n m a = Some bs -> load_bytes k m (a + Z.of_nat n) = Some cs ->
  load_bytes (n + k) m a = Some (bs ++ cs).
Proof.
  intros [Hn Hbs]%load_bytes_lookup [Hk Hcs]%load_bytes_lookup.
  apply load_bytes_lookup. split; [rewrite length_app; lia|].
  intros i Hi. destruct (decide (i < n)%nat).
  - rewrite lookup_app_l by lia. by apply Hbs.
  - rewrite lookup_app_r by lia. rewrite <- Hcs by lia. f_equal. lia.
Qed.

Lemma swap_macs_involutive m data m1 :
  bytes_ok m -> swap_macs m data = Some m1 -> swap_macs m1 data = Some m.
Proof.
  intros Hok Hsw. pose proof Hsw as Hsw0. unfold swap_macs in Hsw.
  apply bind_Some in Hsw as (src & Hs & Hsw). apply bind_Some in Hsw as (dst & Hd & _).
  destruct (swap_macs_spec m data dst src Hok Hd Hs) as (m1' & He & Hd1 & Hs1 & Hx1 & Hok1).
  assert (m1' = m1) as -> by congruence.
  destruct (swap_macs_spec m1 data src dst Hok1 Hd1 Hs1) as (m2 & -> & Hd2 & Hs2 & Hx2 & _).
  f_equal. apply (mem_eq_range _ _ data 12 (dst ++ src)).
  - by apply (load_bytes_split 6 6).
  - by apply (load_bytes_split 6 6).
  - intros x Hx. destruct Hx1 as [_ Hx1], Hx2 as [_ Hx2]. rewrite Hx2, Hx1; (done || lia).
Qed.

(** ** The Internet checksum *)

(** Plain sum of [k] 16-bit words. *)
Fixpoint word_sum (k : nat) (m : mem) (ptr : Z) : option Z :=
  match k with
  | O => Some 0
  | S k' => w ← load 2 m ptr; s ← word_sum k' m (ptr + 2); Some (w + s)
  end.

Lemma word_sum_ext k : forall m m' ptr,
  (forall x, ptr <= x < ptr + 2 * Z.of_nat k -> m' !! x = m !! x) ->
  word_sum k m' ptr = word_sum k m ptr.
Proof.
  induction k as [|k IH]; intros m m' ptr He; [done|]. cbn [word_sum].
  rewrite (load_ext 2 m m'), (IH m m'); [done| |]; intros; apply He; lia.
Qed.

Lemma word_sum_app j : forall k m ptr,
  word_sum (j + k) m ptr =
    s1 ← word_sum j m ptr; s2 ← word_sum k m (ptr + 2 * Z.of_nat j); Some (s1 + s2).
Proof.
  induction j as [|j IH]; intros k m ptr.
  - simpl. rewrite Z.add_0_r. by destruct (word_sum k m ptr).
  - cbn [Nat.add word_sum]. rewrite IH. destruct (load 2 m ptr) as [w|]; simpl; [|done].
    replace (ptr + 2 + 2 * Z.of_nat j) with (ptr + 2 * Z.of_nat (S j)) by lia.
    destruct (word_sum j m (ptr + 2)); simpl; [|done].
    destruct (word_sum k m _); simpl; [|done]. f_equal. lia.
Qed.

Lemma word_sum_Some k : forall m ptr,
  bytes_ok m -> mapped m ptr (2 * Z.of_nat k) ->
  exists s, word_sum k m ptr = Some s /\ 0 <= s <= Z.of_nat k * 65535.
Proof.
  induction k as [|k IH]; intros m ptr Hok Hm; [exists 0; split; [done|lia]|].
  cbn [word_sum].
  destruct (load_Some 2 m ptr) as [w Hw]; [eapply mapped_sub; [done|lia..]|].
  pose proof (load_range 2 _ _ _ Hok Hw). rewrite Hw. simpl.
  destruct (IH m (ptr + 2) Hok) as (s & -> & Hs); [eapply mapped_sub; [done|lia..]|].
  simpl. exists (w + s). split; [done|lia].
Qed.

Lemma csum_words_spec k : forall m ptr r sum s,
  0 <= r <= 1 -> bytes_ok m -> word_sum k m ptr = Some s -> 0 <= sum -> sum + s < 2 ^ 32 ->
  0 <= s /\ csum_words (S k) m ptr (2 * Z.of_nat k + r) sum = Some (sum + s, ptr + 2 * Z.of_nat k, r).
Proof.
  induction k as [|k IH]; intros m ptr r sum s Hr Hok Hs H1 H2.
  - injection Hs as <-. split; [done|]. cbn [csum_words].
    destruct (Z.ltb_spec 1 (2 * Z.of_nat 0 + r)); [lia|]. do 3 f_equal; lia.
  - cbn [word_sum] in Hs. apply bind_Some in Hs as (w & Hw & Hs).
    apply bind_Some in Hs as (s' & Hs' & Hs). injection Hs as <-.
    pose proof (load_range 2 _ _ _ Hok Hw).
    remember (S k) as k1. cbn [csum_words].
    destruct (Z.ltb_spec 1 (2 * Z.of_nat k1 + r)); [|lia]. rewrite Hw. cbn [mbind option_bind].
    subst k1. replace (2 * Z.of_nat (S k) + r - 2) with (2 * Z.of_nat k + r) by lia.
    assert (0 <= s') as Hs0 by (apply (IH m (ptr + 2) r 0 s'); (done || lia)).
    rewrite wrap_small by lia.
    destruct (IH m (ptr + 2) r (sum + w) s') as [_ ->]; [done..|lia|lia|].
    split; [lia|]. do 3 f_equal; lia.
Qed.

Lemma land_ffff x : x &' 0xFFFF = x mod 2 ^ 16.
Proof. change 0xFFFF with (2 ^ 16 - 1). by rewrite land_mask. Qed.

Lemma fold_mod s : (s mod 2 ^ 16 + s / 2 ^ 16) mod 65535 = s mod 65535.
Proof.
  rewrite (Z.div_mod s (2 ^ 16)) at 3 by lia.
  replace (2 ^ 16 * (s / 2 ^ 16) + s mod 2 ^ 16)
    with (s mod 2 ^ 16 + s / 2 ^ 16 + s / 2 ^ 16 * 65535) by lia.
  by rewrite Z.mod_add by lia.
Qed.

(** Folding keeps the residue modulo 65535 and only makes 0 from 0. *)
Lemma csum_reduce_spec s :
  0 <= s < 2 ^ 32 ->
  exists f, csum_reduce 4 s = Some f /\ 0 <= f < 2 ^ 16 /\ f mod 65535 = s mod 65535 /\
    (f = 0 -> s = 0).
Proof.
  assert (forall n s, csum_reduce (S n) s =
    if s / 2 ^ 16 =? 0 then Some s else csum_reduce n (u32 (s mod 2 ^ 16 + s / 2 ^ 16))) as Hstep.
  { intros n x. cbn [csum_reduce]. by rewrite land_ffff, Z.shiftr_div_pow2. }
  intros Hs. rewrite Hstep. destruct (Z.eqb_spec (s / 2 ^ 16) 0).
  { exists s. split; [done|]. zlia. }
  set (s1 := s mod 2 ^ 16 + s / 2 ^ 16).
  assert (0 < s1 <= 131070 /\ s1 mod 65535 = s mod 65535) as [H1 H1'] by (subst s1; rewrite fold_mod; split; [zlia|done]).
  rewrite wrap_small, Hstep by lia. clearbody s1. destruct (Z.eqb_spec (s1 / 2 ^ 16) 0).
  { exists s1. split; [done|]. zlia. }
  set (s2 := s1 mod 2 ^ 16 + s1 / 2 ^ 16).
  assert (0 < s2 < 2 ^ 16 /\ s2 mod 65535 = s1 mod 65535) as [H2 H2'] by (subst s2; rewrite fold_mod; split; [zlia|done]).
  rewrite wrap_small, Hstep by lia. clearbody s2.
  destruct (Z.eqb_spec (s2 / 2 ^ 16) 0); [|zlia].
  exists s2. split; [done|]. split; [lia|]. split; [congruence|lia].
Qed.

Lemma lnot_u16 f : 0 <= f < 2 ^ 16 -> u16 (Z.lnot f) = 65535 - f.
Proof. intros. unfold Z.lnot. zlia. Qed.

(** The checksum of an even number of bytes, by their plain sum. *)
Lemma ip_checksum_spec k m ptr s :
  bytes_ok m -> Z.of_nat k < 2 ^ 15 -> word_sum k m ptr = Some s -> 0 <= s < 2 ^ 32 ->
  exists f, ip_checksum m ptr (2 * Z.of_nat k) = Some (65535 - f) /\ 0 <= f < 2 ^ 16 /\
    f mod 65535 = s mod 65535 /\ (f = 0 -> s = 0).
Proof.
  intros Hok Hk Hs Hr. unfold ip_checksum.
  replace (Z.to_nat (2 * Z.of_nat k / 2)) with k by (rewrite Z.mul_comm, Z.div_mul; lia).
  destruct (csum_words_spec k m ptr 0 0 s) as [_ Hc]; [lia|done|done|lia|lia|].
  rewrite Z.add_0_r, Z.add_0_l in Hc. rewrite Hc. cbn [mbind option_bind].
  destruct (csum_reduce_spec s Hr) as (f & Hf & Hfr & Hm & Hz).
  change (0 <? 0) with false. cbn [mbind option_bind]. rewrite Hf. cbn [mbind option_bind].
  exists f. by rewrite lnot_u16.
Qed.

Lemma csum_words_ext fuel : forall m m' ptr length sum,
  (forall x, ptr <= x < ptr + length -> m' !! x = m !! x) ->
  csum_words fuel m' ptr length sum = csum_words fuel m ptr length sum.
Proof.
  induction fuel as [|fuel IH]; intros m m' ptr length sum He; [done|]. cbn [csum_words].
  destruct (Z.ltb_spec 1 length); [|done].
  rewrite (load_ext 2 m m') by (intros; apply He; lia).
  destruct (load 2 m ptr); cbn [mbind option_bind]; [|done].
  apply IH. intros x Hx. apply He. lia.
Qed.

(** The checksum of an even length depends on those bytes only. *)
Lemma ip_checksum_ext k m m' ptr :
  (forall x, ptr <= x < ptr + 2 * Z.of_nat k -> m' !! x = m !! x) -> bytes_ok m -> 
  mapped m ptr (2 * Z.of_nat k) -> Z.of_nat k < 2 ^ 15 ->
  ip_checksum m' ptr (2 * Z.of_nat k) = ip_checksum m ptr (2 * Z.of_nat k).
Proof.
  intros He Hok Hm Hk. unfold ip_checksum. rewrite (csum_words_ext _ m m') by done.
  replace (Z.to_nat (2 * Z.of_nat k / 2)) with k by (rewrite Z.mul_comm, Z.div_mul; lia).
  destruct (word_sum_Some k m ptr Hok Hm) as (s & Hs & Hsr).
  destruct (csum_words_spec k m ptr 0 0 s) as [_ Hc]; [lia|done|done|lia|lia|].
  rewrite Z.add_0_r in Hc. by rewrite Hc.
Qed.

(** A header whose checksum field holds the checksum computed over the header
    with that field zeroed has checksum 0: it verifies. *)
Lemma checksum_verifies k m m3 ip f :
  bytes_ok m -> mapped m ip (2 * Z.of_nat k) -> 6 <= Z.of_nat k < 2 ^ 15 ->
  load 2 m (ip_check ip) = Some 0 ->
  (exists w, load 2 m ip = Some w /\ 0 < w) ->
  ip_checksum m ip (2 * Z.of_nat k) = Some f ->
  store 2 m (ip_check ip) f = Some m3 ->
  ip_checksum m3 ip (2 * Z.of_nat k) = Some 0.
Proof.
  intros Hok Hm Hk Hz (w & Hw & Hw0) Hf Hst.
  destruct (store_frame _ _ _ _ _ Hst) as ([_ Hfr] & Hok3 & _). specialize (Hok3 Hok).
  destruct k as [|k0]; [lia|]. set (k := S k0) in *.
  assert (exists s0 s1, word_sum 5 m ip = Some s0 /\ word_sum (k - 6) m (ip + 12) = Some s1 /\
     0 < s0 <= 5 * 65535 /\ 0 <= s1 <= Z.of_nat (k - 6) * 65535)
    as (s0 & s1 & H0 & H1 & Hs0 & Hs1).
  { destruct (word_sum_Some 4 m (ip + 2)) as (a & Ha & Har); [done|eapply mapped_sub; [done|lia..]|].
    destruct (word_sum_Some (k - 6) m (ip + 12)) as (s1 & Hs1 & ?);
      [done|eapply mapped_sub; [done|lia..]|].
    exists (w + a), s1. split; [|split; [done|]].
    - change (word_sum 5 m ip) with (w ← load 2 m ip; s ← word_sum 4 m (ip + 2); Some (w + s)).
      rewrite Hw. cbn [mbind option_bind]. by rewrite Ha.
    - pose proof (load_range 2 _ _ _ Hok Hw). lia. }
  assert (forall mm c, word_sum 5 mm ip = Some s0 -> word_sum (k - 6) mm (ip + 12) = Some s1 ->
     load 2 mm (ip_check ip) = Some c -> word_sum k mm ip = Some (s0 + (c + s1))) as Hsum.
  { intros mm c E0 E1 Ec. replace k with (5 + S (k - 6))%nat by lia.
    rewrite word_sum_app, E0. cbn [mbind option_bind word_sum].
    change (2 * Z.of_nat 5) with 10. change (ip + 10) with (ip_check ip).
    rewrite Ec. cbn [mbind option_bind]. unfold ip_check.
    replace (ip + 10 + 2) with (ip + 12) by lia. by rewrite E1. }
  assert (0 <= s0 + s1 < 2 ^ 32 - 65536) as Hb by (clear - Hs0 Hs1 Hk; lia).
  pose proof (Hsum m 0 H0 H1 Hz) as Hs.
  destruct (ip_checksum_spec k m ip (s0 + (0 + s1)) Hok) as (f1 & Hf1 & Hr1 & Hm1 & Hz1);
    [lia|done|lia|].
  assert (f = 65535 - f1) as -> by congruence. clear Hf Hf1.
  assert (word_sum k m3 ip = Some (s0 + (65535 - f1 + s1))) as Hs3.
  { apply Hsum.
    - rewrite (word_sum_ext 5 m m3); [done|]. intros x Hx. apply Hfr. unfold ip_check. lia.
    - rewrite (word_sum_ext (k - 6) m m3); [done|]. intros x Hx. apply Hfr. unfold ip_check. lia.
    - apply (load_store_fit 2 _ _ _ _ Hst). lia. }
  destruct (ip_checksum_spec k m3 ip (s0 + (65535 - f1 + s1)) Hok3)
    as (f3 & Hf3 & Hr3 & Hm3 & Hz3); [lia|done|lia|].
  rewrite Hf3. f_equal.
  assert (f3 mod 65535 = 0) as E.
  { rewrite Hm3. replace (s0 + (65535 - f1 + s1)) with ((s0 + (0 + s1)) - f1 + 1 * 65535) by lia.
    rewrite Z.mod_add by lia. rewrite Zminus_mod, <- Hm1, Z.sub_diag. done. }
  assert (f3 <> 0) by (intros ->; lia).
  clear - E Hr3 H. zlia.
Qed.

(** ** L3 forwarding *)

Lemma load_byte_word m a b :
  m !! a = Some b -> bytes_ok m -> mapped m a 2 -> 0 < b ->
  exists w, load 2 m a = Some w /\ 0 < w.
Proof.
  intros Hb Hok Hm Hb0. destruct (Hm (a + 1)) as [c Hc]; [lia|].
  pose proof (Hok _ _ Hc). exists (b + 2 ^ 8 * (c + 2 ^ 8 * 0)).
  split; [|lia]. unfold load, load8. rewrite Hb. cbn [mbind option_bind].
  rewrite Hc. done.
Qed.

(** The header part of the forwarding path: TTL, zeroed and recomputed checksum. *)
Lemma l3_header m ip b t :
  bytes_ok m -> mapped m ip ((b &' 15) * 4) -> m !! ip = Some b ->
  5 <= b &' 15 -> m !! ip_ttl ip = Some t -> 1 < t ->
  exists m1 m2 c m3,
    store8 m (ip_ttl ip) (t - 1) = Some m1 /\ store 2 m1 (ip_check ip) 0 = Some m2 /\
    ip_checksum m2 ip ((b &' 15) * 4) = Some c /\ store 2 m2 (ip_check ip) c = Some m3 /\
    bytes_ok m3 /\ ip_checksum m3 ip ((b &' 15) * 4) = Some 0 /\
    m3 !! ip_ttl ip = Some (t - 1) /\
    (forall x, is_Some (m3 !! x) <-> is_Some (m !! x)) /\
    (forall x, x <> ip_ttl ip -> ~ (ip_check ip <= x < ip_check ip + 2) -> m3 !! x = m !! x).
Proof.
  intros Hok Hm Hb Hihl Ht Ht1. pose proof (nibble_range b). pose proof (Hok _ _ Ht) as Htr.
  destruct (store8_spec m (ip_ttl ip) (t - 1)) as (H1 & Hs1 & Hok1); [by eauto|].
  set (m1 := <[ip_ttl ip:=u8 (t - 1)]> m) in *. specialize (Hok1 Hok).
  assert (forall k a n, mapped k ip ((b &' 15) * 4) -> ip <= a -> a + n <= ip + 20 -> mapped k a n)
    as Hsub by (intros; eapply mapped_sub; [done|lia..]).
  unfold ip_ttl, ip_check in *.
  destruct (store_Some 2 m1 (ip + 10) 0) as [m2 H2].
  { apply Hsub; [|lia..]. by eapply same_except_mapped. }
  destruct (store_frame _ _ _ _ _ H2) as (Hs2 & Hok2 & _). specialize (Hok2 Hok1).
  assert (mapped m2 ip ((b &' 15) * 4)) as Hm2 by (by do 2 (eapply same_except_mapped; [done|])).
  assert ((b &' 15) * 4 = 2 * Z.of_nat (Z.to_nat ((b &' 15) * 2))) as Hk by lia.
  rewrite Hk in Hm2 |- *. set (k := Z.to_nat ((b &' 15) * 2)) in *.
  destruct (word_sum_Some k m2 ip Hok2 Hm2) as (s & Hsum & Hsr).
  destruct (ip_checksum_spec k m2 ip s Hok2) as (f & Hf & _); [lia|done|lia|].
  destruct (store_Some 2 m2 (ip + 10) (65535 - f)) as [m3 H3].
  { eapply mapped_sub; [done|lia..]. }
  destruct (store_frame _ _ _ _ _ H3) as (Hs3 & Hok3 & _).
  exists m1, m2, (65535 - f), m3. do 4 (split; [done|]). split; [by auto|].
  assert (m2 !! ip = Some b) as Hb2.
  { destruct Hs2 as [_ Hs2], Hs1 as [_ Hs1]. rewrite Hs2, Hs1; (done || lia). }
  split; [|split; [|split]].
  - eapply (checksum_verifies k m2 m3); eauto; [lia|by apply (load_store_fit 2 m1)|].
    eapply load_byte_word; eauto; [eapply mapped_sub; [done|lia..]|].
    destruct (decide (b = 0)) as [->|]; [change (0 &' 15) with 0 in Hihl; lia|]. pose proof (Hok _ _ Hb). lia.
  - destruct Hs3 as [_ Hs3], Hs2 as [_ Hs2]. rewrite Hs3, Hs2 by lia. subst m1.
    rewrite lookup_insert_eq, wrap_small by lia. done.
  - intros x. destruct Hs1 as [D1 _], Hs2 as [D2 _], Hs3 as [D3 _]. by rewrite D3, D2, D1.
  - intros x Hx1 Hx2. destruct Hs1 as [_ E1], Hs2 as [_ E2], Hs3 as [_ E3].
    rewrite E3, E2, E1; (done || lia).
Qed.

(** The forwarding path of the handler. *)
Lemma l3fwd_forwards m data length addr raw b t dst src :
  bytes_ok m -> load 2 m (data + 12) = Some raw -> ntohs raw = ETH_P_IP ->
  m !! ip_of data = Some b -> b >>' 4 = 4 -> 5 <= b &' 15 ->
  m !! ip_ttl (ip_of data) = Some t -> 1 < t ->
  mapped m (ip_of data) ((b &' 15) * 4) ->
  load_bytes ETH_ALEN m data = Some dst -> load_bytes ETH_ALEN m (data + 6) = Some src ->
  exists m', process_packet_l3fwd_same_port m data length addr = Some (m', 1) /\
    ip_checksum m' (ip_of data) ((b &' 15) * 4) = Some 0 /\
    m' !! ip_ttl (ip_of data) = Some (t - 1) /\
    load_bytes ETH_ALEN m' data = Some src /\ load_bytes ETH_ALEN m' (data + 6) = Some dst /\
    forall x, ~ (data <= x < data + 12) -> x <> ip_ttl (ip_of data) ->
      ~ (ip_check (ip_of data) <= x < ip_check (ip_of data) + 2) -> m' !! x = m !! x.
Proof.
  intros Hok Hraw Hproto Hb Hver Hihl Ht Ht1 Hm Hdst Hsrc.
  destruct (l3_header m (ip_of data) b t)
    as (m1 & m2 & c & m3 & H1 & H2 & Hc & H3 & Hok3 & Hsum & Httl & Hdom & Hsame); [done..|].
  unfold process_packet_l3fwd_same_port, iphdr_version, iphdr_ihl, load8.
  rewrite Hraw. cbn [mbind option_bind]. rewrite Hproto, Z.eqb_refl, Hb. cbn [negb mbind option_bind].
  rewrite Hver. destruct (Z.ltb_spec (b &' 15) 5); [lia|]. cbn [orb negb Z.eqb Pos.eqb].
  rewrite Ht. cbn [mbind option_bind]. destruct (Z.leb_spec t 1); [lia|].
  rewrite H1. cbn [mbind option_bind]. rewrite H2. cbn [mbind option_bind].
  rewrite Hc. cbn [mbind option_bind]. rewrite H3. cbn [mbind option_bind].
  unfold ip_ttl, ip_check, ip_of, sizeof_ether_header in *.
  assert (load_bytes ETH_ALEN m3 data = Some dst) as Hdst3.
  { rewrite <- Hdst. apply option_eq. intros bs. rewrite !load_bytes_lookup.
    unfold ETH_ALEN. split; intros [? Hl]; (split; [done|]); intros i Hi; rewrite <- Hl by done;
      [symmetry|]; apply Hsame; lia. }
  assert (load_bytes ETH_ALEN m3 (data + 6) = Some src) as Hsrc3.
  { rewrite <- Hsrc. apply option_eq. intros bs. rewrite !load_bytes_lookup.
    unfold ETH_ALEN. split; intros [? Hl]; (split; [done|]); intros i Hi; rewrite <- Hl by done;
      [symmetry|]; apply Hsame; lia. }
  rewrite Hdst3. cbn [mbind option_bind]. unfold memcpy. rewrite Hsrc3. cbn [mbind option_bind].
  pose proof (load_bytes_range _ _ _ _ Hok3 Hdst3) as Hdr.
  pose proof (load_bytes_range _ _ _ _ Hok3 Hsrc3) as Hsr.
  apply load_bytes_lookup in Hdst3 as [Hdl Hdm], Hsrc3 as [Hsl Hsm]. unfold ETH_ALEN in *.
  destruct (store_bytes_Some src m3 data) as [m4 H4].
  { rewrite Hsl. intros x Hx. replace x with (data + Z.of_nat (Z.to_nat (x - data))) by lia.
    rewrite Hdm by lia. apply lookup_lt_is_Some. lia. }
  rewrite H4. cbn [mbind option_bind].
  destruct (store_bytes_spec _ _ _ _ H4) as (Hs4 & _ & _). rewrite Hsl in Hs4.
  destruct (store_bytes_Some dst m4 (data + 6)) as [m5 H5].
  { rewrite Hdl. eapply same_except_mapped; [done|]. intros x Hx.
    replace x with (data + 6 + Z.of_nat (Z.to_nat (x - data - 6))) by lia.
    rewrite Hsm by lia. apply lookup_lt_is_Some. lia. }
  rewrite H5. cbn [mbind option_bind].
  destruct (store_bytes_spec _ _ _ _ H5) as (Hs5 & _ & _). rewrite Hdl in Hs5.
  assert (forall x, ~ (data <= x < data + 12) -> m5 !! x = m3 !! x) as Hm5.
  { intros x Hx. destruct Hs4 as [_ E4], Hs5 as [_ E5]. rewrite E5, E4; (done || lia). }
  exists m5. split; [done|]. split; [|split; [|split; [|split]]].
  - rewrite <- Hsum. pose proof (nibble_range b).
    replace ((b &' 15) * 4) with (2 * Z.of_nat (Z.to_nat ((b &' 15) * 2))) by lia.
    apply ip_checksum_ext; [|done| |lia].
    + intros x Hx. apply Hm5. lia.
    + intros x Hx. apply Hdom, Hm. lia.
  - rewrite Hm5 by lia. done.
  - rewrite (load_bytes_frame 6 _ _ _ _ _ Hs5) by lia.
    pose proof (load_store_bytes _ _ _ _ H4 Hsr) as Hl. by rewrite Hsl in Hl.
  - pose proof (load_store_bytes _ _ _ _ H5 Hdr) as Hl. by rewrite Hdl in Hl.
  - intros x Hx1 Hx2 Hx3. rewrite Hm5, Hsame; done.
Qed.

(** A packet is forwarded if it is IPv4 with a header of at least 20 bytes and time to live. *)
Definition l3_accepts (raw b t : Z) : bool :=
  (ntohs raw =? ETH_P_IP) && (b >>' 4 =? 4) && (5 <=? b &' 15) && (1 <? t).

(** C20: The L3 handler forwards exactly the IPv4 packets that have time to live left: their
    TTL falls by one, their header checksum verifies, the MAC addresses are exchanged and no
    other byte changes; every other packet is left as it is. *)
Theorem l3fwd_handles m data length addr raw b t dst src :
  bytes_ok m -> load 2 m (data + 12) = Some raw -> m !! ip_of data = Some b ->
  m !! ip_ttl (ip_of data) = Some t -> mapped m (ip_of data) ((b &' 15) * 4) ->
  load_bytes ETH_ALEN m data = Some dst -> load_bytes ETH_ALEN m (data + 6) = Some src ->
  if l3_accepts raw b t then
    exists m', process_packet_l3fwd_same_port m data length addr = Some (m', 1) /\
      ip_checksum m' (ip_of data) ((b &' 15) * 4) = Some 0 /\
      m' !! ip_ttl (ip_of data) = Some (t - 1) /\
      load_bytes ETH_ALEN m' data = Some src /\ load_bytes ETH_ALEN m' (data + 6) = Some dst /\
      forall x, ~ (data <= x < data + 12) -> x <> ip_ttl (ip_of data) ->
        ~ (ip_check (ip_of data) <= x < ip_check (ip_of data) + 2) -> m' !! x = m !! x
  else process_packet_l3fwd_same_port m data length addr = Some (m, 0).
Proof.
  intros Hok Hraw Hb Ht Hm Hdst Hsrc. unfold l3_accepts.
  destruct (Z.eqb_spec (ntohs raw) ETH_P_IP) as [Hp|Hp], (Z.eqb_spec (b >>' 4) 4) as [Hv|Hv],
    (Z.leb_spec 5 (b &' 15)) as [Hi|Hi], (Z.ltb_spec 1 t) as [Htl|Htl]; cbn [andb];
    try (by eapply l3fwd_forwards); unfold process_packet_l3fwd_same_port, iphdr_version, iphdr_ihl, load8;
    rewrite Hraw; cbn [mbind option_bind]; rewrite ?(proj2 (Z.eqb_neq _ _) Hp) by done; try done;
    rewrite Hp, Z.eqb_refl, Hb; cbn [negb mbind option_bind];
    rewrite ?(proj2 (Z.eqb_neq _ _) Hv), ?Hv; cbn [negb orb Z.eqb Pos.eqb]; try done;
    rewrite ?(proj2 (Z.ltb_lt _ _) Hi), ?(proj2 (Z.ltb_ge _ _) Hi); cbn [negb orb]; try done;
    rewrite Ht; cbn [mbind option_bind]; by rewrite (proj2 (Z.leb_le _ _) Htl).
Qed.

(** A header with TTL 64 and without payload. *)
Definition l3_packet_bytes : list Z :=
  [2; 0; 0; 0; 0; 1; 2; 0; 0; 0; 0; 2; 8; 0;
   0x45; 0; 0; 20; 0; 1; 0; 0; 64; 17; 0x66; 0xea; 10; 0; 0; 1; 10; 0; 0; 2].

Theorem l3fwd_handles_witness :
  let m := mem_of 4096 l3_packet_bytes in
  exists m', process_packet_l3fwd_same_port m 4096 34 4096 = Some (m', 1) /\
    ip_checksum m' 4110 20 = Some 0 /\ m' !! 4118 = Some 63 /\
    load_bytes ETH_ALEN m' 4096 = Some [2; 0; 0; 0; 0; 2] /\
    load_bytes ETH_ALEN m' 4102 = Some [2; 0; 0; 0; 0; 1].
Proof.
  pose proof (l3fwd_handles (mem_of 4096 l3_packet_bytes) 4096 34 4096 8 0x45 64
    [2; 0; 0; 0; 0; 1] [2; 0; 0; 0; 0; 2]) as H.
  destruct H as (m' & H1 & H2 & H3 & H4 & H5 & _).
  - apply mem_of_bytes_ok. apply (bool_decide_unpack (Forall (fun b => 0 <= b < 2 ^ 8) l3_packet_bytes)).
    vm_compute. exact I.
  - reflexivity.
  - reflexivity.
  - reflexivity.
  - eapply mapped_sub; [apply mem_of_mapped| |]; vm_compute; discriminate.
  - reflexivity.
  - reflexivity.
  - exists m'. split; [exact H1|]. split; [exact H2|]. split; [exact H3|]. split; [exact H4|exact H5].
Defined.
