(* ===== verification/XskRing.v ===== *)
(** * AF_XDP descriptor rings

    The single-producer single-consumer rings shared with the kernel, as
    [lib/xdp-tools/headers/xdp/xsk.h] manipulates them from user space: the fill
    and TX rings (user space produces) and the completion and RX rings (user
    space consumes), with the locally modified [xsk_ring_prod__reserve] and
    [custom_xsk_ring_prod__fill_addr] of this repository.

    The words behind the C pointers [producer], [consumer] and [flags] are
    fields of the record: the kernel changes them too, by the [kernel_*] steps
    at the end of the file.  The proofs use unbounded ghost counters; the
    32-bit words are their residues. *)
From S2P Require Import Prelude.

(** ** State *)

(** [DEFINE_XSK_RING] expands to the same structure for producers and
    consumers; the element type is [__u64] or [struct xdp_desc]. *)
Record xsk_ring (A : Type) := XskRing {
  cached_prod : Z;
  cached_cons : Z;
  mask : Z;
  ring_size : Z;
  producer : Z;
  consumer : Z;
  ring : list A;
  flags : Z;
}.
Arguments XskRing {A}.
Arguments cached_prod {A}. Arguments cached_cons {A}. Arguments mask {A}.
Arguments ring_size {A}. Arguments producer {A}. Arguments consumer {A}.
Arguments ring {A}. Arguments flags {A}.

(** [struct xdp_desc] of [linux/if_xdp.h]. *)
Record xdp_desc := XdpDesc { desc_addr : Z; desc_len : Z; desc_options : Z }.

#[export] Instance xdp_desc_inhabited : Inhabited xdp_desc := populate (XdpDesc 0 0 0).
#[export] Instance xdp_desc_eq_dec : EqDecision xdp_desc.
Proof. solve_decision. Defined.

Definition XDP_RING_NEED_WAKEUP : Z := 1.
Definition XSK_UNALIGNED_BUF_OFFSET_SHIFT : Z := 48.
Definition XSK_UNALIGNED_BUF_ADDR_MASK : Z := Z.shiftl 1 XSK_UNALIGNED_BUF_OFFSET_SHIFT - 1.

Section ring_ops.
Context {A : Type} `{Inhabited A}.
Implicit Types r : xsk_ring A.

Definition set_cached_prod r v :=
  XskRing v r.(cached_cons) r.(mask) r.(ring_size) r.(producer) r.(consumer) r.(ring) r.(flags).
Definition set_cached_cons r v :=
  XskRing r.(cached_prod) v r.(mask) r.(ring_size) r.(producer) r.(consumer) r.(ring) r.(flags).
Definition set_producer r v :=
  XskRing r.(cached_prod) r.(cached_cons) r.(mask) r.(ring_size) v r.(consumer) r.(ring) r.(flags).
Definition set_consumer r v :=
  XskRing r.(cached_prod) r.(cached_cons) r.(mask) r.(ring_size) r.(producer) v r.(ring) r.(flags).
Definition set_ring r (v : list A) : xsk_ring A :=
  XskRing r.(cached_prod) r.(cached_cons) r.(mask) r.(ring_size) r.(producer) r.(consumer) v r.(flags).

(** Accesses through a pointer into the descriptor array; a pointer is the index
    it denotes.  [slot_in_range] shows that the masked indices are in range. *)
Definition ring_read r (p : Z) : A := r.(ring) !!! Z.to_nat p.
Definition ring_write r (p : Z) (v : A) := set_ring r (<[Z.to_nat p := v]> r.(ring)).

(** ** Operations *)

Definition xsk_ring_prod__fill_addr r (idx : Z) : Z := idx &' r.(mask).
Definition xsk_ring_cons__comp_addr r (idx : Z) : Z := idx &' r.(mask).
Definition xsk_ring_prod__tx_desc r (idx : Z) : Z := idx &' r.(mask).
Definition xsk_ring_cons__rx_desc r (idx : Z) : Z := idx &' r.(mask).

(** The exchange stores [addr] in the [i]-th slot the kernel will consume and
    moves what was there to the newly reserved slot [idx]. *)
Definition custom_xsk_ring_prod__fill_addr r (idx : Z) (addr : A) (i : Z) : xsk_ring A :=
  let p := u32 (r.(consumer) + i) &' r.(mask) in
  let oldval := ring_read r p in
  let r1 := ring_write r p addr in
  ring_write r1 (xsk_ring_prod__fill_addr r1 idx) oldval.

Definition xsk_ring_prod__needs_wakeup r : Z := r.(flags) &' XDP_RING_NEED_WAKEUP.

Definition xsk_prod_nb_free r (nb : Z) : xsk_ring A * Z :=
  let free_entries := u32 (r.(cached_cons) - r.(cached_prod)) in
  if nb <=? free_entries then (r, free_entries)
  else
    let r1 := set_cached_cons r r.(consumer) in
    let r2 := set_cached_cons r1 (u32 (r1.(cached_cons) + r1.(ring_size))) in
    (r2, u32 (r2.(cached_cons) - r2.(cached_prod))).

Definition xsk_cons_nb_avail r (nb : Z) : xsk_ring A * Z :=
  let entries := u32 (r.(cached_prod) - r.(cached_cons)) in
  let '(r1, entries1) :=
    if entries =? 0 then
      let r1 := set_cached_prod r r.(producer) in
      (r1, u32 (r1.(cached_prod) - r1.(cached_cons)))
    else (r, entries) in
  (r1, if nb <? entries1 then nb else entries1).

(** The result is (ring, return value, [*idx] afterwards). *)
Definition xsk_ring_prod__reserve r (nb idx : Z) : xsk_ring A * Z * Z :=
  let '(r1, reserve) := xsk_prod_nb_free r nb in
  if (0 <? reserve) && (reserve <? nb) then
    (set_cached_prod r1 (u32 (r1.(cached_prod) + reserve)), reserve, r1.(cached_prod))
  else if nb <=? reserve then
    (set_cached_prod r1 (u32 (r1.(cached_prod) + nb)), nb, r1.(cached_prod))
  else (r1, 0, idx).

Definition xsk_ring_prod__submit r (nb : Z) : xsk_ring A :=
  set_producer r (u32 (r.(producer) + nb)).

Definition xsk_ring_cons__peek r (nb idx : Z) : xsk_ring A * Z * Z :=
  let '(r1, entries) := xsk_cons_nb_avail r nb in
  if 0 <? entries then
    (set_cached_cons r1 (u32 (r1.(cached_cons) + entries)), entries, r1.(cached_cons))
  else (r1, entries, idx).

Definition xsk_ring_cons__cancel r (nb : Z) : xsk_ring A :=
  set_cached_cons r (u32 (r.(cached_cons) - nb)).

Definition xsk_ring_cons__release r (nb : Z) : xsk_ring A :=
  set_consumer r (u32 (r.(consumer) + nb)).

(** What the other side of a ring still has to consume, oldest entry first. *)
Definition pending r : list A :=
  (fun i => ring_read r (u32 (r.(consumer) + i) &' r.(mask)))
    <$> seqZ 0 (u32 (r.(producer) - r.(consumer))).

(** ** Kernel side

    The kernel is not part of the repository; these two steps are the ring
    protocol it documents: it takes entries it has been given, and it adds
    entries only where there is room. *)
Definition kernel_consume r (n : Z) : xsk_ring A :=
  set_consumer r (u32 (r.(consumer) + n)).

Fixpoint kernel_produce r (ds : list A) : xsk_ring A :=
  match ds with
  | [] => r
  | d :: ds' =>
      let r1 := ring_write r (r.(producer) &' r.(mask)) d in
      kernel_produce (set_producer r1 (u32 (r1.(producer) + 1))) ds'
  end.

End ring_ops.

(** [xsk_umem__extract_addr] and its companions split an unaligned-mode
    address into the 48-bit base and the 16-bit offset. *)
Definition xsk_umem__get_data (umem_area addr : Z) : Z := umem_area + addr.
Definition xsk_umem__extract_addr (addr : Z) : Z := addr &' XSK_UNALIGNED_BUF_ADDR_MASK.
Definition xsk_umem__extract_offset (addr : Z) : Z := addr >>' XSK_UNALIGNED_BUF_OFFSET_SHIFT.
Definition xsk_umem__add_offset_to_addr (addr : Z) : Z :=
  u64 (xsk_umem__extract_addr addr + xsk_umem__extract_offset addr).

(** Fresh rings, as [xsk_create_umem_rings] and [xsk_socket__create_shared]
    leave them (the mapped memory is zeroed, [*consumer] is 0). *)
Definition create_fill_ring (fill_size : Z) : xsk_ring Z :=
  XskRing 0 fill_size (fill_size - 1) fill_size 0 0 (replicate (Z.to_nat fill_size) 0) 0.
Definition create_comp_ring (comp_size : Z) : xsk_ring Z :=
  XskRing 0 0 (comp_size - 1) comp_size 0 0 (replicate (Z.to_nat comp_size) 0) 0.
Definition create_rx_ring (rx_size : Z) : xsk_ring xdp_desc :=
  XskRing 0 0 (rx_size - 1) rx_size 0 0 (replicate (Z.to_nat rx_size) inhabitant) 0.
Definition create_tx_ring (tx_size : Z) : xsk_ring xdp_desc :=
  XskRing 0 (u32 (0 + tx_size)) (tx_size - 1) tx_size 0 0
    (replicate (Z.to_nat tx_size) inhabitant) 0.

(** ** Well-formedness and the ghost view

    [at_ r x] is the slot that the unbounded counter [x] names, and [window r a n]
    the [n] slots from [a] on. *)
Section ring_lemmas.
Context {A : Type} `{Inhabited A}.
Implicit Types r : xsk_ring A.

Record ring_wf r : Prop := {
  wf_pow2 : exists k, 0 <= k <= 31 /\ r.(ring_size) = 2 ^ k;
  wf_mask : r.(mask) = r.(ring_size) - 1;
  wf_len : Z.of_nat (length r.(ring)) = r.(ring_size);
}.

Definition at_ r (x : Z) : A := r.(ring) !!! Z.to_nat (x mod r.(ring_size)).
Definition window r (a n : Z) : list A := at_ r <$> seqZ a n.

(** Same descriptors, whatever the counters. *)
Definition same_slots r r' : Prop :=
  r'.(ring) = r.(ring) /\ r'.(ring_size) = r.(ring_size) /\ r'.(mask) = r.(mask).

Lemma wf_size_bounds r : ring_wf r -> 1 <= r.(ring_size) <= 2 ^ 31.
Proof.
  intros [(k & Hk & ->) _ _]. split.
  - pose proof (Z.pow_pos_nonneg 2 k). lia.
  - apply Z.pow_le_mono_r; lia.
Qed.

Lemma same_slots_wf r r' : same_slots r r' -> ring_wf r -> ring_wf r'.
Proof. intros (Hr & Hs & Hm) [? ? ?]. split; rewrite ?Hr, ?Hs, ?Hm; done. Qed.

Lemma same_slots_window r r' a n : same_slots r r' -> window r' a n = window r a n.
Proof.
  intros (Hr & Hs & _). unfold window. apply list_fmap_ext. intros ? x _.
  unfold at_. by rewrite Hr, Hs.
Qed.

Lemma slot_mask r x : ring_wf r -> u32 x &' r.(mask) = x mod r.(ring_size).
Proof.
  intros [(k & Hk & Hs) Hm _]. rewrite Hm, Hs, land_mask by lia.
  apply wrap_mod_pow2. lia.
Qed.

Lemma slot_in_range r x :
  ring_wf r -> (Z.to_nat (x mod r.(ring_size)) < length r.(ring))%nat.
Proof.
  intros Hwf. pose proof (wf_size_bounds r Hwf). destruct Hwf as [_ _ Hl].
  pose proof (Z.mod_pos_bound x r.(ring_size)). lia.
Qed.

Lemma ring_read_at r x : ring_wf r -> ring_read r (u32 x &' r.(mask)) = at_ r x.
Proof. intros. unfold ring_read, at_. by rewrite slot_mask. Qed.

Lemma ring_write_wf r p v : ring_wf r -> ring_wf (ring_write r p v).
Proof. intros [? ? ?]. split; simpl; rewrite ?length_insert; done. Qed.

Lemma at_write r x y v :
  ring_wf r ->
  at_ (ring_write r (u32 x &' r.(mask)) v) y =
    if decide (x mod r.(ring_size) = y mod r.(ring_size)) then v else at_ r y.
Proof.
  intros Hwf. pose proof (slot_in_range r y Hwf) as Hy.
  pose proof (wf_size_bounds r Hwf).
  pose proof (Z.mod_pos_bound x r.(ring_size)).
  pose proof (Z.mod_pos_bound y r.(ring_size)).
  unfold at_, ring_write; simpl. rewrite slot_mask by done.
  case_decide as Hd.
  - rewrite Hd. apply list_lookup_total_insert_eq. done.
  - apply list_lookup_total_insert_ne. intros ?. apply Hd. lia.
Qed.

(** Two counters less than a ring apart name different slots. *)
Lemma mod_eq_near x y s : 0 < s -> x mod s = y mod s -> Z.abs (x - y) < s -> x = y.
Proof.
  intros Hs He Ha.
  assert ((x - y) mod s = 0) as Hz by (rewrite Zminus_mod, He, Z.sub_diag; apply Z.mod_0_l; lia).
  apply Z.mod_divide in Hz as [z Hz]; [|lia].
  destruct (decide (z = 0)); [subst; lia|].
  assert (Z.abs (x - y) = Z.abs z * s) by (rewrite Hz, Z.abs_mul; lia). nia.
Qed.

Lemma length_window r a n : length (window r a n) = Z.to_nat n.
Proof. unfold window. by rewrite length_fmap, length_seqZ. Qed.

Lemma lookup_window r a n i :
  0 <= n ->
  window r a n !! i = if decide (Z.of_nat i < n) then Some (at_ r (a + Z.of_nat i)) else None.
Proof.
  intros. unfold window. rewrite list_lookup_fmap. case_decide.
  - by rewrite lookup_seqZ_lt.
  - by rewrite lookup_seqZ_ge by lia.
Qed.

Lemma window_app r a m n :
  0 <= m -> 0 <= n -> window r a (m + n) = window r a m ++ window r (a + m) n.
Proof. intros. unfold window. by rewrite seqZ_app, fmap_app by done. Qed.

(** The slots one turn of the ring earlier are the same. *)
Lemma window_turn r a n : ring_wf r -> window r (a - r.(ring_size)) n = window r a n.
Proof.
  intros Hwf. pose proof (wf_size_bounds r Hwf). unfold window. apply list_eq. intros i.
  rewrite !list_lookup_fmap. destruct (decide (Z.of_nat i < n)).
  - rewrite !lookup_seqZ_lt by lia. simpl. f_equal. unfold at_.
    replace (a - ring_size r + Z.of_nat i) with (a + Z.of_nat i + -1 * ring_size r) by lia.
    by rewrite Z.mod_add by lia.
  - by rewrite !lookup_seqZ_ge by lia.
Qed.

Lemma window_nil r a : window r a 0 = [].
Proof. reflexivity. Qed.

Lemma window_1 r a : window r a 1 = [at_ r a].
Proof. reflexivity. Qed.

Lemma window_snoc r a n :
  0 <= n -> window r a (n + 1) = window r a n ++ [at_ r (a + n)].
Proof. intros. by rewrite window_app, window_1 by lia. Qed.

Lemma window_cons r a n :
  0 < n -> window r a n = at_ r a :: window r (a + 1) (n - 1).
Proof. intros. replace n with (1 + (n - 1)) at 1 by lia. by rewrite window_app by lia. Qed.

Lemma window_write_out r a n x v :
  ring_wf r -> 0 <= n -> a + n <= x < a + r.(ring_size) ->
  window (ring_write r (u32 x &' r.(mask)) v) a n = window r a n.
Proof.
  intros Hwf Hn Hx. apply list_fmap_ext. intros i y Hy%lookup_seqZ.
  rewrite at_write by done. case_decide as Hd; [|done].
  apply mod_eq_near in Hd; lia.
Qed.

Lemma window_write_in r a n j v :
  ring_wf r -> 0 <= j < n -> n <= r.(ring_size) ->
  window (ring_write r (u32 (a + j) &' r.(mask)) v) a n = <[Z.to_nat j := v]> (window r a n).
Proof.
  intros Hwf Hj Hn. apply list_eq. intros i.
  rewrite lookup_window by lia.
  destruct (decide (Z.of_nat i < n)) as [Hi|Hi].
  - rewrite at_write by done. case_decide as Hd.
    + apply mod_eq_near in Hd; [|lia..].
      replace (Z.to_nat j) with i by lia.
      rewrite list_lookup_insert_eq; [done|]. rewrite length_window; lia.
    + rewrite list_lookup_insert_ne by (intros <-; apply Hd; f_equal; lia).
      rewrite lookup_window by lia. by rewrite decide_True by lia.
  - symmetry. apply lookup_ge_None. rewrite length_insert, length_window. lia.
Qed.

Lemma window_lookup_total r a n j :
  0 <= j < n -> window r a n !!! Z.to_nat j = at_ r (a + j).
Proof.
  intros. apply list_lookup_total_correct.
  rewrite lookup_window, decide_True by lia. do 2 f_equal. lia.
Qed.

Lemma pending_window r c p :
  ring_wf r -> r.(consumer) = u32 c -> r.(producer) = u32 p -> 0 <= p - c < 2 ^ 32 ->
  pending r = window r c (p - c).
Proof.
  intros Hwf Hc Hp Hd. unfold pending. rewrite Hc, Hp.
  replace (u32 (u32 p - u32 c)) with (p - c) by zlia.
  unfold window. apply list_eq. intros i.
  rewrite !list_lookup_fmap. destruct (decide (Z.of_nat i < p - c)).
  - rewrite !lookup_seqZ_lt by lia. simpl. f_equal.
    rewrite wrap_add_l, ring_read_at by done. done.
  - by rewrite !lookup_seqZ_ge by lia.
Qed.

(** ** The protocol invariant of a ring user space produces into

    [c0] is the consumer position user space last saw, [c] the real one, [p] the
    published producer and [q] the end of the reserved slots. *)
Record prod_inv r (c0 c p q : Z) : Prop := {
  pi_wf : ring_wf r;
  pi_ccons : r.(cached_cons) = u32 (c0 + r.(ring_size));
  pi_cons : r.(consumer) = u32 c;
  pi_prod : r.(producer) = u32 p;
  pi_cprod : r.(cached_prod) = u32 q;
  pi_order : c0 <= c <= p /\ p <= q <= c0 + r.(ring_size);
}.

(** The same for a ring user space consumes from: [c] released, [cc] peeked, [cp]
    the producer position last seen, [p] the real one. *)
Record cons_inv r (c cc cp p : Z) : Prop := {
  ci_wf : ring_wf r;
  ci_cons : r.(consumer) = u32 c;
  ci_ccons : r.(cached_cons) = u32 cc;
  ci_cprod : r.(cached_prod) = u32 cp;
  ci_prod : r.(producer) = u32 p;
  ci_order : c <= cc <= cp /\ cp <= p <= c + r.(ring_size);
}.

Lemma prod_inv_pending r c0 c p q : prod_inv r c0 c p q -> pending r = window r c (p - c).
Proof.
  intros [Hwf _ Hc Hp _ Ho]. pose proof (wf_size_bounds r Hwf).
  apply pending_window; auto; lia.
Qed.

Lemma cons_inv_pending r c cc cp p : cons_inv r c cc cp p -> pending r = window r c (p - c).
Proof.
  intros [Hwf Hc _ _ Hp Ho]. pose proof (wf_size_bounds r Hwf).
  apply pending_window; auto; lia.
Qed.

End ring_lemmas.

(** ** What the operations do *)
Section ring_specs.
Context {A : Type} `{Inhabited A}.
Implicit Types r : xsk_ring A.

(** The free count is exact up to the lag of [cached_cons], and is refreshed
    whenever the stale value does not suffice. *)
Lemma nb_free_spec r c0 c p q nb :
  prod_inv r c0 c p q ->
  exists r' c0', xsk_prod_nb_free r nb = (r', c0' + r.(ring_size) - q) /\
    prod_inv r' c0' c p q /\ same_slots r r' /\
    (c0' = c \/ c0' = c0 /\ nb <= c0 + r.(ring_size) - q).
Proof.
  intros [Hwf Hcc Hc Hp Hq Ho]. pose proof (wf_size_bounds r Hwf) as Hs.
  assert (u32 (r.(cached_cons) - r.(cached_prod)) = c0 + r.(ring_size) - q) as Hf
    by (rewrite Hcc, Hq; zlia).
  unfold xsk_prod_nb_free. rewrite Hf. destruct (Z.leb_spec nb (c0 + r.(ring_size) - q)).
  - exists r, c0. split; [done|]. split; [by split|]. split; [done|]. right; lia.
  - eexists _, c. split; [f_equal; simpl; rewrite Hc, Hq; zlia|].
    split; [|split; [done|by left]].
    split; simpl; auto; [|rewrite Hc; wrap_push; done|lia].
    by destruct Hwf; split.
Qed.

Lemma reserve_spec r c0 c p q nb idx :
  prod_inv r c0 c p q -> 0 <= nb ->
  let n := Z.min nb (c + r.(ring_size) - q) in
  exists r' c0', c0 <= c0' <= c /\ same_slots r r' /\
    xsk_ring_prod__reserve r nb idx =
      (r', n, if (n =? 0) && negb (nb =? 0) then idx else u32 q) /\
    prod_inv r' c0' c p (q + n).
Proof.
  intros Hinv Hnb n. subst n.
  destruct (nb_free_spec r c0 c p q nb Hinv) as (r' & c0' & Hf & Hinv' & Hss & Hc0).
  pose proof Hinv as [Hwf _ _ _ _ Ho]. pose proof (wf_size_bounds r Hwf) as Hs.
  pose proof Hinv' as [Hwf' Hcc' Hc' Hp' Hq' Ho'].
  assert (r'.(ring_size) = r.(ring_size)) as Hsz by apply Hss.
  unfold xsk_ring_prod__reserve. rewrite Hf. simpl.
  set (f := c0' + r.(ring_size) - q) in *.
  destruct (Z.ltb_spec 0 f); destruct (Z.ltb_spec f nb); simpl;
    destruct (Z.leb_spec nb f); try lia.
  all: match goal with
    | |- context [(set_cached_prod _ (u32 (_ + ?k)), _, _) = _] =>
        replace (Z.min nb (c + r.(ring_size) - q)) with k by lia;
        exists (set_cached_prod r' (u32 (r'.(cached_prod) + k))), c0'
    | |- _ => replace (Z.min nb (c + r.(ring_size) - q)) with 0 by lia; exists r', c0'
    end.
  all: rewrite ?Hq', ?wrap_add_l, ?Z.add_0_r.
  all: repeat apply conj; try apply Hss; try lia; try done.
  all: try (f_equal; destruct (Z.eqb_spec nb 0); simpl; try rewrite andb_false_r; try done).
  all: try (split; simpl; auto; [by destruct Hwf'; split|lia]).
  all: destruct (Z.eqb_spec f 0); simpl; try done; lia.
Qed.

Lemma submit_inv r c0 c p q n :
  prod_inv r c0 c p q -> 0 <= n -> p + n <= q ->
  prod_inv (xsk_ring_prod__submit r n) c0 c (p + n) q.
Proof.
  intros [[? ? ?] Hcc Hc Hp Hq Ho] Hn Hpn. split; simpl; auto; [by split| |lia].
  rewrite Hp. by wrap_push.
Qed.

Lemma prod_write_inv r c0 c p q x v :
  prod_inv r c0 c p q -> prod_inv (ring_write r x v) c0 c p q.
Proof. intros [Hwf ? ? ? ? ?]. split; simpl; auto. by apply ring_write_wf. Qed.

Lemma kernel_consume_inv r c0 c p q n :
  prod_inv r c0 c p q -> 0 <= n <= p - c ->
  prod_inv (kernel_consume r n) c0 (c + n) p q /\
  pending (kernel_consume r n) = drop (Z.to_nat n) (pending r).
Proof.
  intros Hinv Hn.
  assert (prod_inv (kernel_consume r n) c0 (c + n) p q) as Hinv'.
  { destruct Hinv as [[? ? ?] Hcc Hc Hp Hq Ho]. split; simpl; auto; [by split| |lia].
    rewrite Hc. by wrap_push. }
  split; [done|].
  rewrite (prod_inv_pending _ _ _ _ _ Hinv), (prod_inv_pending _ _ _ _ _ Hinv').
  rewrite (same_slots_window r (kernel_consume r n)) by done.
  replace (p - c) with (n + (p - (c + n))) by lia.
  rewrite window_app by lia. rewrite drop_app_length'; [done|by rewrite length_window].
Qed.

(** Consumer rings. *)
Lemma nb_avail_spec r c cc cp p nb :
  cons_inv r c cc cp p -> 0 <= nb ->
  exists r' cp', cp <= cp' <= p /\
    xsk_cons_nb_avail r nb = (r', Z.min nb (cp' - cc)) /\
    cons_inv r' c cc cp' p /\ same_slots r r' /\ (cp' = cc -> p = cc).
Proof.
  intros Hinv Hnb. pose proof Hinv as [Hwf Hc Hcc Hcp Hp Ho].
  pose proof (wf_size_bounds r Hwf) as Hs.
  assert (u32 (r.(cached_prod) - r.(cached_cons)) = cp - cc) as He
    by (rewrite Hcc, Hcp; zlia).
  unfold xsk_cons_nb_avail. rewrite He. destruct (Z.eqb_spec (cp - cc) 0).
  - exists (set_cached_prod r r.(producer)), p. split; [lia|].
    split; [|split; [|split; [done|lia]]].
    + simpl. rewrite Hp, Hcc. replace (u32 (u32 p - u32 cc)) with (p - cc) by zlia.
      destruct (Z.ltb_spec nb (p - cc)); f_equal; lia.
    + split; simpl; auto; [|lia]. by destruct Hwf; split.
  - exists r, cp. split; [lia|].
    split; [destruct (Z.ltb_spec nb (cp - cc)); f_equal; lia|].
    split; [by split|]. split; [done|lia].
Qed.

Lemma peek_spec r c cc cp p nb idx :
  cons_inv r c cc cp p -> 0 <= nb ->
  exists r' cp' n, xsk_ring_cons__peek r nb idx = (r', n, if n =? 0 then idx else u32 cc) /\
    0 <= n <= nb /\ cc + n <= p /\ (n = 0 -> nb = 0 \/ p = cc) /\
    cons_inv r' c (cc + n) cp' p /\ same_slots r r'.
Proof.
  intros Hinv Hnb.
  destruct (nb_avail_spec r c cc cp p nb Hinv Hnb) as (r' & cp' & Hcp & He & Hinv' & Hss & Hz).
  pose proof Hinv' as [Hwf Hc Hcc Hcp' Hp Ho].
  unfold xsk_ring_cons__peek. rewrite He.
  assert (Z.min nb (cp' - cc) = 0 -> nb = 0 \/ p = cc) as Hn0 by lia.
  assert (0 <= Z.min nb (cp' - cc) <= nb /\ cc + Z.min nb (cp' - cc) <= cp') as Hnb' by lia.
  generalize dependent (Z.min nb (cp' - cc)). intros n He Hn0 Hn.
  destruct (Z.ltb_spec 0 n).
  - exists (set_cached_cons r' (u32 (r'.(cached_cons) + n))), cp', n.
    rewrite Hcc. destruct (Z.eqb_spec n 0); [lia|].
    split; [done|]. split; [lia|]. split; [lia|]. split; [done|].
    split; [|by destruct Hss as (?&?&?)].
    split; simpl; auto; [by destruct Hwf; split| |lia]. by wrap_push.
  - exists r', cp', n. assert (n = 0) as -> by lia. rewrite Z.add_0_r.
    split; [done|]. split; [lia|]. split; [lia|]. done.
Qed.

Lemma release_inv r c cc cp p n :
  cons_inv r c cc cp p -> 0 <= n -> c + n <= cc ->
  cons_inv (xsk_ring_cons__release r n) (c + n) cc cp p /\
  pending (xsk_ring_cons__release r n) = drop (Z.to_nat n) (pending r).
Proof.
  intros Hinv Hn Hcn.
  assert (cons_inv (xsk_ring_cons__release r n) (c + n) cc cp p) as Hinv'.
  { destruct Hinv as [[? ? ?] Hc Hcc Hcp Hp Ho]. split; simpl; auto; [by split| |lia].
    rewrite Hc. by wrap_push. }
  split; [done|].
  pose proof Hinv as [_ _ _ _ _ Ho].
  rewrite (cons_inv_pending _ _ _ _ _ Hinv), (cons_inv_pending _ _ _ _ _ Hinv').
  rewrite (same_slots_window r (xsk_ring_cons__release r n)) by done.
  replace (p - c) with (n + (p - (c + n))) by lia.
  rewrite window_app by lia. rewrite drop_app_length'; [done|by rewrite length_window].
Qed.

Lemma kernel_produce_inv r c cc cp p ds :
  cons_inv r c cc cp p -> p + Z.of_nat (length ds) <= c + r.(ring_size) ->
  cons_inv (kernel_produce r ds) c cc cp (p + Z.of_nat (length ds)) /\
  pending (kernel_produce r ds) = pending r ++ ds.
Proof.
  revert r p. induction ds as [|d ds IH]; intros r p Hinv Hroom; simpl in *.
  { rewrite Z.add_0_r, app_nil_r. done. }
  pose proof Hinv as [Hwf Hc Hcc Hcp Hp Ho].
  set (r1 := ring_write r (r.(producer) &' r.(mask)) d).
  assert (cons_inv (set_producer r1 (u32 (r.(producer) + 1))) c cc cp (p + 1)) as Hinv1.
  { subst r1. split; simpl; auto; [|rewrite Hp; by wrap_push|lia].
    destruct (ring_write_wf r (r.(producer) &' r.(mask)) d Hwf); by split. }
  destruct (IH _ _ Hinv1) as [IH1 IH2]; [simpl; lia|].
  split; [by replace (p + Z.of_nat (S (length ds))) with (p + 1 + Z.of_nat (length ds)) by lia|].
  rewrite IH2, (cons_inv_pending _ _ _ _ _ Hinv1), (cons_inv_pending _ _ _ _ _ Hinv).
  replace (p + 1 - c) with (p - c + 1) by lia. rewrite window_snoc by lia.
  rewrite !(same_slots_window r1 (set_producer r1 _)) by done.
  subst r1. rewrite Hp, window_write_out by (done || lia).
  rewrite <- app_assoc. f_equal. simpl. f_equal. unfold at_ at 1. simpl.
  match goal with |- ?x = d => change x with (at_ (ring_write r (u32 p &' mask r) d) (c + (p - c))) end.
  rewrite at_write by done. rewrite decide_True; [done|f_equal; lia].
Qed.

End ring_specs.
