(* ===== verification/FillQueue.v ===== *)
(** * Refilling the fill queue

    How [toasty.c] gives packet buffers back to the kernel: the body shared by
    the loops of [receive] and [complete_tx_forward], the [to_add] and
    [prev_consumer] globals of warm-buffer mode, and the queue-level
    specification they implement.  In FIFO mode an address goes to the tail; in
    warm mode it is swapped into the next slots the kernel will take, so the
    most recently used buffers are the first to be reused. *)
From S2P Require Import Prelude XskRing.

(** ** Code *)

(** The globals [to_add] ([int]) and [prev_consumer] ([u64]). *)
Record warm_state := WarmState { to_add : Z; prev_consumer : Z }.

Definition warm_init : warm_state := WarmState (-1) 0.

(** "check if consumer has changed" *)
Definition check_consumer (w : warm_state) (fq : xsk_ring Z) : warm_state :=
  let current_cons := fq.(consumer) in
  WarmState (if current_cons =? w.(prev_consumer) then w.(to_add) else 0) current_cons.

(** One address given back: [i] is the loop counter, [idx_fq] the reserved slot. *)
Definition refill_one (opt_warm_buffers : bool) (to_add : Z) (fq : xsk_ring Z)
    (idx_fq i orig : Z) : xsk_ring Z :=
  if opt_warm_buffers then
    custom_xsk_ring_prod__fill_addr fq idx_fq orig (u32 (to_add + i))
  else ring_write fq (xsk_ring_prod__fill_addr fq idx_fq) orig.

(** The loop over a batch, without what else the callers do per packet. *)
Fixpoint refill (opt_warm_buffers : bool) (to_add : Z) (fq : xsk_ring Z)
    (idx_fq i : Z) (origs : list Z) : xsk_ring Z :=
  match origs with
  | [] => fq
  | orig :: rest =>
      refill opt_warm_buffers to_add
        (refill_one opt_warm_buffers to_add fq idx_fq i orig)
        (u32 (idx_fq + 1)) (u32 (i + 1)) rest
  end.

(** ** Queue-level specification *)

Definition rotl1 {A} (l : list A) : list A := tail l ++ take 1 l.
Definition rotl {A} (n : nat) (l : list A) : list A := Nat.iter n rotl1 l.

Definition fifo_spec (q origs : list Z) : list Z := q ++ origs.

(** The batch takes the place of the entries from [t] on; those keep their
    cyclic order behind it. *)
Definition warm_spec (t : nat) (q origs : list Z) : list Z :=
  take t q ++ origs ++ rotl (length origs) (drop t q).

Lemma rotl_succ {A} n (l : list A) : rotl (S n) l = rotl n (rotl1 l).
Proof. unfold rotl. by rewrite Nat.iter_succ_r. Qed.

Lemma rotl1_perm {A} (l : list A) : Permutation (rotl1 l) l.
Proof. destruct l; simpl; [done|]. unfold rotl1; simpl. symmetry. apply Permutation_cons_append. Qed.

Lemma rotl_perm {A} n (l : list A) : Permutation (rotl n l) l.
Proof.
  revert l. induction n as [|n IH]; intros l; [done|].
  rewrite rotl_succ, IH. apply rotl1_perm.
Qed.

Lemma rotl_split {A} n (l : list A) :
  (n <= length l)%nat -> rotl n l = drop n l ++ take n l.
Proof.
  revert l. induction n as [|n IH]; intros l Hn; [by rewrite drop_0, take_0, app_nil_r|].
  destruct l as [|a l]; simpl in Hn; [lia|].
  rewrite rotl_succ. unfold rotl1; simpl.
  rewrite IH by (rewrite length_app; simpl; lia).
  rewrite drop_app_le, take_app_le by lia. by rewrite <- app_assoc.
Qed.

Lemma warm_spec_perm t q origs : Permutation (warm_spec t q origs) (q ++ origs).
Proof.
  unfold warm_spec. rewrite rotl_perm.
  rewrite (Permutation_app_comm origs), app_assoc, take_drop. done.
Qed.

Lemma warm_spec_cons t q a origs :
  (t < length q)%nat ->
  warm_spec (S t) (<[t:=a]> q ++ [q !!! t]) origs = warm_spec t q (a :: origs).
Proof.
  intros Ht. destruct (lookup_lt_is_Some_2 q t Ht) as [b Hb].
  rewrite (list_lookup_total_correct _ _ _ Hb).
  assert (exists l1 l2, q = l1 ++ b :: l2 /\ length l1 = t) as (l1 & l2 & -> & <-).
  { exists (take t q), (drop (S t) q). rewrite take_drop_middle, length_take by done. split; [done|lia]. }
  rewrite insert_app_r_alt, Nat.sub_diag by done. simpl.
  replace ((l1 ++ a :: l2) ++ [b]) with ((l1 ++ [a]) ++ l2 ++ [b]) by (by rewrite <- !app_assoc).
  unfold warm_spec. rewrite take_app_length, drop_app_length.
  replace (S (length l1)) with (length (l1 ++ [a])) by (rewrite length_app; simpl; lia).
  rewrite take_app_length, drop_app_length.
  simpl length. rewrite rotl_succ. change (rotl1 (b :: l2)) with (l2 ++ [b]). by rewrite <- !app_assoc.
Qed.

(** ** The loops implement the specification *)

Lemma custom_fill_slots (fq : xsk_ring Z) c0 c p q x t a i :
  prod_inv fq c0 c p q -> u32 i = u32 t ->
  prod_inv (custom_xsk_ring_prod__fill_addr fq (u32 x) a i) c0 c p q /\
  forall y, at_ (custom_xsk_ring_prod__fill_addr fq (u32 x) a i) y =
    if decide (x mod fq.(ring_size) = y mod fq.(ring_size)) then at_ fq (c + t)
    else if decide ((c + t) mod fq.(ring_size) = y mod fq.(ring_size)) then a else at_ fq y.
Proof.
  intros Hinv Hi. pose proof Hinv as [Hwf _ Hc _ _ _].
  unfold custom_xsk_ring_prod__fill_addr, xsk_ring_prod__fill_addr.
  replace (u32 (consumer fq + i)) with (u32 (c + t))
    by (rewrite Hc, <- (wrap_add_r 32 (u32 c) i), Hi; by wrap_push).
  split; [by repeat apply prod_write_inv|]. intros y.
  rewrite ring_read_at, at_write by eauto using ring_write_wf.
  cbn [ring_size ring_write set_ring]. case_decide; [done|]. by rewrite at_write by done.
Qed.

(** One warm step, on a queue whose [c + t] entry is still the kernel's. *)
Lemma refill_one_warm (fq : xsk_ring Z) c0 c p q x t ta i a :
  prod_inv fq c0 c p q -> p <= x < q -> 0 <= t < x - c -> u32 (ta + i) = u32 t ->
  let fq' := refill_one true ta fq (u32 x) i a in
  prod_inv fq' c0 c p q /\
  window fq' c (x + 1 - c) =
    <[Z.to_nat t := a]> (window fq c (x - c)) ++ [window fq c (x - c) !!! Z.to_nat t].
Proof.
  intros Hinv Hx Ht Hi. simpl. pose proof Hinv as [Hwf _ _ _ _ Ho].
  pose proof (wf_size_bounds fq Hwf).
  destruct (custom_fill_slots fq c0 c p q x t a (u32 (ta + i)) Hinv) as [Hinv' Hat].
  { rewrite wrap_wrap by lia. done. }
  split; [done|].
  replace (x + 1 - c) with (x - c + 1) by lia. rewrite window_snoc by lia.
  rewrite window_lookup_total by lia. f_equal.
  - apply list_eq. intros j. rewrite lookup_window by lia.
    destruct (decide (Z.of_nat j < x - c)).
    + rewrite Hat. rewrite decide_False by (intros Hd; apply mod_eq_near in Hd; lia).
      destruct (decide (Z.to_nat t = j)) as [<-|Hne].
      * rewrite list_lookup_insert_eq by (rewrite length_window; lia).
        rewrite decide_True by (f_equal; lia). done.
      * rewrite list_lookup_insert_ne by done. 
        rewrite decide_False by (intros Hd; apply mod_eq_near in Hd; lia).
        rewrite lookup_window, decide_True by lia. done.
    + symmetry. apply lookup_ge_None. rewrite length_insert, length_window. lia.
  - rewrite Hat, decide_True by (f_equal; lia). done.
Qed.

Lemma refill_one_fifo (fq : xsk_ring Z) c0 c p q x ta i a :
  prod_inv fq c0 c p q -> p <= x < q ->
  let fq' := refill_one false ta fq (u32 x) i a in
  prod_inv fq' c0 c p q /\ window fq' c (x + 1 - c) = window fq c (x - c) ++ [a].
Proof.
  intros Hinv Hx. simpl. pose proof Hinv as [Hwf _ _ _ _ Ho].
  split; [by apply prod_write_inv|].
  unfold xsk_ring_prod__fill_addr.
  replace (x + 1 - c) with (x - c + 1) by lia. rewrite window_snoc by lia.
  rewrite window_write_out by (done || lia). f_equal.
  rewrite at_write, decide_True by (done || f_equal; lia). done.
Qed.

(** In FIFO mode neither [to_add] nor the loop counter matters. *)
Lemma refill_cold_counter origs : forall (fq : xsk_ring Z) ta ta' x i i',
  refill false ta fq x i origs = refill false ta' fq x i' origs.
Proof. induction origs as [|a origs IH]; intros; [done|]. cbn [refill refill_one]. apply IH. Qed.

Lemma refill_fifo_window origs : forall (fq : xsk_ring Z) c0 c p q x ta i,
  prod_inv fq c0 c p q -> p <= x -> x + Z.of_nat (length origs) <= q ->
  let fq' := refill false ta fq (u32 x) i origs in
  prod_inv fq' c0 c p q /\
  window fq' c (x + Z.of_nat (length origs) - c) = fifo_spec (window fq c (x - c)) origs.
Proof.
  unfold fifo_spec. induction origs as [|a origs IH]; intros fq c0 c p q x ta i Hinv Hp Hq; simpl in *.
  { rewrite Z.add_0_r, app_nil_r. done. }
  destruct (refill_one_fifo fq c0 c p q x ta i a Hinv) as [Hinv' Hw]; [lia|].
  rewrite wrap_add_l.
  destruct (IH _ c0 c p q (x + 1) ta (u32 (i + 1)) Hinv') as [IH1 IH2]; [lia..|].
  split; [done|]. simpl in *.
  replace (x + Z.of_nat (S (length origs)) - c)
    with (x + 1 + Z.of_nat (length origs) - c) by lia.
  rewrite IH2, Hw, <- app_assoc. done.
Qed.

Lemma refill_warm_window origs : forall (fq : xsk_ring Z) c0 c p q x t ta i,
  prod_inv fq c0 c p q -> p <= x -> x + Z.of_nat (length origs) <= q ->
  0 <= t < x - c -> u32 (ta + i) = u32 t ->
  let fq' := refill true ta fq (u32 x) i origs in
  prod_inv fq' c0 c p q /\
  window fq' c (x + Z.of_nat (length origs) - c) =
    warm_spec (Z.to_nat t) (window fq c (x - c)) origs.
Proof.
  induction origs as [|a origs IH]; intros fq c0 c p q x t ta i Hinv Hp Hq Ht Hi; simpl in *.
  { rewrite Z.add_0_r. split; [done|]. unfold warm_spec. simpl. by rewrite take_drop. }
  destruct (refill_one_warm fq c0 c p q x t ta i a Hinv) as [Hinv' Hw]; [lia..|done|].
  rewrite wrap_add_l. simpl in *.
  destruct (IH _ c0 c p q (x + 1) (t + 1) ta (u32 (i + 1)) Hinv') as [IH1 IH2]; [lia..| |].
  { wrap_push. rewrite Z.add_assoc, <- wrap_add_l, Hi. by wrap_push. }
  split; [done|].
  replace (x + Z.of_nat (S (length origs)) - c)
    with (x + 1 + Z.of_nat (length origs) - c) by lia.
  rewrite IH2, Hw. replace (Z.to_nat (t + 1)) with (S (Z.to_nat t)) by lia.
  apply warm_spec_cons. rewrite length_window. lia.
Qed.

(** With nothing of the queue left at position [t], the exchange and the copy
    undo each other: the ring is what it was. *)
Lemma refill_one_drained (fq : xsk_ring Z) c0 c p q x ta i a :
  prod_inv fq c0 c p q -> u32 (ta + i) = u32 (x - c) ->
  refill_one true ta fq (u32 x) i a = fq.
Proof.
  intros Hinv Hi. pose proof Hinv as [Hwf _ Hc _ _ _].
  simpl. unfold custom_xsk_ring_prod__fill_addr, xsk_ring_prod__fill_addr, ring_write, set_ring. simpl.
  rewrite Hi. replace (u32 (consumer fq + u32 (x - c))) with (u32 x)
    by (rewrite Hc; wrap_push; f_equal; lia).
  rewrite list_insert_insert_eq. unfold ring_read.
  rewrite list_insert_id; [by destruct fq|].
  apply list_lookup_lookup_total_lt. rewrite slot_mask by done. by apply slot_in_range.
Qed.

Lemma refill_drained origs : forall (fq : xsk_ring Z) c0 c p q x ta i,
  prod_inv fq c0 c p q -> u32 (ta + i) = u32 (x - c) ->
  refill true ta fq (u32 x) i origs = fq.
Proof.
  induction origs as [|a origs IH]; intros fq c0 c p q x ta i Hinv Hi; [done|].
  change (refill true ta (refill_one true ta fq (u32 x) i a) (u32 (u32 x + 1)) (u32 (i + 1)) origs = fq).
  rewrite (refill_one_drained _ _ _ _ _ _ _ _ _ Hinv Hi), wrap_add_l.
  eapply IH; [done|]. wrap_push. rewrite Z.add_assoc, <- wrap_add_l, Hi.
  wrap_push. f_equal. lia.
Qed.
