(* ===== verification/Murmur.v ===== *)
(** * MurmurHash3

    [maglev/murmurhash.h]; a key is the list of its bytes. *)
From S2P Require Import Prelude.

Definition murmur_c1 : Z := 0xcc9e2d51.
Definition murmur_c2 : Z := 0x1b873593.

(** [k *= c1; k = (k << 15) | (k >> 17); k *= c2;] *)
Definition murmur_mix (k : Z) : Z :=
  let k := u32 (k * murmur_c1) in
  let k := u32 (k <<' 15) |' (k >>' 17) in
  u32 (k * murmur_c2).

(** The loop over 4-byte chunks, [n] of which are left from chunk [i] on. *)
Fixpoint murmur_blocks (n : nat) (data : list Z) (i : nat) (h : Z) : Z :=
  match n with
  | O => h
  | S n' =>
      let k := le_value (take 4 (drop (i * 4) data)) in
      let h := h ^' murmur_mix k in
      let h := u32 (h <<' 13) |' (h >>' 19) in
      let h := u32 (h * 5 + 0xe6546b64) in
      murmur_blocks n' data (S i) h
  end.

(** [for (i = key_size & ~3; i < key_size; i++) k ^= data[i] << ((i & 3) * 8);] *)
Fixpoint murmur_tail (n : nat) (data : list Z) (i k : Z) : Z :=
  match n with
  | O => k
  | S n' =>
      murmur_tail n' data (i + 1)
        (k ^' u32 ((data !!! Z.to_nat i) <<' ((i &' 3) * 8)))
  end.

Definition murmur_final (h key_size : Z) : Z :=
  let h := h ^' u32 key_size in
  let h := h ^' (h >>' 16) in
  let h := u32 (h * 0x85ebca6b) in
  let h := h ^' (h >>' 13) in
  let h := u32 (h * 0xc2b2ae35) in
  h ^' (h >>' 16).

Definition murmurhash (key : list Z) (key_size seed : Z) : Z :=
  let nblocks := key_size / 4 in
  let h := murmur_blocks (Z.to_nat nblocks) key 0 seed in
  let i0 := key_size &' Z.lnot 3 in
  let k := murmur_tail (Z.to_nat (key_size - i0)) key i0 0 in
  let h := h ^' murmur_mix k in
  murmur_final h key_size.

Lemma murmurhash_range key key_size seed : 0 <= murmurhash key key_size seed < 2 ^ 32.
Proof.
  unfold murmurhash, murmur_final.
  match goal with |- context [u32 (?x * 0xc2b2ae35)] => generalize (x * 0xc2b2ae35); intros z end.
  pose proof (wrap_range 32 z ltac:(lia)). apply lxor_range; [lia|done|].
  rewrite Z.shiftr_div_pow2 by lia. zlia.
Qed.

(** Reference value of MurmurHash3 (x86, 32 bits) for four zero bytes and seed 0. *)
Example murmurhash_zeros : murmurhash [0; 0; 0; 0] 4 0 = 0x2362F9DE.
Proof. reflexivity. Qed.
