(* ===== verification/CityHash.v ===== *)
(** * CityHash

    [ported-mica/city.c] (and the hash functions of [ported-mica/hash.h]): the
    key-value store's hash.  A buffer is the list of its bytes and a pointer into
    it is an offset; a read outside the buffer is undefined and yields [None].
    The CRC variants use the SSE 4.2 instruction [_mm_crc32_u64], a parameter
    here. *)
From S2P Require Import Prelude.

Declare Scope u64_scope.
Delimit Scope u64_scope with u64.
Notation "x +% y" := (wrap 64 (x + y)) (at level 50, left associativity) : u64_scope.
Notation "x -% y" := (wrap 64 (x - y)) (at level 50, left associativity) : u64_scope.
Notation "x *% y" := (wrap 64 (x * y)) (at level 40, left associativity) : u64_scope.
Open Scope u64_scope.

(** [uint128]: [first] and [second] are its low and its high half. *)
Record uint128 := U128 { first : Z; second : Z }.
Definition Uint128Low64 (x : uint128) : Z := first x.
Definition Uint128High64 (x : uint128) : Z := second x.

(** The little-endian value of the [n] bytes at offset [p]. *)
Definition fetch (n : Z) (s : list Z) (p : Z) : option Z :=
  if (0 <=? p) && (p + n <=? Z.of_nat (length s))
  then Some (le_value (take (Z.to_nat n) (drop (Z.to_nat p) s))) else None.

Definition UNALIGNED_LOAD64 := fetch 8.
Definition UNALIGNED_LOAD32 := fetch 4.
Definition Fetch64 := UNALIGNED_LOAD64.
Definition Fetch32 := UNALIGNED_LOAD32.
Definition fetch8 (s : list Z) (p : Z) : option Z := fetch 1 s p.

Definition k0 : Z := 0xc3a5c85c97cb3127.
Definition k1 : Z := 0xb492b66fbe98f273.
Definition k2 : Z := 0x9ae16a3b2f90404f.
Definition k3 : Z := 0xc949d7c7509e6557.

Definition Hash128to64 (x : uint128) : Z :=
  let kMul := 0x9ddfea08eb382d69 in
  let a := (Uint128Low64 x ^' Uint128High64 x) *% kMul in
  let a := a ^' (a >>' 47) in
  let b := (Uint128High64 x ^' a) *% kMul in
  let b := b ^' (b >>' 47) in
  b *% kMul.

Definition Rotate (val shift : Z) : Z :=
  if shift =? 0 then val else (val >>' shift) |' u64 (val <<' (64 - shift)).

Definition RotateByAtLeast1 (val shift : Z) : Z :=
  (val >>' shift) |' u64 (val <<' (64 - shift)).

Definition ShiftMix (val : Z) : Z := val ^' (val >>' 47).

Definition HashLen16 (u v : Z) : Z := Hash128to64 (U128 u v).

Definition HashLen0to16 (s : list Z) (p len : Z) : option Z :=
  if len >? 8 then
    a ← Fetch64 s p;
    b ← Fetch64 s (p + len - 8);
    Some (HashLen16 a (RotateByAtLeast1 (b +% len) len) ^' b)
  else if len >=? 4 then
    a ← Fetch32 s p;
    e ← Fetch32 s (p + len - 4);
    Some (HashLen16 (len +% u64 (a <<' 3)) e)
  else if len >? 0 then
    a ← fetch8 s p;
    b ← fetch8 s (p + (len >>' 1));
    c ← fetch8 s (p + len - 1);
    let y := u32 (a + (b <<' 8)) in
    let z := u32 (u32 len + (c <<' 2)) in
    Some (ShiftMix ((y *% k2) ^' (z *% k3)) *% k2)
  else Some k2.

Definition HashLen17to32 (s : list Z) (p len : Z) : option Z :=
  a ← Fetch64 s p; let a := a *% k1 in
  b ← Fetch64 s (p + 8);
  c ← Fetch64 s (p + len - 8); let c := c *% k2 in
  d ← Fetch64 s (p + len - 16); let d := d *% k0 in
  Some (HashLen16 (Rotate (a -% b) 43 +% Rotate c 30 +% d)
                  (a +% Rotate (b ^' k3) 20 -% c +% len)).

Definition WeakHashLen32WithSeeds6 (w x y z a b : Z) : uint128 :=
  let a := a +% w in
  let b := Rotate (b +% a +% z) 21 in
  let c := a in
  let a := a +% x in
  let a := a +% y in
  let b := b +% Rotate a 44 in
  U128 (a +% z) (b +% c).

Definition WeakHashLen32WithSeeds (s : list Z) (p a b : Z) : option uint128 :=
  w ← Fetch64 s p;
  x ← Fetch64 s (p + 8);
  y ← Fetch64 s (p + 16);
  z ← Fetch64 s (p + 24);
  Some (WeakHashLen32WithSeeds6 w x y z a b).

Definition HashLen33to64 (s : list Z) (p len : Z) : option Z :=
  z ← Fetch64 s (p + 24);
  f0 ← Fetch64 s p;
  f1 ← Fetch64 s (p + len - 16);
  let a := f0 +% ((len +% f1) *% k0) in
  let b := Rotate (a +% z) 52 in
  let c := Rotate a 37 in
  f2 ← Fetch64 s (p + 8);
  let a := a +% f2 in
  let c := c +% Rotate a 7 in
  f3 ← Fetch64 s (p + 16);
  let a := a +% f3 in
  let vf := a +% z in
  let vs := b +% Rotate a 31 +% c in
  f4 ← Fetch64 s (p + 16);
  f5 ← Fetch64 s (p + len - 32);
  let a := f4 +% f5 in
  z ← Fetch64 s (p + len - 8);
  let b := Rotate (a +% z) 52 in
  let c := Rotate a 37 in
  f6 ← Fetch64 s (p + len - 24);
  let a := a +% f6 in
  let c := c +% Rotate a 7 in
  f7 ← Fetch64 s (p + len - 16);
  let a := a +% f7 in
  let wf := a +% z in
  let ws := b +% Rotate a 31 +% c in
  let r := ShiftMix (((vf +% ws) *% k2) +% ((wf +% vs) *% k0)) in
  Some (ShiftMix ((r *% k0) +% vs) *% k2).

(** The 56 bytes of state of the long-string loops. *)
Record city := City { cx : Z; cy : Z; cz : Z; cv : uint128; cw : uint128 }.

(** One iteration of the loop of [CityHash64] over the 64 bytes at [p]. *)
Definition city64_body (s : list Z) (p : Z) (st : city) : option city :=
  let '(City x y z v w) := st in
  f8 ← Fetch64 s (p + 8);
  let x := Rotate (x +% y +% first v +% f8) 37 *% k1 in
  f48 ← Fetch64 s (p + 48);
  let y := Rotate (y +% second v +% f48) 42 *% k1 in
  let x := x ^' second w in
  f40 ← Fetch64 s (p + 40);
  let y := y +% (first v +% f40) in
  let z := Rotate (z +% first w) 33 *% k1 in
  v ← WeakHashLen32WithSeeds s p (second v *% k1) (x +% first w);
  f16 ← Fetch64 s (p + 16);
  w ← WeakHashLen32WithSeeds s (p + 32) (z +% second w) (y +% f16);
  let temp := z in
  let z := x in
  let x := temp in
  Some (City x y z v w).

(** [do { ... s += 64; len -= 64; } while (len != 0);] *)
Fixpoint city64_loop (fuel : nat) (s : list Z) (p len : Z) (st : city) : option city :=
  match fuel with
  | O => None
  | S fuel' =>
      st ← city64_body s p st;
      let len := len -% 64 in
      if len =? 0 then Some st else city64_loop fuel' s (p + 64) len st
  end.

Definition CityHash64 (s : list Z) (p len : Z) : option Z :=
  if len <=? 32 then
    if len <=? 16 then HashLen0to16 s p len else HashLen17to32 s p len
  else if len <=? 64 then HashLen33to64 s p len
  else
    x ← Fetch64 s (p + len - 40);
    y1 ← Fetch64 s (p + len - 16);
    y2 ← Fetch64 s (p + len - 56);
    let y := y1 +% y2 in
    z1 ← Fetch64 s (p + len - 48);
    z2 ← Fetch64 s (p + len - 24);
    let z := HashLen16 (z1 +% len) z2 in
    v ← WeakHashLen32WithSeeds s (p + len - 64) len z;
    w ← WeakHashLen32WithSeeds s (p + len - 32) (y +% k1) x;
    f0 ← Fetch64 s p;
    let x := x *% k1 +% f0 in
    let len := (len -% 1) &' Z.lnot 63 in
    '(City x y z v w) ← city64_loop (Z.to_nat (len / 64)) s p len (City x y z v w);
    Some (HashLen16 (HashLen16 (first v) (first w) +% (ShiftMix y *% k1) +% z)
                    (HashLen16 (second v) (second w) +% x)).

Definition CityHash64WithSeeds (s : list Z) (p len seed0 seed1 : Z) : option Z :=
  h ← CityHash64 s p len;
  Some (HashLen16 (h -% seed0) seed1).

Definition CityHash64WithSeed (s : list Z) (p len seed : Z) : option Z :=
  CityHash64WithSeeds s p len k2 seed.

(** [do { ... s += 16; l -= 16; } while (l > 0);] *)
Fixpoint murmur_loop (fuel : nat) (s : list Z) (p l a b c d : Z) : option (Z * Z * Z * Z) :=
  match fuel with
  | O => None
  | S fuel' =>
      f0 ← Fetch64 s p;
      let a := a ^' (ShiftMix (f0 *% k1) *% k1) in
      let a := a *% k1 in
      let b := b ^' a in
      f8 ← Fetch64 s (p + 8);
      let c := c ^' (ShiftMix (f8 *% k1) *% k1) in
      let c := c *% k1 in
      let d := d ^' c in
      let p := p + 16 in
      let l := s64 (l - 16) in
      if l >? 0 then murmur_loop fuel' s p l a b c d else Some (a, b, c, d)
  end.

Definition CityMurmur (s : list Z) (p len : Z) (seed : uint128) : option uint128 :=
  let a := Uint128Low64 seed in
  let b := Uint128High64 seed in
  let l := s64 (len -% 16) in
  '(a, b, c, d) ←
    (if l <=? 0 then
       let a := ShiftMix (a *% k1) *% k1 in
       h ← HashLen0to16 s p len;
       let c := b *% k1 +% h in
       e ← (if len >=? 8 then Fetch64 s p else Some c);
       let d := ShiftMix (a +% e) in
       Some (a, b, c, d)
     else
       f1 ← Fetch64 s (p + len - 8);
       let c := HashLen16 (f1 +% k1) a in
       f2 ← Fetch64 s (p + len - 16);
       let d := HashLen16 (b +% len) (c +% f2) in
       let a := a +% d in
       murmur_loop (Z.to_nat l) s p l a b c d);
  let a := HashLen16 a c in
  let b := HashLen16 d b in
  Some (U128 (a ^' b) (HashLen16 b a)).

(** The body of the loop of [CityHash128WithSeed]: the loop body of
    [CityHash64], unrolled by hand over the 128 bytes at [p]. *)
Definition city128_body (s : list Z) (p : Z) (st : city) : option city :=
  let '(City x y z v w) := st in
  f8 ← Fetch64 s (p + 8);
  let x := Rotate (x +% y +% first v +% f8) 37 *% k1 in
  f48 ← Fetch64 s (p + 48);
  let y := Rotate (y +% second v +% f48) 42 *% k1 in
  let x := x ^' second w in
  f40 ← Fetch64 s (p + 40);
  let y := y +% (first v +% f40) in
  let z := Rotate (z +% first w) 33 *% k1 in
  v ← WeakHashLen32WithSeeds s p (second v *% k1) (x +% first w);
  f16 ← Fetch64 s (p + 16);
  w ← WeakHashLen32WithSeeds s (p + 32) (z +% second w) (y +% f16);
  let temp := z in
  let z := x in
  let x := temp in
  let p := p + 64 in
  f8 ← Fetch64 s (p + 8);
  let x := Rotate (x +% y +% first v +% f8) 37 *% k1 in
  f48 ← Fetch64 s (p + 48);
  let y := Rotate (y +% second v +% f48) 42 *% k1 in
  let x := x ^' second w in
  f40 ← Fetch64 s (p + 40);
  let y := y +% (first v +% f40) in
  let z := Rotate (z +% first w) 33 *% k1 in
  v ← WeakHashLen32WithSeeds s p (second v *% k1) (x +% first w);
  f16 ← Fetch64 s (p + 16);
  w ← WeakHashLen32WithSeeds s (p + 32) (z +% second w) (y +% f16);
  let temp := z in
  let z := x in
  let x := temp in
  Some (City x y z v w).

(** [do { ... s += 128; len -= 128; } while (len >= 128);]; the pointer and the
    length that remain are returned too. *)
Fixpoint city128_loop (fuel : nat) (s : list Z) (p len : Z) (st : city)
    : option (Z * Z * city) :=
  match fuel with
  | O => None
  | S fuel' =>
      st ← city128_body s p st;
      let p := p + 128 in
      let len := len -% 128 in
      if len >=? 128 then city128_loop fuel' s p len st else Some (p, len, st)
  end.

(** [for (tail_done = 0; tail_done < len; ) { tail_done += 32; ... }] *)
Fixpoint city128_tail (fuel : nat) (s : list Z) (p len tail_done : Z) (st : city)
    : option city :=
  if tail_done <? len then
    match fuel with
    | O => None
    | S fuel' =>
        let '(City x y z v w) := st in
        let tail_done := tail_done + 32 in
        let y := Rotate (x +% y) 42 *% k0 +% second v in
        f16 ← Fetch64 s (p + len - tail_done + 16);
        let w := U128 (first w +% f16) (second w) in
        let x := x *% k0 +% first w in
        f0 ← Fetch64 s (p + len - tail_done);
        let z := z +% (second w +% f0) in
        let w := U128 (first w) (second w +% first v) in
        v ← WeakHashLen32WithSeeds s (p + len - tail_done) (first v +% z) (second v);
        city128_tail fuel' s p len tail_done (City x y z v w)
    end
  else Some st.

Definition CityHash128WithSeed (s : list Z) (p len : Z) (seed : uint128) : option uint128 :=
  if len <? 128 then CityMurmur s p len seed
  else
    let x := Uint128Low64 seed in
    let y := Uint128High64 seed in
    let z := len *% k1 in
    f0 ← Fetch64 s p;
    let v1 := Rotate (y ^' k1) 49 *% k1 +% f0 in
    f8 ← Fetch64 s (p + 8);
    let v2 := Rotate v1 42 *% k1 +% f8 in
    let w1 := Rotate (y +% z) 35 *% k1 +% x in
    f88 ← Fetch64 s (p + 88);
    let w2 := Rotate (x +% f88) 53 *% k1 in
    '(p, len, City x y z v w) ←
      city128_loop (Z.to_nat (len / 128)) s p len (City x y z (U128 v1 v2) (U128 w1 w2));
    let x := x +% (Rotate (first v +% z) 49 *% k0) in
    let z := z +% (Rotate (first w) 37 *% k0) in
    '(City x y z v w) ← city128_tail 4 s p len 0 (City x y z v w);
    let x := HashLen16 x (first v) in
    let y := HashLen16 (y +% z) (first w) in
    Some (U128 (HashLen16 (x +% second v) (second w) +% y)
               (HashLen16 (x +% second w) (y +% second v))).

Definition CityHash128 (s : list Z) (p len : Z) : option uint128 :=
  if len >=? 16 then
    f0 ← Fetch64 s p;
    f8 ← Fetch64 s (p + 8);
    CityHash128WithSeed s (p + 16) (len - 16) (U128 (f0 ^' k3) f8)
  else if len >=? 8 then
    f0 ← Fetch64 s p;
    fe ← Fetch64 s (p + len - 8);
    (* the null pointer, with length 0 *)
    CityHash128WithSeed [] 0 0 (U128 (f0 ^' (len *% k0)) (fe ^' k1))
  else CityHash128WithSeed s p len (U128 k0 k1).

(** ** The CRC variants *)

Section Crc.
(** The SSE 4.2 instruction: one step of CRC-32C over a 64-bit word. *)
Variable mm_crc32_u64 : Z -> Z -> Z.

(** The eleven locals of [CityHashCrc256Long] that [CHUNK] updates. *)
Record crc_state := Crc {
  ca : Z; cb : Z; cc : Z; cd : Z; ce : Z; cf : Z; cg : Z; ch : Z; ci : Z; cj : Z; ct : Z }.

(** [CHUNK(multiplier, z)] at pointer [p]; [s += 40] is left to the caller. *)
Definition CHUNK (multiplier zz : Z) (s : list Z) (p : Z) (st : crc_state)
    : option crc_state :=
  let '(Crc a b c d e f g h i j t) := st in
  let old_a := a in
  f0 ← Fetch64 s p;
  let a := Rotate b (41 ^' zz) *% multiplier +% f0 in
  f8 ← Fetch64 s (p + 8);
  let b := Rotate c (27 ^' zz) *% multiplier +% f8 in
  f16 ← Fetch64 s (p + 16);
  let c := Rotate d (41 ^' zz) *% multiplier +% f16 in
  f24 ← Fetch64 s (p + 24);
  let d := Rotate e (33 ^' zz) *% multiplier +% f24 in
  f32 ← Fetch64 s (p + 32);
  let e := Rotate t (25 ^' zz) *% multiplier +% f32 in
  let t := old_a in
  let f := mm_crc32_u64 f a in
  let g := mm_crc32_u64 g b in
  let h := mm_crc32_u64 h c in
  let i := mm_crc32_u64 i d in
  let j := mm_crc32_u64 j e in
  Some (Crc a b c d e f g h i j t).

(** [do { six chunks } while (--iters > 0);] *)
Fixpoint crc_loop (fuel : nat) (s : list Z) (p iters : Z) (st : crc_state)
    : option (Z * crc_state) :=
  match fuel with
  | O => None
  | S fuel' =>
      st ← CHUNK 1 1 s p st;
      st ← CHUNK k0 0 s (p + 40) st;
      st ← CHUNK 1 1 s (p + 80) st;
      st ← CHUNK k0 0 s (p + 120) st;
      st ← CHUNK 1 1 s (p + 160) st;
      st ← CHUNK k0 0 s (p + 200) st;
      let p := p + 240 in
      let iters := iters -% 1 in
      if iters >? 0 then crc_loop fuel' s p iters st else Some (p, st)
  end.

(** [while (len >= 40) { CHUNK(k0, 0); len -= 40; }] *)
Fixpoint crc_rest (fuel : nat) (s : list Z) (p len : Z) (st : crc_state)
    : option (Z * Z * crc_state) :=
  if len >=? 40 then
    match fuel with
    | O => None
    | S fuel' =>
        st ← CHUNK k0 0 s p st;
        crc_rest fuel' s (p + 40) (len - 40) st
    end
  else Some (p, len, st).

(** The four words written to [result]. *)
Definition CityHashCrc256Long (s : list Z) (p len seed : Z) : option (Z * Z * Z * Z) :=
  f56 ← Fetch64 s (p + 56);
  let a := f56 +% k0 in
  f96 ← Fetch64 s (p + 96);
  let b := f96 +% k0 in
  let result0 := HashLen16 b len in
  let c := result0 in
  f120 ← Fetch64 s (p + 120);
  let result1 := f120 *% k0 +% len in
  let d := result1 in
  f184 ← Fetch64 s (p + 184);
  let e := f184 +% seed in
  let f := seed in
  let t := c +% d in
  let iters := len / 240 in
  let len := len - iters * 240 in
  '(p, st) ← crc_loop (Z.to_nat iters) s p iters (Crc a b c d e f 0 0 0 0 t);
  '(p, len, st) ← crc_rest 6 s p len st;
  '(Crc a b c d e f g h i j t) ←
    (if len >? 0 then CHUNK k0 0 s (p + len - 40) st else Some st);
  let j := j +% u64 (i <<' 32) in
  let a := HashLen16 a j in
  let h := h +% u64 (g <<' 32) in
  let b := b +% h in
  let c := HashLen16 c f +% i in
  let d := HashLen16 d (e +% result0) in
  let j := j +% e in
  let i := i +% HashLen16 h t in
  let e := HashLen16 a d +% j in
  let f := HashLen16 b c +% a in
  let g := HashLen16 j i +% c in
  let result0 := e +% f +% g +% h in
  let a := ShiftMix ((a +% g) *% k0) *% k0 +% b in
  let result1 := result1 +% (a +% result0) in
  let a := ShiftMix (a *% k0) *% k0 +% c in
  let result2 := a +% result1 in
  let a := ShiftMix ((a +% e) *% k0) *% k0 in
  let result3 := a +% result2 in
  Some (result0, result1, result2, result3).

Definition CityHashCrc256Short (s : list Z) (p len : Z) : option (Z * Z * Z * Z) :=
  if (0 <=? p) && (p + len <=? Z.of_nat (length s)) then
    let buf := take (Z.to_nat len) (drop (Z.to_nat p) s)
               ++ replicate (Z.to_nat (240 - len)) 0 in
    CityHashCrc256Long buf 0 240 (u32 (Z.lnot (u32 len)))
  else None.

Definition CityHashCrc256 (s : list Z) (p len : Z) : option (Z * Z * Z * Z) :=
  if len >=? 240 then CityHashCrc256Long s p len 0 else CityHashCrc256Short s p len.

Definition CityHashCrc128WithSeed (s : list Z) (p len : Z) (seed : uint128)
    : option uint128 :=
  if len <=? 900 then CityHash128WithSeed s p len seed
  else
    '(r0, r1, r2, r3) ← CityHashCrc256 s p len;
    let u := Uint128High64 seed +% r0 in
    let v := Uint128Low64 seed +% r1 in
    Some (U128 (HashLen16 u (v +% r2)) (HashLen16 (Rotate v 32) (u *% k0 +% r3))).

Definition CityHashCrc128 (s : list Z) (p len : Z) : option uint128 :=
  if len <=? 900 then CityHash128 s p len
  else
    '(r0, r1, r2, r3) ← CityHashCrc256 s p len;
    Some (U128 r2 r3).
End Crc.

(** ** The other hash functions of [hash.h] *)

Definition sbox : list Z :=
  [0xf53e1837; 0x5f14c86b; 0x9ee3964c; 0xfa796d53; 0x32223fc3; 0x4d82bc98;
   0xa0c7fa62; 0x63e2c982; 0x24994a5b; 0x1ece7bee; 0x292b38ef; 0xd5cd4e56;
   0x514f4303; 0x7be12b83; 0x7192f195; 0x82dc7300; 0x084380b4; 0x480b55d3;
   0x5f430471; 0x13f75991; 0x3f9cf22c; 0x2fe0907a; 0xfd8e1e69; 0x7b1d5de8;
   0xd575a85c; 0xad01c50a; 0x7ee00737; 0x3ce981e8; 0x0e447efa; 0x23089dd6;
   0xb59f149f; 0x13600ec7; 0xe802c8e6; 0x670921e4; 0x7207eff0; 0xe74761b0;
   0x69035234; 0xbfa40f19; 0xf63651a0; 0x29e64c26; 0x1f98cca7; 0xd957007e;
   0xe71ddc75; 0x3e729595; 0x7580b7cc; 0xd7faf60b; 0x92484323; 0xa44113eb;
   0xe4cbde08; 0x346827c9; 0x3cf32afa; 0x0b29bcf1; 0x6e29f7df; 0xb01e71cb;
   0x3bfbc0d1; 0x62edc5b8; 0xb7de789a; 0xa4748ec9; 0xe17a4c4f; 0x67e5bd03;
   0xf3b33d1a; 0x97d8d3e9; 0x09121bc0; 0x347b2d2c; 0x79a1913c; 0x504172de;
   0x7f1f8483; 0x13ac3cf6; 0x7a2094db; 0xc778fa12; 0xadf7469f; 0x21786b7b;
   0x71a445d0; 0xa8896c1b; 0x656f62fb; 0x83a059b3; 0x972dfe6e; 0x4122000c;
   0x97d9da19; 0x17d5947b; 0xb1affd0c; 0x6ef83b97; 0xaf7f780b; 0x4613138a;
   0x7c3e73a6; 0xcf15e03d; 0x41576322; 0x672df292; 0xb658588d; 0x33ebefa9;
   0x938cbf06; 0x06b67381; 0x07f192c6; 0x2bda5855; 0x348ee0e8; 0x19dbb6e3;
   0x3222184b; 0xb69d5dba; 0x7e760b88; 0xaf4d8154; 0x007a51ad; 0x35112500;
   0xc9cd2d7d; 0x4f4fb761; 0x694772e3; 0x694c8351; 0x4a7e3af5; 0x67d65ce1;
   0x9287de92; 0x2518db3c; 0x8cb4ec06; 0xd154d38f; 0xe19a26bb; 0x295ee439;
   0xc50a1104; 0x2153c6a7; 0x82366656; 0x0713bc2f; 0x6462215a; 0x21d9bfce;
   0xba8eace6; 0xae2df4c1; 0x2a8d5e80; 0x3f7e52d1; 0x29359399; 0xfea1d19c;
   0x18879313; 0x455afa81; 0xfadfe838; 0x62609838; 0xd1028839; 0x0736e92f;
   0x3bca22a3; 0x1485b08a; 0x2da7900b; 0x852c156d; 0xe8f24803; 0x00078472;
   0x13f0d332; 0x2acfd0cf; 0x5f747f5c; 0x87bb1e2f; 0xa7efcb63; 0x23f432f0;
   0xe6ce7c5c; 0x1f954ef6; 0xb609c91b; 0x3b4571bf; 0xeed17dc0; 0xe556cda0;
   0xa7846a8d; 0xff105f94; 0x52b7ccde; 0x0e33e801; 0x664455ea; 0xf2c70414;
   0x73e7b486; 0x8f830661; 0x8b59e826; 0xbb8aedca; 0xf3d70ab9; 0xd739f2b9;
   0x4a04c34a; 0x88d0f089; 0xe02191a2; 0xd89d9c78; 0x192c2749; 0xfc43a78f;
   0x0aac88cb; 0x9438d42d; 0x9e280f7a; 0x36063802; 0x38e8d018; 0x1c42a9cb;
   0x92aaff6c; 0xa24820c5; 0x007f077f; 0xce5bc543; 0x69668d58; 0x10d6ff74;
   0xbe00f621; 0x21300bbe; 0x2e9e8f46; 0x5acea629; 0xfa1f86c7; 0x52f206b8;
   0x3edf1a75; 0x6da8d843; 0xcf719928; 0x73e3891f; 0xb4b95dd6; 0xb2a42d27;
   0xeda20bbf; 0x1a58dbdf; 0xa449ad03; 0x6ddef22b; 0x900531e6; 0x3d3bff35;
   0x5b24aba2; 0x472b3e4c; 0x387f2d75; 0x4d8dba36; 0x71cb5641; 0xe3473f3f;
   0xf6cd4b7f; 0xbf7d1428; 0x344b64d0; 0xc5cdfcb6; 0xfe2e0182; 0x2c37a673;
   0xde4eb7a3; 0x63fdc933; 0x01dc4063; 0x611f3571; 0xd167bfaf; 0x4496596f;
   0x3dee0689; 0xd8704910; 0x7052a114; 0x068c9ec5; 0x75d0e766; 0x4d54cc20;
   0xb44ecde2; 0x4abc653e; 0x2c550a21; 0x1a52c0db; 0xcfed03d0; 0x119bafe2;
   0x876a6133; 0xbc232088; 0x435ba1b2; 0xae99bbfa; 0xbb4f08e4; 0xa62b5f49;
   0x1da4b695; 0x336b84de; 0xdc813d31; 0x00c134fb; 0x397a98e6; 0x151f0e64;
   0xd9eb3e69; 0xd3c7df60; 0xd2f2c336; 0x2ddd067b; 0xbd122835; 0xb0b3bd3a;
   0xb0d54e46; 0x8641f1e4; 0xa0b38f96; 0x51d39199; 0x37a6ad75; 0xdf84ee41;
   0x3c034cba; 0xacda62fc; 0x11923b8b; 0x45ef170a].

(** [sbox[*key]] *)
Definition sbox_at (s : list Z) (p : Z) : option Z := b ← fetch8 s p; sbox !! Z.to_nat b.

(** [while (len) { len--; h ^= sbox[*key]; key++; }] *)
Fixpoint tab_loop (len : nat) (s : list Z) (p h : Z) : option Z :=
  match len with
  | O => Some h
  | S len' => e ← sbox_at s p; tab_loop len' s (p + 1) (h ^' e)
  end.

Definition tab_hash (key : list Z) (len : nat) : option Z := tab_loop len key 0 4294967291.

Fixpoint sbox_loop (len : nat) (s : list Z) (p h : Z) : option Z :=
  match len with
  | O => Some h
  | S len' =>
      e ← sbox_at s p;
      let h := h ^' e in
      let h := u32 (h * 3) in
      sbox_loop len' s (p + 1) h
  end.

Definition sbox_hash (key : list Z) (len : nat) : option Z := sbox_loop len key 0 4294967291.

(** A failed [assert] is [None]. *)
Definition noop_hash (key : list Z) (len : nat) : option Z :=
  if decide (len = 8%nat) then Fetch64 key 0 else None.

Definition mul_hash (key : list Z) (len : nat) : option Z :=
  if decide (len = 8%nat) then k ← Fetch64 key 0; Some (k *% 18446744073709551557) else None.

(** [hash.h]'s choice of hash function. *)
Definition hash (key : list Z) (len : Z) : option Z := CityHash64 key 0 len.

(** Reference value: the published CityHash64 of the empty string. *)
Example CityHash64_empty : CityHash64 [] 0 0 = Some 0x9ae16a3b2f90404f.
Proof. reflexivity. Qed.

(** ** Reads stay inside the string *)

(** [in_str s p len]: the pointer [p] and the length [len] denote part of [s]. *)
Definition in_str (s : list Z) (p len : Z) : Prop := 0 <= p /\ p + len <= Z.of_nat (length s).

Lemma fetch_bind {A} n s p (k : Z -> option A) :
  in_str s p n -> (forall x, is_Some (k x)) -> is_Some (fetch n s p ≫= k).
Proof.
  intros [H1 H2] Hk. unfold fetch.
  rewrite (proj2 (Z.leb_le _ _) H1), (proj2 (Z.leb_le _ _) H2). apply Hk.
Qed.

Lemma bind_is_Some {A B} (o : option A) (k : A -> option B) :
  is_Some o -> (forall x, is_Some (k x)) -> is_Some (o ≫= k).
Proof. intros [x ->] Hk. apply Hk. Qed.

Create HintDb city.

(** Discharge the reads of a body one after the other. *)
Ltac fetches :=
  repeat first
    [ by eauto
    | progress (intros; cbv zeta)
    | match goal with
      | |- is_Some (fetch8 _ _ ≫= _) => apply fetch_bind; [unfold in_str in *; lia|]
      | |- is_Some (Fetch32 _ _ ≫= _) => apply fetch_bind; [unfold in_str in *; lia|]
      | |- is_Some (Fetch64 _ _ ≫= _) => apply fetch_bind; [unfold in_str in *; lia|]
      | |- is_Some (_ ≫= _) => apply bind_is_Some; [by auto with city|]
      end ].

Lemma HashLen0to16_total s p len :
  0 <= len <= 16 -> in_str s p len -> is_Some (HashLen0to16 s p len).
Proof.
  intros ??. unfold HashLen0to16.
  destruct (Z.gtb_spec len 8); [fetches|].
  destruct (Z.geb_spec len 4); [fetches|].
  destruct (Z.gtb_spec len 0); [|by eauto].
  assert (0 <= len >>' 1 < len) by (rewrite Z.shiftr_div_pow2 by lia; zlia). fetches.
Qed.

Lemma weak_total s p a b : in_str s p 32 -> is_Some (WeakHashLen32WithSeeds s p a b).
Proof. intros ?. unfold WeakHashLen32WithSeeds. fetches. Qed.

#[export] Hint Extern 1 (is_Some (WeakHashLen32WithSeeds _ _ _ _)) =>
  (apply weak_total; unfold in_str in *; lia) : city.

Lemma city64_body_total s p st : in_str s p 64 -> is_Some (city64_body s p st).
Proof. intros ?. destruct st as [x y z v w]. unfold city64_body. fetches. Qed.

#[export] Hint Extern 1 (is_Some (city64_body _ _ _)) =>
  (apply city64_body_total; unfold in_str in *; lia) : city.

Lemma HashLen17to32_total s p len :
  16 < len <= 32 -> in_str s p len -> is_Some (HashLen17to32 s p len).
Proof. intros ??. unfold HashLen17to32. fetches. Qed.

Lemma HashLen33to64_total s p len :
  32 < len <= 64 -> in_str s p len -> is_Some (HashLen33to64 s p len).
Proof. intros ??. unfold HashLen33to64. fetches. Qed.

Lemma u64_sub a b : 0 <= b <= a -> a < 2 ^ 64 -> a -% b = a - b.
Proof. intros. apply wrap_small. lia. Qed.

Lemma round_down64 len : 0 < len -> (len - 1) &' Z.lnot 63 = 64 * ((len - 1) / 64).
Proof.
  intros. change 63 with (Z.ones 6). rewrite <- Z.ldiff_land, Z.ldiff_ones_r by lia.
  rewrite Z.shiftl_mul_pow2, Z.shiftr_div_pow2 by lia. change (2 ^ 6) with 64. lia.
Qed.

Lemma city64_loop_total n s : forall p st,
  (0 < n)%nat -> 64 * Z.of_nat n < 2 ^ 64 -> in_str s p (64 * Z.of_nat n) ->
  is_Some (city64_loop n s p (64 * Z.of_nat n) st).
Proof.
  induction n as [|n IH]; intros p st Hn Hlen Hin; [lia|]. cbn [city64_loop].
  apply bind_is_Some; [auto with city|]. intros st'.
  rewrite u64_sub by lia.
  replace (64 * Z.of_nat (S n) - 64) with (64 * Z.of_nat n) by lia.
  destruct (Z.eqb_spec (64 * Z.of_nat n) 0); [by eauto|].
  apply IH; [lia..|]. unfold in_str in *. lia.
Qed.

Lemma CityHash64_defined s p len :
  0 <= len < 2 ^ 64 -> in_str s p len -> is_Some (CityHash64 s p len).
Proof.
  intros Hlen Hin. unfold CityHash64.
  destruct (Z.leb_spec len 32).
  { destruct (Z.leb_spec len 16);
      [apply HashLen0to16_total | apply HashLen17to32_total]; (done || lia). }
  destruct (Z.leb_spec len 64); [by apply HashLen33to64_total|].
  fetches. rewrite u64_sub, round_down64 by lia.
  replace (64 * ((len - 1) / 64) / 64) with ((len - 1) / 64)
    by (rewrite Z.mul_comm, Z.div_mul; lia).
  pose proof (Z.div_le_lower_bound (len - 1) 64 1 ltac:(lia) ltac:(lia)).
  pose proof (Z.mul_div_le (len - 1) 64 ltac:(lia)).
  apply bind_is_Some; [|intros [] ; by eauto].
  replace (64 * ((len - 1) / 64)) with (64 * Z.of_nat (Z.to_nat ((len - 1) / 64))) by lia.
  apply city64_loop_total; unfold in_str in *; lia.
Qed.

Lemma HashLen16_range u v : 0 <= HashLen16 u v < 2 ^ 64.
Proof. apply wrap_range. lia. Qed.

#[export] Hint Resolve HashLen16_range : city.

Lemma fetch_range n s p v :
  0 <= n -> Forall (fun b => 0 <= b < 2 ^ 8) s -> fetch n s p = Some v -> 0 <= v < 2 ^ (8 * n).
Proof.
  intros Hn Hs. unfold fetch. destruct (Z.leb_spec 0 p); [|done].
  destruct (Z.leb_spec (p + n) (Z.of_nat (length s))); [|done]. intros [= <-].
  assert (Forall (fun b => 0 <= b < 2 ^ 8) (take (Z.to_nat n) (drop (Z.to_nat p) s))) as Hf
    by (by apply Forall_take, Forall_drop).
  apply le_value_range in Hf. rewrite length_take, length_drop in Hf.
  replace (8 * n) with (8 * Z.of_nat (Z.to_nat n `min` (length s - Z.to_nat p))) by lia. done.
Qed.

Lemma CityHash64_range s p len h :
  Forall (fun b => 0 <= b < 2 ^ 8) s -> CityHash64 s p len = Some h -> 0 <= h < 2 ^ 64.
Proof.
  intros Hs. unfold CityHash64, HashLen0to16, HashLen17to32, HashLen33to64.
  repeat case_match; repeat (intros Hb; try (apply bind_Some in Hb as (? & ? & Hb); revert Hb));
    repeat case_match; simplify_eq;
    first [apply HashLen16_range | apply wrap_range; lia | by (unfold k2; lia) | idtac].
  apply lxor_range; [lia|apply HashLen16_range|].
  by eapply (fetch_range 8); [| |eassumption].
Qed.

Lemma city128_body_total s p st : in_str s p 128 -> is_Some (city128_body s p st).
Proof.
  intros ?. destruct st as [x y z v w]. unfold city128_body. fetches.
Qed.

#[export] Hint Extern 1 (is_Some (city128_body _ _ _)) =>
  (apply city128_body_total; unfold in_str in *; lia) : city.

Lemma murmur_loop_total n s : forall p l a b c d,
  (Z.to_nat l <= n)%nat -> 0 < l < 2 ^ 63 -> in_str s p (l + 16) ->
  is_Some (murmur_loop n s p l a b c d).
Proof.
  induction n as [|n IH]; intros p l a b c d Hn Hl Hin; [lia|]. cbn [murmur_loop].
  fetches. rewrite swrap_small by lia. destruct (Z.gtb_spec (l - 16) 0); [|by eauto].
  apply IH; [lia..|]. unfold in_str in *. lia.
Qed.

Lemma CityMurmur_total s p len seed :
  0 <= len < 2 ^ 63 -> in_str s p len -> is_Some (CityMurmur s p len seed).
Proof.
  intros Hlen Hin. unfold CityMurmur.
  assert (s64 (len -% 16) = len - 16) as ->.
  { unfold swrap. rewrite wrap_mod_pow2 by lia. fold (swrap 64 (len - 16)).
    apply swrap_small; lia. }
  apply bind_is_Some; [|intros [[[]]]; by eauto].
  destruct (Z.leb_spec (len - 16) 0).
  - apply bind_is_Some; [apply HashLen0to16_total; [lia|done]|intros h].
    apply bind_is_Some; [|intros; by eauto].
    destruct (Z.geb_spec len 8); [|by eauto]. replace (Fetch64 s p) with (x ← Fetch64 s p; Some x)
      by (by destruct (Fetch64 s p)). fetches.
  - fetches. apply murmur_loop_total; [lia..|]. unfold in_str in *. lia.
Qed.

Lemma city128_loop_total n s : forall p len st,
  (Z.to_nat (len / 128) <= n)%nat -> 128 <= len < 2 ^ 64 -> in_str s p len ->
  exists p' len' st', city128_loop n s p len st = Some (p', len', st') /\
    p + 128 <= p' /\ 0 <= len' < 128 /\ p' + len' = p + len.
Proof.
  induction n as [|n IH]; intros p len st Hn Hl Hin.
  { pose proof (Z.div_le_lower_bound len 128 1 ltac:(lia) ltac:(lia)). lia. }
  cbn [city128_loop].
  destruct (city128_body_total s p st) as [st' ->]; [unfold in_str in *; lia|].
  cbn [mbind option_bind]. cbv zeta. rewrite u64_sub by lia.
  destruct (Z.geb_spec (len - 128) 128).
  - destruct (IH (p + 128) (len - 128) st') as (p' & len' & st'' & -> & ?).
    + replace (len / 128) with ((len - 128) / 128 + 1) in Hn; [|zlia].
      pose proof (Z.div_pos (len - 128) 128 ltac:(lia) ltac:(lia)). lia.
    + lia.
    + unfold in_str in *. lia.
    + eexists _, _, _. split; [done|]. lia.
  - eexists _, _, _. split; [done|]. lia.
Qed.

Lemma city128_tail_total n s p len : forall tail st,
  len <= tail + 32 * Z.of_nat n -> 0 <= tail <= len + 31 -> 128 <= p -> in_str s p len ->
  is_Some (city128_tail n s p len tail st).
Proof.
  induction n as [|n IH]; intros tail [x y z v w] Hn Ht Hp Hin; cbn [city128_tail].
  { destruct (Z.ltb_spec tail len); [lia|by eauto]. }
  destruct (Z.ltb_spec tail len); [|by eauto].
  fetches. apply IH; (done || lia).
Qed.

Lemma CityHash128WithSeed_total s p len seed :
  0 <= len < 2 ^ 63 -> in_str s p len -> is_Some (CityHash128WithSeed s p len seed).
Proof.
  intros Hlen Hin. unfold CityHash128WithSeed.
  destruct (Z.ltb_spec len 128); [by apply CityMurmur_total|]. fetches.
  match goal with |- is_Some (city128_loop _ _ _ _ ?st ≫= _) =>
    destruct (city128_loop_total (Z.to_nat (len / 128)) s p len st)
      as (p' & len' & [x' y' z' v' w'] & -> & ? & ? & ?) end; [lia|lia|done|].
  cbn [mbind option_bind]. cbv zeta. apply bind_is_Some; [|intros []; by eauto].
  apply city128_tail_total; unfold in_str in *; lia.
Qed.

Lemma CityHash128_defined s p len :
  0 <= len < 2 ^ 63 -> in_str s p len -> is_Some (CityHash128 s p len).
Proof.
  intros Hlen Hin. unfold CityHash128.
  destruct (Z.geb_spec len 16).
  { fetches. apply CityHash128WithSeed_total; unfold in_str in *; lia. }
  destruct (Z.geb_spec len 8); [|by apply CityHash128WithSeed_total].
  fetches.
Qed.

Section CrcTotal.
Context (crc : Z -> Z -> Z).

Lemma CHUNK_total m z s p st : in_str s p 40 -> is_Some (CHUNK crc m z s p st).
Proof. intros ?. destruct st. unfold CHUNK. fetches. Qed.

#[local] Hint Extern 1 (is_Some (CHUNK _ _ _ _ _ _)) =>
  (apply CHUNK_total; unfold in_str in *; lia) : city.

Lemma crc_loop_total n s : forall p iters st,
  (Z.to_nat iters <= n)%nat -> 0 < iters < 2 ^ 64 -> in_str s p (240 * iters) ->
  exists st', crc_loop crc n s p iters st = Some (p + 240 * iters, st').
Proof.
  induction n as [|n IH]; intros p iters st Hn Hi Hin; [lia|]. cbn [crc_loop].
  do 6 (match goal with |- context [CHUNK crc ?m ?z s ?q ?st] =>
          destruct (CHUNK_total m z s q st) as [? ->]; [unfold in_str in *; lia|] end;
        cbn [mbind option_bind]).
  cbv zeta. rewrite u64_sub by lia. destruct (Z.gtb_spec (iters - 1) 0).
  - match goal with |- context [crc_loop _ _ _ _ _ ?st] =>
      destruct (IH (p + 240) (iters - 1) st) as [st' ->] end;
      [lia|lia|unfold in_str in *; lia|]. exists st'. do 2 f_equal. lia.
  - eexists. do 2 f_equal. lia.
Qed.

Lemma crc_rest_total n s : forall p len st,
  len < 40 + 40 * Z.of_nat n -> 0 <= len -> in_str s p len ->
  exists p' len' st', crc_rest crc n s p len st = Some (p', len', st') /\
    p <= p' /\ 0 <= len' < 40 /\ p' + len' = p + len.
Proof.
  induction n as [|n IH]; intros p len st Hn Hl Hin; cbn [crc_rest];
    (destruct (Z.geb_spec len 40); [|eexists _, _, _; split; [done|lia]]); [lia|].
  destruct (CHUNK_total k0 0 s p st) as [st1 ->]; [unfold in_str in *; lia|].
  cbn [mbind option_bind].
  destruct (IH (p + 40) (len - 40) st1) as (p' & len' & st' & -> & ?);
    [lia|lia|unfold in_str in *; lia|]. eexists _, _, _. split; [done|]. lia.
Qed.

Lemma CityHashCrc256_total s p len :
  0 <= len < 2 ^ 63 -> in_str s p len -> is_Some (CityHashCrc256 crc s p len).
Proof.
  assert (forall s p len seed, 240 <= len < 2 ^ 63 -> in_str s p len ->
    is_Some (CityHashCrc256Long crc s p len seed)) as Hlong.
  { clear. intros s p len seed Hlen Hin. unfold CityHashCrc256Long. fetches.
    pose proof (Z.div_le_lower_bound len 240 1 ltac:(lia) ltac:(lia)).
    pose proof (Z.mul_div_le len 240 ltac:(lia)).
    pose proof (Z.mod_pos_bound len 240 ltac:(lia)). rewrite Z.mod_eq in * by lia.
    match goal with |- is_Some (crc_loop _ _ _ _ _ ?st ≫= _) =>
      destruct (crc_loop_total (Z.to_nat (len / 240)) s p (len / 240) st) as [st' ->] end;
      [lia|lia|unfold in_str in *; lia|]. cbn [mbind option_bind].
    destruct (crc_rest_total 6 s (p + 240 * (len / 240)) (len - len / 240 * 240) st')
      as (p' & len' & st'' & -> & ? & ? & ?); [lia|lia|unfold in_str in *; lia|].
    cbn [mbind option_bind]. apply bind_is_Some; [|intros []; by eauto].
    destruct (Z.gtb_spec len' 0); [auto with city|by eauto]. }
  intros Hlen Hin. unfold CityHashCrc256.
  destruct (Z.geb_spec len 240); [apply Hlong; (done || lia)|]. unfold CityHashCrc256Short.
  destruct Hin as [H1 H2]. rewrite (proj2 (Z.leb_le _ _) H1), (proj2 (Z.leb_le _ _) H2).
  apply Hlong; [lia|]. split; [lia|].
  rewrite length_app, length_take, length_drop, length_replicate. lia.
Qed.

Lemma CityHashCrc128_defined s p len :
  0 <= len < 2 ^ 63 -> in_str s p len -> is_Some (CityHashCrc128 crc s p len).
Proof.
  intros Hlen Hin. unfold CityHashCrc128.
  destruct (Z.leb_spec len 900); [by apply CityHash128_defined|].
  apply bind_is_Some; [by apply CityHashCrc256_total|]. intros [[[]]]. by eauto.
Qed.
End CrcTotal.

(** C29: The hash functions of [city.c] return a value for every buffer: their loops
    end and no read leaves the buffer, whatever its length; [CityHash64] is a 64-bit
    integer. *)
Theorem city_hashes_total s crc :
  Forall (fun b => 0 <= b < 2 ^ 8) s -> Z.of_nat (length s) < 2 ^ 63 ->
  let len := Z.of_nat (length s) in
  (exists h, CityHash64 s 0 len = Some h /\ 0 <= h < 2 ^ 64) /\
  is_Some (CityHash128 s 0 len) /\ is_Some (CityHashCrc128 crc s 0 len).
Proof.
  intros Hs Hlen len. assert (in_str s 0 len) by (unfold in_str; lia). split.
  - destruct (CityHash64_defined s 0 len) as [h Hh]; [lia|done|].
    exists h. split; [done|]. by eapply CityHash64_range.
  - split; [apply CityHash128_defined | apply CityHashCrc128_defined]; (done || lia).
Qed.

Lemma city_hashes_total_witness :
  exists h, CityHash64 [1; 2; 3] 0 3 = Some h /\ 0 <= h < 2 ^ 64.
Proof.
  refine (proj1 (city_hashes_total [1; 2; 3] (fun a b => a ^' b) _ _)).
  - repeat (apply Forall_cons_2; [lia|]). apply Forall_nil_2.
  - simpl. lia.
Defined.

(** The loop body of [CityHash128WithSeed], unrolled by hand, hashes 128 bytes as
    two iterations of the loop of [CityHash64] do. *)
Theorem city128_body_unrolled s p st :
  city128_body s p st = st' ← city64_body s p st; city64_body s (p + 64) st'.
Proof.
  destruct st as [x y z v w]. unfold city128_body, city64_body.
  repeat (rewrite option_bind_assoc || (apply option_bind_ext_fun; intros ?)
          || unfold compose; cbv zeta).
  reflexivity.
Qed.
