(* ===== verification/HashMap.v ===== *)
(** * Chained hash map

    [maglev/hashmap.c]: an array of singly linked lists, hashed by MurmurHash.
    A bucket is the list of its nodes, a node the copies of a key (its bytes) and
    of a value (a structure, copied whole by [memcpy]).  [malloc] is assumed to
    succeed, as the code does; [calloc] in [hashmap_init] may fail.

    [hm_rep] relates a map to the finite map it implements; the [Dict] class at
    the end is what the load balancer relies on. *)
From S2P Require Import Prelude Murmur.

Record hashmap (V : Type) := Hashmap {
  hm_buckets : list (list (list Z * V));
  hm_size : Z;
  hm_key_size : Z;
  hm_value_size : Z;
}.
Arguments Hashmap {V}. Arguments hm_buckets {V}. Arguments hm_size {V}.
Arguments hm_key_size {V}. Arguments hm_value_size {V}.

Section hashmap_ops.
Context {V : Type}.
Implicit Types map : hashmap V.
Implicit Types key : list Z.
Implicit Types value : V.

Definition set_bucket map (i : Z) (b : list (list Z * V)) : hashmap V :=
  Hashmap (<[Z.to_nat i := b]> map.(hm_buckets)) map.(hm_size) map.(hm_key_size) map.(hm_value_size).

Definition bucket map (i : Z) : list (list Z * V) := map.(hm_buckets) !!! Z.to_nat i.

(** [memcmp(a, b, n) == 0] *)
Definition memcmp_eq (n : Z) (a b : list Z) : bool :=
  bool_decide (take (Z.to_nat n) a = take (Z.to_nat n) b).

Definition hashmap_hash map key : Z :=
  s32 (murmurhash key map.(hm_key_size) 0 mod map.(hm_size)).

(** The result is (map, return value); [calloc_ok] says whether [calloc] succeeds. *)
Definition hashmap_init (calloc_ok : bool) (key_size value_size max_entries : Z) : hashmap V * Z :=
  if calloc_ok then
    (Hashmap (replicate (Z.to_nat max_entries) []) max_entries key_size value_size, 1)
  else (Hashmap [] max_entries key_size value_size, 0).

(** The [while (entry)] loops. *)
Fixpoint find_entry (n : Z) (es : list (list Z * V)) key : option V :=
  match es with
  | [] => None
  | (k, v) :: es' => if memcmp_eq n k key then Some v else find_entry n es' key
  end.

Fixpoint update_entry (n : Z) (es : list (list Z * V)) key value : list (list Z * V) :=
  match es with
  | [] => []
  | (k, v) :: es' =>
      if memcmp_eq n k key then (k, value) :: es' else (k, v) :: update_entry n es' key value
  end.

Fixpoint delete_entry (n : Z) (es : list (list Z * V)) key : list (list Z * V) :=
  match es with
  | [] => []
  | (k, v) :: es' => if memcmp_eq n k key then es' else (k, v) :: delete_entry n es' key
  end.

Definition hashmap_insert_elem map key value : hashmap V * Z :=
  let hash := hashmap_hash map key in
  match find_entry map.(hm_key_size) (bucket map hash) key with
  | Some _ => (map, 0)
  | None =>
      (set_bucket map hash ((take (Z.to_nat map.(hm_key_size)) key, value) :: bucket map hash), 1)
  end.

Definition hashmap_lookup_elem map key : option V :=
  find_entry map.(hm_key_size) (bucket map (hashmap_hash map key)) key.

Definition hashmap_update_elem map key value : hashmap V :=
  let hash := hashmap_hash map key in
  set_bucket map hash (update_entry map.(hm_key_size) (bucket map hash) key value).

Definition hashmap_delete_elem map key : hashmap V :=
  let hash := hashmap_hash map key in
  set_bucket map hash (delete_entry map.(hm_key_size) (bucket map hash) key).

(** Number of [free] calls: three per node and one for the bucket array. *)
Definition hashmap_free map : Z :=
  foldr (fun b n => 3 * Z.of_nat (length b) + n) 1 (take (Z.to_nat map.(hm_size)) map.(hm_buckets)).

(** ** Representation *)

Record hm_wf map : Prop := {
  hw_size : 0 < map.(hm_size) < 2 ^ 31;
  hw_key : 0 <= map.(hm_key_size);
  hw_len : Z.of_nat (length map.(hm_buckets)) = map.(hm_size);
  hw_keys : forall i es k v, map.(hm_buckets) !! i = Some es -> (k, v) ∈ es ->
    Z.of_nat (length k) = map.(hm_key_size) /\ hashmap_hash map k = Z.of_nat i;
  hw_nodup : forall i es, map.(hm_buckets) !! i = Some es -> NoDup es.*1;
}.

Definition valid_key map key : Prop := Z.of_nat (length key) = map.(hm_key_size).

Record hm_rep map (g : gmap (list Z) V) : Prop := {
  hr_wf : hm_wf map;
  hr_lookup : forall key, valid_key map key -> hashmap_lookup_elem map key = g !! key;
  hr_valid : forall key, is_Some (g !! key) -> valid_key map key;
}.

Lemma take_valid map key : valid_key map key -> take (Z.to_nat map.(hm_key_size)) key = key.
Proof. unfold valid_key. intros H. apply take_ge. lia. Qed.

Lemma memcmp_eq_valid map a b :
  valid_key map a -> valid_key map b -> memcmp_eq map.(hm_key_size) a b = bool_decide (a = b).
Proof. intros Ha Hb. unfold memcmp_eq. by rewrite !take_valid. Qed.

Lemma hash_bucket map key :
  hm_wf map -> exists es, map.(hm_buckets) !! Z.to_nat (hashmap_hash map key) = Some es /\
    bucket map (hashmap_hash map key) = es /\ 0 <= hashmap_hash map key.
Proof.
  intros [Hs _ Hl _ _]. unfold bucket, hashmap_hash.
  pose proof (Z.mod_pos_bound (murmurhash key (hm_key_size map) 0) (hm_size map)).
  rewrite swrap_small by lia.
  destruct (lookup_lt_is_Some_2 map.(hm_buckets)
    (Z.to_nat (murmurhash key (hm_key_size map) 0 mod hm_size map))) as [es Hes]; [lia|].
  exists es. split; [done|]. split; [by apply list_lookup_total_correct|lia].
Qed.

Lemma find_entry_spec map es key :
  valid_key map key -> (forall k v, (k, v) ∈ es -> valid_key map k) -> NoDup es.*1 ->
  forall v, find_entry map.(hm_key_size) es key = Some v <-> (key, v) ∈ es.
Proof.
  intros Hk. induction es as [|[k w] es IH]; intros Hes Hnd v; simpl.
  { split; [done|]. by intros ?%not_elem_of_nil. }
  assert (valid_key map k) as Hkv by (apply (Hes k w); by left).
  rewrite (memcmp_eq_valid map) by done. apply NoDup_cons in Hnd as [Hni Hnd].
  rewrite elem_of_cons. case_bool_decide as Hkk.
  - subst k. split; [intros [= ->]; by left|]. intros [[= <-]|Hin]; [done|].
    exfalso. apply Hni. apply list_elem_of_fmap. by exists (key, v).
  - rewrite IH; [|intros k' v' ?; apply (Hes k' v'); by right|done].
    split; [by right|]. intros [[= ? ?]|?]; [congruence|done].
Qed.

Lemma rep_bucket map g key :
  hm_rep map g -> valid_key map key ->
  let es := bucket map (hashmap_hash map key) in
  map.(hm_buckets) !! Z.to_nat (hashmap_hash map key) = Some es /\
  (forall k v, (k, v) ∈ es -> valid_key map k) /\ NoDup es.*1 /\
  forall v, g !! key = Some v <-> (key, v) ∈ es.
Proof.
  intros [Hwf Hl _] Hk. destruct (hash_bucket map key Hwf) as (es & Hes & Hb & _).
  simpl. rewrite Hb. pose proof Hwf as [_ _ _ Hks Hnd].
  assert (forall k v, (k, v) ∈ es -> valid_key map k) as Hv by (intros; by eapply Hks).
  split; [done|]. split; [done|]. split; [by eauto|]. intros v.
  rewrite <- Hl by done. unfold hashmap_lookup_elem. rewrite Hb.
  apply find_entry_spec; eauto.
Qed.

Lemma hash_set_bucket map i es k : hashmap_hash (set_bucket map i es) k = hashmap_hash map k.
Proof. unfold hashmap_hash. cbn [hm_key_size hm_size set_bucket]. done. Qed.

(** Replacing the bucket of [key] changes the lookup of the keys of that bucket only. *)
Lemma rep_set_bucket map g g' key es' :
  hm_rep map g -> valid_key map key ->
  (forall k v, (k, v) ∈ es' -> valid_key map k /\ hashmap_hash map k = hashmap_hash map key) ->
  NoDup es'.*1 ->
  (forall k v, valid_key map k ->
     hashmap_hash map k = hashmap_hash map key -> g' !! k = Some v <-> (k, v) ∈ es') ->
  (forall k, hashmap_hash map k <> hashmap_hash map key -> g' !! k = g !! k) ->
  (forall k, is_Some (g' !! k) -> valid_key map k) ->
  hm_rep (set_bucket map (hashmap_hash map key) es') g'.
Proof.
  intros Hrep Hk Hes' Hnd' Hin Hout Hval'.
  pose proof (hr_wf _ _ Hrep) as Hwf.
  destruct (hash_bucket map key Hwf) as (es & Hes & _ & Hh0).
  pose proof Hwf as [Hs Hks Hl Hkeys Hnd].
  set (map' := set_bucket map (hashmap_hash map key) es').
  assert (hm_wf map') as Hwf'.
  { split; simpl; try done; [by rewrite length_insert| |].
    - intros i es0 k v [(<- & -> & _)|[_ Hi]]%list_lookup_insert_Some Hkv.
      + apply Hes' in Hkv as [? Hkh]. split; [done|]. subst map'. rewrite hash_set_bucket. lia.
      + subst map'. rewrite hash_set_bucket. by eapply Hkeys.
    - intros i es0 [(<- & -> & _)|[_ Hi]]%list_lookup_insert_Some; [done|by eauto]. }
  split; [done| |done].
  intros k Hkv. unfold hashmap_lookup_elem. subst map'. rewrite hash_set_bucket.
  set (map' := set_bucket _ _ _).
  destruct (hash_bucket map k Hwf) as (esk & Hesk & Hbk & Hhk0).
  destruct (decide (hashmap_hash map k = hashmap_hash map key)) as [He|Hne].
  - assert (bucket map' (hashmap_hash map k) = es') as ->.
    { unfold bucket, map'. simpl. rewrite He. apply list_lookup_total_insert_eq.
      by eapply lookup_lt_Some. }
    apply option_eq. intros v. rewrite Hin by done.
    apply (find_entry_spec map); [done| |done]. intros k' v' Hk'. by apply Hes' in Hk' as [? _].
  - assert (bucket map' (hashmap_hash map k) = bucket map (hashmap_hash map k)) as ->.
    { unfold bucket, map'. simpl. apply list_lookup_total_insert_ne. lia. }
    rewrite Hout by done. by apply (hr_lookup _ _ Hrep).
Qed.

Lemma rep_keys map g key k v :
  hm_rep map g -> (k, v) ∈ bucket map (hashmap_hash map key) ->
  hashmap_hash map k = hashmap_hash map key.
Proof.
  intros Hrep Hin. destruct (hash_bucket map key (hr_wf _ _ Hrep)) as (es & Hes & Hb & ?).
  rewrite Hb in Hin. destruct (hw_keys _ (hr_wf _ _ Hrep) _ _ _ _ Hes Hin) as [_ ->]. lia.
Qed.

(** ** The operations on the represented map *)

Lemma insert_new map g key value :
  hm_rep map g -> valid_key map key -> g !! key = None ->
  exists map', hashmap_insert_elem map key value = (map', 1) /\ hm_rep map' (<[key := value]> g).
Proof.
  intros Hrep Hk Hnone. unfold hashmap_insert_elem.
  destruct (rep_bucket map g key Hrep Hk) as (Hes & Hval & Hnd & Hin).
  destruct (find_entry _ _ key) as [v|] eqn:Hf.
  { exfalso. apply (find_entry_spec map) in Hf; [|done..]. apply Hin in Hf. congruence. }
  eexists. split; [done|]. rewrite take_valid by done.
  apply (rep_set_bucket map g); try done.
  - intros k v [[= -> ->]|Hkv]%elem_of_cons; [done|]. split; [by eapply Hval|by eapply rep_keys].
  - csimpl. apply NoDup_cons. split; [|done].
    intros ([k v] & Hkk & Hkv)%list_elem_of_fmap. simpl in Hkk. subst k. apply Hin in Hkv. congruence.
  - intros k v Hkv Hh. rewrite elem_of_cons. destruct (decide (k = key)) as [->|Hne].
    + rewrite lookup_insert_eq. split; [intros [= ->]; by left|].
      intros [[= ->]|Hkv']; [done|]. apply Hin in Hkv'. congruence.
    + rewrite lookup_insert_ne by done. destruct (rep_bucket map g k Hrep Hkv) as (_ & _ & _ & Hink).
      rewrite Hink, Hh. split; [by right|]. intros [[= ? ?]|?]; [congruence|done].
  - intros k Hh. by rewrite lookup_insert_ne by congruence.
  - intros k. rewrite lookup_insert. case_decide; [by subst|]. apply (hr_valid _ _ Hrep).
Qed.

Lemma insert_old map g key value :
  hm_rep map g -> valid_key map key -> is_Some (g !! key) ->
  hashmap_insert_elem map key value = (map, 0).
Proof.
  intros Hrep Hk [v Hv]. unfold hashmap_insert_elem.
  destruct (rep_bucket map g key Hrep Hk) as (Hes & Hval & Hnd & Hin).
  apply Hin, (find_entry_spec map) in Hv; [|done..]. by rewrite Hv.
Qed.

Lemma update_entry_elem map es key value k v :
  valid_key map key -> (forall k v, (k, v) ∈ es -> valid_key map k) -> NoDup es.*1 ->
  (k, v) ∈ update_entry map.(hm_key_size) es key value <->
  if decide (k = key) then v = value /\ exists v', (key, v') ∈ es else (k, v) ∈ es.
Proof.
  intros Hk. induction es as [|[k' w] es IH]; intros Hes Hnd; simpl.
  { case_decide; set_solver. }
  assert (valid_key map k') as Hkv by (apply (Hes k' w); by left).
  rewrite (memcmp_eq_valid map) by done. apply NoDup_cons in Hnd as [Hni Hnd].
  case_bool_decide as Hkk.
  - subst k'. rewrite elem_of_cons. case_decide as Hd.
    + subst k. split; [|intros [-> _]; by left].
      intros [[= ->]|Hin]; [split; [done|]; exists w; by left|].
      exfalso. apply Hni, list_elem_of_fmap. by exists (key, v).
    + rewrite elem_of_cons. split; intros [[= ? ?]|?]; try congruence; by right.
  - rewrite elem_of_cons, IH; [|intros k0 v0 ?; apply (Hes k0 v0); by right|done].
    case_decide as Hd.
    + subst k. setoid_rewrite elem_of_cons. split.
      * intros [[= ? ?]|[? [v' ?]]]; [congruence|]. eauto.
      * intros [? [v' [[= ? ?]|?]]]; [congruence|]. eauto.
    + by rewrite elem_of_cons.
Qed.

Lemma update_entry_keys map es key value :
  (update_entry map.(hm_key_size) es key value).*1 = es.*1.
Proof.
  induction es as [|[k w] es IH]; [done|]. simpl. destruct (memcmp_eq _ _ _); csimpl; [done|].
  by rewrite IH.
Qed.

Lemma update_spec map g key value :
  hm_rep map g -> valid_key map key ->
  hm_rep (hashmap_update_elem map key value) (alter (fun _ => value) key g).
Proof.
  intros Hrep Hk. unfold hashmap_update_elem.
  destruct (rep_bucket map g key Hrep Hk) as (Hes & Hval & Hnd & Hin).
  apply (rep_set_bucket map g); try done.
  - intros k v Hkv. apply update_entry_elem in Hkv; [|done..].
    case_decide; [by subst|]. split; [by eapply Hval|by eapply rep_keys].
  - by rewrite update_entry_keys.
  - intros k v Hkv Hh. rewrite update_entry_elem by done. rewrite lookup_alter.
    destruct (rep_bucket map g k Hrep Hkv) as (_ & _ & _ & Hink). rewrite Hh in Hink.
    destruct (decide (k = key)) as [->|Hne]; [|rewrite decide_False by congruence; done].
    rewrite decide_True by done.
    destruct (g !! key) as [w|] eqn:Hg; simpl.
    + split; [intros [= <-]|intros [-> _]; done]. split; [done|]. exists w. by apply Hin.
    + split; [done|]. intros [_ [v' Hv']]. apply Hin in Hv'. congruence.
  - intros k Hh. rewrite lookup_alter_ne; [done|congruence].
  - intros k. rewrite lookup_alter. case_decide; [by subst|]. apply (hr_valid _ _ Hrep).
Qed.

Lemma delete_entry_elem map es key k v :
  valid_key map key -> (forall k v, (k, v) ∈ es -> valid_key map k) -> NoDup es.*1 ->
  (k, v) ∈ delete_entry map.(hm_key_size) es key <-> k <> key /\ (k, v) ∈ es.
Proof.
  intros Hk. induction es as [|[k' w] es IH]; intros Hes Hnd; simpl; [set_solver|].
  assert (valid_key map k') as Hkv by (apply (Hes k' w); by left).
  rewrite (memcmp_eq_valid map) by done. apply NoDup_cons in Hnd as [Hni Hnd].
  case_bool_decide as Hkk.
  - subst k'. rewrite elem_of_cons. split.
    + intros Hin. split; [|by right]. intros ->. apply Hni, list_elem_of_fmap. by exists (key, v).
    + intros [? [[= ? ?]|?]]; [congruence|done].
  - rewrite !elem_of_cons, IH; [|intros k0 v0 ?; apply (Hes k0 v0); by right|done].
    split; [intros [[= -> ->]|[? ?]]; eauto|]. intros [? [?|?]]; eauto.
Qed.

Lemma delete_entry_sublist map es key :
  sublist (delete_entry map.(hm_key_size) es key).*1 es.*1.
Proof.
  induction es as [|[k w] es IH]; [done|]. simpl. destruct (memcmp_eq _ _ _); csimpl.
  - by apply sublist_cons.
  - by apply sublist_skip.
Qed.

Lemma delete_spec map g key :
  hm_rep map g -> valid_key map key -> hm_rep (hashmap_delete_elem map key) (delete key g).
Proof.
  intros Hrep Hk. unfold hashmap_delete_elem.
  destruct (rep_bucket map g key Hrep Hk) as (Hes & Hval & Hnd & Hin).
  apply (rep_set_bucket map g); try done.
  - intros k v Hkv. apply delete_entry_elem in Hkv as [_ Hkv]; [|done..].
    split; [by eapply Hval|by eapply rep_keys].
  - eapply sublist_NoDup; [done|apply delete_entry_sublist].
  - intros k v Hkv Hh. rewrite delete_entry_elem by done. rewrite lookup_delete_Some.
    destruct (rep_bucket map g k Hrep Hkv) as (_ & _ & _ & Hink). rewrite Hh in Hink.
    rewrite Hink. naive_solver.
  - intros k Hh. by rewrite lookup_delete_ne by congruence.
  - intros k [v [_ Hv]%lookup_delete_Some]. by apply (hr_valid _ _ Hrep); eauto.
Qed.

Lemma init_spec key_size value_size max_entries :
  0 <= key_size -> 0 < max_entries < 2 ^ 31 ->
  snd (hashmap_init true key_size value_size max_entries) = 1 /\
  hm_rep (fst (hashmap_init true key_size value_size max_entries)) ∅.
Proof.
  intros Hk Hm. split; [done|]. split.
  - split; simpl; try done; [rewrite length_replicate; lia| |].
    + intros i es k v [-> _]%lookup_replicate Hin. by apply not_elem_of_nil in Hin.
    + intros i es [-> _]%lookup_replicate. constructor.
  - intros key Hkey. unfold hashmap_lookup_elem, bucket. rewrite lookup_empty. simpl.
    match goal with |- context [replicate ?n [] !!! ?i] =>
      assert (replicate n (@nil (list Z * V)) !!! i = []) as -> end; [|done].
    rewrite list_lookup_total_alt. match goal with |- default _ ?o = _ => destruct o as [es|] eqn:E end;
      [|done]. by apply lookup_replicate in E as [-> _].
  - intros key [? ?]. by rewrite lookup_empty in *.
Qed.

End hashmap_ops.

(** ** Interface

    What a client of the map uses, on keys given by their bytes, and what it may
    rely on: [rep] relates a dictionary with keys of [n] bytes to a finite map. *)
Class Dict (V M : Type) := {
  dict_lookup : M -> list Z -> option V;
  dict_insert : M -> list Z -> V -> M * Z;
}.

Class DictLaws (V M : Type) `{Dict V M} (n : Z) (rep : M -> gmap (list Z) V -> Prop) : Prop := {
  dict_lookup_law m g k : Z.of_nat (length k) = n -> rep m g -> dict_lookup m k = g !! k;
  dict_insert_new m g k v : Z.of_nat (length k) = n -> rep m g -> g !! k = None ->
    exists m', dict_insert m k v = (m', 1) /\ rep m' (<[k := v]> g);
  dict_insert_old m g k v : Z.of_nat (length k) = n -> rep m g -> is_Some (g !! k) ->
    dict_insert m k v = (m, 0);
}.

(** The finite map is its own reference implementation. *)
#[export] Instance gmap_dict V : Dict V (gmap (list Z) V) := {
  dict_lookup g k := g !! k;
  dict_insert g k v := match g !! k with Some _ => (g, 0) | None => (<[k := v]> g, 1) end;
}.

#[export] Instance gmap_dict_laws V n : DictLaws V (gmap (list Z) V) n eq.
Proof.
  split; cbn [dict_lookup dict_insert gmap_dict].
  - by intros m g k _ ->.
  - intros m g k v _ -> ->. by eexists.
  - by intros m g k v _ -> [w ->].
Qed.

#[export] Instance hashmap_dict V : Dict V (hashmap V) := {
  dict_lookup := hashmap_lookup_elem;
  dict_insert := hashmap_insert_elem;
}.

Definition hm_rep_n {V} (n : Z) (map : hashmap V) (g : gmap (list Z) V) : Prop :=
  hm_rep map g /\ map.(hm_key_size) = n.

#[export] Instance hashmap_dict_laws V n : DictLaws V (hashmap V) n (hm_rep_n n).
Proof.
  split; cbn [dict_lookup dict_insert hashmap_dict].
  - intros m g k Hk [Hrep Hn]. apply (hr_lookup _ _ Hrep). unfold valid_key. by rewrite Hn.
  - intros m g k v Hk [Hrep Hn] Hg.
    destruct (insert_new m g k v Hrep) as (m' & He & Hr); [unfold valid_key; by rewrite Hn|done|].
    exists m'. split; [done|]. split; [done|].
    unfold hashmap_insert_elem in He. destruct (find_entry _ _ _); [done|]. by injection He as <-.
  - intros m g k v Hk [Hrep Hn] Hg. apply (insert_old m g); try done.
    unfold valid_key. by rewrite Hn.
Qed.
