(* ===== verification/Maglev.v ===== *)
(** * The Maglev lookup table

    [configure], which [toasty.c] and [maglev/main.c] share: every backend has a
    preference list of the table slots; in turn, each takes its next preferred
    slot that is still free.  The table size is a parameter here ([M]) and
    [MAGLEV_LOOKUP_SIZE] in the program.

    The sum [offset + j * skip] leaves [int] for large skips, which is undefined in C; the
    model takes the two's-complement result that the target's instructions give
    ([perm_entry]).  [maglev_rows_permute] says exactly for which rows this costs them a slot,
    and [configure_balanced] what the table is for any rows, those of the program included. *)
From Stdlib Require Import Znumtheory.
From S2P Require Import Prelude Murmur.

Definition MAGLEV_LOOKUP_SIZE : Z := 65537.

Section configure.
Context (M : Z).

(** [offset] and [skip] of backend [i]; C's [%] is [Z.rem]. *)
Definition row_params (i : Z) : Z * Z :=
  let hashval := s32 (murmurhash (le_bytes 4 i) 4 0) in
  let offset := Z.rem hashval M in
  let skip := Z.rem hashval (M - 1) + 1 in
  (offset, skip).

(** [permutation[i][j]]; a product or sum that overflows wraps around (undefined in C). *)
Definition perm_entry (row : Z * Z) (j : Z) : Z :=
  let '(offset, skip) := row in
  Z.rem (Z.rem (s32 (offset + s32 (j * skip))) M + M) M.

Record cfg_state := CfgState {
  bkd_mapping : gmap Z Z;
  next : list Z;
  filled : Z;
}.

(** [while (bkd_mapping[c] >= 0) { ... }]: ([next[i]], [c]) afterwards. *)
Fixpoint skip_taken (fuel : nat) (row : Z * Z) (mapping : gmap Z Z) (ni c : Z) : option (Z * Z) :=
  match fuel with
  | O => None
  | S fuel' =>
      if 0 <=? mapping !!! c then
        let ni := ni + 1 in
        if M <=? ni then Some (ni, c)
        else skip_taken fuel' row mapping ni (perm_entry row ni)
      else Some (ni, c)
  end.

(** The body of [for (int i ...)]; the flag says that [configure] returned.  [fuel]
    bounds the inner loop: a row has [M] entries. *)
Definition one_turn (fuel : nat) (rows : list (Z * Z)) (st : cfg_state) (i : nat) : option (cfg_state * bool) :=
  let ni := st.(next) !!! i in
  if M <=? ni then Some (st, false) else
  let row := rows !!! i in
  '(ni, c) ← skip_taken fuel row st.(bkd_mapping) ni (perm_entry row ni);
  let filled := u32 (st.(filled) + 1) in
  Some (CfgState (<[c := Z.of_nat i]> st.(bkd_mapping)) (<[i := ni + 1]> st.(next)) filled,
        filled =? M).

Fixpoint turns (fuel : nat) (rows : list (Z * Z)) (st : cfg_state) (idxs : list nat) : option (cfg_state * bool) :=
  match idxs with
  | [] => Some (st, false)
  | i :: idxs' =>
      '(st', returned) ← one_turn fuel rows st i;
      if returned : bool then Some (st', true) else turns fuel rows st' idxs'
  end.

(** [while (1)]; the flag is [false] when the loop ended by [break]. *)
Fixpoint rounds (n fuel : nat) (rows : list (Z * Z)) (st : cfg_state) : option (cfg_state * bool) :=
  match n with
  | O => None
  | S n' =>
      '(st', returned) ← turns fuel rows st (List.seq 0 (length rows));
      if returned : bool then Some (st', true)
      else if forallb (fun n => M <=? n) st'.(next) then Some (st', false)
      else rounds n' fuel rows st'
  end.

(** The last loop, over the slots from [i] on: free slots get the backends round robin. *)
Fixpoint fill_rest (n : nat) (num_bkds i bkd : Z) (mapping : gmap Z Z) : option (gmap Z Z) :=
  match n with
  | O => Some mapping
  | S n' =>
      if mapping !!! i <? 0 then
        if num_bkds =? 0 then None
        else fill_rest n' num_bkds (i + 1) (Z.rem (bkd + 1) num_bkds) (<[i := bkd]> mapping)
      else fill_rest n' num_bkds (i + 1) bkd mapping
  end.

(** [for (i = 0; i < MAGLEV_LOOKUP_SIZE; i++) bkd_mapping[i] = -1;] *)
Fixpoint init_loop (n : nat) (i : Z) (mapping : gmap Z Z) : gmap Z Z :=
  match n with O => mapping | S n' => init_loop n' (i + 1) (<[i := -1]> mapping) end.

Definition init_mapping : gmap Z Z := init_loop (Z.to_nat M) 0 ∅.

Definition configure_rows (rows : list (Z * Z)) : option (gmap Z Z) :=
  let st := CfgState init_mapping (replicate (length rows) 0) 0 in
  let fuel := S (Z.to_nat M) in
  '(st', returned) ← rounds fuel fuel rows st;
  if returned : bool then Some st'.(bkd_mapping)
  else fill_rest (Z.to_nat M) (Z.of_nat (length rows)) 0 0 st'.(bkd_mapping).

Definition configure (num_bkds : Z) : option (gmap Z Z) :=
  configure_rows (row_params <$> seqZ 0 num_bkds).

End configure.

(** ** Counting slots *)
Section counting.
Context (M : Z).
Implicit Types m : gmap Z Z.

Definition count_slots (P : Z -> bool) m : Z :=
  Z.of_nat (length (List.filter (fun c => P (m !!! c)) (seqZ 0 M))).

Definition taken (v : Z) : bool := 0 <=? v.
Definition owned_by (i v : Z) : bool := v =? i.

Lemma count_slots_range P m : 0 <= M -> 0 <= count_slots P m <= M.
Proof.
  intros. unfold count_slots.
  pose proof (List.filter_length_le (fun c => P (m !!! c)) (seqZ 0 M)).
  rewrite length_seqZ in *. lia.
Qed.

Lemma filter_insert_out P m c v l :
  c ∉ l -> List.filter (fun x => P (<[c := v]> m !!! x)) l = List.filter (fun x => P (m !!! x)) l.
Proof.
  intros Hc. apply List.filter_ext_in. intros x Hx.
  rewrite lookup_total_insert_ne; [done|]. intros ->. apply Hc. by apply list_elem_of_In.
Qed.

Lemma count_slots_insert P m c v :
  0 <= c < M ->
  count_slots P (<[c := v]> m) =
    count_slots P m - (if P (m !!! c) then 1 else 0) + (if P v then 1 else 0).
Proof.
  intros Hc. unfold count_slots.
  replace M with (c + (1 + (M - c - 1))) by lia.
  rewrite !seqZ_app, !List.filter_app, !length_app, Z.add_0_l by lia.
  change (seqZ c 1) with [c].
  rewrite !(filter_insert_out P m c v (seqZ 0 c)), !(filter_insert_out P m c v (seqZ (c + 1) _))
    by (rewrite elem_of_seqZ; lia).
  simpl. rewrite lookup_total_insert_eq.
  destruct (P (m !!! c)), (P v); simpl; lia.
Qed.

Lemma count_slots_all P m c : count_slots P m = M -> 0 <= c < M -> P (m !!! c) = true.
Proof.
  unfold count_slots. intros Hcnt Hc.
  pose proof (List.filter_length_forallb (fun c => P (m !!! c)) (seqZ 0 M)) as Hall.
  rewrite length_seqZ in Hall. rewrite List.forallb_forall in Hall. apply Hall; [lia|].
  apply list_elem_of_In, elem_of_seqZ. lia.
Qed.

(** When all images of an injection on the slots are taken, the table is full. *)
Lemma count_slots_pigeon P m (f : Z -> Z) :
  0 <= M -> (forall j, 0 <= j < M -> 0 <= f j < M) ->
  (forall j k, 0 <= j < M -> 0 <= k < M -> f j = f k -> j = k) ->
  (forall j, 0 <= j < M -> P (m !!! f j) = true) -> count_slots P m = M.
Proof.
  intros HM Hr Hinj Hall. pose proof (count_slots_range P m HM).
  assert (Z.to_nat M <= length (List.filter (fun c => P (m !!! c)) (seqZ 0 M)))%nat as Hle;
    [|unfold count_slots in *; lia].
  rewrite <- (length_seqZ 0 M), <- (length_fmap f (seqZ 0 M)).
  apply List.NoDup_incl_length.
  - apply NoDup_ListNoDup, NoDup_fmap_2_strong; [|apply NoDup_seqZ].
    intros j k Hj%elem_of_seqZ Hk%elem_of_seqZ. apply Hinj; lia.
  - intros c Hc. apply list_elem_of_In, list_elem_of_fmap in Hc as (j & -> & Hj%elem_of_seqZ).
    apply List.filter_In. split; [|apply Hall; lia].
    apply list_elem_of_In, elem_of_seqZ. specialize (Hr j). lia.
Qed.
(** The slots a test fails on are the others. *)
Lemma count_slots_negb P m : 0 <= M -> count_slots (fun v => negb (P v)) m = M - count_slots P m.
Proof.
  intros HM. unfold count_slots. pose proof (length_seqZ 0 M) as Hl.
  assert (forall l, (length (List.filter (fun c => negb (P (m !!! c))) l) +
    length (List.filter (fun c => P (m !!! c)) l) = length l)%nat) as Hall.
  { induction l as [|c l IH]; [done|]. simpl. destruct (P (m !!! c)); simpl; lia. }
  specialize (Hall (seqZ 0 M)). lia.
Qed.
End counting.

(** Replacing one element of a list, and the number of its elements that pass a test. *)
Lemma filter_upd_length {A} (f : A -> bool) (l : list A) i x y :
  l !! i = Some x ->
  Z.of_nat (length (List.filter f (<[i := y]> l))) =
    Z.of_nat (length (List.filter f l)) - (if f x then 1 else 0) + (if f y then 1 else 0).
Proof.
  revert i. induction l as [|z l IH]; intros [|i] Hi; [done|done| |].
  - injection Hi as ->. simpl. destruct (f x), (f y); cbn [length]; lia.
  - specialize (IH i Hi). change (<[S i:=y]> (z :: l)) with (z :: <[i:=y]> l). cbn [List.filter].
    destruct (f z); cbn [length]; lia.
Qed.

Lemma Forall2_filter_length {A B} (f : A -> bool) (P : B -> Prop) `{!forall y, Decision (P y)} l k :
  Forall2 (fun x y => f x = true -> P y) l k -> (length (List.filter f l) <= length (filter P k))%nat.
Proof.
  induction 1 as [|x y l k Hxy _ IH]; [done|]. rewrite filter_cons. cbn [List.filter].
  destruct (f x).
  - rewrite decide_True by auto. cbn [length]. lia.
  - destruct (decide (P y)); cbn [length]; lia.
Qed.

(** ** A table from any rows *)

(** Every row lists each slot once. *)
Definition row_injective (M : Z) (row : Z * Z) : Prop :=
  forall j k, 0 <= j < M -> 0 <= k < M -> perm_entry M row j = perm_entry M row k -> j = k.

#[export] Instance row_injective_dec M row : Decision (row_injective M row).
Proof.
  refine (cast_if (decide (NoDup (perm_entry M row <$> seqZ 0 M)))); unfold row_injective.
  - intros j k Hj Hk Heq. rewrite NoDup_alt in n.
    assert (Z.to_nat j = Z.to_nat k); [|lia]. eapply n; rewrite list_lookup_fmap, lookup_seqZ_lt by lia; cbn; [done|].
    f_equal. rewrite !Z2Nat.id by lia. done.
  - intros Hinj. apply n. apply NoDup_fmap_2_strong; [|apply NoDup_seqZ].
    intros j k Hj%elem_of_seqZ Hk%elem_of_seqZ. apply Hinj; lia.
Defined.

(** The number of rows that list some slot twice. *)
Definition repeating (M : Z) (rows : list (Z * Z)) : Z :=
  Z.of_nat (length (filter (fun row => ~ row_injective M row) rows)).

Section correctness.
Context (M : Z) (rows : list (Z * Z)).

Lemma perm_entry_range row j : 0 < M -> 0 <= perm_entry M row j < M.
Proof.
  intros HM. destruct row as [o s]. unfold perm_entry. set (x := s32 _).
  pose proof (Z.rem_bound_abs x M). rewrite Z.rem_mod_nonneg by lia. apply Z.mod_pos_bound. lia.
Qed.

(** The rows that have run out and taken their last slot from its owner. *)
Definition exhausted (st : cfg_state) : Z :=
  Z.of_nat (length (List.filter (fun n => M <? n) st.(next))).

(** State between two turns: [r] complete rounds, and [t] turns of the current one. *)
Record cfg_inv (st : cfg_state) (r : Z) (t : nat) : Prop := {
  ci_filled : st.(filled) = count_slots M taken st.(bkd_mapping) + exhausted st;
  ci_values : forall c, 0 <= c < M -> -1 <= st.(bkd_mapping) !!! c < Z.of_nat (length rows);
  ci_next_len : length st.(next) = length rows;
  ci_next : forall i n, st.(next) !! i = Some n -> 0 <= n <= M + 1 /\
    (row_injective M (rows !!! i) -> n <= M /\
       forall j, 0 <= j < n -> taken (st.(bkd_mapping) !!! perm_entry M (rows !!! i) j) = true);
  ci_loads : forall i, (i < length rows)%nat ->
    let load := count_slots M (owned_by (Z.of_nat i)) st.(bkd_mapping) in
    let turns := r + (if (i <? t)%nat then 1 else 0) in
    load <= turns /\ (row_injective M (rows !!! i) -> turns - exhausted st <= load);
}.

Hypothesis HM : 0 < M < 2 ^ 31.

Lemma exhausted_repeating st r t : cfg_inv st r t -> 0 <= exhausted st <= repeating M rows.
Proof.
  intros [_ _ Hl Hn _]. unfold exhausted, repeating. split; [lia|]. apply inj_le, Forall2_filter_length.
  apply Forall2_same_length_lookup. split; [done|]. intros i n row Hi Hrow Hex%Z.ltb_lt Hinj.
  destruct (Hn i n Hi) as [_ Hn']. rewrite (list_lookup_total_correct _ _ _ Hrow) in Hn'.
  destruct (Hn' Hinj). lia.
Qed.

(** The inner loop stops at the first free slot of the row, or at its last one. *)
Lemma skip_taken_spec m row fuel : forall ni,
  0 <= ni < M -> M - ni < Z.of_nat fuel ->
  (row_injective M row -> forall j, 0 <= j < ni -> taken (m !!! perm_entry M row j) = true) ->
  exists n' c, ni <= n' <= M /\ 0 <= c < M /\
    skip_taken M fuel row m ni (perm_entry M row ni) = Some (n', c) /\
    (row_injective M row -> forall j, 0 <= j < n' -> taken (m !!! perm_entry M row j) = true) /\
    if taken (m !!! c) then n' = M else n' < M /\ c = perm_entry M row n'.
Proof.
  induction fuel as [|fuel IH]; intros ni Hni Hfuel Hprev; [lia|].
  cbn [skip_taken]. change (0 <=? ?x) with (taken x).
  pose proof (perm_entry_range row ni ltac:(lia)) as Hc.
  destruct (taken (m !!! perm_entry M row ni)) eqn:Ht.
  - assert (row_injective M row -> forall j, 0 <= j < ni + 1 -> taken (m !!! perm_entry M row j) = true) as Hprev'.
    { intros Hinj j Hj. destruct (decide (j = ni)) as [->|]; [done|]. apply Hprev; [done|lia]. }
    destruct (Z.leb_spec M (ni + 1)) as [Hfull|Hlt].
    + exists (ni + 1), (perm_entry M row ni). split; [lia|]. split; [done|]. split; [done|]. split; [done|].
      rewrite Ht. lia.
    + destruct (IH (ni + 1)) as (n' & c & Hn' & Hrest); [lia|lia|done|]. exists n', c. split; [lia|done].
  - exists ni, (perm_entry M row ni). split; [lia|]. split; [done|]. split; [done|]. split; [done|].
    rewrite Ht. split; [lia|done].
Qed.

(** A row that lists every slot is at its end only when the table is full. *)
Lemma injective_free m row : row_injective M row ->
  (forall j, 0 <= j < M -> taken (m !!! perm_entry M row j) = true) -> count_slots M taken m = M.
Proof.
  intros Hinj Hall. apply (count_slots_pigeon M taken m (perm_entry M row)); [lia| |done|done].
  intros j _. apply perm_entry_range. lia.
Qed.

(** One turn of backend [i]: nothing if its row has run out, otherwise one more slot counts
    as filled. *)
Lemma one_turn_spec st r i fuel :
  cfg_inv st r i -> (i < length rows)%nat -> st.(filled) < M -> M < Z.of_nat fuel ->
  (M <= st.(next) !!! i /\ one_turn M fuel rows st i = Some (st, false) /\ cfg_inv st r (S i)) \/
  exists st', one_turn M fuel rows st i = Some (st', st'.(filled) =? M) /\
    st'.(filled) = st.(filled) + 1 /\ cfg_inv st' r (S i).
Proof.
  intros Hinv Hi Hfull Hfuel. pose proof (exhausted_repeating _ _ _ Hinv) as Hex.
  pose proof Hinv as [Hf Hv Hl Hn Hc].
  destruct (lookup_lt_is_Some_2 st.(next) i) as [ni Hni]; [lia|].
  unfold one_turn. rewrite (list_lookup_total_correct _ _ _ Hni).
  destruct (Hn i ni Hni) as [Hnr Hnp]. destruct (Z.leb_spec M ni) as [Hend|Hlt].
  - left. split; [done|]. split; [done|]. split; try done. intros k Hk. destruct (Hc k Hk) as [Hc1 Hc2].
    cbv zeta in *. destruct (Nat.ltb_spec k i), (Nat.ltb_spec k (S i)); try lia; (split; [lia|]); [done| |done].
    intros Hinj. assert (k = i) as -> by lia. destruct (Hnp Hinj) as [? Hall].
    pose proof (injective_free _ _ Hinj (fun j Hj => Hall j ltac:(lia))). lia.
  - right. destruct (skip_taken_spec (bkd_mapping st) (rows !!! i) fuel ni) as (n' & c & Hn' & Hcr & -> & Hprev & Hcase);
      [lia|lia|by intros Hinj; apply Hnp|]. cbn [mbind option_bind].
    pose proof (count_slots_range M taken (bkd_mapping st) ltac:(lia)).
    rewrite wrap_small by lia. pose proof (Hv c Hcr) as Hvc.
    set (st' := CfgState (<[c := Z.of_nat i]> st.(bkd_mapping)) (<[i := n' + 1]> st.(next)) (st.(filled) + 1)).
    exists st'. split; [done|]. split; [done|].
    assert (exhausted st' = exhausted st + if taken (bkd_mapping st !!! c) then 1 else 0) as He'.
    { unfold exhausted. change (next st') with (<[i := n' + 1]> st.(next)). rewrite (filter_upd_length _ _ _ _ _ Hni), (proj2 (Z.ltb_ge M ni)) by lia.
      destruct (taken _); [subst n'; rewrite (proj2 (Z.ltb_lt _ _)) by lia; lia|].
      rewrite (proj2 (Z.ltb_ge _ _)) by lia. lia. }
    assert (taken (bkd_mapping st !!! c) = true -> ~ row_injective M (rows !!! i)) as Hbad.
    { intros Ht Hinj. rewrite Ht in Hcase. subst n'. pose proof (injective_free _ _ Hinj (Hprev Hinj)). lia. }
    split; rewrite ?He'; change (filled st') with (filled st + 1);
      change (bkd_mapping st') with (<[c := Z.of_nat i]> st.(bkd_mapping));
      change (next st') with (<[i := n' + 1]> st.(next)).
    + rewrite count_slots_insert by done. assert (taken (Z.of_nat i) = true) as -> by (apply Z.leb_le; lia).
      destruct (taken (bkd_mapping st !!! c)); lia.
    + intros c0 Hc0. destruct (decide (c0 = c)) as [->|].
      * rewrite lookup_total_insert_eq. lia.
      * rewrite lookup_total_insert_ne by done. by apply Hv.
    + by rewrite length_insert.
    + assert (forall x, taken (bkd_mapping st !!! x) = true ->
        taken (<[c := Z.of_nat i]> (bkd_mapping st) !!! x) = true) as Hmono.
      { intros x Hx. destruct (decide (x = c)) as [->|].
        - rewrite lookup_total_insert_eq. unfold taken. apply Z.leb_le. lia.
        - by rewrite lookup_total_insert_ne. }
      intros k n [(<- & <- & _)|[Hk Hkn]]%list_lookup_insert_Some.
      * split; [lia|]. intros Hinj. destruct (taken (bkd_mapping st !!! c)) eqn:Ht; [by destruct (Hbad eq_refl)|].
        destruct Hcase as [? Hcn]. split; [lia|]. intros j Hj. destruct (decide (j = n')) as [->|].
        -- rewrite <- Hcn, lookup_total_insert_eq. unfold taken. apply Z.leb_le. lia.
        -- apply Hmono, Hprev; [done|lia].
      * destruct (Hn k n Hkn) as [? Hp]. split; [done|]. intros Hinj. destruct (Hp Hinj) as [? Hp']. split; [done|].
        intros j Hj. by apply Hmono, Hp'.
    + intros k Hk. destruct (Hc k Hk) as [Hc1 Hc2]. cbv zeta in *. rewrite count_slots_insert by done.
      assert (owned_by (Z.of_nat k) (bkd_mapping st !!! c) = true -> taken (bkd_mapping st !!! c) = true) as Htk.
      { intros Heq%Z.eqb_eq. apply Z.leb_le. lia. }
      assert (owned_by (Z.of_nat k) (Z.of_nat i) = (i =? k)%nat) as ->.
      { unfold owned_by. destruct (Nat.eqb_spec i k); [apply Z.eqb_eq|apply Z.eqb_neq]; lia. }
      destruct (Nat.ltb_spec k i), (Nat.ltb_spec k (S i)), (Nat.eqb_spec i k); try lia.
      all: destruct (owned_by (Z.of_nat k) (bkd_mapping st !!! c)); [rewrite Htk in * by done|].
      all: destruct (taken (bkd_mapping st !!! c)); (split; [lia|]); intros Hinj; specialize (Hc2 Hinj); try lia.
      all: subst k; by destruct (Hbad eq_refl).
Qed.

Lemma one_turn_false st r i fuel st' :
  cfg_inv st r i -> (i < length rows)%nat -> st.(filled) < M -> M < Z.of_nat fuel ->
  one_turn M fuel rows st i = Some (st', false) -> st'.(filled) < M.
Proof.
  intros Hinv Hi Hfull Hfuel H.
  destruct (one_turn_spec st r i fuel Hinv Hi Hfull Hfuel) as [(_ & H' & _)|(st2 & H' & Hf & _)].
  - rewrite H in H'. by injection H' as ->.
  - rewrite H in H'. injection H' as <- Hm. symmetry in Hm. apply Z.eqb_neq in Hm. lia.
Qed.

(** The rest of a round, from turn [t] on: the table is full, or some backend had its turn, or
    the rows of all of them have run out. *)
Lemma turns_spec fuel k : forall st r t,
  cfg_inv st r t -> (t + k = length rows)%nat -> st.(filled) < M -> M < Z.of_nat fuel ->
  exists st' b, turns M fuel rows st (List.seq t k) = Some (st', b) /\
    if b : bool then st'.(filled) = M /\ exists t', (t' <= length rows)%nat /\ cfg_inv st' r t'
    else st'.(filled) < M /\ cfg_inv st' r (length rows) /\
      (st.(filled) < st'.(filled) \/ st' = st /\ forall i, (t <= i < t + k)%nat -> M <= st.(next) !!! i).
Proof.
  induction k as [|k IH]; intros st r t Hinv Hk Hfull Hfuel.
  - exists st, false. split; [done|]. split; [done|]. split; [by replace (length rows) with t by lia|].
    right. split; [done|]. intros i Hi. lia.
  - cbn [List.seq turns].
    destruct (one_turn_spec st r t fuel) as [(Hend & -> & Hinv1)|(st1 & -> & Hf1 & Hinv1)]; [done|lia|done|done| |];
      cbn [mbind option_bind].
    + destruct (IH st r (S t) Hinv1) as (st' & b & -> & Hb); [lia|done|done|]. exists st', b. split; [done|].
      destruct b; [done|]. destruct Hb as (? & ? & [?|[-> Hrest]]); (split; [done|]); (split; [done|]); [by left|right].
      split; [done|]. intros i Hi. destruct (decide (i = t)) as [->|]; [done|]. apply Hrest. lia.
    + destruct (Z.eqb_spec st1.(filled) M) as [Hm|Hm].
      * exists st1, true. split; [done|]. split; [done|]. exists (S t). split; [lia|done].
      * destruct (IH st1 r (S t) Hinv1) as (st' & b & -> & Hb); [lia|lia|done|].
        exists st', b. split; [done|]. destruct b; [done|].
        destruct Hb as (? & ? & [?|[-> _]]); (split; [done|]); (split; [done|]); left; lia.
Qed.

Lemma cfg_inv_round st r : cfg_inv st r (length rows) -> cfg_inv st (r + 1) 0.
Proof.
  intros [Hf Hv Hl Hn Hc]. split; try done.
  intros i Hi. destruct (Hc i Hi) as [Hc1 Hc2]. cbv zeta in *. rewrite (proj2 (Nat.ltb_lt _ _)) in * by done.
  rewrite (proj2 (Nat.ltb_ge i 0)) by lia. split; [lia|]. intros Hinj. specialize (Hc2 Hinj). lia.
Qed.

(** The main loop ends before its fuel does: with [filled] at the table size, or with all rows
    run out. *)
Lemma rounds_spec fuel n : forall st r,
  cfg_inv st r 0 -> (1 <= length rows)%nat -> st.(filled) < M -> M < Z.of_nat fuel ->
  M - st.(filled) <= Z.of_nat n ->
  exists st' b r' t, rounds M n fuel rows st = Some (st', b) /\
    (t <= length rows)%nat /\ cfg_inv st' r' t /\
    if b : bool then st'.(filled) = M else
      st'.(filled) < M /\ forall i, (i < length rows)%nat -> M <= st'.(next) !!! i.
Proof.
  induction n as [|n IH]; intros st r Hinv Hlen Hfull Hfuel Hn; [lia|]. cbn [rounds].
  destruct (turns_spec fuel (length rows) st r 0 Hinv) as (st1 & b & -> & Hb); [lia|done|done|].
  cbn [mbind option_bind]. destruct b.
  - destruct Hb as (Hm & t & Ht & Hi). by exists st1, true, r, t.
  - destruct Hb as (Hlt & Hi & Hprog). destruct (forallb (fun n => M <=? n) (next st1)) eqn:Hall.
    + exists st1, false, r, (length rows). split; [done|]. split; [done|]. split; [done|]. split; [done|].
      intros i Hir. rewrite List.forallb_forall in Hall.
      destruct (lookup_lt_is_Some_2 st1.(next) i) as [n0 Hn0]; [rewrite (ci_next_len _ _ _ Hi); lia|].
      rewrite (list_lookup_total_correct _ _ _ Hn0). apply Z.leb_le, Hall.
      by eapply list_elem_of_In, list_elem_of_lookup_2.
    + destruct Hprog as [Hmore|[-> Hend]].
      * apply (IH st1 (r + 1)); [by apply cfg_inv_round|done|done|done|lia].
      * exfalso. assert (forallb (fun n => M <=? n) (next st) = true); [|congruence].
        apply List.forallb_forall. intros x Hx. apply list_elem_of_In, list_elem_of_lookup in Hx as [i Hix].
        apply Z.leb_le. rewrite <- (list_lookup_total_correct _ _ _ Hix). apply Hend.
        rewrite <- (ci_next_len _ _ _ Hinv). apply lookup_lt_Some in Hix. lia.
Qed.

(** The last loop gives the free slots backends and leaves the others alone. *)
Lemma fill_rest_spec num n : forall i bkd m,
  0 < num -> 0 <= bkd < num ->
  exists m', fill_rest n num i bkd m = Some m' /\
    forall c, (i <= c < i + Z.of_nat n -> m !!! c < 0 -> 0 <= m' !!! c < num) /\
      (~ (i <= c < i + Z.of_nat n) \/ 0 <= m !!! c -> m' !!! c = m !!! c).
Proof.
  induction n as [|n IH]; intros i bkd m Hnum Hbkd; cbn [fill_rest].
  { exists m. split; [done|]. intros c. split; [lia|done]. }
  destruct (Z.ltb_spec (m !!! i) 0) as [Hfree|Htaken].
  - rewrite (proj2 (Z.eqb_neq num 0)) by lia.
    destruct (IH (i + 1) (Z.rem (bkd + 1) num) (<[i := bkd]> m) Hnum) as (m' & -> & Hm').
    { rewrite Z.rem_mod_nonneg by lia. apply Z.mod_pos_bound. lia. }
    exists m'. split; [done|]. intros c. destruct (Hm' c) as [H1 H2]. destruct (decide (c = i)) as [->|Hne].
    + rewrite lookup_total_insert_eq in *. split; [intros _ _; rewrite H2 by lia; done|].
      intros [?|?]; lia.
    + rewrite lookup_total_insert_ne in * by done. split; [intros ? ?; apply H1; lia|].
      intros [?|?]; apply H2; [left; lia|by right].
  - destruct (IH (i + 1) bkd m Hnum Hbkd) as (m' & -> & Hm'). exists m'. split; [done|]. intros c.
    destruct (Hm' c) as [H1 H2]. split; [|intros [?|?]; apply H2; [left; lia|by right]].
    intros ? ?. apply H1; [|done]. assert (c <> i) by (intros ->; lia). lia.
Qed.

Lemma init_loop_lookup n : forall i m c,
  init_loop n i m !!! c = if decide (i <= c < i + Z.of_nat n) then -1 else m !!! c.
Proof.
  induction n as [|n IH]; intros i m c; [by rewrite decide_False by lia|].
  cbn [init_loop]. rewrite IH. repeat case_decide; try lia; try done.
  - assert (c = i) as -> by lia. by rewrite lookup_total_insert_eq.
  - rewrite lookup_total_insert_ne; [done|lia].
Qed.

Lemma init_mapping_lookup c : 0 <= c < M -> init_mapping M !!! c = -1.
Proof. intros. unfold init_mapping. rewrite init_loop_lookup, decide_True; [done|lia]. Qed.

Lemma count_slots_none P m : (forall c, 0 <= c < M -> P (m !!! c) = false) -> count_slots M P m = 0.
Proof.
  intros HP. unfold count_slots. rewrite (List.filter_ext_in _ (fun _ => false)).
  - by induction (seqZ 0 M).
  - intros c Hc. apply HP. apply list_elem_of_In, elem_of_seqZ in Hc. lia.
Qed.

Lemma cfg_inv_init : cfg_inv (CfgState (init_mapping M) (replicate (length rows) 0) 0) 0 0.
Proof.
  assert (exhausted (CfgState (init_mapping M) (replicate (length rows) 0) 0) = 0) as Hex.
  { unfold exhausted. cbn [next]. assert (List.filter (fun n => M <? n) (replicate (length rows) 0) = []) as ->; [|done].
    induction (length rows) as [|n IH]; [done|]. cbn [replicate List.filter].
    rewrite (proj2 (Z.ltb_ge M 0)) by lia. done. }
  split; rewrite ?Hex; cbn [filled bkd_mapping next].
  - rewrite count_slots_none; [done|]. intros c Hc. by rewrite init_mapping_lookup.
  - intros c Hc. rewrite init_mapping_lookup by done. lia.
  - apply length_replicate.
  - intros i n [-> _]%lookup_replicate. split; [lia|]. intros _. split; [lia|]. intros j Hj. lia.
  - intros i Hi. rewrite count_slots_none; [done|]. intros c Hc.
    rewrite init_mapping_lookup by done. unfold owned_by. apply Z.eqb_neq. lia.
Qed.

(** What [configure] leaves in the table. *)
Record configured (mapping : gmap Z Z) : Prop := {
  cf_values : forall c, 0 <= c < M -> -1 <= mapping !!! c < Z.of_nat (length rows);
  cf_free : count_slots M (fun v => v <? 0) mapping <= repeating M rows;
  cf_loads : forall i k, (i < length rows)%nat -> (k < length rows)%nat -> row_injective M (rows !!! i) ->
    count_slots M (owned_by (Z.of_nat k)) mapping <=
      count_slots M (owned_by (Z.of_nat i)) mapping + 1 + repeating M rows }.

Lemma count_slots_ext P Q m : (forall v, P v = Q v) -> count_slots M P m = count_slots M Q m.
Proof. intros H. unfold count_slots. f_equal. f_equal. apply List.filter_ext. intros c. apply H. Qed.

Lemma full_configured st r t : (t <= length rows)%nat -> cfg_inv st r t -> st.(filled) = M -> configured st.(bkd_mapping).
Proof.
  intros Ht Hinv Hfull. pose proof (exhausted_repeating _ _ _ Hinv) as Hex. pose proof Hinv as [Hf Hv _ _ Hc].
  split; [done| |].
  - rewrite (count_slots_ext _ (fun v => negb (taken v))) by (intros v; unfold taken; lia).
    rewrite count_slots_negb; lia.
  - intros i k Hi Hk Hinj. destruct (Hc i Hi) as [_ Hc1], (Hc k Hk) as [Hc2 _]. specialize (Hc1 Hinj).
    cbv zeta in *. destruct (i <? t)%nat, (k <? t)%nat; lia.
Qed.

Lemma ran_out_configured st r t m' :
  cfg_inv st r t -> (1 <= length rows)%nat -> st.(filled) < M ->
  (forall i, (i < length rows)%nat -> M <= st.(next) !!! i) ->
  fill_rest (Z.to_nat M) (Z.of_nat (length rows)) 0 0 st.(bkd_mapping) = Some m' -> configured m'.
Proof.
  intros Hinv Hlen Hlt Hend Hm'. pose proof (exhausted_repeating _ _ _ Hinv) as Hex. pose proof Hinv as [Hf Hv Hl Hn _].
  destruct (fill_rest_spec (Z.of_nat (length rows)) (Z.to_nat M) 0 0 st.(bkd_mapping)) as (m2 & Hm2 & Hspec); [lia|lia|].
  rewrite Hm' in Hm2. injection Hm2 as <-.
  assert (forall c, 0 <= c < M -> 0 <= m' !!! c < Z.of_nat (length rows)) as Hall.
  { intros c Hc. destruct (Hspec c) as [H1 H2]. specialize (Hv c Hc).
    destruct (decide (0 <= st.(bkd_mapping) !!! c)); [rewrite H2 by (by right); lia|apply H1; lia]. }
  split.
  - intros c Hc. specialize (Hall c Hc). lia.
  - rewrite count_slots_none; [lia|]. intros c Hc. specialize (Hall c Hc). lia.
  - intros i k Hi Hk Hinj. exfalso.
    destruct (lookup_lt_is_Some_2 st.(next) i) as [n Hni]; [lia|]. specialize (Hend i Hi).
    rewrite (list_lookup_total_correct _ _ _ Hni) in Hend. destruct (Hn i n Hni) as [_ Hp].
    destruct (Hp Hinj) as [? Htaken].
    pose proof (injective_free _ _ Hinj (fun j Hj => Htaken j ltac:(lia))). lia.
Qed.

Lemma configure_rows_ends : (1 <= length rows)%nat ->
  exists mapping, configure_rows M rows = Some mapping /\ configured mapping.
Proof.
  intros Hlen. unfold configure_rows.
  destruct (rounds_spec (S (Z.to_nat M)) (S (Z.to_nat M)) _ 0 cfg_inv_init)
    as (st & b & r & t & -> & Ht & Hinv & Hend); [done|cbn; lia|lia|cbn; lia|]. cbn [mbind option_bind]. destruct b.
  - eexists. split; [done|]. by eapply full_configured.
  - destruct Hend as [Hlt Hend].
    destruct (fill_rest_spec (Z.of_nat (length rows)) (Z.to_nat M) 0 0 st.(bkd_mapping)) as (m' & Hm' & _); [lia|lia|].
    exists m'. split; [done|]. by eapply ran_out_configured.
Qed.

End correctness.

(** ** Which rows list each slot once *)

Lemma swrap_mod_l w a b : 0 < w -> swrap w (a + swrap w b) = swrap w (a + b).
Proof.
  intros Hw. unfold swrap. assert (0 < 2 ^ w) by lia.
  assert (forall x, (a + (if x mod 2 ^ w <? 2 ^ (w - 1) then x mod 2 ^ w else x mod 2 ^ w - 2 ^ w)) mod 2 ^ w =
    (a + x) mod 2 ^ w) as Heq.
  { intros x. destruct (_ <? _); [apply Zplus_mod_idemp_r|].
    replace (a + (x mod 2 ^ w - 2 ^ w)) with (a + x mod 2 ^ w + (-1) * 2 ^ w) by lia.
    rewrite Z.mod_add by lia. apply Zplus_mod_idemp_r. }
  by rewrite Heq.
Qed.

Lemma perm_entry_mod M offset skip j :
  0 < M -> perm_entry M (offset, skip) j = s32 (offset + j * skip) mod M.
Proof.
  intros HM. unfold perm_entry. rewrite swrap_mod_l by lia.
  set (x := s32 _). pose proof (Z.rem_bound_abs x M). rewrite Z.rem_mod_nonneg by lia.
  rewrite (Z.quot_rem' x M) at 2. set (q := Z.quot x M). set (r := Z.rem x M).
  replace (r + M) with (r + 1 * M) by lia. rewrite Z.mod_add by lia.
  replace (M * q + r) with (r + q * M) by lia. by rewrite Z.mod_add by lia.
Qed.

(** The sums from which the entries of a row are made stay in [int]. *)
Definition row_in_int (M : Z) (row : Z * Z) : Prop :=
  forall j, 0 <= j < M -> - 2 ^ 31 <= row.1 + j * row.2 < 2 ^ 31.

Lemma row_injective_coprime M offset skip :
  0 < M -> row_in_int M (offset, skip) -> rel_prime M skip -> row_injective M (offset, skip).
Proof.
  intros HM Hin Hrel j k Hj Hk. pose proof (Hin j Hj). pose proof (Hin k Hk). cbn [fst snd] in *.
  rewrite !perm_entry_mod, !(swrap_small 32) by lia. intros Heq.
  assert ((M | (j - k) * skip)) as Hd.
  { apply Z.mod_divide; [lia|].
    replace ((j - k) * skip) with ((offset + j * skip) - (offset + k * skip)) by lia.
    rewrite Zminus_mod, Heq, Z.sub_diag. apply Zmod_0_l. }
  rewrite Z.mul_comm in Hd. apply Gauss in Hd as [q Hq]; [|done].
  assert (q = 0) by nia. lia.
Qed.

(** Trial division up to the square root. *)
Lemma prime_trial (p s : Z) :
  1 < p -> 1 < s -> p < s * s -> forallb (fun n => negb (p mod n =? 0)) (seqZ 2 (s - 2)) = true -> prime p.
Proof.
  intros Hp Hs Hss Hall. rewrite List.forallb_forall in Hall.
  assert (forall n, 1 < n < s -> ~ (n | p)) as Hsmall.
  { intros n Hn Hd. apply Z.mod_divide in Hd; [|lia].
    specialize (Hall n). rewrite Hd in Hall.
    assert (List.In n (seqZ 2 (s - 2))) as Hin by (apply list_elem_of_In, elem_of_seqZ; lia).
    by specialize (Hall Hin). }
  apply prime_alt. split; [done|]. intros n Hn [q Hq].
  destruct (decide (n < s)); [apply (Hsmall n); [lia|by exists q]|].
  apply (Hsmall q); [nia|exists n; lia].
Qed.

Lemma maglev_prime : prime MAGLEV_LOOKUP_SIZE.
Proof. apply (prime_trial _ 257); [unfold MAGLEV_LOOKUP_SIZE; lia..|]. vm_compute. reflexivity. Qed.

Lemma maglev_rel_prime skip : 0 < Z.abs skip < MAGLEV_LOOKUP_SIZE -> rel_prime MAGLEV_LOOKUP_SIZE skip.
Proof.
  intros Hs. apply prime_rel_prime; [apply maglev_prime|].
  intros [q Hq]. assert (q <> 0) by nia. nia.
Qed.

(** Every residue is a multiple of the skip. *)
Lemma maglev_multiple skip a : 0 < Z.abs skip < MAGLEV_LOOKUP_SIZE -> a mod MAGLEV_LOOKUP_SIZE <> 0 ->
  exists d, 0 < d < MAGLEV_LOOKUP_SIZE /\ (d * skip) mod MAGLEV_LOOKUP_SIZE = a mod MAGLEV_LOOKUP_SIZE.
Proof.
  intros Hs Ha. destruct (rel_prime_bezout _ _ (maglev_rel_prime skip Hs)) as [u v Huv].
  set (N := MAGLEV_LOOKUP_SIZE) in *. assert (0 < N) by done. exists ((v * a) mod N).
  assert (((v * a) mod N * skip) mod N = a mod N) as Heq.
  { rewrite Zmult_mod_idemp_l. assert (v * skip = 1 - u * N) as Hv by lia.
    replace (v * a * skip) with (a * (v * skip)) by ring. rewrite Hv.
    replace (a * (1 - u * N)) with (a + (- u * a) * N) by ring. by rewrite Z.mod_add by lia. }
  split; [|done]. pose proof (Z.mod_pos_bound (v * a) N). assert ((v * a) mod N <> 0); [|lia].
  intros Hz. rewrite Hz, Z.mul_0_l, Zmod_0_l in Heq. done.
Qed.

(** Once the sums have left [int], from entry [js] on, the row is behind by [2 ^ 32], which is 1
    modulo the table size, and meets a slot it has listed before. *)
Lemma wrapped_repeats offset skip w js :
  0 < Z.abs skip < MAGLEV_LOOKUP_SIZE -> w = 1 \/ w = -1 -> 1 <= js < MAGLEV_LOOKUP_SIZE ->
  (forall j, 0 <= j < MAGLEV_LOOKUP_SIZE ->
     s32 (offset + j * skip) = offset + j * skip - (if js <=? j then w * 2 ^ 32 else 0)) ->
  ~ row_injective MAGLEV_LOOKUP_SIZE (offset, skip).
Proof.
  intros Hs Hw Hjs Hent Hinj.
  destruct (maglev_multiple skip w Hs) as (d & Hd & Heq); [destruct Hw as [-> | ->]; done|].
  set (j := Z.max 0 (js - d)). assert (j = j + d); [|lia].
  apply Hinj; [unfold j; lia|unfold j; lia|]. rewrite !perm_entry_mod by done.
  rewrite !Hent by (unfold j; lia). rewrite (proj2 (Z.leb_gt js j)), (proj2 (Z.leb_le js (j + d))) by (unfold j; lia).
  rewrite Z.sub_0_r. replace (offset + (j + d) * skip - w * 2 ^ 32) with (offset + j * skip + (d * skip - w * 2 ^ 32)) by ring.
  assert ((d * skip - w * 2 ^ 32) mod MAGLEV_LOOKUP_SIZE = 0) as Hz.
  { rewrite Zminus_mod, Heq, <- (Zmult_mod_idemp_r (2 ^ 32)). change (2 ^ 32 mod MAGLEV_LOOKUP_SIZE) with 1.
    by rewrite Z.mul_1_r, Z.sub_diag. }
  by rewrite <- (Zplus_mod_idemp_r (d * skip - w * 2 ^ 32)), Hz, Z.add_0_r.
Qed.

Lemma s32_once x : - 2 ^ 31 - 2 ^ 32 <= x < 2 ^ 31 + 2 ^ 32 ->
  s32 x = x - (if 2 ^ 31 <=? x then 2 ^ 32 else if x <? - 2 ^ 31 then - 2 ^ 32 else 0).
Proof.
  intros Hx. assert (forall k, s32 (x + k * 2 ^ 32) = s32 x) as Hk.
  { intros k. unfold swrap. by rewrite Z.mod_add by lia. }
  destruct (Z.leb_spec (2 ^ 31) x); [rewrite <- (Hk (-1)); rewrite swrap_small; lia|].
  destruct (Z.ltb_spec x (- 2 ^ 31)); [rewrite <- (Hk 1); rewrite swrap_small; lia|].
  rewrite swrap_small; lia.
Qed.

(** ** The properties of [configure] *)

(** C15: [configure] on a table of [M] slots, for any rows of at least one backend: it ends; a
    slot holds a backend or -1; no more slots stay without a backend than there are rows that
    list some slot twice; and no backend holds more slots than one whose row lists each slot
    once plus one plus the number of rows that repeat.  So if no row repeats, every slot has a
    backend and two loads differ by at most one; with the program's three backends, of which
    one is known not to repeat, at most two slots stay empty. *)
Theorem configure_balanced (M : Z) (rows : list (Z * Z)) :
  0 < M < 2 ^ 31 -> (1 <= length rows)%nat ->
  exists mapping, configure_rows M rows = Some mapping /\
    (forall c, 0 <= c < M -> -1 <= mapping !!! c < Z.of_nat (length rows)) /\
    count_slots M (fun v => v <? 0) mapping <= repeating M rows /\
    (forall i k, (i < length rows)%nat -> (k < length rows)%nat -> row_injective M (rows !!! i) ->
      count_slots M (owned_by (Z.of_nat k)) mapping <=
        count_slots M (owned_by (Z.of_nat i)) mapping + 1 + repeating M rows).
Proof.
  intros HM Hlen. destruct (configure_rows_ends M rows HM Hlen) as (mapping & H & [Hv Hf Hl]).
  by exists mapping.
Qed.

(** A row of the program that stays in [int]. *)
Lemma backend2_injective : row_injective MAGLEV_LOOKUP_SIZE (row_params MAGLEV_LOOKUP_SIZE 2).
Proof.
  assert (row_params MAGLEV_LOOKUP_SIZE 2 = (64206, 15232)) as -> by (vm_compute; reflexivity).
  apply row_injective_coprime; [done| |by apply maglev_rel_prime].
  intros j Hj. unfold MAGLEV_LOOKUP_SIZE in Hj. cbn [fst snd]. lia.
Qed.

Lemma program_repeating : repeating MAGLEV_LOOKUP_SIZE (row_params MAGLEV_LOOKUP_SIZE <$> seqZ 0 3) <= 2.
Proof.
  unfold repeating. change (seqZ 0 3) with [0; 1; 2]. cbn [fmap list_fmap].
  rewrite !filter_cons, filter_nil, (decide_False (P := ~ row_injective _ (row_params _ 2)))
    by (intros Hn; apply Hn, backend2_injective).
  repeat case_decide; cbn [length]; lia.
Qed.

Theorem configure_balanced_witness :
  exists mapping, configure MAGLEV_LOOKUP_SIZE 3 = Some mapping /\
    count_slots MAGLEV_LOOKUP_SIZE (fun v => v <? 0) mapping <= 2 /\
    forall k, (k < 3)%nat -> count_slots MAGLEV_LOOKUP_SIZE (owned_by (Z.of_nat k)) mapping <=
      count_slots MAGLEV_LOOKUP_SIZE (owned_by 2) mapping + 3.
Proof.
  set (rows := row_params MAGLEV_LOOKUP_SIZE <$> seqZ 0 3). pose proof program_repeating as Hr.
  destruct (configure_balanced MAGLEV_LOOKUP_SIZE rows) as (mapping & H & _ & Hfree & Hloads).
  - unfold MAGLEV_LOOKUP_SIZE. lia.
  - unfold rows. rewrite length_fmap. apply (bool_decide_unpack _). exact I.
  - exists mapping. fold rows in Hr. split; [exact H|]. split; [lia|]. intros k Hk.
    assert (row_injective MAGLEV_LOOKUP_SIZE (rows !!! 2%nat)) as Hinj by exact backend2_injective.
    assert (length rows = 3%nat) as Hl by (unfold rows; rewrite length_fmap; reflexivity).
    specialize (Hloads 2%nat k ltac:(lia) ltac:(lia) Hinj). change (Z.of_nat 2) with 2 in Hloads. lia.
Defined.

(** C30: With the program's table size a row lists each slot once if and only if its skip is
    not 0 and none of its sums [offset + j * skip] leaves [int].  (The skips of the program
    come from a signed remainder, so they can be 0 and negative, and most of them overflow:
    then the sums wrap around, which is the result on the target; in C it is undefined.) *)
Theorem maglev_rows_permute (offset skip : Z) :
  Z.abs offset < MAGLEV_LOOKUP_SIZE -> Z.abs skip < MAGLEV_LOOKUP_SIZE ->
  row_injective MAGLEV_LOOKUP_SIZE (offset, skip) <->
  skip <> 0 /\ row_in_int MAGLEV_LOOKUP_SIZE (offset, skip).
Proof.
  intros Ho Hs. split.
  2:{ intros [Hs0 Hin]. apply row_injective_coprime; [done|done|]. apply maglev_rel_prime. lia. }
  intros Hinj. assert (skip <> 0) as Hs0.
  { intros ->. assert (0 = 1); [|done]. by apply Hinj; [done|done|]. }
  split; [done|]. intros j Hj. cbn [fst snd]. unfold MAGLEV_LOOKUP_SIZE in Ho, Hs, Hj.
  destruct (decide (- 2 ^ 31 <= offset + j * skip < 2 ^ 31)) as [|Hout]; [done|]. exfalso. revert Hinj.
  assert (forall k, 0 <= k < 65537 -> - 2 ^ 31 - 2 ^ 32 <= offset + k * skip < 2 ^ 31 + 2 ^ 32) as Hx.
  { intros k Hk. assert (Z.abs (k * skip) <= 65536 * 65536) by (rewrite Z.abs_mul; nia). lia. }
  destruct (decide (0 < skip)) as [Hpos|Hneg].
  - assert (exists js, forall k, 0 <= k -> js <= k <-> 2 ^ 31 <= offset + k * skip) as (js & Hjs).
    { exists ((2 ^ 31 - offset + (skip - 1)) / skip). intros k Hk.
      pose proof (Z.div_mod (2 ^ 31 - offset + (skip - 1)) skip ltac:(lia)).
      pose proof (Z.mod_pos_bound (2 ^ 31 - offset + (skip - 1)) skip ltac:(lia)).
      split; intros; nia. }
    assert (0 <= j * skip) by nia. pose proof (proj2 (Hjs j ltac:(lia)) ltac:(lia)).
    assert (1 <= js) by (pose proof (proj1 (Hjs 0 ltac:(lia))); lia).
    apply (wrapped_repeats offset skip 1 js); unfold MAGLEV_LOOKUP_SIZE; [lia|by left|lia|].
    intros k Hk. rewrite s32_once by (by apply Hx). assert (0 <= k * skip) by nia.
    destruct (Z.leb_spec js k) as [Hle|Hlt].
    + rewrite (proj2 (Z.leb_le _ _)) by (by apply Hjs; lia). lia.
    + rewrite (proj2 (Z.leb_gt _ _)), (proj2 (Z.ltb_ge _ _)); [lia|lia|].
      apply Z.nle_gt. intros Hle%Hjs; lia.
  - assert (exists js, forall k, 0 <= k -> js <= k <-> offset + k * skip < - 2 ^ 31) as (js & Hjs).
    { exists ((2 ^ 31 + offset) / (- skip) + 1). intros k Hk.
      pose proof (Z.div_mod (2 ^ 31 + offset) (- skip) ltac:(lia)).
      pose proof (Z.mod_pos_bound (2 ^ 31 + offset) (- skip) ltac:(lia)).
      split; intros; nia. }
    assert (j * skip <= 0) by nia. pose proof (proj2 (Hjs j ltac:(lia)) ltac:(lia)).
    assert (1 <= js) by (pose proof (proj1 (Hjs 0 ltac:(lia))); lia).
    apply (wrapped_repeats offset skip (-1) js); unfold MAGLEV_LOOKUP_SIZE; [lia|by right|lia|].
    intros k Hk. rewrite s32_once by (by apply Hx). assert (k * skip <= 0) by nia.
    rewrite (proj2 (Z.leb_gt (2 ^ 31) _)) by lia.
    destruct (Z.leb_spec js k) as [Hle|Hlt].
    + rewrite (proj2 (Z.ltb_lt _ _)) by (by apply Hjs; lia). lia.
    + rewrite (proj2 (Z.ltb_ge _ _)); [lia|]. apply Z.nlt_ge. intros Hle%Hjs; lia.
Qed.

(** The row of backend 0 leaves [int] at its end. *)
Lemma maglev_rows_permute_witness :
  let row := row_params MAGLEV_LOOKUP_SIZE 0 in
  row = (54908, 63967) /\ ~ row_injective MAGLEV_LOOKUP_SIZE row.
Proof.
  assert (row_params MAGLEV_LOOKUP_SIZE 0 = (54908, 63967)) as -> by (vm_compute; reflexivity).
  split; [reflexivity|]. intros Hinj. apply (maglev_rows_permute 54908 63967) in Hinj as [_ Hin].
  - specialize (Hin 65536). cbn [fst snd] in Hin. unfold MAGLEV_LOOKUP_SIZE in Hin. lia.
  - reflexivity.
  - reflexivity.
Defined.

(** A row that runs out takes its last slot again from its owner and counts it as
    a new one, so that [configure] can return with a slot that has no backend: the bound of
    [configure_balanced] is met. *)
Theorem configure_exhausted_row :
  exists mapping, configure_rows 3 [(0, 0); (0, 1)] = Some mapping /\ mapping !!! 2 = -1.
Proof. eexists. split; [vm_compute; reflexivity|]. vm_compute. reflexivity. Qed.
