(* ===== verification/LoadBalancer.v ===== *)
(** * The Maglev load balancer

    [maglev/load_balancer.h], [process_packet_maglev] and [load_services] of
    [toasty.c], and the load balancer of [maglev/main.c], over dictionaries that
    satisfy the interface of HashMap.

    A session is opened by its first packet: the table of the service picks a
    backend, and the session is stored in both directions.  Structure fields that
    the code leaves uninitialised are [None]. *)
From S2P Require Import Prelude Mem Murmur HashMap Maglev Packet.

Definition MAX_SERVICES : Z := 1024.
Definition MAX_BACKENDS : Z := MAX_SERVICES * 128.
Definition MAX_SESSIONS : Z := 2 * 1000000.
Definition IPPROTO_TCP : Z := 6.
Definition IPPROTO_UDP : Z := 17.

(** ** Keys and values: the packed structures and their bytes *)

Record service_id := ServiceId { vaddr : Z; vport : Z; srv_proto : Z }.
Record backend_id := BackendId { bkd_service : service_id; index : Z }.
Record session_id := SessionId {
  saddr : Z; daddr : Z; sport : Z; dport : Z; proto : Z }.
Record service_info := ServiceInfo { srv_backends : Z }.
Record backend_info := BackendInfo {
  bkd_addr : Z; bkd_port : Z; bkd_mac_addr : list Z; bkd_ifindex : option Z }.

Inductive direction := DIR_TO_CLIENT | DIR_TO_BACKEND.

Record replace_info := ReplaceInfo {
  dir : direction; bkdindex : option Z; rep_addr : Z; rep_port : Z;
  rep_mac_addr : list Z; rep_ifindex : option Z }.

Definition service_bytes (s : service_id) : list Z :=
  le_bytes 4 s.(vaddr) ++ le_bytes 2 s.(vport) ++ le_bytes 1 s.(srv_proto).
Definition backend_bytes (b : backend_id) : list Z :=
  service_bytes b.(bkd_service) ++ le_bytes 4 b.(index).
Definition session_bytes (s : session_id) : list Z :=
  le_bytes 4 s.(saddr) ++ le_bytes 4 s.(daddr) ++ le_bytes 2 s.(sport) ++
  le_bytes 2 s.(dport) ++ le_bytes 1 s.(proto).

Definition sizeof_service_id : Z := 7.
Definition sizeof_backend_id : Z := 11.
Definition sizeof_session_id : Z := 13.

(** ** Checksum arithmetic *)

Definition csum_fold (csum : Z) : Z :=
  let csum := u32 ((csum &' 0xffff) + (csum >>' 16)) in
  let csum := u32 ((csum &' 0xffff) + (csum >>' 16)) in
  u16 (Z.lnot csum).

Definition csum_unfold (n : Z) : Z := u32 n.

Definition csum_add (csum addend : Z) : Z :=
  let csum := u32 (csum + addend) in
  u32 (csum + (if csum <? addend then 1 else 0)).

(** ** Sessions *)

(** [srvid], and the slot [murmurhash(&sid, ...) % MAGLEV_LOOKUP_SIZE]. *)
Definition service_of (sid : session_id) : service_id := ServiceId sid.(daddr) sid.(dport) sid.(proto).

Definition slot_of (sid : session_id) : Z :=
  murmurhash (session_bytes sid) sizeof_session_id 0 mod MAGLEV_LOOKUP_SIZE.

Section sessions.
Context {MS MB MT MA : Type} `{!Dict service_info MS, !Dict backend_info MB,
  !Dict (gmap Z Z) MT, !Dict replace_info MA}.

Record lb_state := LB {
  services : MS; backends : MB; maglev_tables : MT; active_sessions : MA }.

(** How a packet finds its session. *)
Inductive session_result :=
  | Known (rep : replace_info)
  | MissingService
  | MissingBackend
  | Opened (rep : replace_info)
  | InsertFailed (rep : replace_info).

Definition set_sessions (st : lb_state) (a : MA) : lb_state :=
  LB st.(services) st.(backends) st.(maglev_tables) a.

(** From "Look for known sessions" to the label [insert]; [h_source] reads the
    source MAC of the packet.  [None] is the [NULL] dereference for a service
    without a table. *)
Definition find_session (st : lb_state) (sid : session_id) (h_source : option (list Z)) :
    option (lb_state * session_result) :=
  match dict_lookup st.(active_sessions) (session_bytes sid) with
  | Some rep => Some (st, Known rep)
  | None =>
      let srvid := service_of sid in
      match dict_lookup st.(services) (service_bytes srvid) with
      | None => Some (st, MissingService)
      | Some srvinfo =>
          bkd_mapping ← dict_lookup st.(maglev_tables) (service_bytes srvid);
          let bkdid := BackendId srvid (u32 (bkd_mapping !!! slot_of sid)) in
          match dict_lookup st.(backends) (backend_bytes bkdid) with
          | None => Some (st, MissingBackend)
          | Some bkdinfo =>
              let fwd_rep := ReplaceInfo DIR_TO_BACKEND (Some (s32 bkdid.(index)))
                bkdinfo.(bkd_addr) bkdinfo.(bkd_port) bkdinfo.(bkd_mac_addr) None in
              let '(a, ret) := dict_insert st.(active_sessions) (session_bytes sid) fwd_rep in
              if negb (ret =? 1) then Some (set_sessions st a, InsertFailed fwd_rep) else
              mac ← h_source;
              let bwd_rep := ReplaceInfo DIR_TO_CLIENT None srvid.(vaddr) srvid.(vport) mac None in
              let sid' := SessionId bkdinfo.(bkd_addr) sid.(saddr) bkdinfo.(bkd_port)
                            sid.(sport) sid.(proto) in
              let '(a', ret) := dict_insert a (session_bytes sid') bwd_rep in
              if negb (ret =? 1) then Some (set_sessions st a', InsertFailed fwd_rep)
              else Some (set_sessions st a', Opened fwd_rep)
          end
      end
  end.

Definition service_ip : Z := inet_addr 10 129 2 121.

(** The session id that [toasty.c] reads from a packet; destination and port are
    those of the service. *)
Definition read_sid (m : mem) (data : Z) : option session_id :=
  let ip := ip_of data in
  udp ← udp_of m data;
  saddr ← load 4 m (ip_saddr ip);
  proto ← load8 m (ip_protocol ip);
  sport ← load 2 m (udp_source udp);
  Some (SessionId saddr service_ip sport (htons 80) proto).

Definition process_packet_maglev (st : lb_state) (m : mem) (data length addr : Z) : option lb_state :=
  sid ← read_sid m data;
  '(st', _) ← find_session st sid (load_bytes ETH_ALEN m (data + 6));
  Some st'.

(** ** The stand-alone load balancer, [maglev/main.c] *)

Record xskvec := Xskvec { xv_data : Z; xv_len : Z; xv_options : option Z }.

Inductive verdict := Send (xv : xskvec) | Drop (xv : xskvec).

Definition sizeof_iphdr : Z := 20.
Definition sizeof_tcphdr : Z := 20.

(** [switch (iph->protocol)]: the addresses of [sport], [dport] and [l4check]. *)
Definition l4_fields (protocol next pkt_end : Z) : option (Z * Z * Z) :=
  if protocol =? IPPROTO_TCP then
    if pkt_end <? next + sizeof_tcphdr then None else Some (next, next + 2, next + 16)
  else if protocol =? IPPROTO_UDP then
    if pkt_end <? next + sizeof_udphdr then None else Some (next, next + 2, next + 6)
  else None.

(** From [new_addr = rep->addr] on: the MACs and the checksums. *)
Definition finish_rep (m : mem) (eth iph l4check : Z) (rep : replace_info) (old_addr old_port : Z) : option mem :=
  let new_addr := rep.(rep_addr) in
  let new_port := rep.(rep_port) in
  m ← memcpy m (eth + 6) eth ETH_ALEN;
  m ← store_bytes m eth rep.(rep_mac_addr);
  check ← load 2 m (ip_check iph);
  let csum := u32 (Z.lnot (csum_unfold check)) in
  let csum := csum_add csum (u32 (Z.lnot old_addr)) in
  let csum := csum_add csum new_addr in
  m ← store 2 m (ip_check iph) (csum_fold csum);
  check ← load 2 m l4check;
  let csum := u32 (Z.lnot (csum_unfold check)) in
  let csum := csum_add csum (u32 (Z.lnot old_addr)) in
  let csum := csum_add csum new_addr in
  let csum := csum_add csum (u32 (Z.lnot old_port)) in
  let csum := csum_add csum new_port in
  store 2 m l4check (csum_fold csum).

(** From the label [insert] on: the rewritten packet. *)
Definition insert_rep (m : mem) (eth iph sport dport l4check : Z) (rep : replace_info) : option mem :=
  match rep.(dir) with
  | DIR_TO_BACKEND =>
      old_addr ← load 4 m (ip_daddr iph);
      m ← store 4 m (ip_daddr iph) rep.(rep_addr);
      old_port ← load 2 m dport;
      m ← store 2 m dport rep.(rep_port);
      finish_rep m eth iph l4check rep old_addr old_port
  | DIR_TO_CLIENT =>
      old_addr ← load 4 m (ip_saddr iph);
      m ← store 4 m (ip_saddr iph) rep.(rep_addr);
      old_port ← load 2 m sport;
      m ← store 2 m sport rep.(rep_port);
      finish_rep m eth iph l4check rep old_addr old_port
  end.

(** [xv->options = (rep->bkdindex << 16) | (xv->options & 0xFFFF)] *)
Definition set_options (xv : xskvec) (rep : replace_info) : xskvec :=
  Xskvec xv.(xv_data) xv.(xv_len)
    (i ← rep.(bkdindex); o ← xv.(xv_options); Some (u32 (i <<' 16) |' (o &' 0xFFFF))).

(** The body of [for (i = 0; i < nrecv; i++)]. *)
Definition socket_packet (st : lb_state) (m : mem) (xv : xskvec) : option (lb_state * mem * verdict) :=
  let pkt := xv.(xv_data) in
  let pkt_end := pkt + xv.(xv_len) in
  if pkt_end <? pkt + sizeof_ether_header then Some (st, m, Drop xv) else
  h_proto ← load 2 m (pkt + 12);
  if negb (h_proto =? htons ETH_P_IP) then Some (st, m, Drop xv) else
  let iph := ip_of pkt in
  if pkt_end <? iph + sizeof_iphdr then Some (st, m, Drop xv) else
  ihl ← iphdr_ihl m iph;
  let next := iph + (ihl <<' 2) in
  protocol ← load8 m (ip_protocol iph);
  match l4_fields protocol next pkt_end with
  | None => Some (st, m, Drop xv)
  | Some (sport_p, dport_p, l4check) =>
      saddr ← load 4 m (ip_saddr iph);
      daddr ← load 4 m (ip_daddr iph);
      sport ← load 2 m sport_p;
      dport ← load 2 m dport_p;
      '(st, res) ← find_session st (SessionId saddr daddr sport dport protocol)
                     (load_bytes ETH_ALEN m (pkt + 6));
      match res with
      | MissingService | MissingBackend => Some (st, m, Drop xv)
      | Known rep | Opened rep | InsertFailed rep =>
          m ← insert_rep m pkt iph sport_p dport_p l4check rep;
          Some (st, m, Send (set_options xv rep))
      end
  end.

(** One batch of [socket_routine]: (state, memory, send list, drop list). *)
Fixpoint socket_batch (st : lb_state) (m : mem) (xvs : list xskvec) :
    option (lb_state * mem * list xskvec * list xskvec) :=
  match xvs with
  | [] => Some (st, m, [], [])
  | xv :: xvs' =>
      '(st, m, v) ← socket_packet st m xv;
      '(st, m, send, drop) ← socket_batch st m xvs';
      match v with
      | Send xv => Some (st, m, xv :: send, drop)
      | Drop xv => Some (st, m, send, xv :: drop)
      end
  end.
End sessions.
Arguments lb_state : clear implicits.
Arguments LB {MS MB MT MA}.

(** ** Loading the services

    Both programs install one UDP service; the texts of the addresses come from a
    format string in [toasty.c] and from the control plane in [maglev/main.c], so
    what [inet_aton] makes of them is an argument: [None] leaves [addr] alone. *)
Definition lb_tables : Type :=
  lb_state (hashmap service_info) (hashmap backend_info) (hashmap (gmap Z Z)) (hashmap replace_info).

Record load_state := LoadState {
  ls_addr : option Z;                               (* addr.s_addr *)
  service_first_free : Z;
  service_entries : list (option (service_id * Z)); (* key, value.backends *)
  backend_entries : list (backend_id * backend_info);
  srv_to_index : hashmap Z;
}.

Definition srv_port : Z := 80.
Definition bkd_port_num : Z := 8080.
Definition load_mac_addr : list Z := [0x11; 0x22; 0x33; 0x44; 0x55; 0x66].

(** The body of [for (index = 0; index < nbackends; index++)]. *)
Definition load_backend (srv_aton bkd_aton : option Z) (ls : load_state) : option load_state :=
  addr1 ← (match srv_aton with Some a => Some a | None => ls.(ls_addr) end);
  let srv := ServiceId addr1 (htons srv_port) IPPROTO_UDP in
  let addr2 := default addr1 bkd_aton in
  let info := BackendInfo addr2 (htons bkd_port_num) load_mac_addr None in
  match hashmap_lookup_elem ls.(srv_to_index) (service_bytes srv) with
  | None =>
      let '(map, ret) := hashmap_insert_elem ls.(srv_to_index) (service_bytes srv) ls.(service_first_free) in
      if negb (ret =? 1) then None else
      let entries := <[Z.to_nat ls.(service_first_free) := Some (srv, 1)]> ls.(service_entries) in
      Some (LoadState (Some addr2) (ls.(service_first_free) + 1) entries
              (ls.(backend_entries) ++ [(BackendId srv 0, info)]) map)
  | Some srvindex =>
      entry ← ls.(service_entries) !! Z.to_nat srvindex;
      '(key, n) ← entry;
      Some (LoadState (Some addr2) ls.(service_first_free)
              (<[Z.to_nat srvindex := Some (key, u32 (n + 1))]> ls.(service_entries))
              (ls.(backend_entries) ++ [(BackendId srv n, info)]) ls.(srv_to_index))
  end.

Fixpoint load_backends (srv_aton : option Z) (bkd_atons : list (option Z)) (ls : load_state) : option load_state :=
  match bkd_atons with
  | [] => Some ls
  | a :: atons => ls ← load_backend srv_aton a ls; load_backends srv_aton atons ls
  end.

(** [hashmap_insert_elem(...) != 1] ends the program. *)
Definition insert_or_exit {V} (map : hashmap V) (key : list Z) (v : V) : option (hashmap V) :=
  let '(map', ret) := hashmap_insert_elem map key v in
  if negb (ret =? 1) then None else Some map'.

Fixpoint insert_all {V} (map : hashmap V) (kvs : list (list Z * V)) : option (hashmap V) :=
  match kvs with
  | [] => Some map
  | (k, v) :: kvs' => map' ← insert_or_exit map k v; insert_all map' kvs'
  end.

(** [lookup] is [configure]d for each service; a slot past the table's values
    cannot be reached.  An uninitialised entry gives [None]. *)
Definition configure_entry (e : option (service_id * Z)) : option (list Z * gmap Z Z) :=
  '(key, n) ← e;
  mapping ← configure MAGLEV_LOOKUP_SIZE (s32 n);
  Some (service_bytes key, mapping).

Definition load_services (srv_aton : option Z) (bkd_atons : list (option Z))
    (sessions : hashmap replace_info) : option lb_tables :=
  let nservices := 1 in
  let services := fst (hashmap_init true sizeof_service_id 4 MAX_SERVICES) in
  let backends := fst (hashmap_init true sizeof_backend_id 14 MAX_BACKENDS) in
  let maglev_tables := fst (hashmap_init true sizeof_service_id (4 * MAGLEV_LOOKUP_SIZE) MAX_SERVICES) in
  let srv_to_index := fst (hashmap_init true sizeof_service_id 4 nservices) in
  ls ← load_backends srv_aton bkd_atons
         (LoadState None 0 (replicate (Z.to_nat nservices) None) [] srv_to_index);
  entries ← mapM id ls.(service_entries);
  services ← insert_all services ((fun e => (service_bytes e.1, ServiceInfo e.2)) <$> entries);
  backends ← insert_all backends ((fun e => (backend_bytes e.1, e.2)) <$> ls.(backend_entries));
  tables ← mapM configure_entry ls.(service_entries);
  maglev_tables ← insert_all maglev_tables tables;
  Some (LB services backends maglev_tables sessions).

(** [snprintf(bkd_addr[i], INET_ADDRSTRLEN, "%u.%u.%u.%u", 192, 192, 192, 0 + i)]
    keeps at most three digits of [i]; [inet_aton] refuses an octet over 255. *)
Definition first_digits (i : Z) : Z :=
  if i <? 1000 then i else if i <? 10000 then i / 10
  else if i <? 100000 then i / 100 else i / 1000.

Definition toasty_bkd_aton (i : Z) : option Z :=
  let octet := first_digits i in
  if octet <=? 255 then Some (inet_addr 192 192 192 octet) else None.

(** [load_services] of [toasty.c]; its [nbackends] is 3. *)
Definition toasty_load_services (nbackends : Z) (sessions : hashmap replace_info) : option lb_tables :=
  load_services (Some service_ip) (toasty_bkd_aton <$> seqZ 0 nbackends) sessions.

(** [configure] and [load_services] of [maglev/main.c]: the same code, with the
    addresses that the control plane sends. *)
Definition main_configure (num_bkds : Z) : option (gmap Z Z) := configure MAGLEV_LOOKUP_SIZE num_bkds.
Definition main_load_services (srv_addr : option Z) (bkd_addrs : list (option Z))
    (sessions : hashmap replace_info) : option lb_tables :=
  load_services srv_addr bkd_addrs sessions.

(** ** Refinement: the load balancer over any lawful dictionaries *)

Lemma service_bytes_length s : Z.of_nat (length (service_bytes s)) = sizeof_service_id.
Proof. done. Qed.
Lemma backend_bytes_length b : Z.of_nat (length (backend_bytes b)) = sizeof_backend_id.
Proof. done. Qed.
Lemma session_bytes_length s : Z.of_nat (length (session_bytes s)) = sizeof_session_id.
Proof. done. Qed.

Create HintDb lb.
#[export] Hint Resolve service_bytes_length backend_bytes_length session_bytes_length : lb.

(** The reference state: four finite maps. *)
Definition lb_spec : Type :=
  lb_state (gmap (list Z) service_info) (gmap (list Z) backend_info)
    (gmap (list Z) (gmap Z Z)) (gmap (list Z) replace_info).

(** Both sides run the same next step. *)
Ltac sim_bind x :=
  match goal with |- option_Forall2 _ (?o ≫= _) _ => destruct o as [x|] end;
  cbn [mbind option_bind]; [|constructor].

Section refinement.
Context {MS MB MT MA : Type} `{!Dict service_info MS, !Dict backend_info MB,
  !Dict (gmap Z Z) MT, !Dict replace_info MA}.
Context {RS : MS -> gmap (list Z) service_info -> Prop}
  {RB : MB -> gmap (list Z) backend_info -> Prop}
  {RT : MT -> gmap (list Z) (gmap Z Z) -> Prop}
  {RA : MA -> gmap (list Z) replace_info -> Prop}.
Context `{!DictLaws service_info MS sizeof_service_id RS, !DictLaws backend_info MB sizeof_backend_id RB,
  !DictLaws (gmap Z Z) MT sizeof_service_id RT, !DictLaws replace_info MA sizeof_session_id RA}.

Record lb_rep (st : lb_state MS MB MT MA) (g : lb_spec) : Prop := {
  lr_services : RS st.(services) g.(services);
  lr_backends : RB st.(backends) g.(backends);
  lr_tables : RT st.(maglev_tables) g.(maglev_tables);
  lr_sessions : RA st.(active_sessions) g.(active_sessions);
}.

(** One insertion into the sessions keeps the relation and the return value. *)
Lemma insert_session_sim m g k (v : replace_info) :
  Z.of_nat (length k) = sizeof_session_id -> RA m g ->
  exists m' g' ret, dict_insert m k v = (m', ret) /\ dict_insert g k v = (g', ret) /\ RA m' g'.
Proof.
  intros Hk HR. cbn [dict_insert gmap_dict]. destruct (g !! k) eqn:Hg.
  - exists m, g, 0. rewrite (dict_insert_old m g) by (eauto || done). done.
  - destruct (dict_insert_new m g k v) as (m' & -> & HR'); [done..|].
    by exists m', (<[k := v]> g), 1.
Qed.

Definition sim_result {A} (x : lb_state MS MB MT MA * A) (y : lb_spec * A) : Prop :=
  lb_rep x.1 y.1 /\ x.2 = y.2.

Lemma find_session_sim st g sid h :
  lb_rep st g -> option_Forall2 sim_result (find_session st sid h) (find_session g sid h).
Proof.
  intros HR. pose proof HR as [Hs Hb Ht Ha]. unfold find_session.
  rewrite (dict_lookup_law st.(active_sessions) g.(active_sessions)) by auto with lb.
  rewrite (dict_lookup_law st.(services) g.(services)) by auto with lb.
  rewrite (dict_lookup_law st.(maglev_tables) g.(maglev_tables)) by auto with lb.
  cbn [dict_lookup gmap_dict].
  destruct (active_sessions g !! _) as [rep|]; [by constructor|].
  destruct (services g !! _) as [info|]; [|by constructor].
  destruct (maglev_tables g !! _) as [mapping|]; cbn [mbind option_bind]; [|constructor].
  rewrite (dict_lookup_law st.(backends) g.(backends)) by auto with lb.
  cbn [dict_lookup gmap_dict].
  destruct (backends g !! _) as [bkd|]; [|by constructor].
  match goal with |- context [dict_insert st.(active_sessions) ?k ?v] =>
    destruct (insert_session_sim _ _ k v (session_bytes_length _) Ha) as (m1 & g1 & r1 & -> & -> & HR1)
  end.
  destruct (r1 =? 1); cbn [negb]; [|by repeat constructor].
  destruct h as [mac|]; cbn [mbind option_bind]; [|constructor].
  match goal with |- context [dict_insert m1 ?k ?v] =>
    destruct (insert_session_sim _ _ k v (session_bytes_length _) HR1) as (m2 & g2 & r2 & -> & -> & HR2)
  end.
  by destruct (r2 =? 1); repeat constructor.
Qed.

Lemma process_packet_maglev_sim st g m data length addr :
  lb_rep st g ->
  option_Forall2 lb_rep (process_packet_maglev st m data length addr)
    (process_packet_maglev g m data length addr).
Proof.
  intros HR. unfold process_packet_maglev. destruct (read_sid m data) as [sid|]; [|constructor].
  cbn [mbind option_bind].
  destruct (find_session_sim st g sid (load_bytes ETH_ALEN m (data + 6)) HR) as [[] [] [? _]|];
    by constructor.
Qed.

Lemma socket_packet_sim st g m xv :
  lb_rep st g ->
  option_Forall2 (fun x y => lb_rep x.1.1 y.1.1 /\ x.1.2 = y.1.2 /\ x.2 = y.2)
    (socket_packet st m xv) (socket_packet g m xv).
Proof.
  intros HR. unfold socket_packet. case_match; [by constructor|].
  sim_bind h. case_match; [by constructor|]. case_match; [by constructor|].
  sim_bind ihl. sim_bind p.
  destruct (l4_fields _ _ _) as [[[sp dp] l4]|]; [|by constructor].
  sim_bind sa. sim_bind da. sim_bind s. sim_bind d.
  destruct (find_session_sim st g (SessionId sa da s d p) (load_bytes ETH_ALEN m (xv_data xv + 6)) HR)
    as [[st' r] [g' r'] [HR' He]|]; cbn [mbind option_bind]; [|constructor].
  simpl in He. subst r'.
  destruct r; try (by constructor);
    (destruct (insert_rep _ _ _ _ _ _ _) as [m'|]; cbn [mbind option_bind]; by constructor).
Qed.

Lemma socket_batch_sim xvs : forall st g m,
  lb_rep st g ->
  option_Forall2 (fun x y => lb_rep x.1.1.1 y.1.1.1 /\ x.1.1.2 = y.1.1.2 /\ x.1.2 = y.1.2 /\ x.2 = y.2)
    (socket_batch st m xvs) (socket_batch g m xvs).
Proof.
  induction xvs as [|xv xvs IH]; intros st g m HR; cbn [socket_batch]; [by constructor|].
  destruct (socket_packet_sim st g m xv HR) as [[[st1 m1] v] [[g1 m1'] v'] (HR1 & Hm & Hv)|];
    cbn [mbind option_bind]; [|constructor]. simpl in HR1, Hm, Hv. subst m1' v'.
  destruct (IH st1 g1 m1 HR1) as [[[[st2 m2] s] d] [[[g2 m2'] s'] d'] (HR2 & Hm & Hs & Hd)|];
    cbn [mbind option_bind]; [|constructor]. simpl in HR2, Hm, Hs, Hd. subst.
  by destruct v; constructor.
Qed.
End refinement.

(** The programs' state: four chained hash maps. *)
Abbreviation lb_tables_rep := (@lb_rep _ _ _ _
  (hm_rep_n sizeof_service_id) (hm_rep_n sizeof_backend_id)
  (hm_rep_n sizeof_service_id) (hm_rep_n sizeof_session_id)).

(** ** Sessions, on the reference state *)

(** The session of the packets that come back from the backend [rep]. *)
Definition reply_of (sid : session_id) (rep : replace_info) : session_id :=
  SessionId rep.(rep_addr) sid.(saddr) rep.(rep_port) sid.(sport) sid.(proto).

Definition fwd_rep_of (i : Z) (b : backend_info) : replace_info :=
  ReplaceInfo DIR_TO_BACKEND (Some (s32 i)) b.(bkd_addr) b.(bkd_port) b.(bkd_mac_addr) None.

Definition bwd_rep_of (sid : session_id) (mac : list Z) : replace_info :=
  ReplaceInfo DIR_TO_CLIENT None sid.(daddr) sid.(dport) mac None.

(** The backend that the table of the service gives a new session. *)
Definition backend_for (g : lb_spec) (sid : session_id) (i : Z) (b : backend_info) : Prop :=
  exists info mapping, g.(services) !! service_bytes (service_of sid) = Some info /\
    g.(maglev_tables) !! service_bytes (service_of sid) = Some mapping /\
    i = u32 (mapping !!! slot_of sid) /\
    g.(backends) !! backend_bytes (BackendId (service_of sid) i) = Some b.

Lemma find_session_new (g : lb_spec) sid mac i b :
  g.(active_sessions) !! session_bytes sid = None -> backend_for g sid i b ->
  session_bytes (reply_of sid (fwd_rep_of i b)) <> session_bytes sid ->
  g.(active_sessions) !! session_bytes (reply_of sid (fwd_rep_of i b)) = None ->
  find_session g sid (Some mac) = Some (set_sessions g
    (<[session_bytes (reply_of sid (fwd_rep_of i b)) := bwd_rep_of sid mac]>
      (<[session_bytes sid := fwd_rep_of i b]> g.(active_sessions))), Opened (fwd_rep_of i b)).
Proof.
  intros Hnew (info & mapping & Hs & Ht & -> & Hb) Hne Hrep. unfold find_session.
  cbn [dict_lookup dict_insert gmap_dict]. rewrite Hnew, Hs, Ht. cbn [mbind option_bind].
  cbv zeta. rewrite Hb, Z.eqb_refl. cbn [negb mbind option_bind].
  unfold reply_of in *. cbn [rep_addr rep_port fwd_rep_of] in *.
  rewrite lookup_insert_ne by congruence. rewrite Hrep, Z.eqb_refl. cbn [negb].
  done.
Qed.

(** After [find_session] the session is known, or the state is as before. *)
Lemma find_session_stable (g g' : lb_spec) sid h r h' :
  find_session g sid h = Some (g', r) ->
  exists r', find_session g' sid h' = Some (g', r') \/ g' = g.
Proof.
  unfold find_session at 1. cbn [dict_lookup dict_insert gmap_dict].
  destruct (active_sessions g !! _) as [rep|] eqn:Ha; [intros [= <- <-]; exists (Known rep); by right|].
  destruct (services g !! _) as [info|]; [|intros [= <- <-]; exists MissingService; by right].
  destruct (maglev_tables g !! _) as [mapping|]; cbn [mbind option_bind]; [|done].
  destruct (backends g !! _) as [b|]; [|intros [= <- <-]; exists MissingBackend; by right].
  rewrite Z.eqb_refl. cbn [negb]. destruct h as [mac|]; cbn [mbind option_bind]; [|done].
  destruct (<[_ := _]> _ !! _) as [w|] eqn:Hw; cbn [Z.eqb negb].
  - intros [<- <-]%(inj Some)%pair_eq. eexists (Known _). left. unfold find_session.
    cbn [dict_lookup gmap_dict active_sessions set_sessions]. by rewrite lookup_insert_eq.
  - intros [<- <-]%(inj Some)%pair_eq. eexists (Known _). left. unfold find_session.
    cbn [dict_lookup gmap_dict active_sessions set_sessions].
    match goal with |- context [<[?a := _]> (<[?c := _]> _) !! ?c] =>
      destruct (decide (a = c)) as [Heq|Hne] end.
    + exfalso. rewrite Heq, lookup_insert_eq in Hw. done.
    + by rewrite lookup_insert_ne, lookup_insert_eq.
Qed.

(** ** Incremental checksums

    One's complement sums are sums modulo [2^16 - 1]. *)
Definition eq_csum (a b : Z) : Prop := (a - b) mod 65535 = 0.

Lemma eq_csum_alt a b : eq_csum a b <-> exists k, a = b + k * 65535.
Proof.
  unfold eq_csum. split.
  - intros H. apply Z.mod_divide in H as [k Hk]; [|done]. exists k. lia.
  - intros [k ->]. replace (b + k * 65535 - b) with (k * 65535) by lia. by apply Z.mod_mul.
Qed.

Lemma csum_not a : 0 <= a < 2 ^ 32 -> 0 <= u32 (Z.lnot a) < 2 ^ 32 /\ eq_csum (u32 (Z.lnot a)) (- a).
Proof.
  intros Ha. assert (u32 (Z.lnot a) = 2 ^ 32 - 1 - a) as ->.
  { unfold Z.lnot. replace (Z.pred (- a)) with (2 ^ 32 - 1 - a + (-1) * 2 ^ 32) by lia.
    unfold wrap. rewrite Z.mod_add by done. apply Z.mod_small. lia. }
  split; [lia|]. apply eq_csum_alt. exists 65537. lia.
Qed.

Lemma csum_add_spec a b :
  0 <= a < 2 ^ 32 -> 0 <= b < 2 ^ 32 -> 0 <= csum_add a b < 2 ^ 32 /\ eq_csum (csum_add a b) (a + b).
Proof.
  intros Ha Hb. split; [unfold csum_add; apply wrap_range; lia|].
  apply eq_csum_alt. unfold csum_add.
  destruct (decide (a + b < 2 ^ 32)).
  - rewrite (wrap_small 32 (a + b)) by lia. rewrite (proj2 (Z.ltb_ge _ _)) by lia.
    rewrite Z.add_0_r, wrap_small by lia. exists 0. lia.
  - assert (u32 (a + b) = a + b - 2 ^ 32) as ->.
    { unfold wrap. rewrite <- (Z.mod_add _ (-1)) by done. rewrite Z.mod_small; lia. }
    rewrite (proj2 (Z.ltb_lt _ _)) by lia. rewrite wrap_small by lia. exists (-65537). lia.
Qed.

Lemma csum_fold_spec c : 0 <= c < 2 ^ 32 -> 0 <= csum_fold c < 2 ^ 16 /\ eq_csum (csum_fold c) (- c).
Proof.
  intros Hc. unfold csum_fold. split; [apply wrap_range; lia|].
  change 0xffff with (2 ^ 16 - 1). rewrite !land_mask, !Z.shiftr_div_pow2 by lia.
  assert (exists c1 k1, u32 (c mod 2 ^ 16 + c / 2 ^ 16) = c1 /\ 0 <= c1 < 2 * 65536 - 1 /\ c = c1 + k1 * 65535)
    as (c1 & k1 & -> & Hr1 & ->).
  { exists (c mod 2 ^ 16 + c / 2 ^ 16), (c / 2 ^ 16). split; [apply wrap_small; zlia|]. zlia. }
  assert (exists c2 k2, u32 (c1 mod 2 ^ 16 + c1 / 2 ^ 16) = c2 /\ 0 <= c2 < 65536 /\ c1 = c2 + k2 * 65535)
    as (c2 & k2 & -> & Hr2 & ->).
  { exists (c1 mod 2 ^ 16 + c1 / 2 ^ 16), (c1 / 2 ^ 16). split; [apply wrap_small; zlia|]. zlia. }
  assert (u16 (Z.lnot c2) = 65535 - c2) as ->.
  { unfold Z.lnot. replace (Z.pred (- c2)) with (65535 - c2 + (-1) * 2 ^ 16) by lia.
    unfold wrap. rewrite Z.mod_add by done. apply Z.mod_small. lia. }
  apply eq_csum_alt. exists (1 + k1 + k2). lia.
Qed.

Lemma eq_csum_add a b c d : eq_csum a b -> eq_csum c d -> eq_csum (a + c) (b + d).
Proof.
  rewrite !eq_csum_alt. intros [k ->] [l ->]. exists (k + l). lia.
Qed.

Lemma eq_csum_trans a b c : eq_csum a b -> eq_csum b c -> eq_csum a c.
Proof. rewrite !eq_csum_alt. intros [k ->] [l ->]. exists (k + l). lia. Qed.

Lemma eq_csum_opp a b : eq_csum a b -> eq_csum (- a) (- b).
Proof. rewrite !eq_csum_alt. intros [k ->]. exists (- k). lia. Qed.

(** The two 16-bit words of an address. *)
Lemma eq_csum_halves a : eq_csum a (a mod 2 ^ 16 + a / 2 ^ 16).
Proof. apply eq_csum_alt. exists (a / 2 ^ 16). zlia. Qed.

(** A chain of [csum_add]s from a complemented checksum. *)
Fixpoint csum_adds (c : Z) (l : list Z) : Z :=
  match l with [] => c | x :: l' => csum_adds (csum_add c x) l' end.

Lemma csum_adds_spec l : forall c,
  0 <= c < 2 ^ 32 -> Forall (fun x => 0 <= x < 2 ^ 32) l ->
  0 <= csum_adds c l < 2 ^ 32 /\ eq_csum (csum_adds c l) (c + foldr Z.add 0 l).
Proof.
  induction l as [|x l IH]; intros c Hc Hl; simpl.
  { split; [done|]. rewrite Z.add_0_r. apply eq_csum_alt. exists 0. lia. }
  apply Forall_cons in Hl as [Hx Hl]. destruct (csum_add_spec c x Hc Hx) as [Hr He].
  destruct (IH _ Hr Hl) as [Hr' He']. split; [done|]. eapply eq_csum_trans; [done|].
  rewrite Z.add_assoc. apply eq_csum_add; [done|]. apply eq_csum_alt. exists 0. lia.
Qed.

(** ** The rewritten packet *)

(** The cells of [m'] outside the regions [rs] are those of [m]. *)
Definition same_outside (m m' : mem) (rs : list (Z * Z)) : Prop :=
  (forall x, is_Some (m' !! x) <-> is_Some (m !! x)) /\
  forall x, Forall (fun r => ~ (r.1 <= x < r.1 + r.2)) rs -> m' !! x = m !! x.

Lemma same_outside_nil m : same_outside m m [].
Proof. by split. Qed.

Lemma same_outside_step m m1 m2 rs a n :
  same_outside m m1 rs -> same_except m1 m2 a n -> same_outside m m2 ((a, n) :: rs).
Proof.
  intros [Hm1 H1] [Hm2 H2]. split; [intros x; by rewrite Hm2, Hm1|].
  intros x [Hx Hrs]%Forall_cons. by rewrite H2, H1.
Qed.

Lemma same_outside_load n m m' rs a :
  same_outside m m' rs ->
  Forall (fun r => a + Z.of_nat n <= r.1 \/ r.1 + r.2 <= a) rs -> load n m' a = load n m a.
Proof.
  intros [_ H] Hrs. apply load_ext. intros x Hx. apply H.
  eapply Forall_impl; [done|]. intros [b k] Hr. simpl in *. lia.
Qed.

Lemma same_outside_load_bytes n m m' rs a :
  same_outside m m' rs ->
  Forall (fun r => a + Z.of_nat n <= r.1 \/ r.1 + r.2 <= a) rs -> load_bytes n m' a = load_bytes n m a.
Proof.
  intros [_ H] Hrs. apply option_eq. intros bs. rewrite !load_bytes_lookup.
  assert (forall i, (i < n)%nat -> m' !! (a + Z.of_nat i) = m !! (a + Z.of_nat i)) as Hi.
  { intros i Hi. apply H. eapply Forall_impl; [done|]. intros [b k] Hr. simpl in *. lia. }
  split; intros [? Hl]; (split; [done|]); intros i Hin; rewrite <- Hl by done; [symmetry|]; by apply Hi.
Qed.

Lemma same_outside_mapped m m' rs a n : same_outside m m' rs -> mapped m a n -> mapped m' a n.
Proof. intros [H _] Hm x Hx. by apply H, Hm. Qed.

(** The list of regions is apart from the access. *)
Ltac regions := repeat apply Forall_cons_2; try apply Forall_nil_2; simpl; lia.

(** One more store into mapped memory. *)
Lemma store_step n m m1 rs a v lo hi :
  same_outside m m1 rs -> bytes_ok m1 -> mapped m lo hi -> lo <= a -> a + Z.of_nat n <= lo + hi ->
  exists m2, store n m1 a v = Some m2 /\ same_outside m m2 ((a, Z.of_nat n) :: rs) /\ bytes_ok m2 /\
    load n m2 a = Some (v mod 2 ^ (8 * Z.of_nat n)).
Proof.
  intros Hs Hok Hm Hlo Hhi.
  destruct (store_Some n m1 a v) as [m2 H2].
  { eapply mapped_sub; [by eapply same_outside_mapped|lia..]. }
  destruct (store_frame _ _ _ _ _ H2) as (Hs2 & Hok2 & _).
  exists m2. split; [done|]. split; [by eapply same_outside_step|]. split; [by auto|].
  by eapply load_store_same.
Qed.

Lemma store_bytes_step m m1 rs a bs lo hi :
  same_outside m m1 rs -> bytes_ok m1 -> mapped m lo hi -> lo <= a ->
  a + Z.of_nat (length bs) <= lo + hi ->
  exists m2, store_bytes m1 a bs = Some m2 /\
    same_outside m m2 ((a, Z.of_nat (length bs)) :: rs) /\ bytes_ok m2 /\
    same_except m1 m2 a (Z.of_nat (length bs)) /\ load_bytes (length bs) m2 a = Some (u8 <$> bs).
Proof.
  intros Hs Hok Hm Hlo Hhi.
  destruct (store_bytes_Some bs m1 a) as [m2 H2].
  { eapply mapped_sub; [by eapply same_outside_mapped|lia..]. }
  destruct (store_bytes_spec _ _ _ _ H2) as (Hs2 & Hok2 & Hl).
  exists m2. split; [done|]. split; [by eapply same_outside_step|]. split; [by auto|]. split; [done|].
  apply load_bytes_lookup. rewrite length_fmap. split; [done|]. intros i Hi.
  by rewrite Hl, list_lookup_fmap.
Qed.

(** The new checksums: of the IP header and of the transport header. *)
Definition ip_check_new (check old_addr new_addr : Z) : Z :=
  csum_fold (csum_adds (u32 (Z.lnot check)) [u32 (Z.lnot old_addr); new_addr]).
Definition l4_check_new (check old_addr new_addr old_port new_port : Z) : Z :=
  csum_fold (csum_adds (u32 (Z.lnot check))
    [u32 (Z.lnot old_addr); new_addr; u32 (Z.lnot old_port); new_port]).

Lemma csum_fold_mod c : csum_fold c mod 2 ^ (8 * Z.of_nat 2) = csum_fold c.
Proof. apply wrap_wrap. lia. Qed.

Lemma finish_rep_spec m eth l4check rep oa op n c c4 :
  mapped m eth n -> bytes_ok m -> eth + 34 <= l4check -> l4check + 2 <= eth + n ->
  length rep.(rep_mac_addr) = ETH_ALEN ->
  load 2 m (ip_check (ip_of eth)) = Some c -> load 2 m l4check = Some c4 ->
  exists m', finish_rep m eth (ip_of eth) l4check rep oa op = Some m' /\
    same_outside m m' [(l4check, 2); (ip_check (ip_of eth), 2); (eth, 6); (eth + 6, 6)] /\
    bytes_ok m' /\
    (load 2 m' (ip_check (ip_of eth)) = Some (ip_check_new c oa rep.(rep_addr)) /\
     load 2 m' l4check = Some (l4_check_new c4 oa rep.(rep_addr) op rep.(rep_port))) /\
    load_bytes ETH_ALEN m' eth = Some (u8 <$> rep.(rep_mac_addr)) /\
    load_bytes ETH_ALEN m' (eth + 6) = load_bytes ETH_ALEN m eth.
Proof.
  intros Hm Hok Hl4 Hn Hmac Hc Hc4. pose proof (load_range _ _ _ _ Hok Hc).
  pose proof (load_range _ _ _ _ Hok Hc4). unfold ip_of, sizeof_ether_header, ip_check in *.
  unfold finish_rep, memcpy, ip_check.
  destruct (load_bytes_Some ETH_ALEN m eth) as [bs Hbs]; [eapply mapped_sub; [done|unfold ETH_ALEN; lia..]|].
  rewrite Hbs. cbn [mbind option_bind]. pose proof (load_bytes_range _ _ _ _ Hok Hbs) as Hbr.
  apply load_bytes_lookup in Hbs as [Hlen _]. unfold ETH_ALEN in *.
  destruct (store_bytes_step m m [] (eth + 6) bs eth n) as (m1 & -> & Hs1 & Hok1 & _ & Hb1);
    [apply same_outside_nil|done|done|lia..|]. cbn [mbind option_bind].
  destruct (store_bytes_step m m1 _ eth rep.(rep_mac_addr) eth n Hs1) as (m2 & -> & Hs2 & Hok2 & Hf2 & Hb2);
    [done|done|lia..|]. cbn [mbind option_bind]. rewrite Hlen, Hmac in Hs2.
  rewrite Hmac in Hb2, Hf2. rewrite Hlen, fmap_u8_id in Hb1 by done.
  rewrite <- (load_bytes_frame 6 m1 m2 _ _ _ Hf2) in Hb1 by lia.
  rewrite (same_outside_load _ _ _ _ _ Hs2), Hc by regions.
  cbn [mbind option_bind].
  match goal with |- context [store 2 m2 ?a ?v] =>
    destruct (store_step 2 m m2 _ a v eth n Hs2) as (m3 & He3 & Hs3 & Hok3 & Hl3); [done|done|lia..|] end.
  rewrite He3. cbn [mbind option_bind].
  rewrite (same_outside_load _ _ _ _ _ Hs3), Hc4 by regions.
  cbn [mbind option_bind].
  match goal with |- context [store 2 m3 ?a ?v] =>
    destruct (store_step 2 m m3 _ a v eth n Hs3) as (m4 & He4 & Hs4 & Hok4 & Hl4'); [done|done|lia..|] end.
  exists m4. split; [exact He4|]. split; [exact Hs4|]. split; [done|].
  rewrite csum_fold_mod in *. unfold csum_unfold in *. rewrite (wrap_small 32 c) in Hl3 by lia.
  rewrite (wrap_small 32 c4) in Hl4' by lia.
  destruct (store_frame _ _ _ _ _ He3) as (Hf3 & _). destruct (store_frame _ _ _ _ _ He4) as (Hf4 & _).
  split; [split; [|exact Hl4']|].
  - by rewrite (load_frame _ _ _ _ _ _ Hf4) by lia.
  - rewrite !(load_bytes_frame _ _ _ _ _ _ Hf4), !(load_bytes_frame _ _ _ _ _ _ Hf3) by lia. done.
Qed.

(** The address and the port that a replacement rewrites. *)
Definition addr_field (rep : replace_info) (iph : Z) : Z :=
  match rep.(dir) with DIR_TO_BACKEND => ip_daddr iph | DIR_TO_CLIENT => ip_saddr iph end.
Definition port_field (rep : replace_info) (sport dport : Z) : Z :=
  match rep.(dir) with DIR_TO_BACKEND => dport | DIR_TO_CLIENT => sport end.

Lemma insert_rep_eq m eth iph sport dport l4check rep :
  insert_rep m eth iph sport dport l4check rep =
    (old_addr ← load 4 m (addr_field rep iph);
     m ← store 4 m (addr_field rep iph) rep.(rep_addr);
     old_port ← load 2 m (port_field rep sport dport);
     m ← store 2 m (port_field rep sport dport) rep.(rep_port);
     finish_rep m eth iph l4check rep old_addr old_port).
Proof. unfold insert_rep, addr_field, port_field. by destruct (dir rep). Qed.

Record rep_ok (rep : replace_info) : Prop := {
  ro_addr : 0 <= rep.(rep_addr) < 2 ^ 32;
  ro_port : 0 <= rep.(rep_port) < 2 ^ 16;
  ro_mac : length rep.(rep_mac_addr) = ETH_ALEN;
}.

Lemma insert_rep_lemma m eth sport dport l4check rep n oa op c c4 :
  mapped m eth n -> bytes_ok m -> rep_ok rep ->
  eth + 34 <= sport -> sport + 2 <= dport -> dport + 2 <= l4check -> l4check + 2 <= eth + n ->
  load 4 m (addr_field rep (ip_of eth)) = Some oa ->
  load 2 m (port_field rep sport dport) = Some op ->
  load 2 m (ip_check (ip_of eth)) = Some c -> load 2 m l4check = Some c4 ->
  exists m', insert_rep m eth (ip_of eth) sport dport l4check rep = Some m' /\
    same_outside m m' [(l4check, 2); (ip_check (ip_of eth), 2); (eth, 6); (eth + 6, 6);
      (port_field rep sport dport, 2); (addr_field rep (ip_of eth), 4)] /\
    load 4 m' (addr_field rep (ip_of eth)) = Some rep.(rep_addr) /\
    load 2 m' (port_field rep sport dport) = Some rep.(rep_port) /\
    (load 2 m' (ip_check (ip_of eth)) = Some (ip_check_new c oa rep.(rep_addr)) /\
     load 2 m' l4check = Some (l4_check_new c4 oa rep.(rep_addr) op rep.(rep_port))) /\
    load_bytes ETH_ALEN m' eth = Some (u8 <$> rep.(rep_mac_addr)) /\
    load_bytes ETH_ALEN m' (eth + 6) = load_bytes ETH_ALEN m eth.
Proof.
  intros Hm Hok [Hra Hrp Hmac] Hsp Hdp Hl4 Hn Hoa Hop Hc Hc4. rewrite insert_rep_eq.
  assert (exists a, addr_field rep (ip_of eth) = a /\ eth + 26 <= a <= eth + 30) as (a & Ha & Har).
  { eexists. split; [done|]. unfold addr_field, ip_of, ip_saddr, ip_daddr, sizeof_ether_header.
    destruct (dir rep); lia. }
  assert (exists p, port_field rep sport dport = p /\ sport <= p /\ p + 2 <= l4check) as (p & Hp & Hpr).
  { eexists. split; [done|]. unfold port_field. destruct (dir rep); lia. }
  rewrite Ha, Hp in *. rewrite Hoa. cbn [mbind option_bind].
  assert (ip_check (ip_of eth) = eth + 24) as Hck by (unfold ip_check, ip_of, sizeof_ether_header; lia).
  destruct (store_step 4 m m [] a (rep_addr rep) eth n) as (m1 & -> & Hs1 & Hok1 & Hl1);
    [apply same_outside_nil|done|done|lia..|]. cbn [mbind option_bind].
  rewrite (same_outside_load _ _ _ _ _ Hs1), Hop by regions. cbn [mbind option_bind].
  destruct (store_step 2 m m1 _ p (rep_port rep) eth n Hs1) as (m2 & H2 & Hs2 & Hok2 & Hl2);
    [done|done|lia..|]. rewrite H2. cbn [mbind option_bind].
  destruct (store_frame _ _ _ _ _ H2) as (Hf2 & _).
  destruct (finish_rep_spec m2 eth l4check rep oa op n c c4) as (m3 & -> & [Hd3 Hs3] & _ & Hl3 & Hb3 & Hb3');
    [by eapply same_outside_mapped|done|lia..|done| | |].
  { rewrite Hck in *. by rewrite (same_outside_load _ _ _ _ _ Hs2) by regions. }
  { by rewrite (same_outside_load _ _ _ _ _ Hs2) by regions. }
  rewrite Hck in *. exists m3. split; [done|].
  assert (same_outside m2 m3 [(l4check, 2); (eth + 24, 2); (eth, 6); (eth + 6, 6)]) as Hs3' by done.
  split.
  { destruct Hs2 as [Hd2 Hs2]. split; [intros x; by rewrite Hd3, Hd2|].
    intros x Hx. rewrite !Forall_cons in Hx. simpl in Hx. rewrite Hs3; [apply Hs2|].
    all: rewrite ?Forall_cons, ?Forall_nil; simpl; naive_solver. }
  split; [|split; [|split; [exact Hl3|split; [exact Hb3|]]]].
  3:{ rewrite Hb3'. apply (same_outside_load_bytes _ _ _ _ _ Hs2). unfold ETH_ALEN. regions. }
  - rewrite (same_outside_load _ _ _ _ _ Hs3') by regions.
    rewrite (load_frame _ _ _ _ _ _ Hf2), Hl1 by lia. by rewrite Z.mod_small.
  - rewrite (same_outside_load _ _ _ _ _ Hs3') by regions. by rewrite Hl2, Z.mod_small.
Qed.

(** The one's complement sum of the 20 bytes of an IP header. *)
Definition word (m : mem) (a : Z) : Z := default 0 (load 2 m a).
Definition hdr_sum (m : mem) (iph : Z) : Z :=
  foldr Z.add 0 ((fun k => word m (iph + k)) <$> [0; 2; 4; 6; 8; 10; 12; 14; 16; 18]).

Lemma load4_words m a v : load 4 m a = Some v -> v = word m a + 2 ^ 16 * word m (a + 2).
Proof.
  unfold word, load. replace (a + 2) with (a + 1 + 1) by lia.
  destruct (load8 m a) as [b0|]; cbn [mbind option_bind]; [|done].
  destruct (load8 m (a + 1)) as [b1|]; cbn [mbind option_bind]; [|done].
  destruct (load8 m (a + 1 + 1)) as [b2|]; cbn [mbind option_bind]; [|done].
  destruct (load8 m (a + 1 + 1 + 1)) as [b3|]; cbn [mbind option_bind]; [|done].
  intros [= <-]. cbn [default]. change (2 ^ 8) with 256. change (2 ^ 16) with 65536. unfold id. lia.
Qed.

(** All the addends are words. *)
Ltac words := repeat (apply Forall_cons_2; [done|]); apply Forall_nil_2.

Lemma ip_check_new_spec c oa na :
  0 <= c < 2 ^ 32 -> 0 <= oa < 2 ^ 32 -> 0 <= na < 2 ^ 32 ->
  eq_csum (ip_check_new c oa na) (c + oa - na).
Proof.
  intros Hc Ho Hn. unfold ip_check_new.
  destruct (csum_not c Hc) as [Hrc Hec], (csum_not oa Ho) as [Hro Heo].
  destruct (csum_adds_spec [u32 (Z.lnot oa); na] (u32 (Z.lnot c))) as [Hr He]; [done|words|].
  destruct (csum_fold_spec _ Hr) as [_ Hf]. eapply eq_csum_trans; [done|].
  revert Hf He. generalize (csum_adds (u32 (Z.lnot c)) [u32 (Z.lnot oa); na]). intros x _ He.
  cbn [foldr] in He. rewrite eq_csum_alt in *. destruct He as [k ->], Hec as [k1 ->], Heo as [k2 ->].
  exists (- (k + k1 + k2)). lia.
Qed.

Lemma l4_check_new_spec c oa na op np :
  0 <= c < 2 ^ 32 -> 0 <= oa < 2 ^ 32 -> 0 <= na < 2 ^ 32 -> 0 <= op < 2 ^ 32 -> 0 <= np < 2 ^ 32 ->
  eq_csum (l4_check_new c oa na op np + na + np) (c + oa + op).
Proof.
  intros Hc Ho Hn Hop Hnp. unfold l4_check_new.
  destruct (csum_not c Hc) as [Hrc Hec], (csum_not oa Ho) as [Hro Heo], (csum_not op Hop) as [Hrp Hep].
  destruct (csum_adds_spec [u32 (Z.lnot oa); na; u32 (Z.lnot op); np] (u32 (Z.lnot c))) as [Hr He];
    [done|words|].
  destruct (csum_fold_spec _ Hr) as [_ Hf]. revert Hf He.
  generalize (csum_adds (u32 (Z.lnot c)) [u32 (Z.lnot oa); na; u32 (Z.lnot op); np]).
  intros x Hf He. revert Hf. generalize (csum_fold x). intros y Hf.
  cbn [foldr] in He. rewrite eq_csum_alt in *.
  destruct Hf as [k0 ->], He as [k ->], Hec as [k1 ->], Heo as [k2 ->], Hep as [k3 ->].
  exists (k0 - (k + k1 + k2 + k3)). lia.
Qed.

Lemma word_outside m m' rs a :
  same_outside m m' rs -> Forall (fun r => a + 2 <= r.1 \/ r.1 + r.2 <= a) rs -> word m' a = word m a.
Proof.
  intros Hs Hrs. unfold word. by rewrite (same_outside_load 2 m m' rs).
Qed.

(** A header that differs in its checksum and in one address keeps its sum when
    the checksum is the incremental one. *)
Lemma hdr_sum_update m m' iph rs (f c oa na : Z) :
  same_outside m m' rs -> f = 12 \/ f = 16 ->
  Forall (fun r => (r.1 = iph + 10 /\ r.2 = 2) \/ (r.1 = iph + f /\ r.2 = 4) \/
    r.1 + r.2 <= iph \/ iph + 20 <= r.1) rs ->
  load 4 m (iph + f) = Some oa -> load 4 m' (iph + f) = Some na ->
  load 2 m (iph + 10) = Some c -> load 2 m' (iph + 10) = Some (ip_check_new c oa na) ->
  0 <= c < 2 ^ 32 -> 0 <= oa < 2 ^ 32 -> 0 <= na < 2 ^ 32 ->
  eq_csum (hdr_sum m' iph) (hdr_sum m iph).
Proof.
  intros Hs Hf Hrs Hoa Hna Hc Hc' Hrc Hro Hrn.
  pose proof (ip_check_new_spec c oa na Hrc Hro Hrn) as Hnew.
  assert (forall k, 0 <= k <= 18 -> (k + 2 <= 10 \/ 12 <= k) -> (k + 2 <= f \/ f + 4 <= k) ->
    word m' (iph + k) = word m (iph + k)) as Hw.
  { intros k Hk Hk1 Hk2. apply (word_outside m m' rs); [done|].
    eapply Forall_impl; [done|]. intros [a n]. simpl. lia. }
  assert (word m (iph + 10) = c) as Hwc by (unfold word; by rewrite Hc).
  assert (word m' (iph + 10) = ip_check_new c oa na) as Hwc' by (unfold word; by rewrite Hc').
  apply load4_words in Hoa, Hna. rewrite <- !Z.add_assoc in Hoa, Hna.
  unfold hdr_sum. cbn [fmap list_fmap foldr]. rewrite Hwc, Hwc'.
  rewrite !(Hw 0), !(Hw 2), !(Hw 4), !(Hw 6), !(Hw 8) by lia.
  rewrite eq_csum_alt in *. destruct Hnew as [k ->].
  destruct Hf as [-> | ->].
  - rewrite !(Hw 16), !(Hw 18) by lia. change (12 + 2) with 14 in Hoa, Hna. subst oa na.
    exists (k + word m (iph + 14) - word m' (iph + 14)). lia.
  - rewrite !(Hw 12), !(Hw 14) by lia. change (16 + 2) with 18 in Hoa, Hna. subst oa na.
    exists (k + word m (iph + 18) - word m' (iph + 18)). lia.
Qed.

(** ** Loading *)

Definition the_service (srv_addr : Z) : service_id := ServiceId srv_addr (htons srv_port) IPPROTO_UDP.
Definition loaded_backend (srv_addr : Z) (i : nat) (a : option Z) : backend_id * backend_info :=
  (BackendId (the_service srv_addr) (Z.of_nat i),
   BackendInfo (default srv_addr a) (htons bkd_port_num) load_mac_addr None).

Record load_inv (srv_addr : Z) (n : nat) (ls : load_state) : Prop := {
  li_free : ls.(service_first_free) = if decide (n = 0%nat) then 0 else 1;
  li_entries : ls.(service_entries) =
    [if decide (n = 0%nat) then None else Some (the_service srv_addr, Z.of_nat n)];
  li_index : hm_rep_n sizeof_service_id ls.(srv_to_index)
    (if decide (n = 0%nat) then ∅ else {[ service_bytes (the_service srv_addr) := 0 ]});
}.

Lemma load_backends_spec srv_addr atons : forall n ls,
  load_inv srv_addr n ls -> Z.of_nat (n + length atons) < 2 ^ 32 ->
  exists ls', load_backends (Some srv_addr) atons ls = Some ls' /\
    load_inv srv_addr (n + length atons) ls' /\
    ls'.(backend_entries) = ls.(backend_entries) ++
      imap (fun i => loaded_backend srv_addr (n + i)) atons.
Proof.
  induction atons as [|a atons IH]; intros n ls Hinv Hn.
  { exists ls. rewrite Nat.add_0_r, app_nil_r. done. }
  cbn [load_backends length] in *. unfold load_backend. cbn [mbind option_bind].
  fold (the_service srv_addr). destruct Hinv as [Hfree Hent Hidx].
  pose proof (dict_lookup_law _ _ _ (service_bytes_length (the_service srv_addr)) Hidx) as Hlk.
  cbn [dict_lookup hashmap_dict] in Hlk. rewrite Hlk, Hent.
  case_decide as Hn0.
  - subst n. rewrite lookup_empty.
    destruct (dict_insert_new _ _ (service_bytes (the_service srv_addr)) ls.(service_first_free)
      (service_bytes_length _) Hidx (lookup_empty _)) as (map' & Hins & Hrep').
    cbn [dict_insert hashmap_dict] in Hins. rewrite Hins, Z.eqb_refl, Hfree. cbn [negb mbind option_bind].
    edestruct (IH 1%nat) as (ls' & -> & Hinv' & Hbk); [|lia|].
    { split; [done|done|]. rewrite Hfree in Hrep'. exact Hrep'. }
    exists ls'. split; [done|]. split; [done|]. rewrite Hbk. cbn [backend_entries]. rewrite <- (assoc_L (++)). done.
  - rewrite lookup_singleton_eq. change (Z.to_nat 0) with 0%nat.
    cbn [lookup list_lookup insert list_insert mbind option_bind].
    edestruct (IH (S n)) as (ls' & -> & Hinv' & Hbk); [|lia|].
    { split; cbn; [by rewrite Hfree|by rewrite wrap_small by lia; repeat f_equal; lia|exact Hidx]. }
    exists ls'. split; [done|]. split; [by replace (n + S (length atons))%nat with (S n + length atons)%nat by lia|].
    rewrite Hbk. cbn [backend_entries]. rewrite <- (assoc_L (++)). cbn [imap]. f_equal. simpl. f_equal.
    + unfold loaded_backend. by rewrite Nat.add_0_r.
    + apply imap_ext. intros i x _. unfold compose. by rewrite Nat.add_succ_r.
Qed.

Lemma insert_all_spec {V} n (kvs : list (list Z * V)) : forall map g,
  hm_rep_n n map g -> NoDup kvs.*1 -> Forall (fun kv => Z.of_nat (length kv.1) = n) kvs ->
  (forall k, k ∈ kvs.*1 -> g !! k = None) ->
  exists map', insert_all map kvs = Some map' /\ hm_rep_n n map' (list_to_map kvs ∪ g).
Proof.
  induction kvs as [|[k v] kvs IH]; intros map g Hrep Hnd Hlen Hg.
  { exists map. split; [done|]. by rewrite list_to_map_nil, (left_id_L ∅ (∪)). }
  csimpl in *. apply NoDup_cons in Hnd as [Hk Hnd]. apply Forall_cons in Hlen as [Hkl Hlen].
  unfold insert_or_exit.
  destruct (dict_insert_new map g k v Hkl Hrep) as (map1 & Hins & Hrep1); [apply Hg; by left|].
  cbn [dict_insert hashmap_dict] in Hins. rewrite Hins, Z.eqb_refl. cbn [negb mbind option_bind].
  destruct (IH map1 _ Hrep1 Hnd Hlen) as (map' & -> & Hrep').
  { intros k' Hk'. rewrite lookup_insert_ne by (intros ->; done). apply Hg. by right. }
  exists map'. split; [done|]. rewrite <- insert_union_r in Hrep'.
  - by rewrite <- insert_union_l.
  - by apply not_elem_of_list_to_map_1.
Qed.

(** The state that [load_services] builds. *)
Definition loaded (srv_addr : Z) (atons : list (option Z)) (mapping : gmap Z Z)
    (sessions : gmap (list Z) replace_info) : lb_spec :=
  LB {[ service_bytes (the_service srv_addr) := ServiceInfo (Z.of_nat (length atons)) ]}
    (list_to_map ((fun e => (backend_bytes e.1, e.2)) <$> imap (loaded_backend srv_addr) atons))
    {[ service_bytes (the_service srv_addr) := mapping ]} sessions.

Lemma backend_bytes_inj s i j :
  0 <= i < 2 ^ 32 -> 0 <= j < 2 ^ 32 ->
  backend_bytes (BackendId s i) = backend_bytes (BackendId s j) -> i = j.
Proof. intros Hi Hj He%(app_inv_head _). by apply (le_bytes_inj 4) in He. Qed.

Lemma loaded_backends_lookup srv_addr atons (i : nat) a :
  Z.of_nat (length atons) < 2 ^ 32 ->
  NoDup ((fun e => (backend_bytes e.1, e.2)) <$> imap (loaded_backend srv_addr) atons).*1 /\
  (atons !! i = Some a ->
   (list_to_map ((fun e => (backend_bytes e.1, e.2)) <$> imap (loaded_backend srv_addr) atons)
     : gmap (list Z) backend_info) !! backend_bytes (BackendId (the_service srv_addr) (Z.of_nat i)) =
     Some (loaded_backend srv_addr i a).2).
Proof.
  intros Hlen. rewrite <- list_fmap_compose.
  match goal with |- context [list_to_map ?l] => set (kvs := l) end.
  assert (NoDup ((fst ∘ (fun e : backend_id * backend_info => (backend_bytes e.1, e.2))) <$>
    imap (loaded_backend srv_addr) atons)) as Hnd.
  { apply NoDup_alt. intros j k x. rewrite !list_lookup_fmap, !list_lookup_imap.
    destruct (atons !! j) as [aj|] eqn:Hj; [|done]. destruct (atons !! k) as [ak|] eqn:Hk; [|done].
    cbn [fmap option_fmap option_map]. unfold compose. cbn [fst snd loaded_backend].
    intros [= <-] He%(inj Some). apply lookup_lt_Some in Hj, Hk.
    apply backend_bytes_inj in He; lia. }
  split; [done|]. intros Ha. apply elem_of_list_to_map_1.
  - unfold kvs. by rewrite <- list_fmap_compose.
  - apply list_elem_of_lookup. exists i. unfold kvs.
    rewrite list_lookup_fmap, list_lookup_imap, Ha. done.
Qed.

Lemma mapM_single {A B} (f : A -> option B) x : mapM f [x] = (y ← f x; Some [y]).
Proof. unfold mapM. by destruct (f x). Qed.

Lemma load_services_lemma srv_addr atons sessions gs :
  atons <> [] -> Z.of_nat (length atons) < 2 ^ 31 -> hm_rep_n sizeof_session_id sessions gs ->
  option_Forall2 (fun st mapping => lb_tables_rep st (loaded srv_addr atons mapping gs))
    (load_services (Some srv_addr) atons sessions)
    (configure MAGLEV_LOOKUP_SIZE (Z.of_nat (length atons))).
Proof.
  intros Hne Hlen Hs. unfold load_services. cbv zeta.
  assert (forall V n vs e, 0 <= n -> 0 < e < 2 ^ 31 ->
    hm_rep_n n (fst (@hashmap_init V true n vs e)) ∅) as Hinit.
  { intros V n vs e Hn He. split; [by apply init_spec|done]. }
  pose proof (Hinit Z sizeof_service_id 4 1 ltac:(done) ltac:(done)) as Hi0.
  pose proof (Hinit service_info sizeof_service_id 4 MAX_SERVICES ltac:(done) ltac:(done)) as Hi1.
  pose proof (Hinit backend_info sizeof_backend_id 14 MAX_BACKENDS ltac:(done) ltac:(done)) as Hi2.
  pose proof (Hinit (gmap Z Z) sizeof_service_id (4 * MAGLEV_LOOKUP_SIZE) MAX_SERVICES
    ltac:(done) ltac:(done)) as Hi3.
  clear Hinit. revert Hi0 Hi1 Hi2 Hi3.
  generalize (fst (@hashmap_init Z true sizeof_service_id 4 1)).
  generalize (fst (@hashmap_init service_info true sizeof_service_id 4 MAX_SERVICES)).
  generalize (fst (@hashmap_init backend_info true sizeof_backend_id 14 MAX_BACKENDS)).
  generalize (fst (@hashmap_init (gmap Z Z) true sizeof_service_id (4 * MAGLEV_LOOKUP_SIZE) MAX_SERVICES)).
  intros m3 m2 m1 m0 Hi0 Hi1 Hi2 Hi3.
  edestruct (load_backends_spec srv_addr atons 0) as (ls & -> & [Hfree Hent _] & Hbk); [|lia|].
  { split; [done|done|]. exact Hi0. }
  change (imap (fun i => loaded_backend srv_addr (0 + i)) atons)
    with (imap (loaded_backend srv_addr) atons) in Hbk.
  cbn [mbind option_bind]. rewrite Hent, Hbk. cbn [Nat.add backend_entries app].
  destruct (decide (length atons = 0)%nat) as [He|_]; [exfalso; apply Hne; exact (nil_length_inv _ He)|].
  rewrite (mapM_single id). unfold id at 1. cbn [mbind option_bind fmap list_fmap fst snd].
  destruct (insert_all_spec sizeof_service_id
    [(service_bytes (the_service srv_addr), ServiceInfo (Z.of_nat (length atons)))]
    m1 ∅) as (m1' & -> & Hr1);
    [done|apply NoDup_singleton|by apply Forall_singleton|by intros; apply lookup_empty|].
  cbn [mbind option_bind].
  destruct (insert_all_spec sizeof_backend_id
    ((fun e => (backend_bytes e.1, e.2)) <$> imap (loaded_backend srv_addr) atons)
    m2 ∅) as (m2' & -> & Hr2).
  { done. }
  { apply (loaded_backends_lookup _ _ 0%nat None). lia. }
  { apply Forall_fmap, Forall_true. by intros []. }
  { by intros; apply lookup_empty. }
  cbn [mbind option_bind]. rewrite (mapM_single configure_entry). unfold configure_entry.
  cbn [mbind option_bind].
  rewrite swrap_small by lia. generalize (configure MAGLEV_LOOKUP_SIZE (Z.of_nat (length atons))).
  intros [mapping|]; cbn [mbind option_bind]; [|constructor].
  destruct (insert_all_spec sizeof_service_id
    [(service_bytes (the_service srv_addr), mapping)] m3 ∅) as (m3' & -> & Hr3);
    [done|apply NoDup_singleton|by apply Forall_singleton|by intros; apply lookup_empty|].
  cbn [mbind option_bind]. constructor.
  rewrite (right_id_L ∅ (∪)) in Hr1. rewrite (right_id_L ∅ (∪)) in Hr2.
  rewrite (right_id_L ∅ (∪)) in Hr3. cbn [list_to_map foldr] in Hr1, Hr3.
  split; cbn [services backends maglev_tables active_sessions]; assumption.
Qed.

(** ** The properties *)

(** [process_packet_maglev] of [toasty.c] over the chained hash maps does what it does over
    finite maps. *)
Theorem maglev_packet_refines (st : lb_tables) (g : lb_spec) m data length addr :
  lb_tables_rep st g ->
  option_Forall2 lb_tables_rep (process_packet_maglev st m data length addr)
    (process_packet_maglev g m data length addr).
Proof. apply process_packet_maglev_sim. Qed.

(** C25: [load_services] builds one service with all backends and the table that
    [configure] gives; it fails when [configure] does. *)
Theorem load_services_refines srv_addr atons sessions gs :
  atons <> [] -> Z.of_nat (length atons) < 2 ^ 31 -> hm_rep_n sizeof_session_id sessions gs ->
  option_Forall2 (fun st mapping => lb_tables_rep st (loaded srv_addr atons mapping gs))
    (load_services (Some srv_addr) atons sessions)
    (configure MAGLEV_LOOKUP_SIZE (Z.of_nat (length atons))).
Proof. apply load_services_lemma. Qed.

Lemma slot_of_range sid : 0 <= slot_of sid < MAGLEV_LOOKUP_SIZE.
Proof. apply Z.mod_pos_bound. done. Qed.

(** C27: With a full table, a new session of the service gets the backend of its slot
    and the session remembers it. *)
Theorem new_session_served srv_addr atons (mapping : gmap Z Z) gs sid mac :
  Z.of_nat (length atons) < 2 ^ 31 ->
  (forall c, 0 <= c < MAGLEV_LOOKUP_SIZE -> 0 <= mapping !!! c < Z.of_nat (length atons)) ->
  service_of sid = the_service srv_addr -> gs !! session_bytes sid = None ->
  exists i a g' r, atons !! i = Some a /\ Z.of_nat i = mapping !!! slot_of sid /\
    let rep := fwd_rep_of (Z.of_nat i) (loaded_backend srv_addr i a).2 in
    find_session (loaded srv_addr atons mapping gs) sid (Some mac) = Some (g', r) /\
    (r = Opened rep \/ r = InsertFailed rep) /\ g'.(active_sessions) !! session_bytes sid = Some rep.
Proof.
  intros Hlen Hmap Hsrv Hnew. pose proof (Hmap _ (slot_of_range sid)) as Hslot.
  destruct (lookup_lt_is_Some_2 atons (Z.to_nat (mapping !!! slot_of sid))) as [a Ha]; [lia|].
  destruct (loaded_backends_lookup srv_addr atons (Z.to_nat (mapping !!! slot_of sid)) a ltac:(lia)) as [_ Hb]. specialize (Hb Ha).
  rewrite Z2Nat.id in Hb by lia.
  exists (Z.to_nat (mapping !!! slot_of sid)), a. cbv zeta. rewrite Z2Nat.id by lia.
  unfold find_session. cbn [dict_lookup dict_insert gmap_dict active_sessions loaded services
    maglev_tables backends].
  rewrite Hnew, Hsrv, !lookup_singleton_eq. cbn [mbind option_bind].
  rewrite (wrap_small 32) by lia. cbv zeta. rewrite Hb, Z.eqb_refl. cbn [negb mbind option_bind].
  set (sid' := SessionId _ _ _ _ _).
  destruct (<[_ := _]> gs !! session_bytes sid') as [w|] eqn:Hw; cbn [Z.eqb negb].
  - eexists _, _. split; [done|]. split; [done|]. split; [reflexivity|]. split; [by right|].
    cbn [active_sessions set_sessions]. by rewrite lookup_insert_eq.
  - eexists _, _. split; [done|]. split; [done|]. split; [reflexivity|]. split; [by left|].
    cbn [active_sessions set_sessions]. destruct (decide (session_bytes sid' = session_bytes sid)) as [He|Hne].
    + rewrite He, lookup_insert_eq in Hw. done.
    + by rewrite lookup_insert_ne, lookup_insert_eq.
Qed.

(** A packet of a session is processed once: the second packet finds the session
    (or what was missing) as it is and changes nothing. *)
Theorem maglev_idempotent (g g' : lb_spec) m data length addr :
  process_packet_maglev g m data length addr = Some g' ->
  process_packet_maglev g' m data length addr = Some g'.
Proof.
  unfold process_packet_maglev. destruct (read_sid m data) as [sid|]; cbn [mbind option_bind]; [|done].
  destruct (find_session g sid _) as [[g1 r]|] eqn:Hf; cbn [mbind option_bind]; [|done].
  intros ->%(inj Some). destruct (find_session_stable _ _ _ _ _ (load_bytes ETH_ALEN m (data + 6)) Hf)
    as (r' & [-> | ->]); [done|]. by rewrite Hf.
Qed.

Lemma opened_inj r1 r2 : Opened r1 = Opened r2 -> r1 = r2.
Proof. by intros [=]. Qed.

Lemma insert_failed_opened r1 r2 : InsertFailed r1 = Opened r2 -> False.
Proof. done. Qed.

(** The answers of the backend find the way back: source and port of the service,
    whatever the tables hold by then. *)
Theorem reply_known (g g' : lb_spec) sid mac rep h :
  find_session g sid (Some mac) = Some (g', Opened rep) ->
  find_session g' (reply_of sid rep) h = Some (g', Known (bwd_rep_of sid mac)).
Proof.
  unfold find_session at 1. cbn [dict_lookup dict_insert gmap_dict].
  destruct (active_sessions g !! _) as [w|] eqn:Ha; [done|].
  destruct (services g !! _) as [info|]; [|done].
  destruct (maglev_tables g !! _) as [mapping|]; cbn [mbind option_bind]; [|done].
  cbv zeta. destruct (backends g !! _) as [b|]; [|done].
  rewrite Z.eqb_refl. cbn [negb mbind option_bind].
  destruct (<[_ := _]> _ !! _) as [w|] eqn:Hw; cbn [Z.eqb negb].
  { by intros [_ []%insert_failed_opened]%(inj Some)%pair_eq. }
  intros [<- <-%opened_inj]%(inj Some)%pair_eq. unfold find_session.
  cbn [dict_lookup gmap_dict active_sessions set_sessions].
  unfold reply_of. cbn [rep_addr rep_port]. by rewrite lookup_insert_eq.
Qed.

(** C26: The rewritten packet has the address and port of its session, and its IP
    header still sums to what it did: a header that verified, verifies. *)
Theorem insert_rep_keeps_sum m eth sport dport l4check rep n oa op c c4 :
  mapped m eth n -> bytes_ok m -> rep_ok rep ->
  eth + 34 <= sport -> sport + 2 <= dport -> dport + 2 <= l4check -> l4check + 2 <= eth + n ->
  load 4 m (addr_field rep (ip_of eth)) = Some oa ->
  load 2 m (port_field rep sport dport) = Some op ->
  load 2 m (ip_check (ip_of eth)) = Some c -> load 2 m l4check = Some c4 ->
  exists m' c4', insert_rep m eth (ip_of eth) sport dport l4check rep = Some m' /\
    load 4 m' (addr_field rep (ip_of eth)) = Some rep.(rep_addr) /\
    load 2 m' (port_field rep sport dport) = Some rep.(rep_port) /\
    eq_csum (hdr_sum m' (ip_of eth)) (hdr_sum m (ip_of eth)) /\
    load 2 m' l4check = Some c4' /\
    eq_csum (c4' + rep.(rep_addr) + rep.(rep_port)) (c4 + oa + op).
Proof.
  intros Hm Hok Hrep Hsp Hdp Hl4 Hn Hoa Hop Hc Hc4.
  pose proof (load_range _ _ _ _ Hok Hoa). pose proof (load_range _ _ _ _ Hok Hop).
  pose proof (load_range _ _ _ _ Hok Hc). pose proof (load_range _ _ _ _ Hok Hc4).
  destruct (insert_rep_lemma m eth sport dport l4check rep n oa op c c4) as
    (m' & -> & Hs & Ha & Hp & [Hck Hl] & _); [done..|].
  destruct Hrep as [Hra Hrp _].
  exists m', (l4_check_new c4 oa rep.(rep_addr) op rep.(rep_port)).
  split; [done|]. split; [done|]. split; [done|]. split; [|split; [done|]].
  - assert (exists f, addr_field rep (ip_of eth) = ip_of eth + f /\ (f = 12 \/ f = 16)) as (f & Hf & Hf').
    { unfold addr_field, ip_saddr, ip_daddr. destruct (dir rep); eauto. }
    rewrite Hf in *. eapply (hdr_sum_update m m' _ _ f c oa); [exact Hs|done| |done..|lia|lia|lia].
    assert (eth + 34 <= port_field rep sport dport) by (unfold port_field; destruct (dir rep); lia).
    unfold ip_check, ip_of, sizeof_ether_header in *.
    regions.
  - apply l4_check_new_spec; lia.
Qed.

(** A packet on its way back has no backend index: [bwd_rep.bkdindex] is never set. *)
Theorem reply_options_undefined sid mac xv : (set_options xv (bwd_rep_of sid mac)).(xv_options) = None.
Proof. done. Qed.

(** ** Witnesses *)

Definition empty_tables : lb_tables :=
  LB (fst (hashmap_init true sizeof_service_id 4 8)) (fst (hashmap_init true sizeof_backend_id 14 8))
    (fst (hashmap_init true sizeof_service_id 20 8)) (fst (hashmap_init true sizeof_session_id 20 8)).

Lemma init_rep_n V n vs e :
  0 <= n -> 0 < e < 2 ^ 31 -> hm_rep_n n (fst (@hashmap_init V true n vs e)) ∅.
Proof. intros. split; [by apply init_spec|done]. Qed.

Lemma empty_tables_rep : lb_tables_rep empty_tables (LB ∅ ∅ ∅ ∅).
Proof. by split; apply init_rep_n. Qed.

Lemma maglev_packet_refines_witness :
  option_Forall2 lb_tables_rep
    (process_packet_maglev empty_tables (mem_of 0 (replicate 64 0)) 0 64 0)
    (process_packet_maglev (LB ∅ ∅ ∅ ∅ : lb_spec) (mem_of 0 (replicate 64 0)) 0 64 0).
Proof. apply maglev_packet_refines. apply empty_tables_rep. Defined.

Lemma load_services_refines_witness :
  option_Forall2 (fun st mapping => lb_tables_rep st (loaded service_ip [Some 5; Some 6] mapping ∅))
    (load_services (Some service_ip) [Some 5; Some 6] (fst (hashmap_init true sizeof_session_id 20 8)))
    (configure MAGLEV_LOOKUP_SIZE 2).
Proof.
  apply (load_services_refines service_ip [Some 5; Some 6]); [discriminate|reflexivity|].
  by apply init_rep_n.
Defined.

Definition all_first : gmap Z Z := gset_to_gmap 0 (list_to_set (seqZ 0 MAGLEV_LOOKUP_SIZE)).

Lemma all_first_lookup c : 0 <= c < MAGLEV_LOOKUP_SIZE -> all_first !!! c = 0.
Proof.
  intros Hc. apply lookup_total_correct, lookup_gset_to_gmap_Some.
  split; [|done]. apply elem_of_list_to_set, elem_of_seqZ. lia.
Qed.

Definition example_sid : session_id := SessionId (inet_addr 10 0 0 1) service_ip 5000 (htons 80) 17.

Lemma new_session_served_witness :
  exists i a g' r, [Some 5; Some 6] !! i = Some a /\ Z.of_nat i = all_first !!! slot_of example_sid /\
    let rep := fwd_rep_of (Z.of_nat i) (loaded_backend service_ip i a).2 in
    find_session (loaded service_ip [Some 5; Some 6] all_first ∅) example_sid (Some load_mac_addr) = Some (g', r) /\
    (r = Opened rep \/ r = InsertFailed rep) /\ g'.(active_sessions) !! session_bytes example_sid = Some rep.
Proof.
  apply (new_session_served service_ip [Some 5; Some 6] all_first ∅ example_sid load_mac_addr).
  - reflexivity.
  - intros c Hc. rewrite all_first_lookup by done. split; reflexivity || discriminate.
  - reflexivity.
  - apply lookup_empty.
Defined.

(** One service with one backend, whose table maps every slot it holds to it. *)
Definition small_lb : lb_spec :=
  loaded service_ip [Some 5] {[ slot_of example_sid := 0 ]} ∅.

Definition small_backend : backend_info := (loaded_backend service_ip 0 (Some 5)).2.

Lemma small_lb_opens mac : exists g', find_session small_lb example_sid (Some mac) =
  Some (g', Opened (fwd_rep_of 0 small_backend)).
Proof.
  eexists. apply find_session_new.
  - apply lookup_empty.
  - exists (ServiceInfo 1), {[ slot_of example_sid := 0 ]}.
    assert (service_of example_sid = the_service service_ip) as -> by reflexivity.
    cbn [services maglev_tables backends small_lb loaded].
    rewrite !lookup_singleton_eq, lookup_total_singleton_eq. split; [done|]. split; [done|].
    split; [by rewrite wrap_small|].
    apply (loaded_backends_lookup service_ip [Some 5] 0 (Some 5)); done.
  - intros He. apply (f_equal (fun l => nth 0 l 0)) in He. discriminate He.
  - apply lookup_empty.
Qed.

Lemma reply_known_witness :
  exists g', find_session small_lb example_sid (Some load_mac_addr) =
    Some (g', Opened (fwd_rep_of 0 small_backend)) /\
    find_session g' (reply_of example_sid (fwd_rep_of 0 small_backend)) None =
      Some (g', Known (bwd_rep_of example_sid load_mac_addr)).
Proof.
  destruct (small_lb_opens load_mac_addr) as [g' Hg']. exists g'. split; [exact Hg'|].
  exact (reply_known small_lb g' example_sid load_mac_addr _ None Hg').
Defined.

(** An Ethernet frame of 64 bytes with a UDP packet. *)
Definition example_packet : list Z :=
  [1;2;3;4;5;6; 7;8;9;10;11;12; 8;0] ++
  [0x45;0;0;50; 0;0;0;0; 64;17;0;0; 10;0;0;1; 10;129;2;121] ++
  [0x88;0x13; 0;80; 0;30; 0;0] ++ replicate 22 97.

Lemma maglev_idempotent_witness :
  exists g', process_packet_maglev small_lb (mem_of 0 example_packet) 0 64 0 = Some g' /\
    process_packet_maglev g' (mem_of 0 example_packet) 0 64 0 = Some g'.
Proof.
  destruct (small_lb_opens [7; 8; 9; 10; 11; 12]) as [g' Hg'].
  assert (process_packet_maglev small_lb (mem_of 0 example_packet) 0 64 0 = Some g') as Hp.
  { unfold process_packet_maglev.
    assert (read_sid (mem_of 0 example_packet) 0 = Some example_sid) as -> by reflexivity.
    cbn [mbind option_bind].
    assert (load_bytes ETH_ALEN (mem_of 0 example_packet) (0 + 6) = Some [7; 8; 9; 10; 11; 12]) as ->
      by reflexivity.
    by rewrite Hg'. }
  exists g'. split; [exact Hp|]. exact (maglev_idempotent small_lb g' _ _ _ _ Hp).
Defined.

Lemma insert_rep_keeps_sum_witness :
  let m := mem_of 0 example_packet in
  let rep := fwd_rep_of 0 (loaded_backend service_ip 0 (Some 5)).2 in
  exists m' c4', insert_rep m 0 (ip_of 0) 34 36 40 rep = Some m' /\
    load 4 m' (addr_field rep (ip_of 0)) = Some rep.(rep_addr) /\
    load 2 m' (port_field rep 34 36) = Some rep.(rep_port) /\
    eq_csum (hdr_sum m' (ip_of 0)) (hdr_sum m (ip_of 0)) /\
    load 2 m' 40 = Some c4' /\
    eq_csum (c4' + rep.(rep_addr) + rep.(rep_port)) (0 + service_ip + htons 80).
Proof.
  intros m rep.
  apply (insert_rep_keeps_sum m 0 34 36 40 rep 64 service_ip (htons 80) 0 0).
  - apply (mem_of_mapped 0 example_packet).
  - apply mem_of_bytes_ok. apply (bool_decide_unpack _). vm_compute. exact I.
  - split; [by compute|by compute|reflexivity].
  - by compute.
  - by compute.
  - by compute.
  - by compute.
  - reflexivity.
  - reflexivity.
  - reflexivity.
  - reflexivity.
Defined.
