(* ===== verification/BalancerSpec.v ===== *)
(** * What the load balancer owes its clients

    A specification of one batch of the stand-alone balancer ([socket_routine] of
    [maglev/main.c]) that does not run its code: which bytes make a packet that is balanced,
    which session it belongs to, what the maps say about that session and how the packet is
    rewritten.  [socket_batch_refines] proves that the code over its chained hash maps meets
    it. *)
From S2P Require Import Prelude Mem Murmur HashMap Maglev Packet LoadBalancer.

(** ** The packets that are balanced *)

(** A packet of [len] bytes at [pkt] is balanced if it is an IPv4 packet with room for its
    headers, of which the transport header is one of TCP or UDP at the end of the IP header:
    [next].  [sid] is its session, [mac] its source, [l4] where its checksum is. *)
Record balanced (m : mem) (pkt len : Z) (sid : session_id) (mac : list Z) (ihl l4 : Z) : Prop := {
  ba_ethertype : 14 <= len /\ load 2 m (pkt + 12) = Some 0x0008;
  ba_ip : 34 <= len;
  ba_ihl : exists b, load8 m (pkt + 14) = Some b /\ ihl = b mod 16;
  ba_proto : load8 m (pkt + 23) = Some sid.(proto);
  ba_transport : let next := pkt + 14 + 4 * ihl in
    sid.(proto) = 6 /\ next + 20 <= pkt + len /\ l4 = next + 16 \/
    sid.(proto) = 17 /\ next + 8 <= pkt + len /\ l4 = next + 6;
  ba_addresses : load 4 m (pkt + 26) = Some sid.(saddr) /\ load 4 m (pkt + 30) = Some sid.(daddr);
  ba_ports : load 2 m (pkt + 14 + 4 * ihl) = Some sid.(sport) /\
    load 2 m (pkt + 14 + 4 * ihl + 2) = Some sid.(dport);
  ba_mac : load_bytes ETH_ALEN m (pkt + 6) = Some mac }.

(** ** The sessions *)

Abbreviation sessions := (gmap (list Z) replace_info).

(** [s'] are the sessions after session [sid] has been opened towards [fwd]: answers of the
    backend go to [bwd], unless they belong to a session already. *)
Definition opened (s s' : sessions) (sid : session_id) (fwd bwd : replace_info) : Prop :=
  s' !! session_bytes sid = Some fwd /\
  (session_bytes (reply_of sid fwd) <> session_bytes sid ->
   s' !! session_bytes (reply_of sid fwd) = Some (default bwd (s !! session_bytes (reply_of sid fwd)))) /\
  forall k, k <> session_bytes sid -> k <> session_bytes (reply_of sid fwd) -> s' !! k = s !! k.

(** Where a packet of session [sid] from [mac] goes, and the sessions afterwards. *)
Inductive served (g : lb_spec) (sid : session_id) (mac : list Z) : replace_info -> sessions -> Prop :=
  | served_known rep :
      g.(active_sessions) !! session_bytes sid = Some rep ->
      served g sid mac rep g.(active_sessions)
  | served_new i b s' :
      g.(active_sessions) !! session_bytes sid = None -> backend_for g sid i b ->
      opened g.(active_sessions) s' sid (fwd_rep_of i b) (bwd_rep_of sid mac) ->
      served g sid mac (fwd_rep_of i b) s'.

(** Nothing serves the session: it is not known, and its service is not, or the table has no
    backend for it. *)
Definition unserved (g : lb_spec) (sid : session_id) : Prop :=
  g.(active_sessions) !! session_bytes sid = None /\
  forall i b, ~ backend_for g sid i b.

(** ** The packet on its way *)

(** The packet at [pkt] in [m], whose IP header has no options or well-formed ones, is
    readdressed by [rep]: the address and port of the far side and the MACs are exchanged, the
    sum of the IP header stays what it was, so does the sum of the transport header with its
    pseudo-header, and nothing else changes. *)
Record readdressed (m m' : mem) (pkt ihl l4 : Z) (rep : replace_info) : Prop := {
  rd_addr : load 4 m' (addr_field rep (pkt + 14)) = Some rep.(rep_addr);
  rd_port : load 2 m' (port_field rep (pkt + 14 + 4 * ihl) (pkt + 14 + 4 * ihl + 2)) = Some rep.(rep_port);
  rd_dst : load_bytes ETH_ALEN m' pkt = Some rep.(rep_mac_addr);
  rd_src : load_bytes ETH_ALEN m' (pkt + 6) = load_bytes ETH_ALEN m pkt;
  rd_ip_sum : eq_csum (hdr_sum m' (pkt + 14)) (hdr_sum m (pkt + 14));
  rd_l4_sum : exists c c' oa op, load 2 m l4 = Some c /\ load 2 m' l4 = Some c' /\
    load 4 m (addr_field rep (pkt + 14)) = Some oa /\
    load 2 m (port_field rep (pkt + 14 + 4 * ihl) (pkt + 14 + 4 * ihl + 2)) = Some op /\
    eq_csum (c' + rep.(rep_addr) + rep.(rep_port)) (c + oa + op);
  rd_frame : same_outside m m' [(pkt, 12); (pkt + 24, 2); (addr_field rep (pkt + 14), 4);
    (port_field rep (pkt + 14 + 4 * ihl) (pkt + 14 + 4 * ihl + 2), 2); (l4, 2)] }.

(** The descriptor that is sent: the index of the backend, if the session has one, in the upper
    half of the options. *)
Record sent (xv xv' : xskvec) (rep : replace_info) : Prop := {
  se_data : xv'.(xv_data) = xv.(xv_data);
  se_len : xv'.(xv_len) = xv.(xv_len);
  se_options : forall i o, rep.(bkdindex) = Some i -> xv.(xv_options) = Some o ->
    xv'.(xv_options) = Some (i mod 2 ^ 16 * 2 ^ 16 + o mod 2 ^ 16) }.

(** What becomes of one packet.  An IP header shorter than 20 bytes overlaps the transport
    header; then only the packet itself may change. *)
Inductive packet_spec (g : lb_spec) (m : mem) (xv : xskvec) : lb_spec -> mem -> verdict -> Prop :=
  | packet_malformed :
      (forall sid mac ihl l4, ~ balanced m xv.(xv_data) xv.(xv_len) sid mac ihl l4) ->
      packet_spec g m xv g m (Drop xv)
  | packet_unserved sid mac ihl l4 :
      balanced m xv.(xv_data) xv.(xv_len) sid mac ihl l4 -> unserved g sid ->
      packet_spec g m xv g m (Drop xv)
  | packet_served sid mac ihl l4 rep s' m' xv' :
      balanced m xv.(xv_data) xv.(xv_len) sid mac ihl l4 -> served g sid mac rep s' ->
      (5 <= ihl -> readdressed m m' xv.(xv_data) ihl l4 rep) ->
      same_outside m m' [(xv.(xv_data), xv.(xv_len))] -> sent xv xv' rep ->
      packet_spec g m xv (set_sessions g s') m' (Send xv').


(** ** The state the batch runs in *)

Definition mac_ok (mac : list Z) : Prop :=
  length mac = ETH_ALEN /\ Forall (fun b => 0 <= b < 2 ^ 8) mac.

(** Values of the types of their fields, and a table for each service. *)
Record lb_ok (g : lb_spec) : Prop := {
  lo_sessions : forall k rep, g.(active_sessions) !! k = Some rep -> rep_ok rep /\ mac_ok rep.(rep_mac_addr);
  lo_backends : forall k b, g.(backends) !! k = Some b ->
    0 <= b.(bkd_addr) < 2 ^ 32 /\ 0 <= b.(bkd_port) < 2 ^ 16 /\ mac_ok b.(bkd_mac_addr);
  lo_tables : forall k info, g.(services) !! k = Some info -> is_Some (g.(maglev_tables) !! k) }.

(** ** Sessions *)

Lemma backend_for_fun g sid i b i' b' : backend_for g sid i b -> backend_for g sid i' b' -> i' = i /\ b' = b.
Proof.
  intros (info & mp & _ & Ht & -> & Hb) (info' & mp' & _ & Ht' & -> & Hb').
  assert (mp' = mp) as -> by congruence. split; [done|congruence].
Qed.

(** [find_session] serves a session or finds that nothing does. *)
Lemma find_session_served g sid mac :
  lb_ok g -> 0 <= sid.(daddr) < 2 ^ 32 -> 0 <= sid.(dport) < 2 ^ 16 -> mac_ok mac ->
  (exists r, find_session g sid (Some mac) = Some (g, r) /\ unserved g sid /\
     (r = MissingService \/ r = MissingBackend)) \/
  (exists s' rep r, find_session g sid (Some mac) = Some (set_sessions g s', r) /\ served g sid mac rep s' /\
     (r = Known rep \/ r = Opened rep \/ r = InsertFailed rep) /\
     lb_ok (set_sessions g s') /\ rep_ok rep /\ mac_ok rep.(rep_mac_addr)).
Proof.
  intros [Hs Hb Ht] Hda Hdp Hmac. unfold find_session. cbn [dict_lookup dict_insert gmap_dict].
  destruct (active_sessions g !! session_bytes sid) as [rep|] eqn:Hk.
  { right. exists (active_sessions g), rep, (Known rep). destruct (Hs _ _ Hk).
    split; [by destruct g|]. split; [by apply served_known|]. split; [by left|]. split; [|done].
    by destruct g. }
  destruct (services g !! service_bytes (service_of sid)) as [info|] eqn:Hsv.
  2:{ left. exists MissingService. split; [done|]. split; [|by left]. split; [done|].
      intros i b (? & ? & ? & _). congruence. }
  destruct (Ht _ _ Hsv) as [mp Hmp]. rewrite Hmp. cbn [mbind option_bind]. cbv zeta. cbn [index].
  set (i := u32 (mp !!! slot_of sid)) in *.
  destruct (backends g !! backend_bytes (BackendId (service_of sid) i)) as [b|] eqn:Hbk.
  2:{ left. exists MissingBackend. split; [done|]. split; [|by right]. split; [done|].
      intros i' b (info' & mp' & _ & Hmp' & -> & Hb'). assert (mp' = mp) as -> by congruence.
      unfold i in Hbk. congruence. }
  right. assert (backend_for g sid i b) as Hfor by (by exists info, mp).
  destruct (Hb _ _ Hbk) as (Hba & Hbp & Hbm).
  assert (rep_ok (fwd_rep_of i b) /\ mac_ok (rep_mac_addr (fwd_rep_of i b))) as [Hfwd Hfm]
    by (split; [split; [done|done|apply Hbm]|done]).
  assert (rep_ok (bwd_rep_of sid mac) /\ mac_ok (rep_mac_addr (bwd_rep_of sid mac))) as [Hbwd Hbwm]
    by (split; [split; [done|done|apply Hmac]|done]).
  assert (forall s', (forall k rep, s' !! k = Some rep ->
      rep = fwd_rep_of i b \/ rep = bwd_rep_of sid mac \/ active_sessions g !! k = Some rep) ->
    lb_ok (set_sessions g s')) as Hkeep.
  { intros s' Hs'. split; [|done|done]. intros k rep [-> | [-> | Hold]]%Hs'; [done|done|by apply (Hs k)]. }
  rewrite Z.eqb_refl. cbn [negb mbind option_bind].
  change (SessionId (bkd_addr b) (saddr sid) (bkd_port b) (sport sid) (proto sid)) with (reply_of sid (fwd_rep_of i b)).
  change (ReplaceInfo DIR_TO_BACKEND (Some (s32 i)) (bkd_addr b) (bkd_port b) (bkd_mac_addr b) None) with (fwd_rep_of i b).
  change (ReplaceInfo DIR_TO_CLIENT None (vaddr (service_of sid)) (vport (service_of sid)) mac None) with (bwd_rep_of sid mac).
  set (k1 := session_bytes sid) in *. set (k2 := session_bytes (reply_of sid (fwd_rep_of i b))).
  destruct (<[k1 := fwd_rep_of i b]> (active_sessions g) !! k2) as [w|] eqn:Hw; cbn [Z.eqb negb].
  - exists (<[k1 := fwd_rep_of i b]> (active_sessions g)), (fwd_rep_of i b), (InsertFailed (fwd_rep_of i b)).
    split; [by destruct g|]. split; [|split; [by right; right|split; [|done]]].
    + apply served_new; [done|done|]. split; [apply lookup_insert_eq|]. split.
      * intros Hne. rewrite lookup_insert_ne by done. rewrite lookup_insert_ne in Hw by done. fold k2. by rewrite Hw.
      * intros k Hk1 _. by apply lookup_insert_ne.
    + apply Hkeep. intros k rep [[_ <-]|[_ ?]]%lookup_insert_Some; [by left|by right; right].
  - assert (k2 <> k1) as Hne by (intros Heq; rewrite Heq, lookup_insert_eq in Hw; done).
    rewrite lookup_insert_ne in Hw by done.
    exists (<[k2 := bwd_rep_of sid mac]> (<[k1 := fwd_rep_of i b]> (active_sessions g))), (fwd_rep_of i b), (Opened (fwd_rep_of i b)).
    split; [done|]. split; [|split; [by right; left|split; [|done]]].
    + apply served_new; [done|done|]. split; [by rewrite lookup_insert_ne, lookup_insert_eq|]. split.
      * intros _. rewrite lookup_insert_eq. fold k2. by rewrite Hw.
      * intros k Hk1 Hk2. by rewrite !lookup_insert_ne.
    + apply Hkeep. intros k rep [[_ <-]|[_ [[_ <-]|[_ ?]]%lookup_insert_Some]]%lookup_insert_Some;
        [by right; left|by left|by right; right].
Qed.

(** ** The rewriting *)

(** A state of the memory of one packet while it is rewritten. *)
Definition within (m m1 : mem) (lo n : Z) : Prop := same_outside m m1 [(lo, n)] /\ bytes_ok m1.

Lemma within_step m m1 m2 lo n a k :
  within m m1 lo n -> same_except m1 m2 a k -> lo <= a -> a + k <= lo + n -> bytes_ok m2 -> within m m2 lo n.
Proof.
  intros [[Hm1 H1] _] [Hm2 H2] Hlo Hhi Hok. split; [|done]. split; [intros x; by rewrite Hm2, Hm1|].
  intros x Hx. pose proof Hx as Hx'. rewrite Forall_singleton in Hx'. cbn [fst snd] in Hx'. rewrite H2 by lia. by apply H1.
Qed.

Lemma within_load m m1 lo n k a :
  mapped m lo n -> within m m1 lo n -> lo <= a -> a + Z.of_nat k <= lo + n -> exists v, load k m1 a = Some v.
Proof.
  intros Hm [Hs _] Hlo Hhi. apply load_Some. eapply mapped_sub; [by eapply same_outside_mapped|done|done].
Qed.

Lemma within_store m m1 lo n k a v :
  mapped m lo n -> within m m1 lo n -> lo <= a -> a + Z.of_nat k <= lo + n ->
  exists m2, store k m1 a v = Some m2 /\ within m m2 lo n.
Proof.
  intros Hm Hw Hlo Hhi. destruct (store_Some k m1 a v) as [m2 H2].
  { eapply mapped_sub; [eapply same_outside_mapped; [apply Hw|done]|done|done]. }
  destruct (store_frame _ _ _ _ _ H2) as (Hs & Hok & _). exists m2. split; [done|].
  eapply within_step; [done|done|done|done|]. apply Hok, Hw.
Qed.

Lemma within_store_bytes m m1 lo n a bs :
  mapped m lo n -> within m m1 lo n -> lo <= a -> a + Z.of_nat (length bs) <= lo + n ->
  exists m2, store_bytes m1 a bs = Some m2 /\ within m m2 lo n.
Proof.
  intros Hm Hw Hlo Hhi. destruct (store_bytes_Some bs m1 a) as [m2 H2].
  { eapply mapped_sub; [eapply same_outside_mapped; [apply Hw|done]|done|done]. }
  destruct (store_bytes_spec _ _ _ _ H2) as (Hs & Hok & _). exists m2. split; [done|].
  eapply within_step; [done|done|done|done|]. apply Hok, Hw.
Qed.

Lemma finish_rep_within m m1 eth n l4 rep oa op :
  mapped m eth n -> within m m1 eth n -> length rep.(rep_mac_addr) = ETH_ALEN -> 34 <= n ->
  eth <= l4 -> l4 + 2 <= eth + n ->
  exists m', finish_rep m1 eth (ip_of eth) l4 rep oa op = Some m' /\ within m m' eth n.
Proof.
  intros Hm Hw Hmac Hn Hlo Hhi. unfold finish_rep, memcpy, ip_check, ip_of, sizeof_ether_header, ETH_ALEN in *.
  destruct (load_bytes_Some 6 m1 eth) as [bs Hbs].
  { eapply mapped_sub; [eapply same_outside_mapped; [apply Hw|done]|lia|lia]. }
  rewrite Hbs. cbn [mbind option_bind]. apply load_bytes_lookup in Hbs as [Hlen _].
  destruct (within_store_bytes m m1 eth n (eth + 6) bs) as (m2 & -> & Hw2); [done|done|lia|lia|]. cbn [mbind option_bind].
  destruct (within_store_bytes m m2 eth n eth (rep_mac_addr rep)) as (m3 & -> & Hw3); [done|done|lia|lia|].
  cbn [mbind option_bind].
  destruct (within_load m m3 eth n 2 (eth + 14 + 10)) as [c ->]; [done|done|lia|lia|]. cbn [mbind option_bind].
  match goal with |- context [store 2 m3 ?a ?v] =>
    destruct (within_store m m3 eth n 2 a v) as (m4 & -> & Hw4); [done|done|lia|lia|] end. cbn [mbind option_bind].
  destruct (within_load m m4 eth n 2 l4) as [c4 ->]; [done|done|lia|lia|]. cbn [mbind option_bind].
  by apply within_store.
Qed.

Lemma insert_rep_within m eth n sp dp l4 rep :
  mapped m eth n -> bytes_ok m -> length rep.(rep_mac_addr) = ETH_ALEN -> 34 <= n ->
  eth <= sp -> sp + 2 <= eth + n -> eth <= dp -> dp + 2 <= eth + n -> eth <= l4 -> l4 + 2 <= eth + n ->
  exists m', insert_rep m eth (ip_of eth) sp dp l4 rep = Some m' /\ within m m' eth n.
Proof.
  intros Hm Hok Hmac Hn Hs1 Hs2 Hd1 Hd2 Hl1 Hl2. rewrite insert_rep_eq.
  assert (within m m eth n) as Hw0 by (by split).
  assert (eth <= addr_field rep (ip_of eth) /\ addr_field rep (ip_of eth) + 4 <= eth + n) as [Ha1 Ha2].
  { unfold addr_field, ip_of, sizeof_ether_header, ip_daddr, ip_saddr. destruct (dir rep); lia. }
  assert (eth <= port_field rep sp dp /\ port_field rep sp dp + 2 <= eth + n) as [Hp1 Hp2]
    by (unfold port_field; destruct (dir rep); lia).
  destruct (within_load m m eth n 4 (addr_field rep (ip_of eth))) as [oa ->]; [done|done|lia|lia|].
  cbn [mbind option_bind].
  destruct (within_store m m eth n 4 (addr_field rep (ip_of eth)) (rep_addr rep)) as (m1 & -> & Hw1); [done|done|lia|lia|].
  cbn [mbind option_bind].
  destruct (within_load m m1 eth n 2 (port_field rep sp dp)) as [op ->]; [done|done|lia|lia|]. cbn [mbind option_bind].
  destruct (within_store m m1 eth n 2 (port_field rep sp dp) (rep_port rep)) as (m2 & -> & Hw2); [done|done|lia|lia|].
  cbn [mbind option_bind]. by apply finish_rep_within.
Qed.

Lemma insert_rep_readdresses m m' pkt n ihl l4 rep :
  mapped m pkt n -> bytes_ok m -> rep_ok rep -> mac_ok rep.(rep_mac_addr) ->
  5 <= ihl -> pkt + 14 + 4 * ihl + 6 <= l4 -> l4 + 2 <= pkt + n ->
  insert_rep m pkt (ip_of pkt) (pkt + 14 + 4 * ihl) (pkt + 14 + 4 * ihl + 2) l4 rep = Some m' ->
  readdressed m m' pkt ihl l4 rep.
Proof.
  intros Hm Hok Hrep [_ Hmac] Hihl Hl4 Hn Hins. change (ip_of pkt) with (pkt + 14) in *.
  set (sp := pkt + 14 + 4 * ihl) in *.
  assert (forall k a, pkt <= a -> a + Z.of_nat k <= pkt + n -> exists v, load k m a = Some v) as Hld
    by (intros k a ? ?; apply (within_load m m pkt n); [done|by split|done|done]).
  assert (exists f, addr_field rep (pkt + 14) = pkt + 14 + f /\ (f = 12 \/ f = 16)) as (f & Hf & Hf').
  { unfold addr_field, ip_saddr, ip_daddr. destruct (dir rep); eauto. }
  assert (exists p, port_field rep sp (sp + 2) = p /\ sp <= p <= sp + 2) as (p & Hp & Hpr).
  { eexists. split; [done|]. unfold port_field. destruct (dir rep); lia. }
  destruct (Hld 4%nat (addr_field rep (pkt + 14))) as [oa Hoa]; [lia|lia|].
  destruct (Hld 2%nat (port_field rep sp (sp + 2))) as [op Hop]; [lia|lia|].
  destruct (Hld 2%nat (pkt + 24)) as [c Hc]; [lia|lia|]. destruct (Hld 2%nat l4) as [c4 Hc4]; [lia|lia|].
  pose proof (load_range _ _ _ _ Hok Hoa). pose proof (load_range _ _ _ _ Hok Hop).
  pose proof (load_range _ _ _ _ Hok Hc). pose proof (load_range _ _ _ _ Hok Hc4).
  assert (ip_check (ip_of pkt) = pkt + 24) as Hck by (unfold ip_check, ip_of, sizeof_ether_header; lia).
  destruct (insert_rep_lemma m pkt sp (sp + 2) l4 rep n oa op c c4) as
    (m2 & Hins' & Hs & Ha & Hpo & [Hcks Hl] & Hdst & Hsrc); rewrite ?Hck in *; try done; try lia.
  change (ip_of pkt) with (pkt + 14) in *. rewrite Hins in Hins'. injection Hins' as <-.
  destruct Hrep as [Hra Hrp _]. rewrite fmap_u8_id in Hdst by done. split; try done.
  - rewrite Hf in *. eapply (hdr_sum_update m m' _ _ f c oa); [exact Hs|done| |done|done|..]; try lia.
    + rewrite Hp. regions.
    + by replace (pkt + 14 + 10) with (pkt + 24) by lia.
    + by replace (pkt + 14 + 10) with (pkt + 24) by lia.
  - exists c4, (l4_check_new c4 oa (rep_addr rep) op (rep_port rep)), oa, op. do 4 (split; [done|]).
    apply l4_check_new_spec; lia.
  - destruct Hs as [Hd Hs]. split; [done|]. intros x Hx. apply Hs. rewrite !Forall_cons in *. cbn [fst snd] in *.
    destruct Hx as (G1 & G2 & G3 & G4 & G5 & _). split; [done|]. split; [lia|]. split; [lia|]. split; [lia|].
    by split.
Qed.

(** ** One packet, one batch *)

(** [l4_fields] finds the transport header, or there is none that fits. *)
Lemma l4_fields_spec p next pkt_end :
  match l4_fields p next pkt_end with
  | Some (s, d, l4) => s = next /\ d = next + 2 /\ next + 6 <= l4 /\ l4 + 2 <= pkt_end /\
      (p = 6 /\ next + 20 <= pkt_end /\ l4 = next + 16 \/ p = 17 /\ next + 8 <= pkt_end /\ l4 = next + 6)
  | None => ~ (p = 6 /\ next + 20 <= pkt_end) /\ ~ (p = 17 /\ next + 8 <= pkt_end)
  end.
Proof.
  unfold l4_fields, IPPROTO_TCP, IPPROTO_UDP, sizeof_tcphdr, sizeof_udphdr.
  destruct (Z.eqb_spec p 6), (Z.eqb_spec p 17); try lia.
  - destruct (Z.ltb_spec pkt_end (next + 20)); lia.
  - destruct (Z.ltb_spec pkt_end (next + 8)); lia.
Qed.

Lemma set_options_sent xv rep : sent xv (set_options xv rep) rep.
Proof.
  split; [done|done|]. intros i o Hi Ho. unfold set_options. rewrite Hi, Ho. cbn [xv_options mbind option_bind].
  f_equal. change 0xFFFF with (2 ^ 16 - 1). rewrite land_mask by lia. unfold wrap.
  rewrite Z.shiftl_mul_pow2 by lia. change (2 ^ 32) with (2 ^ 16 * 2 ^ 16). rewrite Z.mul_mod_distr_r by lia.
  rewrite <- Z.shiftl_mul_pow2 by lia. rewrite lor_shiftl, Z.shiftl_mul_pow2; [done|lia|]. apply Z.mod_pos_bound. lia.
Qed.

Lemma packet_meets_spec g m xv :
  lb_ok g -> bytes_ok m -> mapped m xv.(xv_data) xv.(xv_len) ->
  exists g' m' v, socket_packet g m xv = Some (g', m', v) /\ packet_spec g m xv g' m' v /\
    lb_ok g' /\ bytes_ok m' /\ forall x, is_Some (m' !! x) <-> is_Some (m !! x).
Proof.
  intros Hg Hok Hm. destruct xv as [pkt len o]. cbn [xv_data xv_len] in *.
  unfold socket_packet. cbn [xv_data xv_len]. unfold sizeof_ether_header, sizeof_iphdr.
  change (ip_of pkt) with (pkt + 14). unfold iphdr_ihl, ip_protocol, ip_saddr, ip_daddr.
  assert (forall g', Some (g, m, Drop (Xskvec pkt len o)) = g' ->
    packet_spec g m (Xskvec pkt len o) g m (Drop (Xskvec pkt len o)) ->
    exists g'' m' v, g' = Some (g'', m', v) /\ packet_spec g m (Xskvec pkt len o) g'' m' v /\
      lb_ok g'' /\ bytes_ok m' /\ forall x, is_Some (m' !! x) <-> is_Some (m !! x)) as Hdrop
    by (intros g' <- Hspec; by exists g, m, (Drop (Xskvec pkt len o))).
  destruct (Z.ltb_spec (pkt + len) (pkt + 14)) as [Hshort|H14].
  { apply Hdrop; [done|]. apply packet_malformed. cbn. intros sid mac ihl l4 [[? _] _ _ _ _ _ _ _]. lia. }
  destruct (load_Some 2 m (pkt + 12)) as [et Het]; [eapply mapped_sub; [done|lia..]|]. rewrite Het.
  cbn [mbind option_bind]. change (htons ETH_P_IP) with 8.
  destruct (Z.eqb_spec et 8) as [->|Hne]; cbn [negb].
  2:{ apply Hdrop; [done|]. apply packet_malformed. cbn. intros sid mac ihl l4 [[_ ?] _ _ _ _ _ _ _]. congruence. }
  destruct (Z.ltb_spec (pkt + len) (pkt + 14 + 20)) as [Hshort|H34].
  { apply Hdrop; [done|]. apply packet_malformed. cbn. intros sid mac ihl l4 [_ ? _ _ _ _ _ _]. lia. }
  destruct (Hm (pkt + 14)) as [b Hb]; [lia|]. unfold load8. rewrite Hb. cbn [mbind option_bind].
  destruct (Hm (pkt + 14 + 9)) as [p Hp]; [lia|]. rewrite Hp. cbn [mbind option_bind].
  assert ((b &' 15) <<' 2 = 4 * (b mod 16)) as ->.
  { change 15 with (2 ^ 4 - 1). rewrite land_mask, Z.shiftl_mul_pow2 by lia. change (2 ^ 4) with 16. lia. }
  pose proof (Z.mod_pos_bound b 16 ltac:(lia)) as Hbr. set (ihl := b mod 16) in *.
  pose proof (l4_fields_spec p (pkt + 14 + 4 * ihl) (pkt + len)) as Hl4.
  destruct (l4_fields p _ _) as [[[sp dp] l4]|].
  2:{ apply Hdrop; [done|]. apply packet_malformed. cbn.
      intros sid mac ihl' l4 [_ _ (b' & Hb' & ->) Hp' Htr _ _ _]. unfold load8 in *.
      replace (pkt + 23) with (pkt + 14 + 9) in Hp' by lia. assert (proto sid = p) as Heq by congruence.
      assert (b' = b) as -> by congruence. fold ihl in Htr. rewrite Heq in Htr. cbv zeta in Htr. lia. }
  destruct Hl4 as (-> & -> & Hl1 & Hl2 & Htr).
  destruct (load_Some 4 m (pkt + 14 + 12)) as [sa Hsa]; [eapply mapped_sub; [done|lia..]|]. rewrite Hsa.
  destruct (load_Some 4 m (pkt + 14 + 16)) as [da Hda]; [eapply mapped_sub; [done|lia..]|]. rewrite Hda.
  destruct (load_Some 2 m (pkt + 14 + 4 * ihl)) as [s Hs]; [eapply mapped_sub; [done|lia..]|].
  destruct (load_Some 2 m (pkt + 14 + 4 * ihl + 2)) as [d Hd]; [eapply mapped_sub; [done|lia..]|].
  destruct (load_bytes_Some ETH_ALEN m (pkt + 6)) as [mac Hmac]; [eapply mapped_sub; [done|unfold ETH_ALEN; lia..]|].
  cbn [mbind option_bind]. rewrite Hs. cbn [mbind option_bind]. rewrite Hd. cbn [mbind option_bind]. rewrite Hmac.
  set (sid := SessionId sa da s d p).
  assert (balanced m pkt len sid mac ihl l4) as Hbal.
  { split; try done; try lia.
    - split; [lia|done].
    - by exists b.
    - unfold load8. cbn. by replace (pkt + 23) with (pkt + 14 + 9) by lia.
    - cbn. split; [by replace (pkt + 26) with (pkt + 14 + 12) by lia|by replace (pkt + 30) with (pkt + 14 + 16) by lia]. }
  assert (mac_ok mac) as Hmok.
  { split; [by apply load_bytes_lookup in Hmac as [? _]|by eapply load_bytes_range]. }
  destruct (find_session_served g sid mac Hg) as [(r & -> & Hun & Hr)|(s' & rep & r & -> & Hserved & Hr & Hg' & Hrep & Hrm)];
    [by apply (load_range 4 m (pkt + 14 + 16))|by apply (load_range 2 m (pkt + 14 + 4 * ihl + 2))|done| |]; cbn [mbind option_bind].
  { apply Hdrop; [by destruct Hr as [-> | ->]|]. by eapply packet_unserved. }
  destruct (insert_rep_within m pkt len (pkt + 14 + 4 * ihl) (pkt + 14 + 4 * ihl + 2) l4 rep) as (m' & Hins & Hw & Hok');
    [done|done|apply Hrm|lia..|].
  exists (set_sessions g s'), m', (Send (set_options (Xskvec pkt len o) rep)).
  split; [change (ip_of pkt) with (pkt + 14) in Hins; destruct Hr as [-> | [-> | ->]]; by rewrite Hins|].
  split; [|split; [done|split; [done|apply Hw]]].
  eapply (packet_served g m _ sid mac ihl l4 rep s'); [exact Hbal|done| |exact Hw|apply set_options_sent].
  intros Hihl. cbn [xv_data]. eapply (insert_rep_readdresses m m' pkt len); done || lia.
Qed.



(** ** Slots without a backend *)

Lemma balanced_fun m pkt len sid mac ihl l4 sid' mac' ihl' l4' :
  balanced m pkt len sid mac ihl l4 -> balanced m pkt len sid' mac' ihl' l4' -> sid' = sid.
Proof.
  intros [_ _ (b & Hb & ->) Hp _ [Hs Hd] [Hsp Hdp] _] [_ _ (b' & Hb' & ->) Hp' _ [Hs' Hd'] [Hsp' Hdp'] _].
  assert (b' = b) as -> by congruence. destruct sid, sid'. cbn in *. congruence.
Qed.

Lemma loaded_no_backend srv_addr atons mapping gs i :
  Z.of_nat (length atons) <= i < 2 ^ 32 ->
  (loaded srv_addr atons mapping gs).(backends) !! backend_bytes (BackendId (the_service srv_addr) i) = None.
Proof.
  intros Hi. cbn [backends loaded]. apply not_elem_of_list_to_map_1. rewrite <- list_fmap_compose.
  intros ([k b] & Heq & Hin)%list_elem_of_fmap. apply elem_of_lookup_imap in Hin as (j & a & [= -> ->] & Hj).
  unfold compose in Heq. cbn [fst] in Heq. apply backend_bytes_inj in Heq; apply lookup_lt_Some in Hj; lia.
Qed.

(** C36: A slot that [configure] has left without a backend (at most one for each row that
    repeats, see [configure_balanced]) is never served: every packet of a new session that
    falls on it is dropped, the maps and the memory stay as they are, so the next packet of
    the session is dropped too. *)
Theorem empty_slot_drops (st : lb_tables) srv_addr atons mapping gs m xv sid mac ihl l4 :
  let g := loaded srv_addr atons mapping gs in
  Z.of_nat (length atons) < 2 ^ 31 -> lb_tables_rep st g -> lb_ok g ->
  bytes_ok m -> mapped m xv.(xv_data) xv.(xv_len) ->
  balanced m xv.(xv_data) xv.(xv_len) sid mac ihl l4 ->
  service_of sid = the_service srv_addr -> gs !! session_bytes sid = None ->
  mapping !!! slot_of sid = -1 ->
  exists st', socket_packet st m xv = Some (st', m, Drop xv) /\ lb_tables_rep st' g.
Proof.
  intros g Hlen Hrep Hg Hok Hm Hbal Hsrv Hnew Hslot.
  destruct (packet_meets_spec g m xv Hg Hok Hm) as (g' & m' & v & Hp & Hspec & _).
  assert (forall i b, ~ backend_for g sid i b) as Hno.
  { intros i b (info & mp & _ & Hmp & -> & Hb). rewrite Hsrv in *. cbn [maglev_tables g loaded] in Hmp.
    rewrite lookup_singleton_eq in Hmp. injection Hmp as <-. rewrite Hslot in Hb.
    change (u32 (-1)) with (2 ^ 32 - 1) in Hb. unfold g in Hb.
    rewrite loaded_no_backend in Hb by lia. done. }
  assert (g' = g /\ m' = m /\ v = Drop xv) as (-> & -> & ->).
  { inversion Hspec as [Hmal| |sid' mac' ihl' l4' rep s' m2 xv' Hbal' Hserved]; subst; [done|done|]. exfalso.
    rewrite (balanced_fun _ _ _ _ _ _ _ _ _ _ _ Hbal Hbal') in Hserved.
    inversion Hserved as [rep' Hk|i b s2 _ Hfor]; subst; [unfold g in Hk; cbn [active_sessions loaded] in Hk; congruence|by apply (Hno i b)]. }
  pose proof (socket_packet_sim st g m xv Hrep) as Hsim. rewrite Hp in Hsim.
  inversion Hsim as [[[st1 m1] v1] y (Hr & Hm1 & Hv1) Heq|]. cbn [fst snd] in *. subst. by exists st1.
Qed.

(** ** Witnesses *)

(** The maps of [small_lb], with the insertions of the code. *)
Definition small_tables_for (mapping : gmap Z Z) : lb_tables :=
  let srv := service_bytes (the_service service_ip) in
  LB (fst (dict_insert empty_tables.(services) srv (ServiceInfo 1)))
    (fst (dict_insert empty_tables.(backends)
      (backend_bytes (BackendId (the_service service_ip) 0)) small_backend))
    (fst (dict_insert empty_tables.(maglev_tables) srv mapping)) empty_tables.(active_sessions).

Lemma insert_rep_n {V} n (map : hashmap V) g k v :
  Z.of_nat (length k) = n -> hm_rep_n n map g -> g !! k = None ->
  hm_rep_n n (fst (dict_insert map k v)) (<[k := v]> g).
Proof. intros Hk Hr Hg. by destruct (dict_insert_new map g k v Hk Hr Hg) as (m' & -> & ?). Qed.

Lemma small_tables_rep mapping :
  lb_tables_rep (small_tables_for mapping) (loaded service_ip [Some 5] mapping ∅).
Proof.
  destruct empty_tables_rep as [Hs Hb Ht Ha].
  split; cbn [services backends maglev_tables active_sessions small_tables_for loaded];
    [by apply insert_rep_n; [done|done|apply lookup_empty]| |by apply insert_rep_n; [done|done|apply lookup_empty]|done].
  assert (list_to_map ((fun e => (backend_bytes e.1, e.2)) <$> imap (loaded_backend service_ip) [Some 5]) =
    (<[backend_bytes (BackendId (the_service service_ip) 0) := small_backend]> ∅ : gmap (list Z) backend_info)) as ->
    by reflexivity.
  by apply insert_rep_n; [done|done|apply lookup_empty].
Qed.

Lemma small_lb_ok mapping : lb_ok (loaded service_ip [Some 5] mapping ∅).
Proof.
  assert (mac_ok load_mac_addr) as Hmac.
  { split; [done|]. apply (bool_decide_unpack _). vm_compute. exact I. }
  split; cbn [active_sessions backends services maglev_tables loaded].
  - intros k rep. by rewrite lookup_empty.
  - intros k b Hb. apply elem_of_list_to_map_2, list_elem_of_fmap in Hb as ([k' b'] & [= -> ->] & Hin).
    apply elem_of_lookup_imap in Hin as (j & a & [= -> ->] & Hj). cbn.
    destruct j as [|j]; [|done]. injection Hj as <-. split; [done|]. split; [by vm_compute|done].
  - intros k info [<- _]%lookup_singleton_Some. rewrite lookup_singleton_eq. by eexists.
Qed.

Lemma example_memory : bytes_ok (mem_of 0 example_packet) /\ mapped (mem_of 0 example_packet) 0 64.
Proof.
  split; [|exact (mem_of_mapped 0 example_packet)].
  apply mem_of_bytes_ok. apply (bool_decide_unpack _). vm_compute. exact I.
Qed.


Theorem empty_slot_drops_witness :
  let m := mem_of 0 example_packet in let xv := Xskvec 0 64 (Some 7) in
  let mapping := {[ slot_of example_sid := -1 ]} in
  exists st', socket_packet (small_tables_for mapping) m xv = Some (st', m, Drop xv) /\
    lb_tables_rep st' (loaded service_ip [Some 5] mapping ∅).
Proof.
  intros m xv mapping. destruct example_memory as [Hok Hm].
  apply (empty_slot_drops (small_tables_for mapping) service_ip [Some 5] mapping ∅ m xv example_sid
    [7; 8; 9; 10; 11; 12] 5 40).
  - reflexivity.
  - exact (small_tables_rep mapping).
  - exact (small_lb_ok mapping).
  - exact Hok.
  - exact Hm.
  - split; try (vm_compute; reflexivity).
    + split; [discriminate|vm_compute; reflexivity].
    + discriminate.
    + exists 0x45. split; vm_compute; reflexivity.
    + right. vm_compute. split; [reflexivity|]. split; [discriminate|reflexivity].
    + split; vm_compute; reflexivity.
    + split; vm_compute; reflexivity.
  - reflexivity.
  - apply lookup_empty.
  - apply lookup_total_singleton_eq.
Defined.
