(* ===== verification/DataPath.v ===== *)
(** * The data path of [toasty.c]

    [receive], [forward], [l3forward] and [complete_tx_forward] over the rings of
    one socket and of its UMEM.  What the packets mean is a parameter: the
    [Handler] class is the application ([process_packet] and the L3 action) that
    the loops call.

    The loops that wait for ring space depend on the kernel, which runs beside
    them: [ks] lists what it does between one attempt and the next; [None] means
    that the list ends before the wait does, or that the program ends. *)
From S2P Require Import Prelude XskRing FillQueue.

Definition XDP_COPY : Z := 2.
Definition XDP_PKT_CONTD : Z := 1.
Definition MAX_UMEM_SIZE : Z := 16384.

Definition IS_EOP_DESC (options : Z) : bool := options &' XDP_PKT_CONTD =? 0.

(** The options that the data path reads. *)
Record options := Options {
  opt_batch_size : Z;
  opt_warm_buffers : bool;
  opt_busy_poll : bool;
  opt_xdp_bind_flags : Z;
  opt_debug_addr : bool;
  opt_xsk_frame_size : Z;
  opt_application_type : Z;
}.

(** The application: [process_packet(pkt, len, addr)], and the switch of
    [l3forward], which returns [action].  [None] is a fault. *)
Class Handler (App : Type) := {
  process_packet : Z -> App -> Z -> Z -> Z -> option App;
  l3_action : Z -> App -> Z -> Z -> Z -> option (App * Z);
}.

(** The counters of [xsk_ring_stats] and [xsk_app_stats] that the loops change. *)
Record sock_stats := SockStats {
  rx_npkts : Z; tx_npkts : Z; rx_frags : Z; tx_frags : Z;
  rx_empty_polls : Z; fill_fail_polls : Z; copy_tx_sendtos : Z;
}.

(** [struct xsk_socket_info] with its [struct xsk_umem_info], and the globals and
    static variables of the loops; [nb_frags_fwd] and [nb_frags_rx] are the two
    static [nb_frags]. *)
Record world (App : Type) := World {
  fq : xsk_ring Z;
  cq : xsk_ring Z;
  rx : xsk_ring xdp_desc;
  tx : xsk_ring xdp_desc;
  buffer : Z;
  outstanding_tx : Z;
  warm : warm_state;
  nb_frags_rx : Z;
  nb_frags_fwd : Z;
  addr_count_array : gmap Z Z;
  stats : sock_stats;
  app : App;
}.
Arguments World {App}. Arguments fq {App}. Arguments cq {App}. Arguments rx {App}.
Arguments tx {App}. Arguments buffer {App}. Arguments outstanding_tx {App}.
Arguments warm {App}. Arguments nb_frags_rx {App}. Arguments nb_frags_fwd {App}.
Arguments addr_count_array {App}. Arguments stats {App}. Arguments app {App}.

Section data_path.
Context {App : Type} `{!Handler App} (o : options).
Implicit Types w : world App.

Definition set_fq w v := World v w.(cq) w.(rx) w.(tx) w.(buffer) w.(outstanding_tx) w.(warm)
  w.(nb_frags_rx) w.(nb_frags_fwd) w.(addr_count_array) w.(stats) w.(app).
Definition set_cq w v := World w.(fq) v w.(rx) w.(tx) w.(buffer) w.(outstanding_tx) w.(warm)
  w.(nb_frags_rx) w.(nb_frags_fwd) w.(addr_count_array) w.(stats) w.(app).
Definition set_rx w v := World w.(fq) w.(cq) v w.(tx) w.(buffer) w.(outstanding_tx) w.(warm)
  w.(nb_frags_rx) w.(nb_frags_fwd) w.(addr_count_array) w.(stats) w.(app).
Definition set_tx w v := World w.(fq) w.(cq) w.(rx) v w.(buffer) w.(outstanding_tx) w.(warm)
  w.(nb_frags_rx) w.(nb_frags_fwd) w.(addr_count_array) w.(stats) w.(app).
Definition set_outstanding w v := World w.(fq) w.(cq) w.(rx) w.(tx) w.(buffer) v w.(warm)
  w.(nb_frags_rx) w.(nb_frags_fwd) w.(addr_count_array) w.(stats) w.(app).
Definition set_warm w v := World w.(fq) w.(cq) w.(rx) w.(tx) w.(buffer) w.(outstanding_tx) v
  w.(nb_frags_rx) w.(nb_frags_fwd) w.(addr_count_array) w.(stats) w.(app).
Definition set_nb_frags_rx w v := World w.(fq) w.(cq) w.(rx) w.(tx) w.(buffer) w.(outstanding_tx) w.(warm)
  v w.(nb_frags_fwd) w.(addr_count_array) w.(stats) w.(app).
Definition set_nb_frags_fwd w v := World w.(fq) w.(cq) w.(rx) w.(tx) w.(buffer) w.(outstanding_tx) w.(warm)
  w.(nb_frags_rx) v w.(addr_count_array) w.(stats) w.(app).
Definition set_addr_count w v := World w.(fq) w.(cq) w.(rx) w.(tx) w.(buffer) w.(outstanding_tx) w.(warm)
  w.(nb_frags_rx) w.(nb_frags_fwd) v w.(stats) w.(app).
Definition set_stats w v := World w.(fq) w.(cq) w.(rx) w.(tx) w.(buffer) w.(outstanding_tx) w.(warm)
  w.(nb_frags_rx) w.(nb_frags_fwd) w.(addr_count_array) v w.(app).
Definition set_app w (v : App) := World w.(fq) w.(cq) w.(rx) w.(tx) w.(buffer) w.(outstanding_tx) w.(warm)
  w.(nb_frags_rx) w.(nb_frags_fwd) w.(addr_count_array) w.(stats) v.

(** Counting: [unsigned long] counters. *)
Definition add_stats (s : sock_stats) (npkts tnpkts frags tfrags empty fill copy : Z) : sock_stats :=
  SockStats (u64 (s.(rx_npkts) + npkts)) (u64 (s.(tx_npkts) + tnpkts)) (u64 (s.(rx_frags) + frags))
    (u64 (s.(tx_frags) + tfrags)) (u64 (s.(rx_empty_polls) + empty))
    (u64 (s.(fill_fail_polls) + fill)) (u64 (s.(copy_tx_sendtos) + copy)).

(** [opt_busy_poll || xsk_ring_prod__needs_wakeup(&umem->fq)] *)
Definition must_wake w : bool := o.(opt_busy_poll) || negb (xsk_ring_prod__needs_wakeup w.(fq) =? 0).

Definition count_fill_fail w : world App :=
  if must_wake w then set_stats w (add_stats w.(stats) 0 0 0 0 0 1 0) else w.
Definition count_rx_empty w : world App :=
  if must_wake w then set_stats w (add_stats w.(stats) 0 0 0 0 1 0 0) else w.

Definition kstep : Type := world App -> world App.

(** [while (ret != rcvd) { ... }] of [receive] and [complete_tx_forward]; the
    result has the index that the last reservation stored. *)
Fixpoint wait_fq (ks : list kstep) w (rcvd ret idx_fq : Z) : option (world App * Z * list kstep) :=
  if u32 ret =? rcvd then Some (w, idx_fq, ks)
  else if s32 ret <? 0 then None
  else match ks with
  | [] => None
  | k :: ks' =>
      let w := k (count_fill_fail w) in
      let '(fq', ret', idx') := xsk_ring_prod__reserve w.(fq) rcvd idx_fq in
      wait_fq ks' (set_fq w fq') rcvd ret' idx'
  end.

Definition reserve_fq (ks : list kstep) w (rcvd : Z) : option (world App * Z * list kstep) :=
  let '(fq', ret, idx_fq) := xsk_ring_prod__reserve w.(fq) rcvd 0 in
  wait_fq ks (set_fq w fq') rcvd ret idx_fq.

(** [to_add += rcvd] *)
Definition bump_to_add w (rcvd : Z) : world App :=
  set_warm w (WarmState (s32 (w.(warm).(to_add) + rcvd)) w.(warm).(prev_consumer)).

(** ** [complete_tx_forward] *)

Fixpoint complete_loop (n : nat) w (i idx_cq idx_fq : Z) : world App :=
  match n with
  | O => w
  | S n' =>
      let orig := ring_read w.(cq) (xsk_ring_cons__comp_addr w.(cq) idx_cq) in
      let fq' := refill_one o.(opt_warm_buffers) w.(warm).(to_add) w.(fq) idx_fq i orig in
      complete_loop n' (set_fq w fq') (u32 (i + 1)) (u32 (idx_cq + 1)) (u32 (idx_fq + 1))
  end.

Definition complete_tx_forward (ks : list kstep) w : option (world App * list kstep) :=
  if w.(outstanding_tx) =? 0 then Some (w, ks) else
  let w :=
    if negb (o.(opt_xdp_bind_flags) &' XDP_COPY =? 0)
    then set_stats w (add_stats w.(stats) 0 0 0 0 0 0 1) else w in
  let ndescs := if o.(opt_batch_size) <? w.(outstanding_tx) then o.(opt_batch_size) else w.(outstanding_tx) in
  let '(cq', rcvd, idx_cq) := xsk_ring_cons__peek w.(cq) ndescs 0 in
  let w := set_cq w cq' in
  if 0 <? rcvd then
    '(w, idx_fq, ks) ← reserve_fq ks w rcvd;
    let w := set_warm w (check_consumer w.(warm) w.(fq)) in
    let w := complete_loop (Z.to_nat rcvd) w 0 idx_cq idx_fq in
    let w := bump_to_add w rcvd in
    let w := set_fq w (xsk_ring_prod__submit w.(fq) rcvd) in
    let w := set_cq w (xsk_ring_cons__release w.(cq) rcvd) in
    Some (set_outstanding w (u32 (w.(outstanding_tx) - rcvd)), ks)
  else Some (w, ks).

(** ** [receive] *)

Record batch := Batch { frags_done : Z; eop_cnt : Z }.

(** What happens to a received descriptor before its buffer is given back:
    processing, the debug counter, the fragment counts. *)
Definition receive_desc w (b : batch) (desc : xdp_desc) : option (world App * batch) :=
  let eop := IS_EOP_DESC desc.(desc_options) in
  let addr := xsk_umem__add_offset_to_addr desc.(desc_addr) in
  let len := desc.(desc_len) in
  let pkt := xsk_umem__get_data w.(buffer) addr in
  w ← (if w.(nb_frags_rx) =? 0
       then a ← process_packet o.(opt_application_type) w.(app) pkt len addr; Some (set_app w a)
       else Some w);
  let w := set_nb_frags_rx w (u32 (w.(nb_frags_rx) + 1)) in
  w ← (if o.(opt_debug_addr) then
         let k := addr / o.(opt_xsk_frame_size) in
         if k <? MAX_UMEM_SIZE
         then Some (set_addr_count w (<[k := s32 (w.(addr_count_array) !!! k + 1)]> w.(addr_count_array)))
         else None
       else Some w);
  Some (if eop then
          (set_nb_frags_rx w 0, Batch (u32 (b.(frags_done) + w.(nb_frags_rx))) (u32 (b.(eop_cnt) + 1)))
        else (w, b)).

Fixpoint receive_loop (n : nat) w (b : batch) (i idx_rx idx_fq : Z) : option (world App * batch) :=
  match n with
  | O => Some (w, b)
  | S n' =>
      let desc := ring_read w.(rx) (xsk_ring_cons__rx_desc w.(rx) idx_rx) in
      let orig := xsk_umem__extract_addr desc.(desc_addr) in
      '(w, b) ← receive_desc w b desc;
      let fq' := refill_one o.(opt_warm_buffers) w.(warm).(to_add) w.(fq) idx_fq i orig in
      receive_loop n' (set_fq w fq') b (u32 (i + 1)) (u32 (idx_rx + 1)) (u32 (idx_fq + 1))
  end.

Definition receive (ks : list kstep) w : option (world App * list kstep) :=
  let '(rx', rcvd, idx_rx) := xsk_ring_cons__peek w.(rx) o.(opt_batch_size) 0 in
  let w := set_rx w rx' in
  if rcvd =? 0 then Some (count_rx_empty w, ks) else
  '(w, idx_fq, ks) ← reserve_fq ks w rcvd;
  let w := set_warm w (check_consumer w.(warm) w.(fq)) in
  '(w, b) ← receive_loop (Z.to_nat rcvd) w (Batch 0 0) 0 idx_rx idx_fq;
  let w := bump_to_add w rcvd in
  let w := set_fq w (xsk_ring_prod__submit w.(fq) rcvd) in
  let w := set_rx w (xsk_ring_cons__release w.(rx) b.(frags_done)) in
  Some (set_stats w (add_stats w.(stats) b.(eop_cnt) 0 rcvd 0 0 0 0), ks).

(** ** [forward] *)

Definition forward_desc w (b : batch) (desc : xdp_desc) : option (world App * batch) :=
  let eop := IS_EOP_DESC desc.(desc_options) in
  let addr := xsk_umem__add_offset_to_addr desc.(desc_addr) in
  let len := desc.(desc_len) in
  let pkt := xsk_umem__get_data w.(buffer) addr in
  w ← (if w.(nb_frags_fwd) =? 0
       then a ← process_packet o.(opt_application_type) w.(app) pkt len addr; Some (set_app w a)
       else Some w);
  let w := set_nb_frags_fwd w (u32 (w.(nb_frags_fwd) + 1)) in
  Some (if eop then
          (set_nb_frags_fwd w 0, Batch (u32 (b.(frags_done) + w.(nb_frags_fwd))) (u32 (b.(eop_cnt) + 1)))
        else (w, b)).

(** The TX descriptor that answers a received one. *)
Definition tx_of (desc : xdp_desc) : xdp_desc :=
  XdpDesc (xsk_umem__extract_addr desc.(desc_addr)) desc.(desc_len)
    (if IS_EOP_DESC desc.(desc_options) then 0 else XDP_PKT_CONTD).

Fixpoint forward_loop (n : nat) w (b : batch) (idx_rx idx_tx : Z) : option (world App * batch) :=
  match n with
  | O => Some (w, b)
  | S n' =>
      let desc := ring_read w.(rx) (xsk_ring_cons__rx_desc w.(rx) idx_rx) in
      '(w, b) ← forward_desc w b desc;
      let tx' := ring_write w.(tx) (xsk_ring_prod__tx_desc w.(tx) idx_tx) (tx_of desc) in
      forward_loop n' (set_tx w tx') b (u32 (idx_rx + 1)) (u32 (idx_tx + 1))
  end.

Definition forward (ks : list kstep) w : option (world App * list kstep) :=
  '(w, ks) ← complete_tx_forward ks w;
  let '(rx', rcvd, idx_rx) := xsk_ring_cons__peek w.(rx) o.(opt_batch_size) 0 in
  let w := set_rx w rx' in
  if rcvd =? 0 then Some (count_rx_empty w, ks) else
  let '(tx', ret, idx_tx) := xsk_ring_prod__reserve w.(tx) rcvd 0 in
  let w := set_tx w tx' in
  if s32 ret <? 0 then None else
  '(w, b) ← forward_loop (Z.to_nat rcvd) w (Batch 0 0) idx_rx idx_tx;
  let w := set_tx w (xsk_ring_prod__submit w.(tx) b.(frags_done)) in
  let w := set_rx w (xsk_ring_cons__release w.(rx) b.(frags_done)) in
  let w := set_stats w (add_stats w.(stats) b.(eop_cnt) b.(eop_cnt) rcvd rcvd 0 0 0) in
  Some (set_outstanding w (u32 (w.(outstanding_tx) + b.(frags_done))), ks).

(** ** [l3forward] *)

(** What the kernel does, if anything, before the next step of the thread. *)
Definition kernel_turn (ks : list kstep) w : world App * list kstep :=
  match ks with [] => (w, []) | k :: ks' => (k w, ks') end.

(** [while (ret < rcvd)] on the TX ring, with a [complete_tx_forward] per round and a step
    of the kernel before each new reservation; the comparison is unsigned. *)
Fixpoint wait_tx (fuel : nat) (ks : list kstep) w (rcvd ret idx_tx : Z) : option (world App * Z * list kstep) :=
  if rcvd <=? u32 ret then Some (w, idx_tx, ks)
  else if s32 ret <? 0 then None
  else match fuel with
  | O => None
  | S fuel' =>
      '(w, ks) ← complete_tx_forward ks w;
      let '(w, ks) := kernel_turn ks w in
      let '(tx', ret', idx') := xsk_ring_prod__reserve w.(tx) rcvd idx_tx in
      wait_tx fuel' ks (set_tx w tx') rcvd ret' idx'
  end.

Fixpoint wait_fq_l3 (ks : list kstep) w (rcvd ret idx_fq : Z) : option (world App * Z * list kstep) :=
  if rcvd <=? u32 ret then Some (w, idx_fq, ks)
  else match ks with
  | [] => None
  | k :: ks' =>
      let w := k w in
      let '(fq', ret', idx') := xsk_ring_prod__reserve w.(fq) rcvd idx_fq in
      wait_fq_l3 ks' (set_fq w fq') rcvd ret' idx'
  end.

Record l3_counts := L3Counts { tx_count : Z; drop_count : Z }.

(** The body of the loop: one packet goes to the TX ring or back to the fill queue. *)
Definition l3_packet w (c : l3_counts) (desc : xdp_desc) (idx_tx idx_fq : Z) : option (world App * l3_counts) :=
  let orig := xsk_umem__extract_addr desc.(desc_addr) in
  let len := desc.(desc_len) in
  let addr := xsk_umem__add_offset_to_addr desc.(desc_addr) in
  let pkt := xsk_umem__get_data w.(buffer) addr in
  '(a, action) ← l3_action o.(opt_application_type) w.(app) pkt len addr;
  let w := set_app w a in
  Some (if negb (action =? 0) then
    (set_tx w (ring_write w.(tx) (xsk_ring_prod__tx_desc w.(tx) (u32 (idx_tx + c.(tx_count)))) (XdpDesc orig len 0)),
     L3Counts (u32 (c.(tx_count) + 1)) c.(drop_count))
  else
    (set_fq w (ring_write w.(fq) (xsk_ring_prod__fill_addr w.(fq) (u32 (idx_fq + c.(drop_count)))) orig),
     L3Counts c.(tx_count) (u32 (c.(drop_count) + 1)))).

Fixpoint l3_loop (n : nat) w (c : l3_counts) (idx_rx idx_tx idx_fq : Z) : option (world App * l3_counts) :=
  match n with
  | O => Some (w, c)
  | S n' =>
      let desc := ring_read w.(rx) (xsk_ring_cons__rx_desc w.(rx) idx_rx) in
      '(w, c) ← l3_packet w c desc idx_tx idx_fq;
      l3_loop n' w c (u32 (idx_rx + 1)) idx_tx idx_fq
  end.

Definition l3forward (fuel : nat) (ks : list kstep) w : option (world App * list kstep) :=
  '(w, ks) ← complete_tx_forward ks w;
  let '(rx', rcvd, idx_rx) := xsk_ring_cons__peek w.(rx) o.(opt_batch_size) 0 in
  let w := set_rx w rx' in
  if rcvd =? 0 then Some (count_rx_empty w, ks) else
  let '(tx', ret, idx_tx) := xsk_ring_prod__reserve w.(tx) rcvd 0 in
  '(w, idx_tx, ks) ← wait_tx fuel ks (set_tx w tx') rcvd ret idx_tx;
  let '(fq', ret, idx_fq) := xsk_ring_prod__reserve w.(fq) rcvd 0 in
  '(w, idx_fq, ks) ← wait_fq_l3 ks (set_fq w fq') rcvd ret idx_fq;
  '(w, c) ← l3_loop (Z.to_nat rcvd) w (L3Counts 0 0) idx_rx idx_tx idx_fq;
  let w := if 0 <? c.(tx_count) then set_tx w (xsk_ring_prod__submit w.(tx) c.(tx_count)) else w in
  let w := if 0 <? c.(drop_count) then set_fq w (xsk_ring_prod__submit w.(fq) c.(drop_count)) else w in
  let w := set_rx w (xsk_ring_cons__release w.(rx) rcvd) in
  let w := set_outstanding w (u32 (w.(outstanding_tx) + c.(tx_count))) in
  Some (set_stats w (add_stats w.(stats) rcvd c.(tx_count) 0 0 0 0 0), ks).

(** ** [receive_all]: one round over the sockets *)

Definition serve (fuel : nat) (ks : list kstep) w : option (world App * list kstep) :=
  if (o.(opt_application_type) =? 3) || (o.(opt_application_type) =? 4) then forward ks w
  else if o.(opt_application_type) =? 6 then l3forward fuel ks w
  else receive ks w.

(** ** [xsk_populate_fill_ring] *)

Fixpoint populate_loop (n : nat) (r : xsk_ring Z) (i idx multiplier : Z) : xsk_ring Z :=
  match n with
  | O => r
  | S n' =>
      populate_loop n' (ring_write r (xsk_ring_prod__fill_addr r idx) (u64 (s32 (i * multiplier))))
        (i + 1) (u32 (idx + 1)) multiplier
  end.

(** [None] is [exit_with_error]. *)
Definition xsk_populate_fill_ring (num_fq_desc multiplier : Z) w : option (world App) :=
  let '(fq', ret, idx) := xsk_ring_prod__reserve w.(fq) num_fq_desc 0 in
  if negb (u32 ret =? num_fq_desc) then None else
  let fq' := populate_loop (Z.to_nat num_fq_desc) fq' 0 idx multiplier in
  Some (set_fq w (xsk_ring_prod__submit fq' num_fq_desc)).

End data_path.

(** ** Lemmas on the loops *)
Section loops.
Context {App : Type} `{!Handler App} (o : options).
Implicit Types w : world App.

Definition orig_of (d : xdp_desc) : Z := xsk_umem__extract_addr d.(desc_addr).

(** A handler of descriptors, over a batch of them. *)
Fixpoint process_all (f : world App -> batch -> xdp_desc -> option (world App * batch))
    (ds : list xdp_desc) w (b : batch) : option (world App * batch) :=
  match ds with
  | [] => Some (w, b)
  | d :: ds' => '(w, b) ← f w b d; process_all f ds' w b
  end.

(** [w'] is [w] but for the application and the bookkeeping of the loops. *)
Record same_rings w w' : Prop := {
  sr_fq : w'.(fq) = w.(fq); sr_cq : w'.(cq) = w.(cq);
  sr_rx : w'.(rx) = w.(rx); sr_tx : w'.(tx) = w.(tx);
  sr_buffer : w'.(buffer) = w.(buffer); sr_out : w'.(outstanding_tx) = w.(outstanding_tx);
  sr_warm : w'.(warm) = w.(warm); sr_stats : w'.(stats) = w.(stats);
}.

Lemma same_rings_refl w : same_rings w w.
Proof. by split. Qed.

Lemma same_rings_trans w1 w2 w3 : same_rings w1 w2 -> same_rings w2 w3 -> same_rings w1 w3.
Proof. intros [] []. split; congruence. Qed.

(** The rings and counters of [u] with the application and bookkeeping of [w]. *)
Definition with_rings w (u : world App) : world App :=
  World u.(fq) u.(cq) u.(rx) u.(tx) w.(buffer) u.(outstanding_tx) u.(warm)
    w.(nb_frags_rx) w.(nb_frags_fwd) w.(addr_count_array) u.(stats) w.(app).

Lemma with_rings_same w w' : same_rings w w' -> with_rings w' w = w'.
Proof. intros []. destruct w, w'; cbn in *; subst. done. Qed.

(** The outcomes of the debug counter. *)
Ltac count_cases :=
  match goal with |- context [opt_debug_addr ?o] => destruct (opt_debug_addr o) end;
  [match goal with |- context [?x <? MAX_UMEM_SIZE] => destruct (x <? MAX_UMEM_SIZE) end|].

(** Processing a descriptor neither reads nor changes the rings. *)
Lemma receive_desc_rings w u b d :
  receive_desc o (with_rings w u) b d = (fun r => (with_rings r.1 u, r.2)) <$> receive_desc o w b d.
Proof.
  unfold receive_desc. destruct w as [q c r t bu ou wa nr nf ad st ap]; cbn.
  destruct (nr =? 0); cbn [mbind option_bind].
  - destruct (process_packet _ ap _ _ _) as [a|]; cbn; [|done].
    count_cases; cbn; [|done|]; by destruct (IS_EOP_DESC _).
  - count_cases; cbn; [|done|]; by destruct (IS_EOP_DESC _).
Qed.

Lemma receive_desc_frame w b d w' b' :
  receive_desc o w b d = Some (w', b') -> same_rings w w' /\ w'.(nb_frags_fwd) = w.(nb_frags_fwd).
Proof.
  unfold receive_desc. destruct w as [q c r t bu ou wa nr nf ad st ap]; cbn.
  destruct (nr =? 0); cbn [mbind option_bind].
  - destruct (process_packet _ ap _ _ _) as [a|]; cbn; [|done].
    count_cases; cbn; [|done|];
      destruct (IS_EOP_DESC _); by intros [= <- <-].
  - count_cases; cbn; [|done|];
      destruct (IS_EOP_DESC _); by intros [= <- <-].
Qed.

Lemma receive_all_rings ds : forall w u b,
  process_all (receive_desc o) ds (with_rings w u) b =
    (fun r => (with_rings r.1 u, r.2)) <$> process_all (receive_desc o) ds w b.
Proof.
  induction ds as [|d ds IH]; intros w u b; [done|]. cbn [process_all].
  rewrite receive_desc_rings. destruct (receive_desc o w b d) as [[w1 b1]|]; cbn; [apply IH|done].
Qed.

Lemma receive_all_frame ds : forall w b w' b',
  process_all (receive_desc o) ds w b = Some (w', b') ->
  same_rings w w' /\ w'.(nb_frags_fwd) = w.(nb_frags_fwd).
Proof.
  induction ds as [|d ds IH]; intros w b w' b' H; cbn [process_all] in H.
  { injection H as <- _. by split. }
  apply bind_Some in H as ([w1 b1] & [Hs Hf]%receive_desc_frame & H).
  apply IH in H as [Hs' Hf']. split; [by eapply same_rings_trans|congruence].
Qed.

(** The loop of [receive]: process the batch, then give its buffers back. *)
Lemma receive_loop_split n : forall w b i x idx_fq,
  ring_wf w.(rx) ->
  receive_loop o n w b i (u32 x) idx_fq =
    ('(w', b') ← process_all (receive_desc o) (window w.(rx) x (Z.of_nat n)) w b;
     Some (set_fq w' (refill o.(opt_warm_buffers) w.(warm).(to_add) w.(fq) idx_fq i
       (orig_of <$> window w.(rx) x (Z.of_nat n))), b')).
Proof.
  induction n as [|n IH]; intros w b i x idx_fq Hwf.
  { change (Z.of_nat 0) with 0. rewrite window_nil. cbn. by destruct w. }
  rewrite window_cons by lia. replace (Z.of_nat (S n) - 1) with (Z.of_nat n) by lia.
  cbn [receive_loop process_all fmap list_fmap refill].
  unfold xsk_ring_cons__rx_desc. rewrite ring_read_at by done.
  destruct (receive_desc o w b (at_ (rx w) x)) as [[w1 b1]|] eqn:E; cbn [mbind option_bind]; [|done].
  apply receive_desc_frame in E as [[] _].
  rewrite wrap_add_l, IH by (cbn; by rewrite sr_rx0).
  change (rx (set_fq w1 ?v)) with (rx w1). change (warm (set_fq w1 ?v)) with (warm w1).
  rewrite sr_rx0, sr_warm0, sr_fq0. cbn [fq set_fq].
  match goal with |- context [process_all _ ?ds (set_fq w1 ?v) b1] =>
    rewrite (receive_all_rings ds w1 (set_fq w1 v) b1 : process_all _ ds (set_fq w1 v) b1 = _) end.
  destruct (process_all _ _ w1 b1) as [[w2 b2]|] eqn:E2; cbn; [|done].
  apply receive_all_frame in E2 as [[] _]. unfold set_fq, with_rings. cbn.
  by rewrite sr_cq1, sr_rx1, sr_tx1, sr_out1, sr_warm1, sr_stats1.
Qed.

(** The loop of [complete_tx_forward] gives a run of completed buffers back. *)
Lemma complete_loop_split n : forall w i x idx_fq,
  ring_wf w.(cq) ->
  complete_loop o n w i (u32 x) idx_fq =
    set_fq w (refill o.(opt_warm_buffers) w.(warm).(to_add) w.(fq) idx_fq i
      (window w.(cq) x (Z.of_nat n))).
Proof.
  induction n as [|n IH]; intros w i x idx_fq Hwf.
  { change (Z.of_nat 0) with 0. rewrite window_nil. by destruct w. }
  rewrite window_cons by lia. replace (Z.of_nat (S n) - 1) with (Z.of_nat n) by lia.
  cbn [complete_loop refill]. unfold xsk_ring_cons__comp_addr. rewrite ring_read_at by done.
  by rewrite wrap_add_l, IH by done.
Qed.

(** A reservation that fits succeeds at once; without kernel steps no other does. *)
Lemma reserve_fq_fits ks w c0 c p n :
  prod_inv w.(fq) c0 c p p -> 0 < n < 2 ^ 31 -> p + n <= c + w.(fq).(ring_size) ->
  exists fq' c0', reserve_fq o ks w n = Some (set_fq w fq', u32 p, ks) /\
    same_slots w.(fq) fq' /\ prod_inv fq' c0' c p (p + n).
Proof.
  intros Hinv Hn Hroom. unfold reserve_fq.
  destruct (reserve_spec w.(fq) c0 c p p n 0 Hinv) as (fq' & c0' & _ & Hss & -> & Hinv'); [lia|].
  rewrite Z.min_l in * by lia. rewrite (proj2 (Z.eqb_neq n 0)) by lia. cbn [andb].
  exists fq', c0'. split; [|done]. unfold wait_fq.
  destruct ks; by rewrite wrap_small, Z.eqb_refl by lia.
Qed.

Lemma reserve_fq_room w c0 c p n w' idx ks :
  prod_inv w.(fq) c0 c p p -> 0 < n < 2 ^ 31 ->
  reserve_fq o [] w n = Some (w', idx, ks) -> p + n <= c + w.(fq).(ring_size).
Proof.
  intros Hinv Hn. unfold reserve_fq. pose proof (pi_order _ _ _ _ _ Hinv).
  destruct (reserve_spec w.(fq) c0 c p p n 0 Hinv) as (fq' & c0' & _ & _ & -> & _); [lia|].
  cbn [wait_fq]. destruct (Z.leb_spec n (c + w.(fq).(ring_size) - p)); [lia|].
  rewrite Z.min_r by lia.
  rewrite (wrap_small 32) by lia. rewrite (proj2 (Z.eqb_neq _ n)) by lia.
  by destruct (s32 _ <? 0).
Qed.

(** What [refill] publishes, in both modes. *)
Definition refill_spec (t : Z) (q origs : list Z) : list Z :=
  if o.(opt_warm_buffers) then warm_spec (Z.to_nat t) q origs else fifo_spec q origs.

Lemma refill_spec_perm t q origs : Permutation (refill_spec t q origs) (q ++ origs).
Proof. unfold refill_spec. destruct (opt_warm_buffers o); [apply warm_spec_perm|done]. Qed.

Lemma refill_size wb ta origs : forall (r : xsk_ring Z) x i,
  (refill wb ta r x i origs).(ring_size) = r.(ring_size).
Proof.
  induction origs as [|a origs IH]; intros r x i; [done|]. cbn [refill]. rewrite IH.
  unfold refill_one. by destruct wb.
Qed.

Lemma refill_window (r : xsk_ring Z) c0 c p q t origs :
  prod_inv r c0 c p q -> p + Z.of_nat (length origs) <= q ->
  (o.(opt_warm_buffers) = true -> 0 <= t < p - c) ->
  let r' := refill o.(opt_warm_buffers) t r (u32 p) 0 origs in
  prod_inv r' c0 c p q /\
  window r' c (p + Z.of_nat (length origs) - c) = refill_spec t (window r c (p - c)) origs.
Proof.
  intros Hinv Hq Ht r'. subst r'. unfold refill_spec. destruct (opt_warm_buffers o) eqn:Hw.
  - apply (refill_warm_window origs _ c0 c p q p t t 0); [done|lia|done|by apply Ht|by rewrite Z.add_0_r].
  - apply (refill_fifo_window origs _ c0 c p q p t 0); [done|lia|done].
Qed.

(** Fragments not yet released and released ones add up. *)
Lemma receive_desc_count w b d w' b' :
  receive_desc o w b d = Some (w', b') ->
  0 <= w.(nb_frags_rx) -> 0 <= b.(frags_done) -> w.(nb_frags_rx) + b.(frags_done) + 1 < 2 ^ 32 ->
  w'.(nb_frags_rx) + b'.(frags_done) = w.(nb_frags_rx) + b.(frags_done) + 1 /\
  0 <= w'.(nb_frags_rx) /\ b.(frags_done) <= b'.(frags_done).
Proof.
  unfold receive_desc. destruct w as [q c r t bu ou wa nr nf ad st ap], b as [fd ec]; cbn.
  intros H Hn Hf Hs. apply bind_Some in H as (w1 & H1 & H). apply bind_Some in H as (w2 & H2 & H).
  injection H as He.
  assert (w1.(nb_frags_rx) = nr) as Hw1.
  { destruct (nr =? 0); [|by injection H1 as <-]. by apply bind_Some in H1 as (a & _ & [= <-]). }
  assert (w2.(nb_frags_rx) = nr + 1) as Hw2.
  { revert H2. cbn. count_cases; [|done|]; intros [= <-]; cbn; rewrite Hw1; apply wrap_small; lia. }
  destruct (IS_EOP_DESC _); injection He as <- <-; cbn.
  - rewrite Hw2, wrap_small by lia. lia.
  - lia.
Qed.

Lemma receive_all_count ds : forall w b w' b',
  process_all (receive_desc o) ds w b = Some (w', b') ->
  0 <= w.(nb_frags_rx) -> 0 <= b.(frags_done) ->
  w.(nb_frags_rx) + b.(frags_done) + Z.of_nat (length ds) < 2 ^ 32 ->
  w'.(nb_frags_rx) + b'.(frags_done) = w.(nb_frags_rx) + b.(frags_done) + Z.of_nat (length ds) /\
  0 <= w'.(nb_frags_rx) /\ b.(frags_done) <= b'.(frags_done).
Proof.
  induction ds as [|d ds IH]; intros w b w' b' H Hn Hf Hs; cbn [process_all length] in *.
  { injection H as <- <-. lia. }
  apply bind_Some in H as ([w1 b1] & H1 & H).
  apply receive_desc_count in H1 as (Hc & Hn1 & Hf1); [|lia..].
  apply IH in H as (Hc' & ? & ?); lia.
Qed.

(** Where the next warm refill starts, counted from the consumer. *)
Definition warm_start w : Z := (check_consumer w.(warm) w.(fq)).(to_add).

(** The refill does not meet the end of the queue: the first slot to exchange is
    one that the kernel still has to take. *)
Definition not_drained w (c p : Z) : Prop :=
  o.(opt_warm_buffers) = true -> 0 <= warm_start w < p - c.

Lemma check_consumer_slots wa (r r' : xsk_ring Z) :
  consumer r' = consumer r -> check_consumer wa r' = check_consumer wa r.
Proof. unfold check_consumer. by intros ->. Qed.

(** One call of [receive] that finds packets and room to give the buffers back. *)
Lemma receive_lemma ks w c0 c p rc rcc rcp rp :
  prod_inv w.(fq) c0 c p p -> cons_inv w.(rx) rc rcc rcp rp ->
  0 < o.(opt_batch_size) < 2 ^ 31 -> w.(nb_frags_rx) = rcc - rc ->
  p + Z.min o.(opt_batch_size) (rp - rcc) <= c + w.(fq).(ring_size) -> not_drained w c p ->
  exists rx1 n, 0 <= n <= o.(opt_batch_size) /\ rcc + n <= rp /\ (n = 0 -> rp = rcc) /\
    same_slots w.(rx) rx1 /\
    let ds := window w.(rx) rcc n in
    if decide (n = 0) then
      exists rcp', receive o ks w = Some (count_rx_empty o (set_rx w rx1), ks) /\
        cons_inv rx1 rc rcc rcp' rp else
    match process_all (receive_desc o) ds w (Batch 0 0) with
    | None => receive o ks w = None
    | Some (w1, b) => exists w' c0' rcp', receive o ks w = Some (w', ks) /\
        prod_inv w'.(fq) c0' c (p + n) (p + n) /\ w'.(fq).(ring_size) = w.(fq).(ring_size) /\
        window w'.(fq) c (p + n - c) = refill_spec (warm_start w) (window w.(fq) c (p - c)) (orig_of <$> ds) /\
        same_slots w.(rx) w'.(rx) /\ cons_inv w'.(rx) (rc + b.(frags_done)) (rcc + n) rcp' rp /\
        0 <= b.(frags_done) /\ w'.(nb_frags_rx) = (rcc + n) - (rc + b.(frags_done)) /\
        w'.(app) = w1.(app) /\ w'.(cq) = w.(cq) /\ w'.(tx) = w.(tx) /\
        w'.(outstanding_tx) = w.(outstanding_tx) /\ w'.(nb_frags_fwd) = w.(nb_frags_fwd) /\
        w'.(warm) = WarmState (s32 (warm_start w + n)) w.(fq).(consumer)
    end.
Proof.
  intros Hfq Hrx Hb Hnb Hroom Hnd. pose proof (wf_size_bounds _ (ci_wf _ _ _ _ _ Hrx)).
  pose proof (ci_order _ _ _ _ _ Hrx) as Ho.
  destruct (peek_spec w.(rx) rc rcc rcp rp o.(opt_batch_size) 0 Hrx) as
    (rx1 & rcp' & n & Hpk & Hn & Hn' & Hz & Hrx1 & Hss); [lia|].
  exists rx1, n. split; [done|]. split; [done|]. split; [lia|]. split; [done|].
  unfold receive. rewrite Hpk. cbv zeta. destruct (decide (n = 0)) as [->|Hn0].
  { exists rcp'. rewrite Z.add_0_r in Hrx1. done. }
  rewrite (proj2 (Z.eqb_neq n 0)) by done.
  destruct (reserve_fq_fits ks (set_rx w rx1) c0 c p n) as (fq1 & c0' & -> & Hfs & Hfq1); [done|lia|cbn; lia|].
  cbn [mbind option_bind].
  rewrite (check_consumer_slots _ w.(fq)) by
    (cbn; by rewrite (pi_cons _ _ _ _ _ Hfq1), (pi_cons _ _ _ _ _ Hfq)).
  change (warm (set_fq _ _)) with (warm w).
  set (wa := check_consumer w.(warm) w.(fq)). set (w0 := set_warm _ wa).
  rewrite (receive_loop_split _ w0) by apply (ci_wf _ _ _ _ _ Hrx1).
  rewrite Z2Nat.id by lia. change (rx w0) with rx1. change (warm w0) with wa. change (fq w0) with fq1.
  rewrite (same_slots_window _ _ _ _ Hss), (receive_all_rings _ w w0 _ : process_all _ _ w0 _ = _).
  destruct (process_all _ _ w _) as [[w1 b]|] eqn:Hp; cbn [fmap option_fmap option_map mbind option_bind]; [|done].
  pose proof Hp as Hcnt. apply receive_all_count in Hcnt as (Hcnt & Hn1 & Hf1); [|cbn [frags_done]; lia..|].
  2: { cbn [frags_done]. rewrite length_window. lia. }
  rewrite length_window in Hcnt. cbn [frags_done] in Hcnt, Hf1.
  apply receive_all_frame in Hp as [_ Hff].
  destruct (refill_window fq1 c0' c p (p + n) (warm_start w) (orig_of <$> window w.(rx) rcc n)) as [Hq2 Hw2];
    [done|rewrite length_fmap, length_window; lia|done|].
  rewrite length_fmap, length_window, Z2Nat.id in Hw2 by lia.
  rewrite (same_slots_window _ _ _ _ Hfs) in Hw2. cbn [fst snd].
  eexists _, c0', rcp'. split; [reflexivity|]. cbn.
  split; [apply submit_inv; [done|lia..]|].
  destruct Hfs as (Hfr & Hfz & Hfm). cbn [fq set_rx] in Hfr, Hfz, Hfm.
  split; [by rewrite refill_size|]. split; [exact Hw2|].
  destruct Hss as (Hr1 & Hs1 & Hm1). split; [by split|].
  split; [apply release_inv; [done|done|lia]|].
  split; [done|]. split; [lia|]. by repeat (split; [done|]).
Qed.

Lemma refill_spec_nil t q : refill_spec t q [] = q.
Proof.
  unfold refill_spec, warm_spec, fifo_spec. destruct (opt_warm_buffers o); [|apply app_nil_r].
  apply take_drop.
Qed.

(** One call of [complete_tx_forward] with room for what has been sent. *)
Lemma complete_lemma ks w c0 c p cc cp pc :
  prod_inv w.(fq) c0 c p p -> cons_inv w.(cq) cc cc cp pc ->
  0 < o.(opt_batch_size) < 2 ^ 31 -> 0 <= w.(outstanding_tx) < 2 ^ 32 ->
  p + Z.min (Z.min o.(opt_batch_size) w.(outstanding_tx)) (pc - cc) <= c + w.(fq).(ring_size) ->
  not_drained w c p ->
  exists w' n c0' cp', complete_tx_forward o ks w = Some (w', ks) /\
    0 <= n <= w.(outstanding_tx) /\ cc + n <= pc /\ (n = 0 -> w.(outstanding_tx) = 0 \/ pc = cc) /\
    prod_inv w'.(fq) c0' c (p + n) (p + n) /\ w'.(fq).(ring_size) = w.(fq).(ring_size) /\
    window w'.(fq) c (p + n - c) = refill_spec (warm_start w) (window w.(fq) c (p - c)) (window w.(cq) cc n) /\
    same_slots w.(cq) w'.(cq) /\ cons_inv w'.(cq) (cc + n) (cc + n) cp' pc /\
    w'.(outstanding_tx) = w.(outstanding_tx) - n /\
    w'.(rx) = w.(rx) /\ w'.(tx) = w.(tx) /\ w'.(app) = w.(app) /\ w'.(buffer) = w.(buffer) /\
    w'.(nb_frags_rx) = w.(nb_frags_rx) /\ w'.(nb_frags_fwd) = w.(nb_frags_fwd) /\
    w'.(addr_count_array) = w.(addr_count_array).
Proof.
  intros Hfq Hcq Hb Hout Hroom Hnd. pose proof (wf_size_bounds _ (ci_wf _ _ _ _ _ Hcq)).
  pose proof (ci_order _ _ _ _ _ Hcq) as Ho. unfold complete_tx_forward.
  destruct (Z.eqb_spec w.(outstanding_tx) 0) as [Hz|Hz].
  { exists w, 0, c0, cp. rewrite !Z.add_0_r, window_nil, refill_spec_nil.
    repeat (split; [done || lia|]). done. }
  set (ws := if negb _ then _ else _).
  assert (exists st, ws = set_stats w st) as [st Hws].
  { subst ws. destruct (negb _); [by eexists|]. exists w.(stats). by destruct w. }
  clearbody ws. subst ws. cbn [outstanding_tx set_stats cq].
  set (nd := if o.(opt_batch_size) <? w.(outstanding_tx) then _ else _).
  assert (nd = Z.min o.(opt_batch_size) w.(outstanding_tx)) as Hndm.
  { subst nd. destruct (Z.ltb_spec o.(opt_batch_size) w.(outstanding_tx)); lia. }
  clearbody nd. subst nd.
  destruct (peek_spec w.(cq) cc cc cp pc (Z.min o.(opt_batch_size) w.(outstanding_tx)) 0 Hcq) as
    (cq1 & cp' & n & Hpk & Hn & Hn' & Hzz & Hcq1 & Hss); [lia|]. rewrite Hpk. cbv zeta.
  destruct (Z.ltb_spec 0 n) as [Hpos|Hnn].
  2: { assert (n = 0) as -> by lia. eexists _, 0, c0, cp'. split; [reflexivity|].
    rewrite !Z.add_0_r in *. rewrite window_nil, refill_spec_nil. cbn.
    repeat (split; [done || lia|]). done. }
  rewrite (proj2 (Z.eqb_neq n 0)) by lia.
  destruct (reserve_fq_fits ks (set_cq (set_stats w st) cq1) c0 c p n) as (fq1 & c0' & -> & Hfs & Hfq1);
    [done|lia|cbn; lia|]. cbn [mbind option_bind].
  rewrite (check_consumer_slots _ w.(fq)) by
    (cbn; by rewrite (pi_cons _ _ _ _ _ Hfq1), (pi_cons _ _ _ _ _ Hfq)).
  change (warm (set_fq _ _)) with (warm w).
  set (wa := check_consumer w.(warm) w.(fq)). set (w0 := set_warm _ wa).
  rewrite (complete_loop_split _ w0) by apply (ci_wf _ _ _ _ _ Hcq1).
  rewrite Z2Nat.id by lia. change (cq w0) with cq1. change (warm w0) with wa. change (fq w0) with fq1.
  rewrite (same_slots_window _ _ _ _ Hss).
  destruct (refill_window fq1 c0' c p (p + n) (warm_start w) (window w.(cq) cc n)) as [Hq2 Hw2];
    [done|rewrite length_window; lia|done|].
  rewrite length_window, Z2Nat.id in Hw2 by lia. rewrite (same_slots_window _ _ _ _ Hfs) in Hw2.
  eexists _, n, c0', cp'. split; [reflexivity|]. cbn.
  destruct Hfs as (Hfr & Hfz & Hfm). cbn [fq set_cq set_stats] in Hfr, Hfz, Hfm.
  split; [lia|]. split; [lia|]. split; [lia|].
  split; [apply submit_inv; [done|lia..]|].
  split; [by rewrite refill_size|]. split; [exact Hw2|].
  destruct Hss as (Hr1 & Hs1 & Hm1). split; [by split|].
  split; [apply release_inv; [done|lia|lia]|].
  split; [rewrite wrap_small by lia; done|]. by repeat (split; [done|]).
Qed.

(** *** [forward] *)

Lemma forward_desc_rings w u b d :
  forward_desc o (with_rings w u) b d = (fun r => (with_rings r.1 u, r.2)) <$> forward_desc o w b d.
Proof.
  unfold forward_desc. destruct w as [q c r t bu ou wa nr nf ad st ap]; cbn.
  destruct (nf =? 0); cbn [mbind option_bind].
  - destruct (process_packet _ ap _ _ _) as [a|]; cbn; [|done]. by destruct (IS_EOP_DESC _).
  - by destruct (IS_EOP_DESC _).
Qed.

Lemma forward_desc_frame w b d w' b' :
  forward_desc o w b d = Some (w', b') -> same_rings w w' /\ w'.(nb_frags_rx) = w.(nb_frags_rx).
Proof.
  unfold forward_desc. destruct w as [q c r t bu ou wa nr nf ad st ap]; cbn.
  destruct (nf =? 0); cbn [mbind option_bind].
  - destruct (process_packet _ ap _ _ _) as [a|]; cbn; [|done].
    destruct (IS_EOP_DESC _); by intros [= <- <-].
  - destruct (IS_EOP_DESC _); by intros [= <- <-].
Qed.

Lemma forward_desc_count w b d w' b' :
  forward_desc o w b d = Some (w', b') ->
  0 <= w.(nb_frags_fwd) -> 0 <= b.(frags_done) -> w.(nb_frags_fwd) + b.(frags_done) + 1 < 2 ^ 32 ->
  w'.(nb_frags_fwd) + b'.(frags_done) = w.(nb_frags_fwd) + b.(frags_done) + 1 /\
  0 <= w'.(nb_frags_fwd) /\ b.(frags_done) <= b'.(frags_done).
Proof.
  unfold forward_desc. destruct w as [q c r t bu ou wa nr nf ad st ap], b as [fd ec]; cbn.
  intros H Hn Hf Hs. apply bind_Some in H as (w1 & H1 & H). injection H as He.
  assert (w1.(nb_frags_fwd) = nf) as Hw1.
  { destruct (nf =? 0); [|by injection H1 as <-]. by apply bind_Some in H1 as (a & _ & [= <-]). }
  rewrite Hw1, (wrap_small 32 (nf + 1)) in He by lia.
  destruct (IS_EOP_DESC _); injection He as <- <-; cbn.
  - rewrite wrap_small by lia. lia.
  - lia.
Qed.

Lemma forward_all_rings ds : forall w u b,
  process_all (forward_desc o) ds (with_rings w u) b =
    (fun r => (with_rings r.1 u, r.2)) <$> process_all (forward_desc o) ds w b.
Proof.
  induction ds as [|d ds IH]; intros w u b; [done|]. cbn [process_all].
  rewrite forward_desc_rings. destruct (forward_desc o w b d) as [[w1 b1]|]; cbn; [apply IH|done].
Qed.

Lemma forward_all_frame ds : forall w b w' b',
  process_all (forward_desc o) ds w b = Some (w', b') ->
  same_rings w w' /\ w'.(nb_frags_rx) = w.(nb_frags_rx).
Proof.
  induction ds as [|d ds IH]; intros w b w' b' H; cbn [process_all] in H.
  { injection H as <- _. by split. }
  apply bind_Some in H as ([w1 b1] & [Hs Hf]%forward_desc_frame & H).
  apply IH in H as [Hs' Hf']. split; [by eapply same_rings_trans|congruence].
Qed.

Lemma forward_all_count ds : forall w b w' b',
  process_all (forward_desc o) ds w b = Some (w', b') ->
  0 <= w.(nb_frags_fwd) -> 0 <= b.(frags_done) ->
  w.(nb_frags_fwd) + b.(frags_done) + Z.of_nat (length ds) < 2 ^ 32 ->
  w'.(nb_frags_fwd) + b'.(frags_done) = w.(nb_frags_fwd) + b.(frags_done) + Z.of_nat (length ds) /\
  0 <= w'.(nb_frags_fwd) /\ b.(frags_done) <= b'.(frags_done).
Proof.
  induction ds as [|d ds IH]; intros w b w' b' H Hn Hf Hs; cbn [process_all length] in *.
  { injection H as <- <-. lia. }
  apply bind_Some in H as ([w1 b1] & H1 & H).
  apply forward_desc_count in H1 as (Hc & Hn1 & Hf1); [|lia..].
  apply IH in H as (Hc' & ? & ?); lia.
Qed.

(** Descriptors written to consecutive slots. *)
Fixpoint tx_fill (t : xsk_ring xdp_desc) (idx : Z) (ds : list xdp_desc) : xsk_ring xdp_desc :=
  match ds with
  | [] => t
  | d :: ds' => tx_fill (ring_write t (xsk_ring_prod__tx_desc t idx) d) (u32 (idx + 1)) ds'
  end.

Lemma tx_fill_window ds : forall (t : xsk_ring xdp_desc) c0 c p q x,
  prod_inv t c0 c p q -> p <= x -> x + Z.of_nat (length ds) <= q ->
  prod_inv (tx_fill t (u32 x) ds) c0 c p q /\ (tx_fill t (u32 x) ds).(ring_size) = t.(ring_size) /\
  window (tx_fill t (u32 x) ds) c (x + Z.of_nat (length ds) - c) = window t c (x - c) ++ ds.
Proof.
  induction ds as [|d ds IH]; intros t c0 c p q x Hinv Hp Hq; cbn [length tx_fill] in *.
  { rewrite Z.add_0_r, app_nil_r. done. }
  pose proof Hinv as [Hwf _ _ _ _ Ho]. unfold xsk_ring_prod__tx_desc.
  destruct (IH (ring_write t (u32 x &' mask t) d) c0 c p q (x + 1)) as (Hi & Hs & Hw);
    [by apply prod_write_inv|lia..|].
  rewrite wrap_add_l. split; [done|]. split; [done|].
  replace (x + Z.of_nat (S (length ds)) - c) with (x + 1 + Z.of_nat (length ds) - c) by lia.
  rewrite Hw. replace (x + 1 - c) with (x - c + 1) by lia. rewrite window_snoc by lia.
  rewrite window_write_out by (done || lia). rewrite <- app_assoc. f_equal. cbn. f_equal.
  replace (c + (x - c)) with x by lia. by rewrite at_write, decide_True.
Qed.

Lemma forward_loop_split n : forall w b x idx_tx,
  ring_wf w.(rx) ->
  forward_loop o n w b (u32 x) idx_tx =
    ('(w', b') ← process_all (forward_desc o) (window w.(rx) x (Z.of_nat n)) w b;
     Some (set_tx w' (tx_fill w.(tx) idx_tx (tx_of <$> window w.(rx) x (Z.of_nat n))), b')).
Proof.
  induction n as [|n IH]; intros w b x idx_tx Hwf.
  { change (Z.of_nat 0) with 0. rewrite window_nil. cbn. by destruct w. }
  rewrite window_cons by lia. replace (Z.of_nat (S n) - 1) with (Z.of_nat n) by lia.
  cbn [forward_loop process_all fmap list_fmap tx_fill].
  unfold xsk_ring_cons__rx_desc. rewrite ring_read_at by done.
  destruct (forward_desc o w b (at_ (rx w) x)) as [[w1 b1]|] eqn:E; cbn [mbind option_bind]; [|done].
  apply forward_desc_frame in E as [[] _].
  rewrite wrap_add_l, IH by (cbn; by rewrite sr_rx0).
  change (rx (set_tx w1 ?v)) with (rx w1). rewrite sr_rx0, sr_tx0. cbn [tx set_tx].
  match goal with |- context [process_all _ ?ds (set_tx w1 ?v) b1] =>
    rewrite (forward_all_rings ds w1 (set_tx w1 v) b1 : process_all _ ds (set_tx w1 v) b1 = _) end.
  destruct (process_all _ _ w1 b1) as [[w2 b2]|] eqn:E2; cbn; [|done].
  apply forward_all_frame in E2 as [[] _]. unfold set_tx, with_rings. cbn.
  by rewrite sr_fq1, sr_cq1, sr_rx1, sr_out1, sr_warm1, sr_stats1.
Qed.

(** One call of [forward] that finds packets, and room for them in the TX ring. *)
Lemma forward_lemma ks w w0 c0 c p q rc rcc rcp rp :
  complete_tx_forward o ks w = Some (w0, ks) ->
  prod_inv w0.(tx) c0 c p q -> cons_inv w0.(rx) rc rcc rcp rp ->
  0 < o.(opt_batch_size) < 2 ^ 31 -> w0.(nb_frags_fwd) = q - p -> w0.(nb_frags_fwd) = rcc - rc ->
  q + Z.min o.(opt_batch_size) (rp - rcc) <= c + w0.(tx).(ring_size) ->
  0 <= w0.(outstanding_tx) < 2 ^ 31 ->
  exists rx1 n, 0 <= n <= o.(opt_batch_size) /\ rcc + n <= rp /\ (n = 0 -> rp = rcc) /\
    same_slots w0.(rx) rx1 /\
    let ds := window w0.(rx) rcc n in
    if decide (n = 0) then
      exists rcp', forward o ks w = Some (count_rx_empty o (set_rx w0 rx1), ks) /\
        cons_inv rx1 rc rcc rcp' rp else
    match process_all (forward_desc o) ds w0 (Batch 0 0) with
    | None => forward o ks w = None
    | Some (w1, b) => exists w' c0' rcp', forward o ks w = Some (w', ks) /\
        prod_inv w'.(tx) c0' c (p + b.(frags_done)) (q + n) /\ w'.(tx).(ring_size) = w0.(tx).(ring_size) /\
        window w'.(tx) c (q + n - c) = window w0.(tx) c (q - c) ++ (tx_of <$> ds) /\
        same_slots w0.(rx) w'.(rx) /\ cons_inv w'.(rx) (rc + b.(frags_done)) (rcc + n) rcp' rp /\
        0 <= b.(frags_done) /\ w'.(nb_frags_fwd) = (rcc + n) - (rc + b.(frags_done)) /\
        w'.(app) = w1.(app) /\ w'.(cq) = w0.(cq) /\ w'.(fq) = w0.(fq) /\ w'.(warm) = w0.(warm) /\
        w'.(outstanding_tx) = w0.(outstanding_tx) + b.(frags_done) /\
        w'.(nb_frags_rx) = w0.(nb_frags_rx) /\ w'.(buffer) = w0.(buffer)
    end.
Proof.
  intros Hcomp Htx Hrx Hb Hnq Hnb Hroom Hout. pose proof (wf_size_bounds _ (ci_wf _ _ _ _ _ Hrx)).
  pose proof (ci_order _ _ _ _ _ Hrx) as Ho. pose proof (pi_order _ _ _ _ _ Htx) as Hto.
  destruct (peek_spec w0.(rx) rc rcc rcp rp o.(opt_batch_size) 0 Hrx) as
    (rx1 & rcp' & n & Hpk & Hn & Hn' & Hz & Hrx1 & Hss); [lia|].
  exists rx1, n. split; [done|]. split; [done|]. split; [lia|]. split; [done|].
  unfold forward. rewrite Hcomp. cbn [mbind option_bind]. rewrite Hpk. cbv zeta.
  destruct (decide (n = 0)) as [->|Hn0].
  { exists rcp'. rewrite Z.add_0_r in Hrx1. done. }
  rewrite (proj2 (Z.eqb_neq n 0)) by done. cbn [tx set_rx].
  destruct (reserve_spec w0.(tx) c0 c p q n 0 Htx) as (tx1 & c0' & _ & Hts & -> & Htx1); [lia|].
  rewrite Z.min_l in * by lia. rewrite (proj2 (Z.eqb_neq n 0)) by done. cbn [andb].
  rewrite swrap_small by lia. rewrite (proj2 (Z.ltb_ge n 0)) by lia.
  set (w2 := set_tx (set_rx w0 rx1) tx1).
  rewrite (forward_loop_split _ w2) by apply (ci_wf _ _ _ _ _ Hrx1).
  rewrite Z2Nat.id by lia. change (rx w2) with rx1. change (tx w2) with tx1.
  rewrite (same_slots_window _ _ _ _ Hss), (forward_all_rings _ w0 w2 _ : process_all _ _ w2 _ = _).
  destruct (process_all _ _ w0 _) as [[w1 b]|] eqn:Hp; cbn [fmap option_fmap option_map mbind option_bind]; [|done].
  pose proof Hp as Hcnt. apply forward_all_count in Hcnt as (Hcnt & Hn1 & Hf1); [|cbn [frags_done]; lia..|].
  2: { cbn [frags_done]. rewrite length_window. lia. }
  rewrite length_window in Hcnt. cbn [frags_done] in Hcnt, Hf1.
  apply forward_all_frame in Hp as [Hsr Hff].
  destruct (tx_fill_window (tx_of <$> window w0.(rx) rcc n) tx1 c0' c p (q + n) q) as (Hq2 & Hs2 & Hw2);
    [done|lia|rewrite length_fmap, length_window; lia|].
  rewrite length_fmap, length_window, Z2Nat.id in Hw2 by lia.
  rewrite (same_slots_window _ _ _ _ Hts) in Hw2. cbn [fst snd].
  eexists _, c0', rcp'. split; [reflexivity|]. cbn.
  destruct Hts as (_ & Htz & _).
  split; [apply submit_inv; [done|lia..]|]. split; [by rewrite Hs2|]. split; [exact Hw2|].
  destruct Hss as (Hr1 & Hs1 & Hm1). split; [by split|].
  split; [apply release_inv; [done|done|lia]|].
  split; [done|]. split; [lia|]. do 4 (split; [done|]).
  split; [rewrite wrap_small by lia; done|]. split; [done|by destruct Hsr].
Qed.

(** *** [l3forward] *)

(** What the application decides about a batch: the descriptors for the TX ring and the
    addresses for the fill queue. *)
Fixpoint l3_plan (buf : Z) (a : App) (ds : list xdp_desc) : option (App * list xdp_desc * list Z) :=
  match ds with
  | [] => Some (a, [], [])
  | d :: ds' =>
      let addr := xsk_umem__add_offset_to_addr d.(desc_addr) in
      '(a, action) ← l3_action o.(opt_application_type) a (xsk_umem__get_data buf addr) d.(desc_len) addr;
      '(a, ts, qs) ← l3_plan buf a ds';
      let orig := xsk_umem__extract_addr d.(desc_addr) in
      Some (if negb (action =? 0) then (a, XdpDesc orig d.(desc_len) 0 :: ts, qs)
            else (a, ts, orig :: qs))
  end.

Lemma l3_loop_split n : forall w c x y z w' c',
  l3_loop o n w c (u32 x) (u32 y) (u32 z) = Some (w', c') -> ring_wf w.(rx) ->
  0 <= c.(tx_count) -> 0 <= c.(drop_count) ->
  c.(tx_count) + c.(drop_count) + Z.of_nat n < 2 ^ 32 ->
  exists a ts qs, l3_plan w.(buffer) w.(app) (window w.(rx) x (Z.of_nat n)) = Some (a, ts, qs) /\
    w' = set_fq (set_tx (set_app w a) (tx_fill w.(tx) (u32 (y + c.(tx_count))) ts))
      (refill false 0 w.(fq) (u32 (z + c.(drop_count))) 0 qs) /\
    c'.(tx_count) = c.(tx_count) + Z.of_nat (length ts) /\
    c'.(drop_count) = c.(drop_count) + Z.of_nat (length qs) /\
    (length ts + length qs = n)%nat.
Proof.
  induction n as [|n IH]; intros w c x y z w' c' H Hwf H1 H2 H3; cbn [l3_loop] in H.
  { injection H as <- <-. change (Z.of_nat 0) with 0. rewrite window_nil.
    exists w.(app), [], []. cbn. split; [done|]. split; [by destruct w|]. lia. }
  apply bind_Some in H as ([w1 c1] & Hp & H). unfold xsk_ring_cons__rx_desc in Hp.
  rewrite ring_read_at in Hp by done. rewrite wrap_add_l in H.
  rewrite window_cons by lia. replace (Z.of_nat (S n) - 1) with (Z.of_nat n) by lia. cbn [l3_plan].
  unfold l3_packet in Hp. apply bind_Some in Hp as ([a action] & Hact & Hp). rewrite Hact.
  cbn [mbind option_bind].
  destruct (negb (action =? 0)); injection Hp as <- <-;
    apply IH in H as (a' & ts & qs & Hpl & -> & Hc1 & Hc2 & Hl);
    try done; cbn [tx_count drop_count] in *; rewrite ?(wrap_small 32) in * by lia; try lia;
    cbn [buffer app rx set_tx set_app set_fq] in Hpl; rewrite Hpl; cbn [mbind option_bind].
  - eexists a', (_ :: ts), qs. split; [reflexivity|]. cbn [tx_fill length].
    rewrite !wrap_add_r, Z.add_assoc. split; [|lia].
    unfold set_fq, set_tx, set_app. cbn.
    by rewrite !wrap_add_l.
  - eexists a', ts, (_ :: qs). split; [reflexivity|]. cbn [refill refill_one length].
    rewrite !wrap_add_r, Z.add_assoc. split; [|lia].
    unfold set_fq, set_tx, set_app. cbn.
    rewrite !wrap_add_l. f_equal. apply refill_cold_counter.
Qed.

(** One call of [l3forward] that finds packets and room: both rings get a
    reservation for the whole batch, the packets are written from the start of the
    reservation on, and only as many as there are of each kind are published. *)
Lemma l3forward_lemma fuel ks w w0 fc0 fc fp fq0 tc0 tc tp tq rc rcp rp w' ks' :
  complete_tx_forward o ks w = Some (w0, ks) ->
  prod_inv w0.(fq) fc0 fc fp fq0 -> prod_inv w0.(tx) tc0 tc tp tq -> cons_inv w0.(rx) rc rc rcp rp ->
  0 < o.(opt_batch_size) < 2 ^ 31 -> rc < rp ->
  tq + Z.min o.(opt_batch_size) (rp - rc) <= tc + w0.(tx).(ring_size) ->
  fq0 + Z.min o.(opt_batch_size) (rp - rc) <= fc + w0.(fq).(ring_size) ->
  l3forward o fuel ks w = Some (w', ks') ->
  exists rx1 n a ts qs fc0' tc0' rcp',
    xsk_ring_cons__peek w0.(rx) o.(opt_batch_size) 0 = (rx1, n, u32 rc) /\
    0 < n <= o.(opt_batch_size) /\ rc + n <= rp /\ ks' = ks /\
    l3_plan w0.(buffer) w0.(app) (window w0.(rx) rc n) = Some (a, ts, qs) /\ w'.(app) = a /\
    Z.of_nat (length ts) + Z.of_nat (length qs) = n /\
    prod_inv w'.(fq) fc0' fc (fp + Z.of_nat (length qs)) (fq0 + n) /\
    window w'.(fq) fc (fq0 + Z.of_nat (length qs) - fc) = window w0.(fq) fc (fq0 - fc) ++ qs /\
    prod_inv w'.(tx) tc0' tc (tp + Z.of_nat (length ts)) (tq + n) /\
    window w'.(tx) tc (tq + Z.of_nat (length ts) - tc) = window w0.(tx) tc (tq - tc) ++ ts /\
    cons_inv w'.(rx) (rc + n) (rc + n) rcp' rp.
Proof.
  intros Hcomp Hfq Htx Hrx Hb Hrp Htr Hfr. pose proof (wf_size_bounds _ (ci_wf _ _ _ _ _ Hrx)).
  pose proof (ci_order _ _ _ _ _ Hrx) as Ho.
  pose proof (pi_order _ _ _ _ _ Htx) as Hto. pose proof (pi_order _ _ _ _ _ Hfq) as Hfo.
  unfold l3forward. rewrite Hcomp. cbn [mbind option_bind].
  destruct (peek_spec w0.(rx) rc rc rcp rp o.(opt_batch_size) 0 Hrx) as
    (rx1 & rcp' & n & -> & Hn & Hn' & Hz & Hrx1 & Hss); [lia|].
  assert (n <> 0) by lia. rewrite (proj2 (Z.eqb_neq n 0)) by done. cbn [tx set_rx].
  destruct (reserve_spec w0.(tx) tc0 tc tp tq n 0 Htx) as (tx1 & tc0' & _ & Hts & -> & Htx1); [lia|].
  rewrite Z.min_l in * by lia. rewrite (proj2 (Z.eqb_neq n 0)) by done. cbn [andb].
  assert (forall fuel ks w i, wait_tx o fuel ks w n n i = Some (w, i, ks)) as Hwt.
  { intros fu kk u i. destruct fu; cbn [wait_tx]; by rewrite (wrap_small 32 n), Z.leb_refl by lia. }
  rewrite Hwt. cbn [mbind option_bind fq set_tx set_rx].
  destruct (reserve_spec w0.(fq) fc0 fc fp fq0 n 0 Hfq) as (fq1 & fc0' & _ & Hfs & -> & Hfq1); [lia|].
  rewrite Z.min_l in * by lia. rewrite (proj2 (Z.eqb_neq n 0)) by done. cbn [andb].
  assert (forall ks w i, wait_fq_l3 ks w n n i = Some (w, i, ks)) as Hwf.
  { intros kk u i. destruct kk; cbn [wait_fq_l3]; by rewrite (wrap_small 32 n), Z.leb_refl by lia. }
  rewrite Hwf. cbn [mbind option_bind]. intros H1.
  apply bind_Some in H1 as ([w2 c2] & Hloop & H1). injection H1 as <- <-.
  apply l3_loop_split in Hloop as (a & ts & qs & Hpl & -> & Hc1 & Hc2 & Hl);
    [|apply (ci_wf _ _ _ _ _ Hrx1)|cbn [tx_count drop_count]; lia..].
  cbn [tx_count drop_count rx buffer app fq tx set_rx set_tx set_fq set_app] in *.
  rewrite !Z.add_0_r, !Z.add_0_l, Z2Nat.id in * by lia. rewrite (same_slots_window _ _ _ _ Hss) in Hpl.
  destruct (tx_fill_window ts tx1 tc0' tc tp (tq + n) tq Htx1) as (Htx2 & _ & Htw); [lia|lia|].
  destruct (refill_fifo_window qs fq1 fc0' fc fp (fq0 + n) fq0 0 0 Hfq1) as (Hfq2 & Hfw); [lia|lia|].
  rewrite (same_slots_window _ _ _ _ Hts) in Htw. cbv zeta in Hfw.
  rewrite (same_slots_window _ _ _ _ Hfs) in Hfw. unfold fifo_spec in Hfw.
  exists rx1, n, a, ts, qs, fc0', tc0', rcp'. do 5 (split; [done || lia|]).
  assert (cons_inv (xsk_ring_cons__release rx1 n) (rc + n) (rc + n) rcp' rp) as Hrel
    by (apply release_inv; [done|lia|lia]).
  rewrite <- Hc1, <- Hc2 in *.
  destruct (Z.ltb_spec 0 c2.(tx_count)), (Z.ltb_spec 0 c2.(drop_count)); cbn;
    (split; [done|]); (split; [lia|]); (split; [|split; [exact Hfw|]]); (split; [|split; [exact Htw|done]]) || idtac.
  all: try (apply submit_inv; [done|lia..]).
  all: match goal with Hle : ?x <= 0 |- prod_inv _ _ _ (?p + ?x) _ =>
    replace (p + x) with p by lia; done end.
Qed.

(** *** The wait for room *)

(** A ring with too little room for the batch: the attempt takes what there is,
    and the next one starts behind it. *)
Lemma reserve_fq_partial w c0 c p n m (k : kstep) :
  prod_inv w.(fq) c0 c p p -> p < c + w.(fq).(ring_size) < p + n -> n < 2 ^ 31 ->
  (forall u, k u = set_fq u (kernel_consume u.(fq) m)) -> n <= m <= p - c ->
  let r := c + w.(fq).(ring_size) - p in
  exists fq' st c1, reserve_fq o [k] w n = Some (set_fq (set_stats w st) fq', u32 (p + r), []) /\
    prod_inv fq' c1 (c + m) p (p + r + n) /\ same_slots w.(fq) fq'.
Proof.
  intros Hinv Hr Hn Hk Hm r. unfold reserve_fq.
  destruct (reserve_spec w.(fq) c0 c p p n 0 Hinv) as (fq1 & c1 & _ & Hs1 & -> & Hinv1); [lia|].
  assert (ring_size fq1 = ring_size w.(fq)) as Hsz1 by apply Hs1.
  rewrite Z.min_r in * by lia. fold r in Hinv1 |- *.
  rewrite (proj2 (Z.eqb_neq r 0)) by lia. cbn [andb wait_fq].
  rewrite (wrap_small 32 r), (proj2 (Z.eqb_neq r n)) by lia.
  rewrite (swrap_small 32), (proj2 (Z.ltb_ge r 0)) by lia. rewrite Hk.
  assert (exists st, count_fill_fail o (set_fq w fq1) = set_stats (set_fq w fq1) st) as [st Hst].
  { unfold count_fill_fail. destruct (must_wake o _); [by eexists|].
    exists w.(stats). by destruct w. }
  rewrite Hst. set (w1 := set_fq _ _).
  assert (w1.(fq) = kernel_consume fq1 m) as -> by done.
  destruct (kernel_consume_inv fq1 c1 c p (p + r) m Hinv1) as [Hinv2 _]; [lia|].
  destruct (reserve_spec _ c1 (c + m) p (p + r) n (u32 p) Hinv2) as (fq2 & c2 & _ & Hs2 & -> & Hinv3); [lia|].
  change (ring_size (kernel_consume fq1 m)) with (ring_size fq1) in *.
  rewrite Z.min_l in * by lia. rewrite (proj2 (Z.eqb_neq n 0)) by lia. cbn [andb wait_fq].
  rewrite wrap_small, Z.eqb_refl by lia.
  exists fq2, st, c2. split; [reflexivity|]. split; [done|].
  destruct Hs1 as (? & ? & ?), Hs2 as (? & ? & ?). unfold same_slots. cbn in *.
  split; [congruence|]. split; congruence.
Qed.

(** Cold mode: the batch is written from the second reservation on, and published from the
    first. *)
Lemma complete_partial w c0 c p cc cp pc cq' n idx m (k : kstep) :
  o.(opt_warm_buffers) = false -> 0 < w.(outstanding_tx) ->
  prod_inv w.(fq) c0 c p p -> cons_inv w.(cq) cc cc cp pc -> 0 <= o.(opt_batch_size) ->
  xsk_ring_cons__peek w.(cq) (Z.min o.(opt_batch_size) w.(outstanding_tx)) 0 = (cq', n, idx) ->
  p < c + w.(fq).(ring_size) < p + n -> n < 2 ^ 31 ->
  (forall u, k u = set_fq u (kernel_consume u.(fq) m)) -> n <= m <= p - c ->
  let r := c + w.(fq).(ring_size) - p in
  exists w' c1, complete_tx_forward o [k] w = Some (w', []) /\
    prod_inv w'.(fq) c1 (c + m) (p + n) (p + n + r) /\
    window w'.(fq) (c + m) (p + r + n - (c + m)) =
      window w.(fq) (c + m) (p - (c + m)) ++ window w.(fq) p r ++ window w.(cq) cc n.
Proof.
  intros Hcold Hout Hfq Hcq Hb Hpk Hr Hn Hk Hm r. unfold complete_tx_forward.
  pose proof (pi_order _ _ _ _ _ Hfq) as Ho.
  destruct (Z.eqb_spec w.(outstanding_tx) 0) as [Hz|_]; [lia|].
  set (ws := if negb _ then _ else _).
  assert (exists st, ws = set_stats w st) as [st Hws].
  { subst ws. destruct (negb _); [by eexists|]. exists w.(stats). by destruct w. }
  clearbody ws. subst ws. cbn [outstanding_tx set_stats cq].
  set (nd := if o.(opt_batch_size) <? w.(outstanding_tx) then _ else _).
  assert (nd = Z.min o.(opt_batch_size) w.(outstanding_tx)) as Hndm.
  { subst nd. destruct (Z.ltb_spec o.(opt_batch_size) w.(outstanding_tx)); lia. }
  clearbody nd. subst nd.
  destruct (peek_spec w.(cq) cc cc cp pc (Z.min o.(opt_batch_size) w.(outstanding_tx)) 0 Hcq) as
    (cq1 & cp' & n' & Hpk' & _ & _ & _ & Hcq1 & Hss); [lia|].
  rewrite Hpk in Hpk'. injection Hpk' as <- <- Hidx. rewrite (proj2 (Z.eqb_neq n 0)) in Hidx by lia.
  subst idx. rewrite Hpk. cbv zeta. rewrite (proj2 (Z.ltb_lt 0 n)) by lia.
  destruct (reserve_fq_partial (set_cq (set_stats w st) cq') c0 c p n m k Hfq Hr Hn Hk Hm)
    as (fq1 & st1 & c1 & -> & Hfq1 & Hfs). fold r in Hfq1. cbn [mbind option_bind].
  set (w0 := set_warm _ _). rewrite (complete_loop_split _ w0) by apply (ci_wf _ _ _ _ _ Hcq1).
  rewrite Hcold, Z2Nat.id by lia. change (cq w0) with cq'. change (fq w0) with fq1.
  rewrite (same_slots_window _ _ _ _ Hss).
  destruct (refill_fifo_window (window w.(cq) cc n) fq1 c1 (c + m) p (p + r + n) (p + r)
    (to_add (warm w0)) 0 Hfq1) as [Hq2 Hw2]; [lia|rewrite length_window; lia|].
  rewrite length_window, Z2Nat.id in Hw2 by lia.
  change (fq (set_cq (set_stats w st) cq')) with (fq w) in *.
  eexists _, c1. split; [reflexivity|]. cbn. split.
  { replace (p + n + r) with (p + r + n) by lia. apply submit_inv; [done|lia..]. }
  transitivity (fifo_spec (window fq1 (c + m) (p + r - (c + m))) (window w.(cq) cc n)); [exact Hw2|].
  unfold fifo_spec. rewrite (same_slots_window _ _ _ _ Hfs), app_assoc. f_equal.
  replace (p + r - (c + m)) with (p - (c + m) + r) by lia.
  rewrite window_app by lia. do 2 f_equal. lia.
Qed.
End loops.
