(* ===== verification/Buffers.v ===== *)
(** * Conservation of packet buffers

    A socket and the kernel as a transition system: the application serves a
    batch ([serve]: [receive] or [forward], with [complete_tx_forward]), and the
    kernel takes buffers from the fill queue, delivers packets, transmits and
    completes, in any order.  The invariant is that every buffer of the UMEM is at
    exactly one place.

    [frame] says which buffer an address belongs to: the kernel may deliver a
    packet at another address of the buffer (headroom), no more is assumed of it.

    Two premises on [serve] are what the code relies on without checking it: in
    warm mode the fill queue has not run out at the position of the next exchange
    ([warm_ok]), and [forward] finds room in the TX ring ([tx_room]).  The end of
    the file shows what happens otherwise. *)
From stdpp Require Import gmultiset.
From S2P Require Import Prelude XskRing FillQueue DataPath.

Section system.
Context {App : Type} `{!Handler App} (o : options) (frame : Z -> Z).
Implicit Types w : world App.

Record sys := Sys {
  s_world : world App;
  s_held : list Z;       (* taken from the fill queue, no packet yet *)
  s_inflight : list Z;   (* taken from the TX ring, not completed *)
}.

Definition forwards : bool := (o.(opt_application_type) =? 3) || (o.(opt_application_type) =? 4).

Definition warm_ok w : bool :=
  negb o.(opt_warm_buffers) ||
  ((0 <=? warm_start w) && (warm_start w <? u32 (w.(fq).(producer) - w.(fq).(consumer)))).

Definition tx_room w : bool :=
  negb forwards ||
  (Z.min o.(opt_batch_size) (u32 (w.(rx).(producer) - w.(rx).(cached_cons)))
     <=? u32 (w.(tx).(consumer) + w.(tx).(ring_size) - w.(tx).(cached_prod))).

Inductive step : sys -> sys -> Prop :=
  | step_serve w w' h f ks :
      warm_ok w = true -> tx_room w = true -> serve o 0 [] w = Some (w', ks) ->
      step (Sys w h f) (Sys w' h f)
  | step_take w h f n :
      0 <= n <= u32 (w.(fq).(producer) - w.(fq).(consumer)) ->
      step (Sys w h f)
        (Sys (set_fq w (kernel_consume w.(fq) n)) (h ++ take (Z.to_nat n) (pending w.(fq))) f)
  | step_deliver w h1 a h2 f d :
      frame (orig_of d) = frame a ->
      u32 (w.(rx).(producer) - w.(rx).(consumer)) < w.(rx).(ring_size) ->
      step (Sys w (h1 ++ a :: h2) f) (Sys (set_rx w (kernel_produce w.(rx) [d])) (h1 ++ h2) f)
  | step_transmit w h f n :
      0 <= n <= u32 (w.(tx).(producer) - w.(tx).(consumer)) ->
      step (Sys w h f)
        (Sys (set_tx w (kernel_consume w.(tx) n)) h
           (f ++ (desc_addr <$> take (Z.to_nat n) (pending w.(tx)))))
  | step_complete w h f1 a f2 :
      u32 (w.(cq).(producer) - w.(cq).(consumer)) < w.(cq).(ring_size) ->
      step (Sys w h (f1 ++ a :: f2)) (Sys (set_cq w (kernel_produce w.(cq) [a])) h (f1 ++ f2)).

Definition reachable (s s' : sys) : Prop := rtc step s s'.

(** ** The invariant *)

Definition bag (l : list Z) : gmultiset Z := list_to_set_disj (frame <$> l).

Lemma bag_app l1 l2 : bag (l1 ++ l2) = bag l1 ⊎ bag l2.
Proof. unfold bag. by rewrite fmap_app, list_to_set_disj_app. Qed.

Lemma bag_cons a l : bag (a :: l) = {[+ frame a +]} ⊎ bag l.
Proof. done. Qed.

Lemma bag_nil : bag [] = ∅.
Proof. done. Qed.

Lemma bag_perm l1 l2 : Permutation l1 l2 -> bag l1 = bag l2.
Proof. intros Hp. unfold bag. by rewrite Hp. Qed.

Lemma bag_size l : size (bag l) = length l.
Proof.
  induction l as [|a l IH]; [done|].
  rewrite bag_cons, gmultiset_size_disj_union, gmultiset_size_singleton, IH. done.
Qed.

Lemma bag_frames l1 l2 : frame <$> l1 = frame <$> l2 -> bag l1 = bag l2.
Proof. unfold bag. by intros ->. Qed.

Record sys_inv (all : gmultiset Z) (s : sys)
    (fc0 fc fp tc0 tc tp tq rc rcc rcp rp cc cp pc : Z) : Prop := {
  si_fq : prod_inv s.(s_world).(fq) fc0 fc fp fp;
  si_tx : prod_inv s.(s_world).(tx) tc0 tc tp tq;
  si_rx : cons_inv s.(s_world).(rx) rc rcc rcp rp;
  si_cq : cons_inv s.(s_world).(cq) cc cc cp pc;
  si_fit : Z.of_nat (size all) <= s.(s_world).(fq).(ring_size);
  si_small : Z.of_nat (size all) < 2 ^ 31;
  si_frags : if forwards then s.(s_world).(nb_frags_fwd) = tq - tp /\ s.(s_world).(nb_frags_fwd) = rcc - rc
             else s.(s_world).(nb_frags_rx) = rcc - rc;
  si_out : s.(s_world).(outstanding_tx) = (tp - tc) + Z.of_nat (length s.(s_inflight)) + (pc - cc);
  si_total :
    bag (window s.(s_world).(fq) fc (fp - fc)) ⊎ bag s.(s_held) ⊎
    bag (orig_of <$> window s.(s_world).(rx) rcc (rp - rcc)) ⊎
    bag (desc_addr <$> window s.(s_world).(tx) tc (tq - tc)) ⊎ bag s.(s_inflight) ⊎
    bag (window s.(s_world).(cq) cc (pc - cc)) = all;
}.

Definition inv (all : gmultiset Z) (s : sys) : Prop :=
  exists fc0 fc fp tc0 tc tp tq rc rcc rcp rp cc cp pc,
    sys_inv all s fc0 fc fp tc0 tc tp tq rc rcc rcp rp cc cp pc.

(** The sizes of the parts add up to the number of buffers. *)
Lemma sys_inv_sizes all s fc0 fc fp tc0 tc tp tq rc rcc rcp rp cc cp pc :
  sys_inv all s fc0 fc fp tc0 tc tp tq rc rcc rcp rp cc cp pc ->
  Z.of_nat (size all) = (fp - fc) + Z.of_nat (length s.(s_held)) + (rp - rcc) + (tq - tc) +
    Z.of_nat (length s.(s_inflight)) + (pc - cc) /\
  fc <= fp /\ rcc <= rp /\ tc <= tp /\ tp <= tq /\ cc <= pc /\ rc <= rcc.
Proof.
  intros [Hfq Htx Hrx Hcq _ _ _ _ <-].
  pose proof (pi_order _ _ _ _ _ Hfq). pose proof (pi_order _ _ _ _ _ Htx).
  pose proof (ci_order _ _ _ _ _ Hrx). pose proof (ci_order _ _ _ _ _ Hcq).
  rewrite !gmultiset_size_disj_union, !bag_size, !length_fmap, !length_window. lia.
Qed.

(** ** The steps of the kernel *)

Lemma prod_inv_level {A} `{Inhabited A} (r : xsk_ring A) c0 c p q :
  prod_inv r c0 c p q -> u32 (r.(producer) - r.(consumer)) = p - c.
Proof.
  intros [Hwf _ Hc Hp _ Ho]. pose proof (wf_size_bounds r Hwf). rewrite Hc, Hp. wrap_push.
  apply wrap_small. lia.
Qed.

Lemma cons_inv_level {A} `{Inhabited A} (r : xsk_ring A) c cc cp p :
  cons_inv r c cc cp p -> u32 (r.(producer) - r.(consumer)) = p - c.
Proof.
  intros [Hwf Hc _ _ Hp Ho]. pose proof (wf_size_bounds r Hwf). rewrite Hc, Hp. wrap_push.
  apply wrap_small. lia.
Qed.

Lemma take_window {A} `{Inhabited A} (r : xsk_ring A) a n m :
  0 <= m <= n -> take (Z.to_nat m) (window r a n) = window r a m.
Proof.
  intros. replace n with (m + (n - m)) by lia. rewrite window_app by lia.
  rewrite take_app_le, take_ge by (rewrite length_window; lia). done.
Qed.

Lemma window_split {A} `{Inhabited A} (r : xsk_ring A) a n m :
  0 <= m <= n -> window r a n = window r a m ++ window r (a + m) (n - m).
Proof. intros. replace n with (m + (n - m)) at 1 by lia. apply window_app; lia. Qed.

Lemma consume_window {A} `{Inhabited A} (r : xsk_ring A) k a n :
  window (kernel_consume r k) a n = window r a n.
Proof. done. Qed.

Lemma inv_take all w h f n :
  inv all (Sys w h f) -> 0 <= n <= u32 (w.(fq).(producer) - w.(fq).(consumer)) ->
  inv all
    (Sys (set_fq w (kernel_consume w.(fq) n)) (h ++ take (Z.to_nat n) (pending w.(fq))) f).
Proof.
  intros (fc0&fc&fp&tc0&tc&tp&tq&rc&rcc&rcp&rp&cc&cp&pc&[Hfq Htx Hrx Hcq Hfit Hsm Hfr Hout Htot]) Hn.
  cbn [s_world s_held s_inflight] in *.
  rewrite (prod_inv_level _ _ _ _ _ Hfq) in Hn. pose proof (pi_order _ _ _ _ _ Hfq).
  exists fc0, (fc + n), fp, tc0, tc, tp, tq, rc, rcc, rcp, rp, cc, cp, pc.
  destruct (kernel_consume_inv _ _ _ _ _ n Hfq) as [Hfq' _]; [lia|].
  split; cbn [s_world s_held s_inflight fq cq rx tx set_fq nb_frags_fwd nb_frags_rx outstanding_tx]; try done.
  rewrite (prod_inv_pending _ _ _ _ _ Hfq), take_window, consume_window, bag_app by lia.
  rewrite (window_split _ fc (fp - fc) n), bag_app in Htot by lia.
  replace (fp - (fc + n)) with (fp - fc - n) by lia. rewrite <- Htot. multiset_solver.
Qed.

Lemma inv_transmit all w h f n :
  inv all (Sys w h f) -> 0 <= n <= u32 (w.(tx).(producer) - w.(tx).(consumer)) ->
  inv all (Sys (set_tx w (kernel_consume w.(tx) n)) h
    (f ++ (desc_addr <$> take (Z.to_nat n) (pending w.(tx))))).
Proof.
  intros (fc0&fc&fp&tc0&tc&tp&tq&rc&rcc&rcp&rp&cc&cp&pc&[Hfq Htx Hrx Hcq Hfit Hsm Hfr Hout Htot]) Hn.
  cbn [s_world s_held s_inflight] in *.
  rewrite (prod_inv_level _ _ _ _ _ Htx) in Hn. pose proof (pi_order _ _ _ _ _ Htx).
  exists fc0, fc, fp, tc0, (tc + n), tp, tq, rc, rcc, rcp, rp, cc, cp, pc.
  destruct (kernel_consume_inv _ _ _ _ _ n Htx) as [Htx' _]; [lia|].
  rewrite (prod_inv_pending _ _ _ _ _ Htx), take_window by lia.
  split; cbn [s_world s_held s_inflight fq cq rx tx set_tx nb_frags_fwd nb_frags_rx outstanding_tx]; try done.
  - rewrite length_app, length_fmap, length_window. lia.
  - rewrite consume_window, bag_app.
    rewrite (window_split _ tc (tq - tc) n), fmap_app, bag_app in Htot by lia.
    replace (tq - (tc + n)) with (tq - tc - n) by lia. rewrite <- Htot. multiset_solver.
Qed.

Lemma produce_window {A} `{Inhabited A} (r : xsk_ring A) c cc cp p d :
  cons_inv r c cc cp p -> p + 1 <= c + r.(ring_size) ->
  cons_inv (kernel_produce r [d]) c cc cp (p + 1) /\
  window (kernel_produce r [d]) cc (p + 1 - cc) = window r cc (p - cc) ++ [d].
Proof.
  intros Hinv Hroom. destruct (kernel_produce_inv r c cc cp p [d] Hinv) as [Hinv' Hp]; [done|].
  change (p + Z.of_nat (length [d])) with (p + 1) in Hinv'. split; [done|].
  rewrite (cons_inv_pending _ _ _ _ _ Hinv'), (cons_inv_pending _ _ _ _ _ Hinv) in Hp.
  pose proof (ci_order _ _ _ _ _ Hinv).
  rewrite (window_split _ c (p + 1 - c) (cc - c)), (window_split r c (p - c) (cc - c)) in Hp by lia.
  replace (c + (cc - c)) with cc in Hp by lia. replace (p + 1 - c - (cc - c)) with (p + 1 - cc) in Hp by lia.
  replace (p - c - (cc - c)) with (p - cc) in Hp by lia. rewrite <- app_assoc in Hp.
  apply app_inj_1 in Hp as [_ Hp]; [done|]. by rewrite !length_window.
Qed.

Lemma inv_deliver all w h1 a h2 f d :
  inv all (Sys w (h1 ++ a :: h2) f) -> frame (orig_of d) = frame a ->
  u32 (w.(rx).(producer) - w.(rx).(consumer)) < w.(rx).(ring_size) ->
  inv all (Sys (set_rx w (kernel_produce w.(rx) [d])) (h1 ++ h2) f).
Proof.
  intros (fc0&fc&fp&tc0&tc&tp&tq&rc&rcc&rcp&rp&cc&cp&pc&[Hfq Htx Hrx Hcq Hfit Hsm Hfr Hout Htot]) Hd Hroom.
  cbn [s_world s_held s_inflight] in *.
  rewrite (cons_inv_level _ _ _ _ _ Hrx) in Hroom.
  exists fc0, fc, fp, tc0, tc, tp, tq, rc, rcc, rcp, (rp + 1), cc, cp, pc.
  destruct (produce_window _ _ _ _ _ d Hrx) as [Hrx' Hw]; [lia|].
  split; cbn [s_world s_held s_inflight fq cq rx tx set_rx nb_frags_fwd nb_frags_rx outstanding_tx]; try done.
  rewrite Hw, fmap_app, !bag_app. rewrite bag_app, bag_cons, <- Hd in Htot.
  cbn [fmap list_fmap]. rewrite bag_cons, bag_nil, <- Htot. multiset_solver.
Qed.

Lemma inv_complete all w h f1 a f2 :
  inv all (Sys w h (f1 ++ a :: f2)) ->
  u32 (w.(cq).(producer) - w.(cq).(consumer)) < w.(cq).(ring_size) ->
  inv all (Sys (set_cq w (kernel_produce w.(cq) [a])) h (f1 ++ f2)).
Proof.
  intros (fc0&fc&fp&tc0&tc&tp&tq&rc&rcc&rcp&rp&cc&cp&pc&[Hfq Htx Hrx Hcq Hfit Hsm Hfr Hout Htot]) Hroom.
  cbn [s_world s_held s_inflight] in *.
  rewrite (cons_inv_level _ _ _ _ _ Hcq) in Hroom.
  exists fc0, fc, fp, tc0, tc, tp, tq, rc, rcc, rcp, rp, cc, cp, (pc + 1).
  destruct (produce_window _ _ _ _ _ a Hcq) as [Hcq' Hw]; [lia|].
  split; cbn [s_world s_held s_inflight fq cq rx tx set_cq nb_frags_fwd nb_frags_rx outstanding_tx]; try done.
  - rewrite length_app in *. cbn [length] in Hout. lia.
  - rewrite Hw, !bag_app. rewrite bag_app, bag_cons in Htot.
    rewrite bag_cons, bag_nil, <- Htot. multiset_solver.
Qed.

(** ** The steps of the application *)

Hypothesis Hbatch : 0 < o.(opt_batch_size) < 2 ^ 31.
Hypothesis Htype : o.(opt_application_type) <> 6.

Lemma warm_ok_spec w c0 c p q :
  prod_inv w.(fq) c0 c p q -> warm_ok w = true -> not_drained o w c p.
Proof.
  unfold warm_ok, not_drained. intros Hinv Hok Hw. rewrite Hw in Hok.
  cbn [negb orb] in Hok.
  rewrite (prod_inv_level _ _ _ _ _ Hinv) in Hok.
  apply andb_prop in Hok as [?%Z.leb_le ?%Z.ltb_lt]. lia.
Qed.

Lemma count_rx_empty_rings w : same_rings (count_rx_empty o w) (set_stats w (count_rx_empty o w).(stats)) /\
  (count_rx_empty o w).(nb_frags_rx) = w.(nb_frags_rx) /\ (count_rx_empty o w).(nb_frags_fwd) = w.(nb_frags_fwd).
Proof. unfold count_rx_empty. by destruct (must_wake o w). Qed.

Lemma bag_refill t q origs : bag (refill_spec o t q origs) = bag q ⊎ bag origs.
Proof. rewrite (bag_perm _ _ (refill_spec_perm o t q origs)). apply bag_app. Qed.

Lemma inv_receive all w h f w' ks :
  inv all (Sys w h f) -> forwards = false -> warm_ok w = true ->
  receive o [] w = Some (w', ks) -> inv all (Sys w' h f).
Proof.
  intros (fc0&fc&fp&tc0&tc&tp&tq&rc&rcc&rcp&rp&cc&cp&pc&Hsi) Hmode Hwarm Hrecv.
  pose proof (sys_inv_sizes _ _ _ _ _ _ _ _ _ _ _ _ _ _ _ _ Hsi) as (Hsize & Hord).
  destruct Hsi as [Hfq Htx Hrx Hcq Hfit Hsm Hfr Hout Htot]. rewrite Hmode in Hfr.
  cbn [s_world s_held s_inflight] in *.
  destruct (receive_lemma o [] w fc0 fc fp rc rcc rcp rp) as (rx1 & n & Hn & Hn' & Hz & Hss & H);
    [done|done|done|done|lia|by eapply warm_ok_spec|].
  cbv zeta in H. destruct (decide (n = 0)) as [->|Hn0].
  - destruct H as (rcp' & H & Hrx1). rewrite H in Hrecv. injection Hrecv as <- _.
    destruct (count_rx_empty_rings (set_rx w rx1)) as ([] & He1 & He2).
    exists fc0, fc, fp, tc0, tc, tp, tq, rc, rcc, rcp', rp, cc, cp, pc.
    unfold count_rx_empty. destruct (must_wake _ _);
      split; rewrite ?Hmode; cbn [s_world s_held s_inflight fq cq rx tx set_rx set_stats nb_frags_fwd
        nb_frags_rx outstanding_tx]; try done; by rewrite (same_slots_window _ _ _ _ Hss).
  - destruct (process_all _ _ w _) as [[w1 b]|]; [|congruence].
    destruct H as (w2 & c0' & rcp' & H & Hfq' & Hfsz & Hw & Hss' & Hrx' & Hfd & Hnb & _ & Hcq' & Htx' & Hout' & _ & _).
    rewrite H in Hrecv. injection Hrecv as -> _.
    exists c0', fc, (fp + n), tc0, tc, tp, tq, (rc + b.(frags_done)), (rcc + n), rcp', rp, cc, cp, pc.
    split; rewrite ?Hmode; cbn [s_world s_held s_inflight]; rewrite ?Hcq', ?Htx', ?Hout', ?Hfsz; try done.
    rewrite Hw, (same_slots_window _ _ _ _ Hss'), bag_refill.
    rewrite (window_split _ rcc (rp - rcc) n), fmap_app, bag_app in Htot by lia.
    replace (rp - (rcc + n)) with (rp - rcc - n) by lia. rewrite <- Htot. multiset_solver.
Qed.

Lemma tx_room_spec w tc0 tc tp tq rc rcc rcp rp :
  prod_inv w.(tx) tc0 tc tp tq -> cons_inv w.(rx) rc rcc rcp rp -> forwards = true ->
  tx_room w = true -> tq + Z.min o.(opt_batch_size) (rp - rcc) <= tc + w.(tx).(ring_size).
Proof.
  intros Htx Hrx Hmode Hok. unfold tx_room in Hok. rewrite Hmode in Hok. cbn [negb orb] in Hok.
  pose proof Htx as [Hwt _ Hc _ Hq Ho]. pose proof Hrx as [Hwr _ Hcc _ Hp Ho'].
  pose proof (wf_size_bounds _ Hwt). pose proof (wf_size_bounds _ Hwr).
  rewrite Hc, Hq, Hcc, Hp in Hok. apply Z.leb_le in Hok. revert Hok. wrap_push.
  rewrite <- (wrap_sub_l 32 (u32 tc + _)), wrap_add_l. wrap_push.
  rewrite (wrap_small 32 (rp - rcc)), wrap_small by lia. lia.
Qed.

Lemma bag_tx_of ds : bag (desc_addr <$> (tx_of <$> ds)) = bag (orig_of <$> ds).
Proof. by rewrite <- list_fmap_compose. Qed.

(** [complete_tx_forward] moves completed buffers to the fill queue. *)
Lemma inv_complete_tx all w h f :
  inv all (Sys w h f) -> warm_ok w = true ->
  exists w0, complete_tx_forward o [] w = Some (w0, []) /\ inv all (Sys w0 h f) /\
    w0.(tx) = w.(tx) /\ w0.(rx) = w.(rx) /\ w0.(app) = w.(app) /\ w0.(buffer) = w.(buffer) /\
    w0.(nb_frags_fwd) = w.(nb_frags_fwd).
Proof.
  intros (fc0&fc&fp&tc0&tc&tp&tq&rc&rcc&rcp&rp&cc&cp&pc&Hsi) Hwarm.
  pose proof (sys_inv_sizes _ _ _ _ _ _ _ _ _ _ _ _ _ _ _ _ Hsi) as (Hsize & Hord).
  destruct Hsi as [Hfq Htx Hrx Hcq Hfit Hsm Hfr Hout Htot].
  cbn [s_world s_held s_inflight] in *.
  destruct (complete_lemma o [] w fc0 fc fp cc cp pc) as
    (w0 & n & c0' & cp' & He & Hn & Hn' & _ & Hfq' & Hfsz & Hw & Hss & Hcq' & Hout' & Hrx' & Htx' & Hap & Hbu & Hnr & Hnf & _);
    [done|done|done|lia|lia|by eapply warm_ok_spec|].
  exists w0. split; [done|]. split; [|done].
  exists c0', fc, (fp + n), tc0, tc, tp, tq, rc, rcc, rcp, rp, (cc + n), cp', pc.
  split; cbn [s_world s_held s_inflight]; rewrite ?Hrx', ?Htx', ?Hout', ?Hfsz, ?Hnr, ?Hnf; try done; [lia|].
  rewrite Hw, (same_slots_window _ _ _ _ Hss), bag_refill.
  rewrite (window_split _ cc (pc - cc) n), bag_app in Htot by lia.
  replace (pc - (cc + n)) with (pc - cc - n) by lia. rewrite <- Htot. multiset_solver.
Qed.

Lemma inv_forward all w h f w' ks :
  inv all (Sys w h f) -> forwards = true -> warm_ok w = true -> tx_room w = true ->
  forward o [] w = Some (w', ks) -> inv all (Sys w' h f).
Proof.
  intros Hinv Hmode Hwarm Hroom Hfwd.
  destruct (inv_complete_tx all w h f Hinv Hwarm) as (w0 & Hc & Hinv0 & Htx0 & Hrx0 & _).
  destruct Hinv0 as (fc0&fc&fp&tc0&tc&tp&tq&rc&rcc&rcp&rp&cc&cp&pc&Hsi).
  pose proof (sys_inv_sizes _ _ _ _ _ _ _ _ _ _ _ _ _ _ _ _ Hsi) as (Hsize & Hord).
  destruct Hsi as [Hfq Htx Hrx Hcq Hfit Hsm Hfr Hout Htot]. rewrite Hmode in Hfr.
  cbn [s_world s_held s_inflight] in *.
  assert (tx_room w0 = true) as Hroom0 by (unfold tx_room in *; by rewrite Htx0, Hrx0).
  destruct (forward_lemma o [] w w0 tc0 tc tp tq rc rcc rcp rp) as (rx1 & n & Hn & Hn' & Hz & Hss & H);
    [done|done|done|done|lia|lia|by eapply tx_room_spec|lia|].
  cbv zeta in H. destruct (decide (n = 0)) as [->|Hn0].
  - destruct H as (rcp' & H & Hrx1). rewrite H in Hfwd. injection Hfwd as <- _.
    exists fc0, fc, fp, tc0, tc, tp, tq, rc, rcc, rcp', rp, cc, cp, pc.
    unfold count_rx_empty. destruct (must_wake _ _);
      split; rewrite ?Hmode; cbn [s_world s_held s_inflight fq cq rx tx set_rx set_stats nb_frags_fwd
        nb_frags_rx outstanding_tx]; try done; by rewrite (same_slots_window _ _ _ _ Hss).
  - destruct (process_all _ _ w0 _) as [[w1 b]|]; [|congruence].
    destruct H as (w2 & c0' & rcp' & H & Htx' & Htsz & Hw & Hss' & Hrx' & Hfd & Hnb & _ & Hcq' & Hfq' & _ & Hout' & _).
    rewrite H in Hfwd. injection Hfwd as -> _.
    exists fc0, fc, fp, c0', tc, (tp + b.(frags_done)), (tq + n), (rc + b.(frags_done)), (rcc + n),
      rcp', rp, cc, cp, pc.
    split; rewrite ?Hmode; cbn [s_world s_held s_inflight]; rewrite ?Hcq', ?Hfq', ?Hout'; try done; [lia|lia|].
    rewrite Hw, (same_slots_window _ _ _ _ Hss'), fmap_app, bag_app, bag_tx_of.
    rewrite (window_split _ rcc (rp - rcc) n), fmap_app, bag_app in Htot by lia.
    replace (rp - (rcc + n)) with (rp - rcc - n) by lia. rewrite <- Htot. multiset_solver.
Qed.

Lemma inv_serve all w h f w' ks :
  inv all (Sys w h f) -> warm_ok w = true -> tx_room w = true ->
  serve o 0 [] w = Some (w', ks) -> inv all (Sys w' h f).
Proof.
  intros Hinv Hwarm Hroom. unfold serve. fold forwards. destruct forwards eqn:Hmode.
  - intros Hs. by apply (inv_forward all w h f w' ks).
  - rewrite (proj2 (Z.eqb_neq _ 6)) by done. intros Hs. by apply (inv_receive all w h f w' ks).
Qed.

Lemma inv_step all s s' : inv all s -> step s s' -> inv all s'.
Proof.
  intros Hinv Hstep. revert Hinv.
  destruct Hstep as [w w' h f ks Hw Ht Hs|w h f n Hn|w h1 a h2 f d Hd Hr|w h f n Hn|w h f1 a f2 Hr]; intros Hinv.
  - by apply (inv_serve all w h f w' ks).
  - by apply inv_take.
  - apply (inv_deliver all w h1 a h2 f d); done.
  - by apply inv_transmit.
  - by apply (inv_complete all w h f1 a f2).
Qed.

Lemma inv_reachable all s s' : inv all s -> reachable s s' -> inv all s'.
Proof. intros Hinv Hr. induction Hr as [|s s1 s' Hs _ IH]; [done|]. apply IH. by eapply inv_step. Qed.
End system.

(** ** Where the buffers are, read off the rings *)

(** The slots from counter [a] to counter [b]. *)
Definition span {A} `{Inhabited A} (r : xsk_ring A) (a b : Z) : list A :=
  (fun i => ring_read r (u32 (a + i) &' r.(mask))) <$> seqZ 0 (u32 (b - a)).

Definition everything {App} (s : sys) : list Z :=
  let w : world App := s.(s_world) in
  span w.(fq) w.(fq).(consumer) w.(fq).(producer) ++ s.(s_held) ++
  (orig_of <$> span w.(rx) w.(rx).(cached_cons) w.(rx).(producer)) ++
  (desc_addr <$> span w.(tx) w.(tx).(consumer) w.(tx).(cached_prod)) ++ s.(s_inflight) ++
  span w.(cq) w.(cq).(consumer) w.(cq).(producer).

Lemma span_window {A} `{Inhabited A} (r : xsk_ring A) a b :
  ring_wf r -> 0 <= b - a < 2 ^ 32 -> span r (u32 a) (u32 b) = window r a (b - a).
Proof.
  intros Hwf Hd. unfold span, window.
  replace (u32 (u32 b - u32 a)) with (b - a) by (wrap_push; rewrite wrap_small by lia; done).
  apply list_eq. intros i. rewrite !list_lookup_fmap.
  destruct (decide (Z.of_nat i < b - a)); [|by rewrite !lookup_seqZ_ge by lia].
  rewrite !lookup_seqZ_lt by lia. cbn. f_equal. by rewrite wrap_add_l, ring_read_at by done.
Qed.

Lemma elements_bag (l : list Z) : Permutation (elements (list_to_set_disj l : gmultiset Z)) l.
Proof.
  induction l as [|a l IH]; [done|].
  by rewrite list_to_set_disj_cons, gmultiset_elements_disj_union, gmultiset_elements_singleton, IH.
Qed.

Lemma bag_inj frame l1 l2 : bag frame l1 = bag frame l2 -> Permutation (frame <$> l1) (frame <$> l2).
Proof.
  unfold bag. intros He. rewrite <- (elements_bag (frame <$> l1)), He. apply elements_bag.
Qed.

Lemma inv_everything {App} `{!Handler App} o frame all (s : @sys App) :
  inv o frame all s -> bag frame (everything s) = all.
Proof.
  intros (fc0&fc&fp&tc0&tc&tp&tq&rc&rcc&rcp&rp&cc&cp&pc&[Hfq Htx Hrx Hcq _ _ _ _ <-]).
  unfold everything. cbv zeta.
  pose proof (pi_order _ _ _ _ _ Hfq). pose proof (pi_order _ _ _ _ _ Htx).
  pose proof (ci_order _ _ _ _ _ Hrx). pose proof (ci_order _ _ _ _ _ Hcq).
  pose proof (wf_size_bounds _ (pi_wf _ _ _ _ _ Hfq)). pose proof (wf_size_bounds _ (pi_wf _ _ _ _ _ Htx)).
  pose proof (wf_size_bounds _ (ci_wf _ _ _ _ _ Hrx)). pose proof (wf_size_bounds _ (ci_wf _ _ _ _ _ Hcq)).
  rewrite (pi_cons _ _ _ _ _ Hfq), (pi_prod _ _ _ _ _ Hfq), (pi_cons _ _ _ _ _ Htx), (pi_cprod _ _ _ _ _ Htx).
  rewrite (ci_ccons _ _ _ _ _ Hrx), (ci_prod _ _ _ _ _ Hrx), (ci_cons _ _ _ _ _ Hcq), (ci_prod _ _ _ _ _ Hcq).
  rewrite (span_window (fq _)) by (apply (pi_wf _ _ _ _ _ Hfq) || lia).
  rewrite (span_window (tx _)) by (apply (pi_wf _ _ _ _ _ Htx) || lia).
  rewrite (span_window (rx _)) by (apply (ci_wf _ _ _ _ _ Hrx) || lia).
  rewrite (span_window (cq _)) by (apply (ci_wf _ _ _ _ _ Hcq) || lia).
  by rewrite !bag_app, !(assoc_L (⊎)).
Qed.

(** ** The initial state *)

Definition zero_stats : sock_stats := SockStats 0 0 0 0 0 0 0.

(** As [xsk_configure_umem] and [xsk_configure_socket] leave it. *)
Definition init_world {App} (fill_size comp_size rx_size tx_size buffer : Z) (a : App) : world App :=
  World (create_fill_ring fill_size) (create_comp_ring comp_size) (create_rx_ring rx_size)
    (create_tx_ring tx_size) buffer 0 warm_init 0 0 ∅ zero_stats a.

Definition pow2 (n : Z) : Prop := exists k, 0 <= k <= 30 /\ n = 2 ^ k.

Lemma create_fill_inv n : pow2 n -> prod_inv (create_fill_ring n) 0 0 0 0.
Proof.
  intros (k & Hk & ->). assert (0 < 2 ^ k) by lia.
  assert (2 ^ k <= 2 ^ 30) by (apply Z.pow_le_mono_r; lia).
  split; cbn; try done; [split; cbn; [exists k; lia|done|rewrite length_replicate; lia]| |lia].
  by rewrite wrap_small by lia.
Qed.

Lemma create_tx_inv n : pow2 n -> prod_inv (create_tx_ring n) 0 0 0 0.
Proof.
  intros (k & Hk & ->). assert (0 < 2 ^ k) by lia.
  assert (2 ^ k <= 2 ^ 30) by (apply Z.pow_le_mono_r; lia).
  split; cbn; try done; [split; cbn; [exists k; lia|done|rewrite length_replicate; lia]|lia].
Qed.

Lemma create_rx_inv n : pow2 n -> cons_inv (create_rx_ring n) 0 0 0 0.
Proof.
  intros (k & Hk & ->). assert (0 < 2 ^ k) by lia.
  split; cbn; try done; [split; cbn; [exists k; lia|done|rewrite length_replicate; lia]|lia].
Qed.

Lemma create_comp_inv n : pow2 n -> cons_inv (create_comp_ring n) 0 0 0 0.
Proof.
  intros (k & Hk & ->). assert (0 < 2 ^ k) by lia.
  split; cbn; try done; [split; cbn; [exists k; lia|done|rewrite length_replicate; lia]|lia].
Qed.

Definition buffer_addr (multiplier i : Z) : Z := u64 (s32 (i * multiplier)).

Lemma populate_loop_spec n : forall (r : xsk_ring Z) c0 c p q x i mult,
  prod_inv r c0 c p q -> p <= x -> x + Z.of_nat n <= q ->
  let r' := populate_loop n r i (u32 x) mult in
  prod_inv r' c0 c p q /\ r'.(ring_size) = r.(ring_size) /\
  window r' c (x + Z.of_nat n - c) =
    window r c (x - c) ++ (buffer_addr mult <$> seqZ i (Z.of_nat n)).
Proof.
  induction n as [|n IH]; intros r c0 c p q x i mult Hinv Hp Hq; cbn [populate_loop].
  { change (Z.of_nat 0) with 0. rewrite Z.add_0_r. cbn. by rewrite app_nil_r. }
  pose proof Hinv as [Hwf _ _ _ _ Ho]. unfold xsk_ring_prod__fill_addr. rewrite wrap_add_l.
  destruct (IH (ring_write r (u32 x &' mask r) (u64 (s32 (i * mult)))) c0 c p q (x + 1) (i + 1) mult)
    as (Hi & Hs & Hw); [by apply prod_write_inv|lia..|].
  split; [done|]. split; [done|].
  replace (x + Z.of_nat (S n) - c) with (x + 1 + Z.of_nat n - c) by lia.
  rewrite Hw. replace (x + 1 - c) with (x - c + 1) by lia. rewrite window_snoc by lia.
  rewrite window_write_out by (done || lia).
  rewrite (seqZ_cons i (Z.of_nat (S n))) by lia. replace (Z.pred (Z.of_nat (S n))) with (Z.of_nat n) by lia.
  rewrite <- app_assoc. cbn. do 2 f_equal. replace (c + (x - c)) with x by lia.
  by rewrite at_write, decide_True.
Qed.

(** [xsk_populate_fill_ring] gives the kernel every buffer once. *)
Lemma populate_spec {App} fill comp rxs txs buf num mult (a : App) w1 :
  pow2 fill -> 0 < num < 2 ^ 32 ->
  xsk_populate_fill_ring num mult (init_world fill comp rxs txs buf a) = Some w1 ->
  num <= fill /\ exists c0, prod_inv w1.(fq) c0 0 num num /\ w1.(fq).(ring_size) = fill /\
    window w1.(fq) 0 num = buffer_addr mult <$> seqZ 0 num /\
    w1 = set_fq (init_world fill comp rxs txs buf a) w1.(fq).
Proof.
  intros Hfill Hnum. pose proof (create_fill_inv fill Hfill) as Hinv.
  unfold xsk_populate_fill_ring. cbn [fq init_world].
  destruct (reserve_spec _ 0 0 0 0 num 0 Hinv) as (r1 & c0 & _ & Hss & -> & Hinv1); [lia|].
  change (0 + ring_size (create_fill_ring fill) - 0) with (fill - 0) in *.
  destruct Hfill as (k & Hk & ->). assert (0 < 2 ^ k) by lia.
  assert (2 ^ k <= 2 ^ 30) by (apply Z.pow_le_mono_r; lia).
  rewrite (wrap_small 32 (num `min` _)) by lia.
  destruct (Z.eqb_spec (num `min` (2 ^ k - 0)) num) as [Hm|]; [|done]. cbn [negb]. intros [= <-].
  rewrite Hm in *. split; [lia|]. exists c0. rewrite (proj2 (Z.eqb_neq num 0)) by lia. cbn [andb negb fq set_fq].
  destruct (populate_loop_spec (Z.to_nat num) r1 c0 0 0 num 0 0 mult Hinv1) as (Hi & Hs & Hw); [lia..|].
  rewrite Z2Nat.id in Hw by lia. rewrite !Z.add_0_l, Z.sub_0_r in Hw. change (0 - 0) with 0 in Hw.
  rewrite window_nil in Hw.
  split; [by apply (submit_inv _ c0 0 0 num num Hi); lia|].
  destruct Hss as (_ & Hz & _). split; [by cbn; rewrite Hs|]. split; [exact Hw|done].
Qed.

Lemma inv_init {App} `{!Handler App} o frame fill comp rxs txs buf num mult (a : App) w1 :
  pow2 fill -> pow2 comp -> pow2 rxs -> pow2 txs -> 0 < num < 2 ^ 31 ->
  xsk_populate_fill_ring num mult (init_world fill comp rxs txs buf a) = Some w1 ->
  inv o frame (bag frame (buffer_addr mult <$> seqZ 0 num)) (Sys w1 [] []).
Proof.
  intros Hf Hc Hr Ht Hnum Hpop.
  destruct (populate_spec fill comp rxs txs buf num mult a w1) as (Hle & c0 & Hfq & Hsz & Hw & Hw1);
    [done|lia|done|].
  exists c0, 0, num, 0, 0, 0, 0, 0, 0, 0, 0, 0, 0, 0. rewrite Hw1.
  split; cbn [s_world s_held s_inflight fq cq rx tx set_fq init_world nb_frags_fwd nb_frags_rx outstanding_tx];
    rewrite ?bag_size, ?length_fmap, ?length_seqZ, ?Hsz; try done; try lia.
  - by apply create_tx_inv.
  - by apply create_rx_inv.
  - by apply create_comp_inv.
  - by destruct forwards.
  - rewrite Z.sub_0_r, Hw, !window_nil. cbn [fmap list_fmap]. rewrite !bag_nil. multiset_solver.
Qed.
