(* ===== verification/QueueSpec.v ===== *)
(** * The data path as operations on queues

    What the loops of DataPath promise, stated on the sequences of entries that
    the rings hold ([fq_holds], [rx_holds], [tx_holds], [cq_holds]) instead of on
    their counters, the conservation theorem of Buffers, and what goes wrong when
    a ring is short of room or the fill queue has been drained. *)
From S2P Require Import Prelude XskRing FillQueue DataPath Buffers.

(** A ring that user space fills, nothing reserved. *)
Definition fq_holds (r : xsk_ring Z) (q : list Z) : Prop :=
  exists c0 c p, prod_inv r c0 c p p /\ window r c (p - c) = q.

(** ... with [k] entries at its end that are written but not yet submitted. *)
Definition tx_holds (r : xsk_ring xdp_desc) (q : list xdp_desc) (k : Z) : Prop :=
  exists c0 c p e, prod_inv r c0 c p e /\ window r c (e - c) = q /\ k = e - p.

(** A ring that user space empties: what is left to peek, and how many entries
    are peeked but not released. *)
Definition cons_holds {A} `{Inhabited A} (r : xsk_ring A) (ds : list A) (k : Z) : Prop :=
  exists c cc cp p, cons_inv r c cc cp p /\ window r cc (p - cc) = ds /\ k = cc - c.

Abbreviation rx_holds := (cons_holds (A := xdp_desc)).
Abbreviation cq_holds := (cons_holds (A := Z)).

Lemma window_drop {A} `{Inhabited A} (r : xsk_ring A) a n m :
  0 <= m <= n -> drop (Z.to_nat m) (window r a n) = window r (a + m) (n - m).
Proof.
  intros Hm. rewrite (window_split r a n m) by done.
  by rewrite drop_app_length' by (rewrite length_window; lia).
Qed.

Lemma fq_holds_pending r q : fq_holds r q -> pending r = q.
Proof. intros (c0 & c & p & Hinv & <-). by eapply prod_inv_pending. Qed.

Section refinement.
Context {App : Type} `{!Handler App} (o : options).
Implicit Types w : world App.

(** An empty poll changes only a counter. *)
Lemma count_rx_empty_stats w : exists st, count_rx_empty o w = set_stats w st.
Proof.
  unfold count_rx_empty. destruct (must_wake o w); [by eexists|]. exists w.(stats). by destruct w.
Qed.

Lemma receive_queue ks w q ds :
  fq_holds w.(fq) q -> rx_holds w.(rx) ds w.(nb_frags_rx) -> 0 < o.(opt_batch_size) < 2 ^ 31 ->
  Z.of_nat (length q) + Z.min o.(opt_batch_size) (Z.of_nat (length ds)) <= w.(fq).(ring_size) ->
  (o.(opt_warm_buffers) = true -> 0 <= warm_start w < Z.of_nat (length q)) ->
  exists n, Z.of_nat n <= o.(opt_batch_size) /\ (n <= length ds)%nat /\ (n = 0%nat -> ds = []) /\
    match process_all (receive_desc o) (take n ds) w (Batch 0 0) with
    | None => receive o ks w = None
    | Some (w1, b) => exists w', receive o ks w = Some (w', ks) /\
        fq_holds w'.(fq) (refill_spec o (warm_start w) q (orig_of <$> take n ds)) /\
        rx_holds w'.(rx) (drop n ds) w'.(nb_frags_rx) /\
        w'.(app) = w1.(app) /\ w'.(tx) = w.(tx) /\ w'.(cq) = w.(cq) /\
        w'.(outstanding_tx) = w.(outstanding_tx)
    end.
Proof.
  intros (c0 & c & p & Hfq & <-) (rc & rcc & rcp & rp & Hrx & <- & Hnb) Hb.
  rewrite !length_window. intros Hroom Hnd.
  pose proof (pi_order _ _ _ _ _ Hfq). pose proof (ci_order _ _ _ _ _ Hrx).
  destruct (receive_lemma o ks w c0 c p rc rcc rcp rp) as (rx1 & n & Hn & Hn' & Hz & Hss & H1);
    [done|done|done|done|lia|unfold not_drained; rewrite Z2Nat.id in Hnd by lia; done|].
  exists (Z.to_nat n). split; [lia|]. split; [lia|].
  split; [intros; replace (rp - rcc) with 0 by lia; apply window_nil|].
  rewrite take_window, window_drop by lia. cbv zeta in H1. destruct (decide (n = 0)) as [->|Hn0].
  - destruct H1 as (rcp' & -> & Hrx1). rewrite window_nil. cbn [process_all].
    eexists. split; [reflexivity|]. cbn [fmap list_fmap]. rewrite refill_spec_nil.
    destruct (count_rx_empty_stats (set_rx w rx1)) as [st ->].
    cbn. split; [by exists c0, c, p|]. split; [|done].
    exists rc, rcc, rcp', rp. split; [done|]. split; [|done].
    rewrite Z.add_0_r, Z.sub_0_r. by apply same_slots_window.
  - destruct (process_all _ _ w _) as [[w1 b]|]; [|done].
    destruct H1 as (w2 & c0' & rcp' & He & Hfq' & _ & Hw & Hss' & Hrx' & _ & Hnb' & Ha & Hcq' & Htx' & Hout' & _).
    exists w2. split; [done|]. rewrite <- Hw. split; [by exists c0', c, (p + n)|].
    split; [|done]. exists (rc + b.(frags_done)), (rcc + n), rcp', rp. split; [done|].
    split; [|done]. rewrite (same_slots_window _ _ _ _ Hss'). f_equal. lia.
Qed.

Lemma complete_queue ks w q cs :
  fq_holds w.(fq) q -> cq_holds w.(cq) cs 0 -> 0 < o.(opt_batch_size) < 2 ^ 31 ->
  0 <= w.(outstanding_tx) < 2 ^ 32 ->
  Z.of_nat (length q) + Z.min (Z.min o.(opt_batch_size) w.(outstanding_tx)) (Z.of_nat (length cs)) <=
    w.(fq).(ring_size) ->
  (o.(opt_warm_buffers) = true -> 0 <= warm_start w < Z.of_nat (length q)) ->
  exists w' n, complete_tx_forward o ks w = Some (w', ks) /\
    (n <= length cs)%nat /\ (n = 0%nat -> w.(outstanding_tx) = 0 \/ cs = []) /\
    fq_holds w'.(fq) (refill_spec o (warm_start w) q (take n cs)) /\ w'.(fq).(ring_size) = w.(fq).(ring_size) /\
    cq_holds w'.(cq) (drop n cs) 0 /\
    w'.(outstanding_tx) = w.(outstanding_tx) - Z.of_nat n /\ 0 <= w'.(outstanding_tx) /\
    w'.(rx) = w.(rx) /\ w'.(tx) = w.(tx) /\ w'.(app) = w.(app) /\
    w'.(nb_frags_fwd) = w.(nb_frags_fwd) /\ w'.(nb_frags_rx) = w.(nb_frags_rx).
Proof.
  intros (c0 & c & p & Hfq & <-) (cc0 & cc & cp & pc & Hcq & <- & Hcc) Hb Hout.
  rewrite !length_window. intros Hroom Hnd. assert (cc0 = cc) as -> by lia.
  pose proof (pi_order _ _ _ _ _ Hfq). pose proof (ci_order _ _ _ _ _ Hcq).
  destruct (complete_lemma o ks w c0 c p cc cp pc) as
    (w0 & n & c0' & cp' & He & Hn & Hn' & Hz & Hfq' & Hfsz & Hw & Hss & Hcq' & Hout' & Hrx' & Htx' & Ha & _ & Hnr & Hnf & _);
    [done|done|done|done|lia|unfold not_drained; rewrite Z2Nat.id in Hnd by lia; done|].
  exists w0, (Z.to_nat n). split; [done|]. split; [lia|].
  split.
  { intros Hn0. destruct Hz as [?|Hpc]; [lia|by left|right]. rewrite Hpc, Z.sub_diag. apply window_nil. }
  rewrite take_window, window_drop by lia. rewrite <- Hw. split; [by exists c0', c, (p + n)|].
  split; [done|]. split.
  { exists (cc + n), (cc + n), cp', pc. split; [done|]. split; [|lia].
    rewrite (same_slots_window _ _ _ _ Hss). f_equal. lia. }
  split; [lia|]. split; [lia|]. done.
Qed.

Lemma forward_queue ks w w0 ts ds :
  complete_tx_forward o ks w = Some (w0, ks) ->
  tx_holds w0.(tx) ts w0.(nb_frags_fwd) -> rx_holds w0.(rx) ds w0.(nb_frags_fwd) ->
  0 < o.(opt_batch_size) < 2 ^ 31 -> 0 <= w0.(outstanding_tx) < 2 ^ 31 ->
  Z.of_nat (length ts) + Z.min o.(opt_batch_size) (Z.of_nat (length ds)) <= w0.(tx).(ring_size) ->
  exists n, Z.of_nat n <= o.(opt_batch_size) /\ (n <= length ds)%nat /\ (n = 0%nat -> ds = []) /\
    match process_all (forward_desc o) (take n ds) w0 (Batch 0 0) with
    | None => forward o ks w = None
    | Some (w1, b) => exists w', forward o ks w = Some (w', ks) /\
        tx_holds w'.(tx) (ts ++ (tx_of <$> take n ds)) w'.(nb_frags_fwd) /\
        rx_holds w'.(rx) (drop n ds) w'.(nb_frags_fwd) /\
        w'.(app) = w1.(app) /\ w'.(fq) = w0.(fq) /\ w'.(cq) = w0.(cq) /\
        w'.(outstanding_tx) = w0.(outstanding_tx) + b.(frags_done) /\ w'.(buffer) = w0.(buffer)
    end.
Proof.
  intros Hcomp (c0 & c & p & e & Htx & <- & Hk) (rc & rcc & rcp & rp & Hrx & <- & Hnb) Hb Hout.
  rewrite !length_window. intros Hroom.
  pose proof (pi_order _ _ _ _ _ Htx). pose proof (ci_order _ _ _ _ _ Hrx).
  destruct (forward_lemma o ks w w0 c0 c p e rc rcc rcp rp) as (rx1 & n & Hn & Hn' & Hz & Hss & H1);
    [done|done|done|done|done|done|lia|done|].
  exists (Z.to_nat n). split; [lia|]. split; [lia|].
  split; [intros; replace (rp - rcc) with 0 by lia; apply window_nil|].
  rewrite take_window, window_drop by lia. cbv zeta in H1. destruct (decide (n = 0)) as [->|Hn0].
  - destruct H1 as (rcp' & -> & Hrx1). rewrite window_nil. cbn [process_all].
    eexists. split; [reflexivity|]. cbn [fmap list_fmap frags_done]. rewrite app_nil_r.
    destruct (count_rx_empty_stats (set_rx w0 rx1)) as [st ->].
    cbn. split; [by exists c0, c, p, e|]. split; [|rewrite Z.add_0_r; done].
    exists rc, rcc, rcp', rp. split; [done|]. split; [|done].
    rewrite Z.add_0_r, Z.sub_0_r. by apply same_slots_window.
  - destruct (process_all _ _ w0 _) as [[w1 b]|]; [|done].
    destruct H1 as (w2 & c0' & rcp' & He & Htx' & _ & Hw & Hss' & Hrx' & _ & Hnb' & Ha & Hcq' & Hfq' & _ & Hout' & _ & Hbuf).
    exists w2. split; [done|]. rewrite <- Hw.
    split; [exists c0', c, (p + b.(frags_done)), (e + n); split; [done|]; split; [f_equal; lia|lia]|].
    split; [|done]. exists (rc + b.(frags_done)), (rcc + n), rcp', rp. split; [done|].
    split; [|done]. rewrite (same_slots_window _ _ _ _ Hss'). f_equal. lia.
Qed.
End refinement.

(** ** The properties *)

(** C1: Conservation of buffers.  Ring sizes are powers of two, [0 < num < 2^31] buffers are
    populated, the batch size is 1 to 2^31 - 1, the application is not type 6 ([l3forward],
    which does lose buffers: C32), and each round of the application ([serve]) is one atomic
    step between the steps of the kernel, taken only when it need not wait: in warm mode the
    next exchange starts at a buffer that is still in the fill queue ([warm_ok]; otherwise
    C34), and a forwarding round finds room in the TX ring for what it peeks ([tx_room]).
    (The fill ring then has room, since no more buffers exist than were populated; a wait
    there would lose addresses: C31.)  Then in every state that application and kernel reach
    from the populated fill queue every buffer of the UMEM is at exactly one place: a ring,
    a held or an in-flight slot of the kernel. *)
Theorem buffers_conserved {App} `{!Handler App} o frame fill comp rxs txs buf num mult (a : App) w1 s :
  pow2 fill -> pow2 comp -> pow2 rxs -> pow2 txs -> 0 < num < 2 ^ 31 ->
  0 < o.(opt_batch_size) < 2 ^ 31 -> o.(opt_application_type) <> 6 ->
  xsk_populate_fill_ring num mult (init_world fill comp rxs txs buf a) = Some w1 ->
  reachable o frame (Sys w1 [] []) s ->
  Permutation (frame <$> everything s) (frame <$> (buffer_addr mult <$> seqZ 0 num)).
Proof.
  intros Hf Hc Hr Ht Hnum Hb Htype Hpop Hreach. apply bag_inj.
  apply (inv_everything o), (inv_reachable o frame) with (s := Sys w1 [] []); [done|done| |done].
  by apply (inv_init o frame fill comp rxs txs buf num mult a).
Qed.

(** C8: [receive] against a queue specification, when the fill ring has room for the whole
    batch (otherwise the wait skips slots: C31) and, in warm mode, the next exchange starts at
    an entry the kernel has not taken yet, [0 <= warm_start < length q] (otherwise the batch
    is dropped: C34); batch size 1 to 2^31 - 1.  It takes [n] packets from the head of the
    RX queue, at most a batch and none only if there is none, processes them in order, and
    gives their buffers back as the discipline of the mode says, leaving the other rings and
    the unfinished packet alone; a fault of the application is a fault of [receive]. *)
Theorem receive_refines {App} `{!Handler App} o ks (w : world App) q ds :
  fq_holds w.(fq) q -> rx_holds w.(rx) ds w.(nb_frags_rx) -> 0 < o.(opt_batch_size) < 2 ^ 31 ->
  Z.of_nat (length q) + Z.min o.(opt_batch_size) (Z.of_nat (length ds)) <= w.(fq).(ring_size) ->
  (o.(opt_warm_buffers) = true -> 0 <= warm_start w < Z.of_nat (length q)) ->
  exists n, Z.of_nat n <= o.(opt_batch_size) /\ (n <= length ds)%nat /\ (n = 0%nat -> ds = []) /\
    match process_all (receive_desc o) (take n ds) w (Batch 0 0) with
    | None => receive o ks w = None
    | Some (w1, b) => exists w', receive o ks w = Some (w', ks) /\
        fq_holds w'.(fq) (refill_spec o (warm_start w) q (orig_of <$> take n ds)) /\
        rx_holds w'.(rx) (drop n ds) w'.(nb_frags_rx) /\
        w'.(app) = w1.(app) /\ w'.(tx) = w.(tx) /\ w'.(cq) = w.(cq) /\
        w'.(outstanding_tx) = w.(outstanding_tx)
    end.
Proof. apply receive_queue. Qed.

(** C10: [complete_tx_forward] against a queue specification, when the fill ring has room for
    the whole batch (otherwise the wait skips slots: C31) and, in warm mode, the next exchange
    starts at an entry the kernel has not taken yet, [0 <= warm_start < length q] (otherwise
    the addresses are dropped: C34); batch size 1 to 2^31 - 1, [outstanding_tx] a 32-bit
    count.  It gives the oldest transmitted buffers back as the discipline of the mode says,
    at most a batch of them and never more than were sent, and none only if nothing is
    outstanding or completed; the other rings and the application are left alone. *)
Theorem complete_refines {App} `{!Handler App} o ks (w : world App) q cs :
  fq_holds w.(fq) q -> cq_holds w.(cq) cs 0 -> 0 < o.(opt_batch_size) < 2 ^ 31 ->
  0 <= w.(outstanding_tx) < 2 ^ 32 ->
  Z.of_nat (length q) + Z.min (Z.min o.(opt_batch_size) w.(outstanding_tx)) (Z.of_nat (length cs)) <=
    w.(fq).(ring_size) ->
  (o.(opt_warm_buffers) = true -> 0 <= warm_start w < Z.of_nat (length q)) ->
  exists w' n, complete_tx_forward o ks w = Some (w', ks) /\
    (n <= length cs)%nat /\ (n = 0%nat -> w.(outstanding_tx) = 0 \/ cs = []) /\
    fq_holds w'.(fq) (refill_spec o (warm_start w) q (take n cs)) /\ w'.(fq).(ring_size) = w.(fq).(ring_size) /\
    cq_holds w'.(cq) (drop n cs) 0 /\
    w'.(outstanding_tx) = w.(outstanding_tx) - Z.of_nat n /\ 0 <= w'.(outstanding_tx) /\
    w'.(rx) = w.(rx) /\ w'.(tx) = w.(tx) /\ w'.(app) = w.(app) /\
    w'.(nb_frags_fwd) = w.(nb_frags_fwd) /\ w'.(nb_frags_rx) = w.(nb_frags_rx).
Proof. apply complete_queue. Qed.

(** C9: [forward] appends a batch of processed packets to the TX queue, in order,
    fragments included, when the TX ring has room for it. *)
Theorem forward_refines {App} `{!Handler App} o ks (w w0 : world App) ts ds :
  complete_tx_forward o ks w = Some (w0, ks) ->
  tx_holds w0.(tx) ts w0.(nb_frags_fwd) -> rx_holds w0.(rx) ds w0.(nb_frags_fwd) ->
  0 < o.(opt_batch_size) < 2 ^ 31 -> 0 <= w0.(outstanding_tx) < 2 ^ 31 ->
  Z.of_nat (length ts) + Z.min o.(opt_batch_size) (Z.of_nat (length ds)) <= w0.(tx).(ring_size) ->
  exists n, Z.of_nat n <= o.(opt_batch_size) /\ (n <= length ds)%nat /\ (n = 0%nat -> ds = []) /\
    match process_all (forward_desc o) (take n ds) w0 (Batch 0 0) with
    | None => forward o ks w = None
    | Some (w1, b) => exists w', forward o ks w = Some (w', ks) /\
        tx_holds w'.(tx) (ts ++ (tx_of <$> take n ds)) w'.(nb_frags_fwd) /\
        rx_holds w'.(rx) (drop n ds) w'.(nb_frags_fwd) /\
        w'.(app) = w1.(app) /\ w'.(fq) = w0.(fq) /\ w'.(cq) = w0.(cq) /\
        w'.(outstanding_tx) = w0.(outstanding_tx) + b.(frags_done) /\ w'.(buffer) = w0.(buffer)
    end.
Proof. apply forward_queue. Qed.

Lemma populate_fills {App} fill comp rxs txs buf num mult (a : App) :
  pow2 fill -> 0 < num <= fill ->
  exists w1, xsk_populate_fill_ring num mult (init_world fill comp rxs txs buf a) = Some w1 /\
    fq_holds w1.(fq) (buffer_addr mult <$> seqZ 0 num).
Proof.
  intros Hfill Hnum. pose proof Hfill as (k & Hk & Hf).
  assert (2 ^ k <= 2 ^ 30) by (apply Z.pow_le_mono_r; lia).
  destruct (xsk_populate_fill_ring num mult (init_world fill comp rxs txs buf a)) as [w1|] eqn:He.
  - exists w1. split; [done|]. apply populate_spec in He as (_ & c0 & Hinv & _ & Hw & _); [|done|lia].
    exists c0, 0, num. split; [done|]. by rewrite Z.sub_0_r.
  - exfalso. unfold xsk_populate_fill_ring in He. cbn [fq init_world] in He.
    destruct (reserve_spec _ 0 0 0 0 num 0 (create_fill_inv fill Hfill)) as (r1 & c0 & _ & _ & Hr & _); [lia|].
    rewrite Hr in He. change (0 + ring_size (create_fill_ring fill) - 0) with (fill - 0) in He.
    rewrite Z.min_l, wrap_small, Z.eqb_refl in He by lia. done.
Qed.

(** [xsk_populate_fill_ring] gives the kernel each buffer address once, in order. *)
Theorem populate_refines {App} fill comp rxs txs buf num mult (a : App) :
  pow2 fill -> 0 < num <= fill ->
  exists w1, xsk_populate_fill_ring num mult (init_world fill comp rxs txs buf a) = Some w1 /\
    fq_holds w1.(fq) (buffer_addr mult <$> seqZ 0 num).
Proof. apply populate_fills. Qed.

(** ** Short of room *)

(** C32: A call of [l3forward] that peeks a batch of [n] packets reserves [n] slots of the fill
    ring and [n] slots of the TX ring.  The packets that the application forwards are
    written from the start of the TX reservation on, the addresses of the dropped ones from
    the start of the fill reservation on, and each ring publishes only as many slots as it
    got.  So every call moves the reserved end of the fill ring further from the published
    one by the number of forwarded packets, and that of the TX ring by the number of dropped
    ones; and once there is a gap the slots that are published are those of the gap, not
    those that were written: the kernel sees the first of the old contents of the gap
    followed by the batch.  Stated for a call that finds packets and room for the batch in
    both rings, right after its [complete_tx_forward]. *)
Theorem l3forward_reserves_twice {App} `{!Handler App} o fuel ks (w w0 : world App)
    fc0 fc fp fq0 tc0 tc tp tq rc rcp rp w' ks' :
  complete_tx_forward o ks w = Some (w0, ks) ->
  prod_inv w0.(fq) fc0 fc fp fq0 -> prod_inv w0.(tx) tc0 tc tp tq -> cons_inv w0.(rx) rc rc rcp rp ->
  0 < o.(opt_batch_size) < 2 ^ 31 -> rc < rp ->
  tq + Z.min o.(opt_batch_size) (rp - rc) <= tc + w0.(tx).(ring_size) ->
  fq0 + Z.min o.(opt_batch_size) (rp - rc) <= fc + w0.(fq).(ring_size) ->
  l3forward o fuel ks w = Some (w', ks') ->
  exists rx1 n a ts qs fc0' tc0',
    xsk_ring_cons__peek w0.(rx) o.(opt_batch_size) 0 = (rx1, n, u32 rc) /\ 0 < n /\
    l3_plan o w0.(buffer) w0.(app) (window w0.(rx) rc n) = Some (a, ts, qs) /\
    Z.of_nat (length ts) + Z.of_nat (length qs) = n /\
    let fp' := fp + Z.of_nat (length qs) in
    let tp' := tp + Z.of_nat (length ts) in
    prod_inv w'.(fq) fc0' fc fp' (fq0 + n) /\ prod_inv w'.(tx) tc0' tc tp' (tq + n) /\
    pending w'.(fq) = take (Z.to_nat (fp' - fc)) (window w0.(fq) fc (fq0 - fc) ++ qs) /\
    pending w'.(tx) = take (Z.to_nat (tp' - tc)) (window w0.(tx) tc (tq - tc) ++ ts) /\
    (fq0 + n) - fp' = (fq0 - fp) + Z.of_nat (length ts) /\
    (tq + n) - tp' = (tq - tp) + Z.of_nat (length qs).
Proof.
  intros Hc Hfq Htx. intros. pose proof (pi_order _ _ _ _ _ Hfq). pose proof (pi_order _ _ _ _ _ Htx).
  edestruct (l3forward_lemma o fuel ks w w0) as
    (rx1 & n & a & ts & qs & fc0' & tc0' & rcp' & Hpk & Hn & _ & _ & Hpl & _ & Hl & Hfq' & Hfw &
     Htx' & Htw & _); [done..|].
  exists rx1, n, a, ts, qs, fc0', tc0'. split; [done|]. split; [lia|]. split; [done|]. split; [done|].
  cbv zeta. split; [done|]. split; [done|].
  rewrite (prod_inv_pending _ _ _ _ _ Hfq'), (prod_inv_pending _ _ _ _ _ Htx'), <- Hfw, <- Htw.
  rewrite !take_window by lia. repeat split; lia.
Qed.

(** C31: The modified [xsk_ring_prod__reserve] may reserve a part; the loop that waits
    for the rest starts over behind it.  When [complete_tx_forward] (cold mode) gives back
    [n] completed buffers [cs] while the fill ring has room for only [r < n], and the kernel
    then takes [m >= n] entries, the batch is written from the [r]-th reserved slot on but
    published from the first: the kernel sees [r] old entries, which it had already taken,
    then the first [n - r] addresses; the last [r] addresses stay behind the published
    end, and the reserved end runs [r] slots ahead of it from then on. *)
Theorem reserve_wait_skips {App} `{!Handler App} o (w : world App) c0 c p cc cp pc cq' n idx m (k : kstep) :
  o.(opt_warm_buffers) = false -> 0 < w.(outstanding_tx) ->
  prod_inv w.(fq) c0 c p p -> cons_inv w.(cq) cc cc cp pc -> 0 <= o.(opt_batch_size) ->
  xsk_ring_cons__peek w.(cq) (Z.min o.(opt_batch_size) w.(outstanding_tx)) 0 = (cq', n, idx) ->
  p < c + w.(fq).(ring_size) < p + n -> n < 2 ^ 31 ->
  (forall u, k u = set_fq u (kernel_consume u.(fq) m)) -> n <= m <= p - c ->
  let r := c + w.(fq).(ring_size) - p in
  let cs := window w.(cq) cc n in
  exists w' c1, complete_tx_forward o [k] w = Some (w', []) /\
    prod_inv w'.(fq) c1 (c + m) (p + n) (p + n + r) /\
    pending w'.(fq) = window w.(fq) (c + m) (p - (c + m)) ++ window w.(fq) (c - r) r ++
      take (Z.to_nat (n - r)) cs /\
    window w'.(fq) (p + n) r = drop (Z.to_nat (n - r)) cs.
Proof.
  intros Hcold Hout Hfq Hcq Hb Hpk Hr Hn Hk Hm r cs.
  pose proof (pi_order _ _ _ _ _ Hfq). pose proof (wf_size_bounds _ (pi_wf _ _ _ _ _ Hfq)).
  destruct (complete_partial o w c0 c p cc cp pc cq' n idx m k) as (w' & c1 & He & Hfq' & Hw);
    [done..|]. fold r cs in Hfq', Hw.
  exists w', c1. split; [done|]. split; [done|].
  rewrite (prod_inv_pending _ _ _ _ _ Hfq').
  assert (window w.(fq) (c - r) r = window w.(fq) p r) as ->.
  { replace (c - r) with (p - w.(fq).(ring_size)) by lia. apply window_turn, Hfq. }
  replace (p + r + n - (c + m)) with ((p + n - (c + m)) + r) in Hw by lia.
  rewrite window_app in Hw by lia. replace (c + m + (p + n - (c + m))) with (p + n) in Hw by lia.
  rewrite <- (take_drop (Z.to_nat (n - r)) cs) in Hw. rewrite !app_assoc in Hw.
  apply app_inj_2 in Hw as [-> ->]; [by rewrite <- app_assoc|].
  unfold cs. rewrite length_drop, !length_window. lia.
Qed.

(** C34: A warm refill that starts at the end of the fill queue (it was emptied, and
    the position reset) changes nothing: the addresses are dropped and stale slots
    are published in their place. *)
Theorem warm_refill_drained (r : xsk_ring Z) c0 c p q t origs :
  prod_inv r c0 c p q -> t = p - c -> refill true t r (u32 p) 0 origs = r.
Proof.
  intros Hinv ->. eapply (refill_drained origs); [done|]. by rewrite Z.add_0_r.
Qed.

(** ** Witnesses *)

Definition null_handler : Handler unit := {|
  process_packet := fun _ a _ _ _ => Some a;
  l3_action := fun _ a _ _ _ => Some (a, 1);
|}.
#[local] Existing Instance null_handler.

Definition example_options (app_type : Z) (warm : bool) : options :=
  Options 2 warm true 0 false 4096 app_type.

Lemma pow2_4 : pow2 4.
Proof. exists 2. split; [lia|done]. Qed.

Definition example_start : world unit :=
  set_fq (init_world 4 4 4 4 0 tt)
    (XskRing 3 4 3 4 3 0 [0; 4096; 8192; 0] 0).

(** The kernel takes two buffers, delivers a packet, and the application serves it. *)
Definition example_taken : world unit :=
  set_fq example_start (kernel_consume example_start.(fq) 1).

Definition example_delivered : world unit :=
  set_rx example_taken (kernel_produce example_taken.(rx) [XdpDesc 256 60 0]).

Definition example_served : world unit :=
  Eval vm_compute in default example_delivered (fst <$> receive (example_options 0 true) [] example_delivered).

Lemma example_reachable :
  reachable (example_options 0 true) (fun x => x / 4096) (Sys example_start [] []) (Sys example_served [] []).
Proof.
  assert (0 <= 1 <= u32 (example_start.(fq).(producer) - example_start.(fq).(consumer))) as Hn
    by (vm_compute; split; discriminate).
  pose proof (step_take (example_options 0 true) (fun x => x / 4096) example_start [] [] 1 Hn) as H1.
  assert ([] ++ take (Z.to_nat 1) (pending example_start.(fq)) = [0]) as Hp by (vm_compute; reflexivity).
  rewrite Hp in H1. eapply rtc_l; [exact H1|].
  assert (0 / 4096 = 0 / 4096) as Hd by reflexivity.
  pose proof (step_deliver (example_options 0 true) (fun x => x / 4096) example_taken [] 0 [] []
    (XdpDesc 256 60 0)) as H2.
  eapply rtc_l; [apply H2; vm_compute; reflexivity|].
  apply rtc_once.
  apply (step_serve (example_options 0 true) (fun x => x / 4096) example_delivered example_served [] [] []);
    vm_compute; reflexivity.
Qed.

Lemma buffers_conserved_witness :
  Permutation ((fun x => x / 4096) <$> everything (Sys example_served [] [])) [0; 1; 2].
Proof.
  apply (buffers_conserved (example_options 0 true) (fun x => x / 4096) 4 4 4 4 0 3 4096 tt
    example_start (Sys example_served [] [])).
  - apply pow2_4.
  - apply pow2_4.
  - apply pow2_4.
  - apply pow2_4.
  - lia.
  - by compute.
  - by compute.
  - reflexivity.
  - apply example_reachable.
Defined.

(** Invariants of concrete rings of four slots. *)
Ltac ring4 :=
  split; [split; [exists 2; split; [lia|reflexivity]|reflexivity|reflexivity]|reflexivity..|cbn; lia].

Lemma example_fq : fq_holds example_delivered.(fq) [4096; 8192].
Proof. exists 0, 1, 3. split; [ring4|reflexivity]. Qed.

Lemma example_rx : rx_holds example_delivered.(rx) [XdpDesc 256 60 0] 0.
Proof. exists 0, 0, 0, 1. split; [ring4|split; reflexivity]. Qed.

Lemma receive_refines_witness :
  exists n, Z.of_nat n <= 2 /\ (n <= 1)%nat /\ (n = 0%nat -> [XdpDesc 256 60 0] = []) /\
    match process_all (receive_desc (example_options 0 true)) (take n [XdpDesc 256 60 0])
      example_delivered (Batch 0 0) with
    | None => receive (example_options 0 true) [] example_delivered = None
    | Some (w1, b) => exists w', receive (example_options 0 true) [] example_delivered = Some (w', []) /\
        fq_holds w'.(fq) (refill_spec (example_options 0 true) (warm_start example_delivered) [4096; 8192]
          (orig_of <$> take n [XdpDesc 256 60 0])) /\
        rx_holds w'.(rx) (drop n [XdpDesc 256 60 0]) w'.(nb_frags_rx) /\
        w'.(app) = w1.(app) /\ w'.(tx) = example_delivered.(tx) /\ w'.(cq) = example_delivered.(cq) /\
        w'.(outstanding_tx) = example_delivered.(outstanding_tx)
    end.
Proof.
  apply (receive_refines (example_options 0 true) [] example_delivered [4096; 8192] [XdpDesc 256 60 0]).
  - apply example_fq.
  - apply example_rx.
  - by compute.
  - by compute.
  - intros _. by compute.
Defined.

(** One buffer is on its way back, one packet has come in. *)
Definition example_completed : world unit :=
  set_outstanding (set_cq example_delivered (kernel_produce example_delivered.(cq) [0])) 1.

Lemma example_cq : cq_holds example_completed.(cq) [0] 0.
Proof. exists 0, 0, 0, 1. split; [ring4|split; reflexivity]. Qed.

Lemma complete_refines_witness :
  exists w' n, complete_tx_forward (example_options 3 true) [] example_completed = Some (w', []) /\
    (n <= 1)%nat /\ (n = 0%nat -> 1 = 0 \/ [0] = []) /\
    fq_holds w'.(fq) (refill_spec (example_options 3 true) 0 [4096; 8192] (take n [0])) /\
    w'.(fq).(ring_size) = 4 /\ cq_holds w'.(cq) (drop n [0]) 0 /\
    w'.(outstanding_tx) = 1 - Z.of_nat n /\ 0 <= w'.(outstanding_tx) /\
    w'.(rx) = example_completed.(rx) /\ w'.(tx) = example_completed.(tx) /\ w'.(app) = tt /\
    w'.(nb_frags_fwd) = 0 /\ w'.(nb_frags_rx) = 0.
Proof.
  apply (complete_refines (example_options 3 true) [] example_completed [4096; 8192] [0]).
  - apply example_fq.
  - apply example_cq.
  - by compute.
  - by compute.
  - by compute.
  - intros _. by compute.
Defined.

Lemma example_tx : tx_holds example_delivered.(tx) [] 0.
Proof. exists 0, 0, 0, 0. split; [ring4|split; reflexivity]. Qed.

Lemma forward_refines_witness :
  exists n, Z.of_nat n <= 2 /\ (n <= 1)%nat /\ (n = 0%nat -> [XdpDesc 256 60 0] = []) /\
    match process_all (forward_desc (example_options 3 true)) (take n [XdpDesc 256 60 0])
      example_delivered (Batch 0 0) with
    | None => forward (example_options 3 true) [] example_delivered = None
    | Some (w1, b) => exists w', forward (example_options 3 true) [] example_delivered = Some (w', []) /\
        tx_holds w'.(tx) ([] ++ (tx_of <$> take n [XdpDesc 256 60 0])) w'.(nb_frags_fwd) /\
        rx_holds w'.(rx) (drop n [XdpDesc 256 60 0]) w'.(nb_frags_fwd) /\
        w'.(app) = w1.(app) /\ w'.(fq) = example_delivered.(fq) /\ w'.(cq) = example_delivered.(cq) /\
        w'.(outstanding_tx) = example_delivered.(outstanding_tx) + b.(frags_done) /\
        w'.(buffer) = example_delivered.(buffer)
    end.
Proof.
  apply (forward_refines (example_options 3 true) [] example_delivered example_delivered []
    [XdpDesc 256 60 0]).
  - reflexivity.
  - apply example_tx.
  - apply example_rx.
  - by compute.
  - by compute.
  - by compute.
Defined.

Lemma populate_refines_witness :
  exists w1, xsk_populate_fill_ring 3 4096 (init_world 4 4 4 4 0 tt) = Some w1 /\
    fq_holds w1.(fq) (buffer_addr 4096 <$> seqZ 0 3).
Proof. apply (populate_refines 4 4 4 4 0 3 4096 tt); [apply pow2_4|lia]. Defined.

(** An application that forwards the packets of 60 bytes and drops the others. *)
Definition mixed_handler : Handler unit := {|
  process_packet := fun _ a _ _ _ => Some a;
  l3_action := fun _ a _ len _ => Some (a, if len =? 60 then 1 else 0);
|}.

(** One packet forwarded: the fill queue keeps a reservation of one slot.  Then the kernel
    takes another buffer and delivers a packet that is to be dropped. *)
Definition example_l3 : world unit :=
  Eval vm_compute in
    let w := default example_delivered
      (fst <$> @l3forward unit mixed_handler (example_options 6 false) 0 [] example_delivered) in
    let w := set_outstanding w 0 in
    set_rx (set_fq w (kernel_consume w.(fq) 1)) (kernel_produce w.(rx) [XdpDesc 4352 42 0]).

Definition example_l3_next : world unit :=
  Eval vm_compute in
    default example_l3 (fst <$> @l3forward unit mixed_handler (example_options 6 false) 0 [] example_l3).

(** The address 4352 is written, but the slot published in its place holds 0. *)
Lemma l3forward_reserves_twice_witness :
  exists n (ts : list xdp_desc) (qs : list Z), n = 1 /\ ts = [] /\ qs = [4352] /\
    pending example_l3_next.(fq) =
      take (Z.to_nat (3 + 1 - 2)) (window example_l3.(fq) 2 (4 - 2) ++ qs) /\
    pending example_l3_next.(fq) = [8192; 0] /\ (4 + n) - (3 + 1) = (4 - 3) + 0.
Proof.
  destruct (@l3forward_reserves_twice unit mixed_handler (example_options 6 false) 0 [] example_l3 example_l3
    0 2 3 4 0 0 1 1 1 1 2 example_l3_next []) as
    (rx1 & n & a & ts & qs & fc0' & tc0' & Hpk & _ & Hpl & Hl & _ & _ & Hp & _ & Hg & _).
  - reflexivity.
  - ring4.
  - ring4.
  - ring4.
  - by compute.
  - by compute.
  - by compute.
  - by compute.
  - reflexivity.
  - vm_compute in Hpk. injection Hpk as _ <-. vm_compute in Hpl. injection Hpl as _ <- <-.
    exists 1, [], [4352]. split; [reflexivity|]. split; [reflexivity|]. split; [reflexivity|].
    split; [exact Hp|]. split; [rewrite Hp; reflexivity|exact Hg].
Defined.

(** Three entries in a ring of four, whose fourth slot the kernel took before, and two
    completed buffers to give back. *)
Definition example_full : world unit :=
  let w := set_fq example_start (XskRing 7 8 3 4 7 4 [0; 4096; 8192; 12288] 0) in
  set_outstanding (set_cq w (kernel_produce w.(cq) [16384; 20480])) 2.

(** The kernel gets 12288 a second time, and the slot of 20480 is not published. *)
Lemma reserve_wait_skips_witness :
  exists w', complete_tx_forward (example_options 0 false)
      [fun u => set_fq u (kernel_consume u.(fq) 2)] example_full = Some (w', []) /\
    pending w'.(fq) = [8192; 12288; 16384] /\ window w'.(fq) 9 1 = [20480].
Proof.
  destruct (reserve_wait_skips (example_options 0 false) example_full 4 4 7 0 0 2
    (fst (fst (xsk_ring_cons__peek example_full.(cq) 2 0))) 2 0 2
    (fun u => set_fq u (kernel_consume u.(fq) 2))) as (w' & c1 & He & _ & Hp & Hw).
  - reflexivity.
  - by compute.
  - ring4.
  - ring4.
  - by compute.
  - reflexivity.
  - by compute.
  - by compute.
  - reflexivity.
  - by compute.
  - exists w'. split; [exact He|]. split; [rewrite Hp; reflexivity|exact Hw].
Defined.

Lemma warm_refill_drained_witness :
  let r := XskRing 4 6 3 4 2 2 [7; 8; 9; 10] 0 in refill true 0 r (u32 2) 0 [100; 200] = r.
Proof.
  intros r. apply (warm_refill_drained r 2 2 2 4 0 [100; 200]); [ring4|reflexivity].
Defined.
