(* ===== verification/PoolAlloc.v ===== *)
(** * The log-structured pool of MICA

    [ported-mica/alloc_pool.c] with the helpers of [ported-mica/util.h].  A pool is
    a circular log over a mapping of [pool_size] bytes, whose first 2 MB are mapped
    a second time behind its end, so that an item may run over the end.  [None] is a
    failed [assert], an access outside the mapping or a loop that does not end. *)
From S2P Require Import Prelude.

(** ** util.h *)

Definition MEHCACHED_ROUNDUP8 (x : Z) : Z := u64 (x + 7) &' Z.lnot 7.
Definition MEHCACHED_ROUNDUP2M (x : Z) : Z := u64 (x + 2097151) &' Z.lnot 2097151.

(** [while (((size_t)1 << s) < v) s++; return (size_t)1 << s;] *)
Fixpoint next_pow2_loop (fuel : nat) (v s : Z) : option Z :=
  if u64 (1 <<' s) <? v then
    match fuel with O => None | S fuel' => next_pow2_loop fuel' v (s + 1) end
  else Some (u64 (1 <<' s)).

(** A shift count of 64 is undefined: the loop may take 63 steps. *)
Definition mehcached_next_power_of_two (v : Z) : option Z := next_pow2_loop 63 v 0.

Definition mehcached_rand (state : Z) : Z * Z :=
  let state := u64 (state * 0x5deece66d + 0xb) &' (2 ^ 48 - 1) in
  (u32 (state >>' (48 - 32)), state).

(** A readable object of the program: the bytes that a read of [n] bytes at its
    start yields. *)
Abbreviation reader := (Z -> option (list Z)).

Definition buf_read (buf : list Z) : reader := fun n =>
  if decide (Z.to_nat n <= length buf)%nat then Some (take (Z.to_nat n) buf) else None.

(** A write to the start of a buffer. *)
Definition buf_write (buf bs : list Z) : option (list Z) :=
  if decide (length bs <= length buf)%nat then Some (bs ++ drop (length bs) buf) else None.

(** [mehcached_memcpy8]: the bytes that are copied from [src]. *)
Definition mehcached_memcpy8 (src : reader) (length_ : Z) : option (list Z) :=
  src (MEHCACHED_ROUNDUP8 length_).

Definition mehcached_memcmp8 (dest src : reader) (length_ : Z) : option bool :=
  d ← dest (MEHCACHED_ROUNDUP8 length_);
  s ← src (MEHCACHED_ROUNDUP8 length_);
  Some (bool_decide (d = s)).

(** [shm.c] *)
Definition mehcached_shm_adjust_size (size : Z) : Z := MEHCACHED_ROUNDUP2M size.

(** ** The pool *)

Definition MEHCACHED_MINIMUM_POOL_SIZE : Z := 2097152.

(** [common.h] is read before [table.h] defines [MEHCACHED_SINGLE_ALLOC], so the
    mask has 40 bits. *)
Definition MEHCACHED_ITEM_OFFSET_MASK : Z := (1 <<' 40) - 1.

Record mehcached_pool := Pool {
  pool_mode : Z;
  pool_lock_word : Z;
  pool_data : gmap Z Z;
  pool_size : Z;
  pool_mask : Z;
  pool_head : Z;
  pool_tail : Z }.

Definition pool_set_lock (p : mehcached_pool) (l : Z) : mehcached_pool :=
  Pool (pool_mode p) l (pool_data p) (pool_size p) (pool_mask p) (pool_head p) (pool_tail p).
Definition pool_set_data (p : mehcached_pool) (d : gmap Z Z) : mehcached_pool :=
  Pool (pool_mode p) (pool_lock_word p) d (pool_size p) (pool_mask p) (pool_head p) (pool_tail p).
Definition pool_set_head (p : mehcached_pool) (h : Z) : mehcached_pool :=
  Pool (pool_mode p) (pool_lock_word p) (pool_data p) (pool_size p) (pool_mask p) h (pool_tail p).
Definition pool_set_tail (p : mehcached_pool) (t : Z) : mehcached_pool :=
  Pool (pool_mode p) (pool_lock_word p) (pool_data p) (pool_size p) (pool_mask p) (pool_head p) t.

(** *** The mapping *)

(** The byte at address [a] of the mapping: the second mapping of the first pages
    is the same memory, so addresses count modulo the size. *)
Definition rd (p : mehcached_pool) (a : Z) : Z := default 0 (pool_data p !! (a mod pool_size p)).

Fixpoint wr (sz : Z) (m : gmap Z Z) (a : Z) (bs : list Z) : gmap Z Z :=
  match bs with
  | [] => m
  | b :: bs' => wr sz (<[a mod sz := b]> m) (a + 1) bs'
  end.

Definition log_bytes (p : mehcached_pool) (a n : Z) : list Z := (fun i => rd p (a + i)) <$> seqZ 0 n.
Definition log_write (p : mehcached_pool) (a : Z) (bs : list Z) : mehcached_pool :=
  pool_set_data p (wr (pool_size p) (pool_data p) a bs).

Definition in_map (p : mehcached_pool) (a n : Z) : bool :=
  (0 <=? a) && (a + n <=? pool_size p + MEHCACHED_MINIMUM_POOL_SIZE).

(** Reads and writes at an address of the mapping. *)
Definition pload_bytes (p : mehcached_pool) (a n : Z) : option (list Z) :=
  if in_map p a n then Some (log_bytes p a n) else None.
Definition pstore_bytes (p : mehcached_pool) (a : Z) (bs : list Z) : option mehcached_pool :=
  if in_map p a (Z.of_nat (length bs)) then Some (log_write p a bs) else None.
Definition pload (n : Z) (p : mehcached_pool) (a : Z) : option Z :=
  le_value <$> pload_bytes p a n.
Definition pstore (n : nat) (p : mehcached_pool) (a v : Z) : option mehcached_pool :=
  pstore_bytes p a (le_bytes n v).

(** *** Operations *)

(** The size and the fields.  The pages come from [mehcached_shm_alloc] with whatever bytes
    they hold ([contents]); [PoolShm] models their allocation and both mappings. *)
Definition mehcached_pool_init (contents : gmap Z Z) (size : Z)
    (concurrent_alloc_read concurrent_alloc_write : bool) : option mehcached_pool :=
  let size := if size <? MEHCACHED_MINIMUM_POOL_SIZE then MEHCACHED_MINIMUM_POOL_SIZE else size in
  let size := mehcached_shm_adjust_size size in
  size ← mehcached_next_power_of_two size;
  if negb (size <=? MEHCACHED_ITEM_OFFSET_MASK >>' 1) then None
  else if negb (size =? mehcached_shm_adjust_size size) then None
  else
    let mode := if negb concurrent_alloc_read then 0
                else if negb concurrent_alloc_write then 1 else 2 in
    Some (Pool mode 0 contents size (size - 1) 0 0).

Definition mehcached_pool_reset (p : mehcached_pool) : mehcached_pool :=
  pool_set_tail (pool_set_head p 0) 0.

(** The compare-and-swap loop spins for ever on a lock that nobody releases. *)
Definition mehcached_pool_lock (p : mehcached_pool) : option mehcached_pool :=
  if pool_mode p =? 2 then
    if pool_lock_word p =? 0 then Some (pool_set_lock p 1) else None
  else Some p.

Definition mehcached_pool_unlock (p : mehcached_pool) : option mehcached_pool :=
  if pool_mode p =? 2 then
    if pool_lock_word p &' 1 =? 1 then Some (pool_set_lock p 0) else None
  else Some p.

(** The address of an item within the mapping. *)
Definition mehcached_pool_item (p : mehcached_pool) (pool_offset : Z) : Z :=
  pool_offset &' pool_mask p.

Definition mehcached_pool_check_invariants (p : mehcached_pool) : option unit :=
  if u64 (pool_tail p - pool_head p) <=? pool_size p then Some tt else None.

Definition mehcached_pool_pop_head (p : mehcached_pool) : option mehcached_pool :=
  let alloc_item := mehcached_pool_item p (pool_head p) in
  item_size ← pload 8 p alloc_item;
  let p := pool_set_head p (u64 (pool_head p + item_size)) in
  _ ← mehcached_pool_check_invariants p;
  Some p.

(** [while (v > alloc->head + alloc->size) mehcached_pool_pop_head(alloc);] *)
Fixpoint pop_loop (fuel : nat) (v : Z) (p : mehcached_pool) : option mehcached_pool :=
  if v >? u64 (pool_head p + pool_size p) then
    match fuel with
    | O => None
    | S fuel' => p ← mehcached_pool_pop_head p; pop_loop fuel' v p
    end
  else Some p.

(** The fuel is the number of bytes to free: every item has at least one. *)
Definition mehcached_pool_push_tail (p : mehcached_pool) (item_size : Z)
    : option (Z * mehcached_pool) :=
  if negb (item_size =? MEHCACHED_ROUNDUP8 item_size) then None
  else if negb (item_size <=? pool_size p) then None
  else
    let item_offset := pool_tail p in
    let v := u64 (item_offset + item_size) in
    p ← pop_loop (Z.to_nat (v - u64 (pool_head p + pool_size p))) v p;
    let alloc_item := mehcached_pool_item p item_offset in
    p ← pstore 8 p alloc_item item_size;
    let p := pool_set_tail p (u64 (pool_tail p + item_size)) in
    _ ← mehcached_pool_check_invariants p;
    Some (item_offset &' MEHCACHED_ITEM_OFFSET_MASK, p).

Definition mehcached_pool_allocate (p : mehcached_pool) (item_size : Z) :=
  mehcached_pool_push_tail p item_size.

Definition mehcached_pool_is_valid (p : mehcached_pool) (pool_offset : Z) : bool :=
  u64 (pool_tail p - pool_offset) &' MEHCACHED_ITEM_OFFSET_MASK <=? pool_size p.

(** ** The log *)

Abbreviation MB2 := 2097152.

(** The geometry that [mehcached_pool_init] sets up, and 64-bit positions that do
    not wrap. *)
Record pool_geom (p : mehcached_pool) : Prop := {
  geom_size : exists k, 21 <= k <= 38 /\ pool_size p = 2 ^ k;
  geom_mask : pool_mask p = pool_size p - 1;
  geom_pos : 0 <= pool_head p <= pool_tail p /\ pool_tail p < 2 ^ 63 }.

Lemma geom_bounds p : pool_geom p -> MB2 <= pool_size p <= 2 ^ 38.
Proof.
  intros [(k & Hk & ->) _ _].
  split; [change 2097152 with (2 ^ 21)|]; apply Z.pow_le_mono_r; lia.
Qed.

Lemma mod_mod_pow2 a j k : 0 <= k <= j -> (a mod 2 ^ j) mod 2 ^ k = a mod 2 ^ k.
Proof. intros. fold (wrap j a). by apply wrap_mod_pow2. Qed.

(** An offset, masked to 40 bits or not, denotes the same address. *)
Lemma pool_item_mod p o : pool_geom p -> mehcached_pool_item p o = o mod pool_size p.
Proof.
  intros [(k & Hk & Hs) Hm _]. unfold mehcached_pool_item. rewrite Hm, Hs. apply land_mask. lia.
Qed.

Lemma pool_item_masked p o :
  pool_geom p -> mehcached_pool_item p (o mod 2 ^ 40) = o mod pool_size p.
Proof.
  intros Hg. rewrite pool_item_mod by done. destruct Hg as [(k & Hk & ->) _ _].
  apply mod_mod_pow2. lia.
Qed.

Lemma rd_mod p a : rd p (a mod pool_size p) = rd p a.
Proof. unfold rd. by rewrite Zmod_mod. Qed.

Lemma rd_item p o d : rd p (o mod pool_size p + d) = rd p (o + d).
Proof. rewrite <- rd_mod, <- (rd_mod p (o + d)). by rewrite Zplus_mod_idemp_l. Qed.

Lemma rd_next p a : rd p (a + pool_size p) = rd p a.
Proof.
  destruct (decide (pool_size p = 0)) as [->|?]; [by rewrite Z.add_0_r|].
  rewrite <- rd_mod. replace (a + pool_size p) with (a + 1 * pool_size p) by lia.
  by rewrite Z.mod_add, rd_mod.
Qed.

Lemma wr_item sz m o d bs : wr sz m (o mod sz + d) bs = wr sz m (o + d) bs.
Proof.
  revert m d. induction bs as [|b bs IH]; intros m d; [done|]. simpl.
  rewrite Zplus_mod_idemp_l, <- !Z.add_assoc. apply IH.
Qed.

Lemma log_bytes_ext p p' a a' n :
  (forall i, 0 <= i < n -> rd p' (a' + i) = rd p (a + i)) -> log_bytes p' a' n = log_bytes p a n.
Proof.
  intros H. unfold log_bytes. apply list_fmap_ext. intros i x Hx.
  apply lookup_seqZ in Hx as [-> ?]. apply H. lia.
Qed.

Lemma log_bytes_item p o d n :
  log_bytes p (o mod pool_size p + d) n = log_bytes p (o + d) n.
Proof. apply log_bytes_ext. intros i _. rewrite <- !Z.add_assoc. apply rd_item. Qed.

Lemma log_bytes_length p a n : 0 <= n -> Z.of_nat (length (log_bytes p a n)) = n.
Proof. intros. unfold log_bytes. rewrite length_fmap, length_seqZ. lia. Qed.

Lemma log_bytes_app p a n m :
  0 <= n -> 0 <= m -> log_bytes p a (n + m) = log_bytes p a n ++ log_bytes p (a + n) m.
Proof.
  intros. unfold log_bytes. rewrite seqZ_app, fmap_app by lia. f_equal.
  rewrite Z.add_0_l. replace (seqZ n m) with (Z.add n <$> seqZ 0 m)
    by (rewrite fmap_add_seqZ; f_equal; lia).
  rewrite <- list_fmap_compose. apply list_fmap_ext. intros i x _. simpl. f_equal. lia.
Qed.

Lemma mod_neq a b sz : 0 < b - a < sz -> a mod sz <> b mod sz.
Proof.
  intros H He. assert ((b - a) mod sz = 0) as H0.
  { rewrite Zminus_mod, <- He, Z.sub_diag. apply Zmod_0_l. }
  rewrite Z.mod_small in H0; lia.
Qed.

Lemma wr_frame sz a bs : forall m d,
  1 <= d -> d + Z.of_nat (length bs) <= sz -> wr sz m (a + d) bs !! (a mod sz) = m !! (a mod sz).
Proof.
  induction bs as [|c bs IH]; intros m d Hd Hl; [done|]. cbn [wr length] in *.
  rewrite <- Z.add_assoc, IH, lookup_insert_ne; [done| |lia|lia].
  apply not_eq_sym, mod_neq. lia.
Qed.

Lemma wr_lookup sz m a bs x :
  0 < sz -> Z.of_nat (length bs) <= sz -> a <= x < a + sz ->
  wr sz m a bs !! (x mod sz) =
    if decide (x < a + Z.of_nat (length bs)) then bs !! Z.to_nat (x - a) else m !! (x mod sz).
Proof.
  intros Hsz. revert m a. induction bs as [|b bs IH]; intros m a Hl Hx; simpl.
  { rewrite decide_False by (simpl; lia). done. }
  cbn [length] in Hl. destruct (decide (x = a)) as [->|Hne].
  - rewrite decide_True, Z.sub_diag by lia. rewrite wr_frame by lia.
    by rewrite lookup_insert_eq.
  - rewrite IH by lia. case_decide; case_decide; try lia.
    + replace (Z.to_nat (x - a)) with (S (Z.to_nat (x - (a + 1)))) by lia. done.
    + rewrite lookup_insert_ne; [done|]. apply mod_neq. lia.
Qed.

Lemma rd_log_write p a bs x :
  0 < pool_size p -> Z.of_nat (length bs) <= pool_size p -> a <= x < a + pool_size p ->
  rd (log_write p a bs) x =
    if decide (x < a + Z.of_nat (length bs)) then bs !!! Z.to_nat (x - a) else rd p x.
Proof.
  intros ? Hl Hx. unfold rd, log_write. simpl. rewrite wr_lookup by done.
  case_decide; [|done].
  destruct (lookup_lt_is_Some_2 bs (Z.to_nat (x - a))) as [b Hb]; [lia|].
  by rewrite Hb, (list_lookup_total_correct _ _ _ Hb).
Qed.

Lemma log_bytes_written p a bs :
  0 < pool_size p -> Z.of_nat (length bs) <= pool_size p ->
  log_bytes (log_write p a bs) a (Z.of_nat (length bs)) = bs.
Proof.
  intros ? Hl. apply list_eq_same_length with (length bs); [done| |].
  { apply Nat2Z.inj. by rewrite log_bytes_length by lia. }
  intros i x y Hi Hx Hy. unfold log_bytes in Hx.
  rewrite list_lookup_fmap, lookup_seqZ_range in Hx by lia. simpl in Hx. injection Hx as <-.
  rewrite Z.add_0_l, rd_log_write, decide_True by lia.
  replace (Z.to_nat (a + Z.of_nat i - a)) with i by lia.
  by apply list_lookup_total_correct.
Qed.

(** A write leaves the bytes alone that it does not overlap in the ring. *)
Lemma log_bytes_frame p a bs o n :
  0 < pool_size p -> Z.of_nat (length bs) <= pool_size p ->
  a + Z.of_nat (length bs) <= o /\ o + n <= a + pool_size p \/
    o + n <= a /\ a + Z.of_nat (length bs) <= o + pool_size p ->
  log_bytes (log_write p a bs) o n = log_bytes p o n.
Proof.
  intros ? Hl Hd. apply log_bytes_ext. intros i Hi. destruct Hd as [[]|[]].
  - rewrite rd_log_write, decide_False by lia. done.
  - rewrite <- rd_next, <- (rd_next p). simpl.
    rewrite rd_log_write, decide_False by lia. done.
Qed.

(** Accesses to the item at offset [o], [d] bytes from its start. *)
Lemma pload_bytes_item p o d n :
  pool_geom p -> 0 <= d -> d + n <= MB2 ->
  pload_bytes p (mehcached_pool_item p (o mod 2 ^ 40) + d) n = Some (log_bytes p (o + d) n).
Proof.
  intros Hg Hd Hn. pose proof (geom_bounds p Hg). rewrite pool_item_masked by done.
  pose proof (Z.mod_pos_bound o (pool_size p) ltac:(lia)).
  unfold pload_bytes, in_map, MEHCACHED_MINIMUM_POOL_SIZE. rewrite (proj2 (Z.leb_le 0 _)) by lia.
  rewrite (proj2 (Z.leb_le _ _)) by lia. simpl. by rewrite log_bytes_item.
Qed.

Lemma log_write_item p o d bs :
  log_write p (o mod pool_size p + d) bs = log_write p (o + d) bs.
Proof. unfold log_write. by rewrite wr_item. Qed.

Lemma pstore_bytes_item p o d bs :
  pool_geom p -> 0 <= d -> d + Z.of_nat (length bs) <= MB2 ->
  pstore_bytes p (mehcached_pool_item p (o mod 2 ^ 40) + d) bs = Some (log_write p (o + d) bs).
Proof.
  intros Hg Hd Hn. pose proof (geom_bounds p Hg). rewrite pool_item_masked by done.
  pose proof (Z.mod_pos_bound o (pool_size p) ltac:(lia)).
  unfold pstore_bytes, in_map, MEHCACHED_MINIMUM_POOL_SIZE. rewrite (proj2 (Z.leb_le 0 _)) by lia.
  rewrite (proj2 (Z.leb_le _ _)) by lia. simpl. by rewrite log_write_item.
Qed.

(** *** The items of the log

    [chain a L b]: the offsets and sizes [L] are those of the items that lie one
    after the other in the log from [a] to [b]. *)
Fixpoint chain (a : Z) (L : list (Z * Z)) (b : Z) : Prop :=
  match L with
  | [] => a = b
  | (o, n) :: L' => o = a /\ 8 <= n <= MB2 /\ n mod 8 = 0 /\ chain (a + n) L' b
  end.

Lemma chain_le a L b : chain a L b -> a <= b.
Proof.
  revert a. induction L as [|[o n] L IH]; simpl; intros a; [lia|].
  intros (-> & ? & _ & ?%IH). lia.
Qed.

Lemma chain_snoc a L b n :
  chain a L b -> 8 <= n <= MB2 -> n mod 8 = 0 -> chain a (L ++ [(b, n)]) (b + n).
Proof.
  revert a. induction L as [|[o m] L IH]; simpl; intros a; [by intros ->|].
  intros (-> & ? & ? & ?) ??. by auto.
Qed.

(** Inversion for an item of the log. *)
Lemma chain_elem a L b o n :
  chain a L b -> (o, n) ∈ L ->
  a <= o /\ o + n <= b /\ 8 <= n <= MB2 /\ n mod 8 = 0 /\
  (o + n = b \/ exists n', (o + n, n') ∈ L).
Proof.
  revert a. induction L as [|[o' m] L IH]; simpl; intros a; [by rewrite elem_of_nil|].
  intros (-> & ? & ? & Hc) [[= -> ->]|Hin]%elem_of_cons.
  - pose proof (chain_le _ _ _ Hc). repeat (split; [lia|]).
    destruct L as [|[o2 m2] L]; simpl in Hc; [by left|]. right. destruct Hc as [-> _].
    exists m2. set_solver.
  - destruct (IH _ Hc Hin) as (? & ? & ? & ? & Hn). repeat (split; [lia|]).
    destruct Hn as [|[n' ?]]; [by left|]. right. exists n'. set_solver.
Qed.

(** Two items do not overlap. *)
Lemma chain_disjoint a L b o n o' n' :
  chain a L b -> (o, n) ∈ L -> (o', n') ∈ L ->
  (o = o' /\ n = n') \/ o + n <= o' \/ o' + n' <= o.
Proof.
  revert a. induction L as [|[o1 m] L IH]; simpl; intros a; [by rewrite elem_of_nil|].
  intros (-> & ? & ? & Hc) [[= -> ->]|H1]%elem_of_cons [[= -> ->]|H2]%elem_of_cons.
  - by left.
  - destruct (chain_elem _ _ _ _ _ Hc H2) as (? & ? & _). lia.
  - destruct (chain_elem _ _ _ _ _ Hc H1) as (? & ? & _). lia.
  - by eapply IH.
Qed.

(** The size that the header of the item at [o] holds. *)
Definition header (p : mehcached_pool) (o : Z) : Z := le_value (log_bytes p o 8).

(** The invariant of the pool: the items [L] fill the log up to the tail, the head
    is the start of one of them, or the tail, and the headers of all items whose
    bytes have not been overwritten hold their size. *)
Record pool_inv (p : mehcached_pool) (L : list (Z * Z)) : Prop := {
  inv_geom : pool_geom p;
  inv_chain : chain 0 L (pool_tail p);
  inv_head : pool_head p = pool_tail p \/ exists n, (pool_head p, n) ∈ L;
  inv_window : pool_tail p <= pool_head p + pool_size p;
  inv_headers : forall o n, (o, n) ∈ L -> pool_tail p <= o + pool_size p -> header p o = n }.

(** [pool_same p p']: what no operation on the log changes. *)
Definition pool_same (p p' : mehcached_pool) : Prop :=
  pool_mode p' = pool_mode p /\ pool_lock_word p' = pool_lock_word p /\
  pool_size p' = pool_size p /\ pool_mask p' = pool_mask p.

Lemma u64_id z : 0 <= z < 2 ^ 64 -> u64 z = z.
Proof. by apply wrap_small. Qed.

Lemma check_invariants_ok p :
  pool_head p <= pool_tail p <= pool_head p + pool_size p -> pool_size p < 2 ^ 64 ->
  mehcached_pool_check_invariants p = Some tt.
Proof.
  intros ??. unfold mehcached_pool_check_invariants. rewrite u64_id by lia.
  by rewrite (proj2 (Z.leb_le _ _)) by lia.
Qed.

Lemma pool_geom_head p h :
  pool_geom p -> 0 <= h <= pool_tail p -> pool_geom (pool_set_head p h).
Proof. intros [Hs Hm [? ?]] ?. by split. Qed.

Lemma pop_head_spec p L :
  pool_inv p L -> pool_head p < pool_tail p ->
  exists n, (pool_head p, n) ∈ L /\ 8 <= n /\
    mehcached_pool_pop_head p = Some (pool_set_head p (pool_head p + n)) /\
    pool_inv (pool_set_head p (pool_head p + n)) L.
Proof.
  intros [Hg Hc Hh Hw Hhd] Hlt. destruct Hh as [?|[n Hn]]; [lia|]. exists n.
  destruct (chain_elem _ _ _ _ _ Hc Hn) as (? & ? & ? & ? & Hnx).
  pose proof (geom_bounds p Hg) as Hb. destruct (geom_pos p Hg).
  split; [done|]. split; [lia|]. split.
  - unfold mehcached_pool_pop_head, pload.
    pose proof (pload_bytes_item p (pool_head p) 0 8 Hg) as Hl.
    rewrite pool_item_masked, !Z.add_0_r in Hl by done.
    rewrite pool_item_mod, Hl by (done || lia).
    cbn [fmap option_fmap option_map mbind option_bind]. fold (header p (pool_head p)).
    rewrite (Hhd _ _ Hn) by lia. rewrite u64_id by lia.
    rewrite check_invariants_ok by (simpl; lia). done.
  - split; [by apply pool_geom_head; [|lia] | done | simpl | simpl; lia | done].
    destruct Hnx as [|[n' ?]]; [by left|]. right. by exists n'.
Qed.

Lemma pop_loop_spec fuel v : forall p L,
  pool_inv p L -> v <= pool_tail p + pool_size p ->
  v <= pool_head p + pool_size p + Z.of_nat fuel ->
  exists h, pop_loop fuel v p = Some (pool_set_head p h) /\
    pool_head p <= h /\ v <= h + pool_size p /\ pool_inv (pool_set_head p h) L.
Proof.
  induction fuel as [|fuel IH]; intros p L Hinv Hv Hf;
    pose proof (geom_bounds p (inv_geom _ _ Hinv));
    destruct (geom_pos p (inv_geom _ _ Hinv)); cbn [pop_loop];
    rewrite u64_id by lia; destruct (Z.gtb_spec v (pool_head p + pool_size p)); try lia.
  1,3: exists (pool_head p); destruct p; simpl in *; split; [done|split; [lia|split; [lia|done]]].
  destruct (pop_head_spec p L) as (n & Hn & Hn8 & -> & Hinv'); [done|lia|].
  cbn [mbind option_bind].
  destruct (IH _ L Hinv') as (h & Hpop & ? & ? & ?); [done|simpl; lia|].
  exists h. rewrite Hpop. simpl in *. split; [done|]. split; [lia|]. by split.
Qed.

Lemma roundup8_id x : 0 <= x < 2 ^ 64 - 8 -> x mod 8 = 0 -> MEHCACHED_ROUNDUP8 x = x.
Proof.
  intros Hx Hm. unfold MEHCACHED_ROUNDUP8. rewrite u64_id by lia.
  change 7 with (Z.ones 3) at 2. rewrite <- Z.ldiff_land, Z.ldiff_ones_r by lia.
  rewrite Z.shiftl_mul_pow2, Z.shiftr_div_pow2 by lia. change (2 ^ 3) with 8. zlia.
Qed.

Lemma pool_geom_log_write p a bs : pool_geom p -> pool_geom (log_write p a bs).
Proof. by intros [? ? ?]. Qed.

Lemma header_write p o n :
  pool_geom p -> 0 <= n < 2 ^ 64 -> header (log_write p o (le_bytes 8 n)) o = n.
Proof.
  intros Hg Hn. pose proof (geom_bounds p Hg).
  unfold header. change 8 with (Z.of_nat 8). rewrite <- (le_bytes_length 8 n) at 2.
  rewrite log_bytes_written by (rewrite ?le_bytes_length; lia).
  rewrite le_value_bytes. by rewrite Z.mod_small.
Qed.

(** What a write to the log positions [a, a+n) leaves alone when [a+n] becomes the
    tail: all items within one pool size from the new tail. *)
Lemma header_frame p a bs o :
  pool_geom p -> o + 8 <= a -> a + Z.of_nat (length bs) <= o + pool_size p ->
  header (log_write p a bs) o = header p o.
Proof.
  intros Hg ??. pose proof (geom_bounds p Hg).
  unfold header. f_equal. apply log_bytes_frame; lia.
Qed.

Lemma push_tail_spec p L n :
  pool_inv p L -> 8 <= n <= MB2 -> n mod 8 = 0 -> pool_tail p + n < 2 ^ 63 ->
  exists p', mehcached_pool_push_tail p n = Some (pool_tail p mod 2 ^ 40, p') /\
    pool_inv p' (L ++ [(pool_tail p, n)]) /\ pool_same p p' /\
    pool_tail p' = pool_tail p + n /\
    (forall o m, o + m <= pool_tail p -> pool_tail p + n <= o + pool_size p ->
      log_bytes p' o m = log_bytes p o m).
Proof.
  intros Hinv Hn Hn8 Hlt. pose proof (inv_geom _ _ Hinv) as Hg.
  pose proof (geom_bounds p Hg) as Hb. destruct (geom_pos p Hg).
  unfold mehcached_pool_push_tail. rewrite roundup8_id, Z.eqb_refl by lia.
  rewrite (proj2 (Z.leb_le _ _)) by lia. cbn [negb]. cbv zeta.
  rewrite !u64_id by lia.
  destruct (pop_loop_spec (Z.to_nat (pool_tail p + n - (pool_head p + pool_size p)))
    (pool_tail p + n) p L) as (h & -> & Hh1 & Hh2 & Hinv1); [done|lia|lia|].
  cbn [mbind option_bind]. set (p1 := pool_set_head p h) in *.
  pose proof (inv_geom _ _ Hinv1) as Hg1. destruct (geom_pos p1 Hg1) as [? _].
  unfold pstore.
  pose proof (pstore_bytes_item p1 (pool_tail p) 0 (le_bytes 8 n) Hg1) as Hst.
  rewrite pool_item_masked, !Z.add_0_r in Hst by done.
  rewrite pool_item_mod, Hst by (rewrite ?le_bytes_length; (done || lia)).
  cbn [mbind option_bind]. rewrite u64_id by (simpl; lia).
  rewrite check_invariants_ok by (simpl in *; lia). cbn [mbind option_bind].
  eexists. split.
  { rewrite <- (land_mask (pool_tail p) 40) by lia. reflexivity. }
  assert (forall o m, o + m <= pool_tail p -> pool_tail p + n <= o + pool_size p ->
    log_bytes (log_write p1 (pool_tail p) (le_bytes 8 n)) o m = log_bytes p o m) as Hfr.
  { intros o m ??. transitivity (log_bytes p1 o m); [|done].
    apply log_bytes_frame; rewrite ?le_bytes_length; simpl; lia. }
  split; [|split; [done|split; [done|done]]].
  split; simpl in *.
  - destruct Hg. split; [done|done|]. simpl. lia.
  - by apply chain_snoc; [apply (inv_chain _ _ Hinv1)|..].
  - destruct (inv_head _ _ Hinv1) as [Hh|[m Hm]]; right.
    + exists n. simpl in Hh. rewrite Hh. set_solver.
    + exists m. set_solver.
  - lia.
  - intros o m [Hin|[= -> ->]%list_elem_of_singleton]%elem_of_app Ho.
    + destruct (chain_elem _ _ _ _ _ (inv_chain _ _ Hinv) Hin) as (_ & ? & ? & _).
      unfold header. change (le_value (log_bytes (log_write p1 (pool_tail p) (le_bytes 8 n)) o 8) = m).
      rewrite Hfr by lia. by apply (inv_headers _ _ Hinv); [|lia].
    + change (header (log_write p1 (pool_tail p) (le_bytes 8 n)) (pool_tail p) = n).
      apply header_write; [done|lia].
Qed.

Lemma is_valid_spec p o :
  pool_geom p -> 0 <= o <= pool_tail p -> pool_tail p - o < 2 ^ 40 ->
  mehcached_pool_is_valid p (o mod 2 ^ 40) = (pool_tail p - o <=? pool_size p).
Proof.
  intros Hg ??. destruct (geom_pos p Hg). unfold mehcached_pool_is_valid.
  change MEHCACHED_ITEM_OFFSET_MASK with (2 ^ 40 - 1).
  rewrite land_mask, wrap_mod_pow2, Zminus_mod_idemp_r by lia. rewrite Z.mod_small by lia. done.
Qed.

(** *** Sizes *)

Lemma roundup2m x : 0 <= x < 2 ^ 63 ->
  MEHCACHED_ROUNDUP2M x = (x + 2097151) / 2097152 * 2097152.
Proof.
  intros Hx. unfold MEHCACHED_ROUNDUP2M. rewrite u64_id by lia.
  change 2097151 with (Z.ones 21) at 2. rewrite <- Z.ldiff_land, Z.ldiff_ones_r by lia.
  rewrite Z.shiftl_mul_pow2, Z.shiftr_div_pow2 by lia. done.
Qed.

Lemma roundup8_val x : 0 <= x < 2 ^ 60 -> MEHCACHED_ROUNDUP8 x = (x + 7) / 8 * 8.
Proof.
  intros Hx. unfold MEHCACHED_ROUNDUP8. rewrite u64_id by lia.
  change 7 with (Z.ones 3) at 2. rewrite <- Z.ldiff_land, Z.ldiff_ones_r by lia.
  rewrite Z.shiftl_mul_pow2, Z.shiftr_div_pow2 by lia. done.
Qed.

Lemma roundup8_bounds x :
  0 <= x < 2 ^ 60 -> x <= MEHCACHED_ROUNDUP8 x < x + 8 /\ MEHCACHED_ROUNDUP8 x mod 8 = 0.
Proof. intros Hx. rewrite roundup8_val by done. zlia. Qed.

Lemma next_pow2_loop_spec fuel v : forall s,
  0 <= s -> s + Z.of_nat fuel <= 63 -> v <= 2 ^ (s + Z.of_nat fuel) ->
  exists k, next_pow2_loop fuel v s = Some (2 ^ k) /\ s <= k <= s + Z.of_nat fuel /\
    v <= 2 ^ k /\ (s = k \/ 2 ^ (k - 1) < v).
Proof.
  assert (forall s, 0 <= s <= 63 -> u64 (1 <<' s) = 2 ^ s) as Hsh.
  { intros s Hs. rewrite Z.shiftl_1_l. apply wrap_small. split; [lia|].
    apply Z.pow_lt_mono_r; lia. }
  induction fuel as [|fuel IH]; intros s Hs Hf Hv; cbn [next_pow2_loop]; rewrite Hsh by lia;
    destruct (Z.ltb_spec (2 ^ s) v) as [Hlt|]; try (exists s; split; [done|lia]).
  { rewrite Z.add_0_r in Hv. lia. }
  destruct (IH (s + 1)) as (k & -> & ? & ? & Hk); [lia|lia|by replace (s + 1 + Z.of_nat fuel) with (s + Z.of_nat (S fuel)) by lia|].
  exists k. split; [done|]. split; [lia|]. split; [done|]. right.
  destruct Hk as [<-|]; [|done]. by replace (s + 1 - 1) with s by lia.
Qed.

Lemma next_pow2_spec v :
  1 <= v <= 2 ^ 63 -> exists k, mehcached_next_power_of_two v = Some (2 ^ k) /\
    0 <= k <= 63 /\ v <= 2 ^ k /\ (k = 0 \/ 2 ^ (k - 1) < v).
Proof.
  intros Hv. destruct (next_pow2_loop_spec 63 v 0) as (k & ? & ? & ? & Hk); [lia|done|simpl; lia|].
  exists k. unfold mehcached_next_power_of_two. split; [done|]. split; [lia|]. split; [done|].
  destruct Hk; [left|right]; lia.
Qed.

(** The size of the pool for a requested size up to 2^38 bytes. *)
Lemma pool_init_spec contents size rd wr :
  0 <= size <= 2 ^ 38 ->
  exists p, mehcached_pool_init contents size rd wr = Some p /\ pool_inv p [] /\
    pool_lock_word p = 0 /\ pool_tail p = 0 /\ size <= pool_size p /\
    (pool_size p = 2097152 \/ pool_size p < 2 * size).
Proof.
  intros Hs. unfold mehcached_pool_init, mehcached_shm_adjust_size, MEHCACHED_MINIMUM_POOL_SIZE.
  set (size1 := if size <? 2097152 then 2097152 else size).
  assert (2097152 <= size1 <= 2 ^ 38 /\ size <= size1 /\ (size1 = 2097152 \/ size1 = size))
    as (Hs1 & Hs2 & Hs3) by (unfold size1; destruct (Z.ltb_spec size 2097152); lia).
  clearbody size1. rewrite roundup2m by lia.
  set (size2 := (size1 + 2097151) / 2097152 * 2097152).
  assert (size1 <= size2 <= 2 ^ 38 /\ size2 < size1 + 2097152) as [Hs4 Hs5].
  { unfold size2. change (2 ^ 38) with (131072 * 2097152) in *. zlia. }
  destruct (next_pow2_spec size2) as (k & -> & Hk & Hk1 & Hk2); [lia|].
  cbn [mbind option_bind].
  assert (21 <= k) as Hk21.
  { destruct (decide (21 <= k)); [done|].
    pose proof (Z.pow_le_mono_r 2 k 20 ltac:(lia) ltac:(lia)). lia. }
  assert (k <= 38) as Hk38.
  { destruct Hk2 as [->|Hk2]; [lia|]. destruct (decide (k <= 38)); [done|].
    pose proof (Z.pow_le_mono_r 2 38 (k - 1) ltac:(lia) ltac:(lia)). lia. }
  pose proof (Z.pow_le_mono_r 2 k 38 ltac:(lia) Hk38).
  change (MEHCACHED_ITEM_OFFSET_MASK >>' 1) with (2 ^ 39 - 1).
  rewrite (proj2 (Z.leb_le _ _)) by lia. rewrite roundup2m by lia.
  assert (exists q, 2 ^ k = q * 2097152 /\ 0 < q) as (q & Hq & Hq0).
  { exists (2 ^ (k - 21)). change 2097152 with (2 ^ 21). rewrite <- Z.pow_add_r by lia.
    split; [f_equal; lia|]. lia. }
  replace ((2 ^ k + 2097151) / 2097152 * 2097152) with (2 ^ k)
    by (rewrite Hq; clear; zlia).
  rewrite Z.eqb_refl. cbn [negb]. eexists. split; [done|]. simpl. split.
  { split; simpl; [split; simpl; [by exists k|done|lia]|done|by left|lia|].
    intros o n Hin. by apply elem_of_nil in Hin. }
  repeat (split; [lia|]).
  assert (2 ^ k = 2 * 2 ^ (k - 1)) as Hdbl by (rewrite <- Z.pow_succ_r by lia; f_equal; lia).
  destruct Hk2 as [->|Hk2]; [lia|]. unfold size2 in *.
  assert (0 < 2 ^ (k - 1)) as Hpos by lia.
  assert (exists j, 2 ^ (k - 1) = j * 2097152 \/ k = 21) as [j [Hj|Hj]].
  { destruct (decide (k = 21)) as [->|]; [exists 0; by right|]. exists (2 ^ (k - 22)). left.
    change 2097152 with (2 ^ 21). rewrite <- Z.pow_add_r by lia. f_equal; lia. }
  - right. rewrite Hdbl. clear -Hj Hk2 Hs3 Hs1 Hpos. rewrite Hj in *. zlia.
  - left. by rewrite Hj.
Qed.

(** ** Sequences of allocations *)

Fixpoint pool_run (p : mehcached_pool) (ns : list Z) : option (list Z * mehcached_pool) :=
  match ns with
  | [] => Some ([], p)
  | n :: ns =>
      '(o, p) ← mehcached_pool_allocate p n;
      '(os, p) ← pool_run p ns;
      Some (o :: os, p)
  end.

Definition total (ns : list Z) : Z := foldr Z.add 0 ns.

Definition size_ok (n : Z) : Prop := 8 <= n <= MB2 /\ n mod 8 = 0.

#[global] Instance size_ok_dec n : Decision (size_ok n).
Proof. unfold size_ok. apply _. Defined.

(** The items that a run adds to the log, from position [a]. *)
Fixpoint items_from (a : Z) (ns : list Z) : list (Z * Z) :=
  match ns with
  | [] => []
  | n :: ns => (a, n) :: items_from (a + n) ns
  end.

Lemma total_nonneg ns : Forall size_ok ns -> 0 <= total ns.
Proof. induction 1 as [|n ns [? _] _ IH]; simpl; lia. Qed.

Lemma pool_run_spec ns : forall p L,
  pool_inv p L -> Forall size_ok ns -> pool_tail p + total ns < 2 ^ 63 ->
  exists p', pool_run p ns = Some ((fun i => i.1 mod 2 ^ 40) <$> items_from (pool_tail p) ns, p') /\
    pool_inv p' (L ++ items_from (pool_tail p) ns) /\ pool_same p p' /\
    pool_tail p' = pool_tail p + total ns /\
    (forall o m, o + m <= pool_tail p -> pool_tail p' <= o + pool_size p ->
      log_bytes p' o m = log_bytes p o m).
Proof.
  induction ns as [|n ns IH]; intros p L Hinv Hok Hlt; cbn [pool_run items_from total foldr] in *.
  { exists p. rewrite app_nil_r. repeat (split; [done || lia|]). done. }
  apply Forall_cons in Hok as [Hn Hok]. pose proof (total_nonneg ns Hok). unfold total in *.
  destruct (push_tail_spec p L n) as (p1 & Hp1 & Hinv1 & Hs1 & Ht1 & Hb1); [done|apply Hn..|lia|].
  unfold mehcached_pool_allocate. rewrite Hp1. cbn [mbind option_bind].
  destruct (IH p1 _ Hinv1 Hok) as (p2 & -> & Hinv2 & Hs2 & Ht2 & Hb2); [lia|].
  cbn [mbind option_bind]. rewrite Ht1 in *. exists p2. split; [done|].
  split; [by rewrite <- app_assoc in Hinv2|]. unfold pool_same in *.
  split; [repeat split; etransitivity; (apply Hs2 || apply Hs1)|]. split; [lia|].
  destruct Hs1 as (_ & _ & Hsz & _). intros o m Ho Hw. destruct Hn as [[? ?] _].
  rewrite Hb2 by lia. apply Hb1; lia.
Qed.

(** C24: A pool created for up to 2^38 bytes serves any sequence of requests (multiples of
    eight bytes, up to 2 MB each, fewer than 2^63 bytes in all) without failing: items lie
    one after the other from position 0, the window between head and tail never exceeds
    the size, and the header of each item within the last [size] bytes is its size, so
    that popping the head always lands on an item. *)
Theorem pool_serves_all contents size r w ns :
  0 <= size <= 2 ^ 38 -> Forall size_ok ns -> total ns < 2 ^ 63 ->
  exists p p', mehcached_pool_init contents size r w = Some p /\ size <= pool_size p /\
    pool_run p ns = Some ((fun i => i.1 mod 2 ^ 40) <$> items_from 0 ns, p') /\
    pool_tail p' = total ns /\ pool_head p' <= pool_tail p' <= pool_head p' + pool_size p' /\
    (pool_head p' = pool_tail p' \/ exists n, (pool_head p', n) ∈ items_from 0 ns) /\
    (forall o n, (o, n) ∈ items_from 0 ns -> pool_tail p' <= o + pool_size p' -> header p' o = n).
Proof.
  intros Hs Hok Hlt.
  destruct (pool_init_spec contents size r w Hs) as (p & Hp & Hinv & _ & Ht & Hsz & _).
  destruct (pool_run_spec ns p [] Hinv Hok) as (p' & Hr & Hi' & _ & Ht' & _); [lia|].
  rewrite Ht in *. destruct Hi' as [[_ _ [Hpos _]] _ Hh Hw Hhd].
  exists p, p'. do 3 (split; [done|]). by repeat (split; [lia||done|]).
Qed.

Lemma pool_serves_all_witness :
  exists p p', mehcached_pool_init ∅ 80000 false false = Some p /\ 80000 <= pool_size p /\
    pool_run p [40; 48; 296] =
      Some ((fun i => i.1 mod 2 ^ 40) <$> items_from 0 [40; 48; 296], p') /\
    pool_tail p' = total [40; 48; 296] /\
    pool_head p' <= pool_tail p' <= pool_head p' + pool_size p' /\
    (pool_head p' = pool_tail p' \/ exists n, (pool_head p', n) ∈ items_from 0 [40; 48; 296]) /\
    (forall o n, (o, n) ∈ items_from 0 [40; 48; 296] -> pool_tail p' <= o + pool_size p' ->
      header p' o = n).
Proof.
  apply (pool_serves_all ∅ 80000 false false [40; 48; 296]);
    [lia|apply (bool_decide_unpack (Forall size_ok _)); vm_compute; exact I|vm_compute; reflexivity].
Defined.

(** C13: Overwriting is detected: whatever is allocated after it, an item that
    [mehcached_pool_is_valid] still accepts has kept its bytes, as long as fewer than
    2^40 bytes of log, the width of the stored offset, have passed. *)
Theorem pool_valid_items_intact p L ns o n :
  pool_inv p L -> (o, n) ∈ L -> Forall size_ok ns -> pool_tail p + total ns < 2 ^ 63 ->
  pool_tail p + total ns - o < 2 ^ 40 ->
  exists os p', pool_run p ns = Some (os, p') /\
    (mehcached_pool_is_valid p' (o mod 2 ^ 40) = true -> log_bytes p' o n = log_bytes p o n).
Proof.
  intros Hinv Hin Hok Hlt Hw. pose proof (total_nonneg ns Hok).
  destruct (pool_run_spec ns p L Hinv Hok Hlt) as (p' & Hr & Hi' & Hs & Ht & Hb).
  eexists _, p'. split; [done|]. intros Hv.
  destruct (chain_elem _ _ _ _ _ (inv_chain _ _ Hinv) Hin) as (? & ? & ?).
  rewrite is_valid_spec in Hv by (apply Hi' || lia). apply Z.leb_le in Hv.
  destruct Hs as (_ & _ & Hsz & _). apply Hb; lia.
Qed.

Lemma pool_valid_items_intact_witness :
  exists p L os p', pool_inv p L /\ (0, 40) ∈ L /\ pool_run p [48; 56] = Some (os, p') /\
    (mehcached_pool_is_valid p' (0 mod 2 ^ 40) = true -> log_bytes p' 0 40 = log_bytes p 0 40).
Proof.
  destruct (pool_init_spec ∅ 80000 false false) as (p0 & _ & Hinv0 & _ & Ht0 & _); [lia|].
  destruct (pool_run_spec [40] p0 [] Hinv0) as (p & _ & Hinv & _ & Ht & _);
    [apply (bool_decide_unpack (Forall size_ok _)); vm_compute; exact I|rewrite Ht0; simpl; lia|].
  rewrite Ht0 in *.
  destruct (pool_valid_items_intact p [(0, 40)] [48; 56] 0 40 Hinv) as (os & p' & Hr & Hb);
    [by left|apply (bool_decide_unpack (Forall size_ok _)); vm_compute; exact I
    |rewrite Ht; simpl; lia|rewrite Ht; simpl; lia|].
  exists p, [(0, 40)], os, p'. split; [done|]. split; [by left|]. done.
Defined.
