(* ===== verification/MicaTable.v ===== *)
(** * The hash table of MICA

    [ported-mica/table.c] and [table.h] in the configuration of [config.h]: eviction
    on, one log pool ([MEHCACHED_ALLOC_POOL]), fifteen items per bucket, statistics
    off, assertions on.  Buckets are numbered; the extra buckets follow the
    [num_buckets] normal ones.  [None] is a failed [assert], an access outside a
    buffer, a mapping or the tables, or a loop that does not end. *)
From S2P Require Import Prelude PoolAlloc.

Definition MEHCACHED_MAX_KEY_LENGTH : Z := 255.
Definition MEHCACHED_MAX_VALUE_LENGTH : Z := 1048575.
Definition MEHCACHED_ITEMS_PER_BUCKET : nat := 15.
Definition MEHCACHED_MAX_POOLS : Z := 16.

(** [#ifdef MEHCACHED_NO_EVICTION]: not defined. *)
Definition MEHCACHED_NO_EVICTION : bool := false.

(** ** Packed words *)

Definition MEHCACHED_TAG_MASK : Z := (1 <<' 16) - 1.
Definition MEHCACHED_TAG (item_vec : Z) : Z := item_vec >>' 48.
Definition MEHCACHED_ALLOC_ID (item_vec : Z) : Z := 0.
Definition MEHCACHED_ITEM_OFFSET (item_vec : Z) : Z := item_vec &' MEHCACHED_ITEM_OFFSET_MASK.
Definition MEHCACHED_ITEM_VEC (tag alloc_id item_offset : Z) : Z :=
  u64 (tag <<' 48) |' item_offset.

Definition MEHCACHED_KEY_MASK : Z := (1 <<' 8) - 1.
Definition MEHCACHED_VALUE_MASK : Z := (1 <<' 24) - 1.
Definition MEHCACHED_KEY_LENGTH (kv_length_vec : Z) : Z := kv_length_vec >>' 24.
Definition MEHCACHED_VALUE_LENGTH (kv_length_vec : Z) : Z := kv_length_vec &' MEHCACHED_VALUE_MASK.
Definition MEHCACHED_KV_LENGTH_VEC (key_length value_length : Z) : Z :=
  u32 (key_length <<' 24) |' u32 value_length.

(** [struct mehcached_item]: the offsets of its fields and its size. *)
Definition off_kv_length_vec : Z := 8.
Definition off_expire_time : Z := 12.
Definition off_key_hash : Z := 16.
Definition sizeof_item : Z := 24.

(** ** State *)

Record mehcached_bucket := Bucket {
  version : Z;
  next_extra_bucket_index : Z;
  item_vec : list Z }.

Record mehcached_table := Table {
  alloc : list mehcached_pool;
  alloc_id_mask : Z;
  mth_threshold : Z;
  buckets : list mehcached_bucket;
  concurrent_access_mode : Z;
  num_buckets : Z;
  num_buckets_mask : Z;
  num_extra_buckets : Z;
  extra_lock : Z;
  extra_head : Z;
  rshift : Z }.

Definition set_alloc (t : mehcached_table) (id : Z) (p : mehcached_pool) : mehcached_table :=
  Table (<[Z.to_nat id := p]> (alloc t)) (alloc_id_mask t) (mth_threshold t) (buckets t)
    (concurrent_access_mode t) (num_buckets t) (num_buckets_mask t) (num_extra_buckets t)
    (extra_lock t) (extra_head t) (rshift t).
Definition set_bucket (t : mehcached_table) (b : Z) (bk : mehcached_bucket) : mehcached_table :=
  Table (alloc t) (alloc_id_mask t) (mth_threshold t) (<[Z.to_nat b := bk]> (buckets t))
    (concurrent_access_mode t) (num_buckets t) (num_buckets_mask t) (num_extra_buckets t)
    (extra_lock t) (extra_head t) (rshift t).
Definition set_extra (t : mehcached_table) (l h : Z) : mehcached_table :=
  Table (alloc t) (alloc_id_mask t) (mth_threshold t) (buckets t)
    (concurrent_access_mode t) (num_buckets t) (num_buckets_mask t) (num_extra_buckets t)
    l h (rshift t).

(** [&table->alloc[alloc_id]] and [table->buckets + b]. *)
Definition get_alloc (t : mehcached_table) (id : Z) : option mehcached_pool :=
  alloc t !! Z.to_nat id.
Definition get_bucket (t : mehcached_table) (b : Z) : option mehcached_bucket :=
  buckets t !! Z.to_nat b.

Definition set_version (bk : mehcached_bucket) (v : Z) : mehcached_bucket :=
  Bucket v (next_extra_bucket_index bk) (item_vec bk).
Definition set_next (bk : mehcached_bucket) (n : Z) : mehcached_bucket :=
  Bucket (version bk) n (item_vec bk).
Definition set_items (bk : mehcached_bucket) (items : list Z) : mehcached_bucket :=
  Bucket (version bk) (next_extra_bucket_index bk) items.

(** [bucket->item_vec[i]] and an assignment to it. *)
Definition get_slot (t : mehcached_table) (b : Z) (i : nat) : option Z :=
  bk ← get_bucket t b; item_vec bk !! i.
Definition set_slot (t : mehcached_table) (b : Z) (i : nat) (v : Z) : option mehcached_table :=
  bk ← get_bucket t b;
  if decide (i < length (item_vec bk))%nat
  then Some (set_bucket t b (set_items bk (<[i := v]> (item_vec bk)))) else None.

(** ** Hash to bucket and tag *)

Definition mehcached_calc_bucket_index (t : mehcached_table) (key_hash : Z) : Z :=
  u32 (key_hash >>' 16) &' num_buckets_mask t.

Definition mehcached_calc_tag (key_hash : Z) : Z :=
  let tag := u16 (key_hash &' MEHCACHED_TAG_MASK) in
  if tag =? 0 then 1 else tag.

(** ** Versions and locks

    A loop that waits for another thread does not end here: [None]. *)

Definition mehcached_read_version_begin (t : mehcached_table) (b : Z) : option Z :=
  if negb (concurrent_access_mode t =? 0) then
    bk ← get_bucket t b;
    if negb (version bk &' 1 =? 0) then None else Some (version bk)
  else Some 0.

Definition mehcached_read_version_end (t : mehcached_table) (b : Z) : option Z :=
  if negb (concurrent_access_mode t =? 0) then
    bk ← get_bucket t b; Some (version bk)
  else Some 0.

Definition mehcached_lock_bucket (t : mehcached_table) (b : Z) : option mehcached_table :=
  if concurrent_access_mode t =? 1 then
    bk ← get_bucket t b;
    if negb (version bk &' 1 =? 0) then None
    else Some (set_bucket t b (set_version bk (u32 (version bk + 1))))
  else if concurrent_access_mode t =? 2 then
    bk ← get_bucket t b;
    let v := version bk &' Z.lnot 1 in
    let new_v := v |' 1 in
    if version bk =? v then Some (set_bucket t b (set_version bk new_v)) else None
  else Some t.

Definition mehcached_unlock_bucket (t : mehcached_table) (b : Z) : option mehcached_table :=
  if negb (concurrent_access_mode t =? 0) then
    bk ← get_bucket t b;
    if version bk &' 1 =? 1
    then Some (set_bucket t b (set_version bk (u32 (version bk + 1)))) else None
  else Some t.

Definition mehcached_lock_extra_bucket_free_list (t : mehcached_table) : option mehcached_table :=
  if concurrent_access_mode t =? 2 then
    if extra_lock t =? 0 then Some (set_extra t 1 (extra_head t)) else None
  else Some t.

Definition mehcached_unlock_extra_bucket_free_list (t : mehcached_table) : option mehcached_table :=
  if concurrent_access_mode t =? 2 then
    if extra_lock t &' 1 =? 1 then Some (set_extra t 0 (extra_head t)) else None
  else Some t.

(** ** Extra buckets *)

Definition mehcached_has_extra_bucket (bk : mehcached_bucket) : bool :=
  if MEHCACHED_NO_EVICTION then negb (next_extra_bucket_index bk =? 0) else false.

Definition mehcached_extra_bucket (t : mehcached_table) (extra_bucket_index : Z) : option Z :=
  if extra_bucket_index =? 0 then None
  else if extra_bucket_index <? 1 + num_extra_buckets t
  then Some (num_buckets t - 1 + extra_bucket_index) else None.

Definition mehcached_alloc_extra_bucket (t : mehcached_table) (b : Z)
    : option (bool * mehcached_table) :=
  bk ← get_bucket t b;
  if mehcached_has_extra_bucket bk then None else
  t ← mehcached_lock_extra_bucket_free_list t;
  if extra_head t =? 0 then
    t ← mehcached_unlock_extra_bucket_free_list t;
    Some (false, t)
  else
    let extra_bucket_index := extra_head t in
    e ← mehcached_extra_bucket t extra_bucket_index;
    ebk ← get_bucket t e;
    let t := set_extra t (extra_lock t) (next_extra_bucket_index ebk) in
    let t := set_bucket t e (set_next ebk 0) in
    bk ← get_bucket t b;
    let t := set_bucket t b (set_next bk extra_bucket_index) in
    t ← mehcached_unlock_extra_bucket_free_list t;
    Some (true, t).

Definition mehcached_free_extra_bucket (t : mehcached_table) (b : Z) : option mehcached_table :=
  bk ← get_bucket t b;
  if negb (mehcached_has_extra_bucket bk) then None else
  let extra_bucket_index := next_extra_bucket_index bk in
  e ← mehcached_extra_bucket t extra_bucket_index;
  ebk ← get_bucket t e;
  if negb (next_extra_bucket_index ebk =? 0) then None else
  if negb (forallb (fun v => v =? 0) (item_vec ebk)) then None else
  let t := set_bucket t b (set_next bk 0) in
  t ← mehcached_lock_extra_bucket_free_list t;
  ebk ← get_bucket t e;
  let t := set_bucket t e (set_next ebk (extra_head t)) in
  let t := set_extra t (extra_lock t) extra_bucket_index in
  mehcached_unlock_extra_bucket_free_list t.

(** The last bucket of the chain of [b] and the one before it. *)
Fixpoint last_extra (fuel : nat) (t : mehcached_table) (prev cur : Z) : option (Z * Z) :=
  bk ← get_bucket t cur;
  if mehcached_has_extra_bucket bk then
    match fuel with
    | O => None
    | S fuel' =>
        e ← mehcached_extra_bucket t (next_extra_bucket_index bk);
        last_extra fuel' t cur e
    end
  else Some (prev, cur).

(** The first index from [i] on of an item in use. *)
Fixpoint next_used (items : list Z) (i : nat) : option nat :=
  match items with
  | [] => None
  | v :: items' =>
      match i with
      | O => if negb (v =? 0) then Some O else S <$> next_used items' O
      | S i' => S <$> next_used items' i'
      end
  end.

Definition mehcached_fill_hole (t : mehcached_table) (b : Z) (unused_item_index : nat)
    : option mehcached_table :=
  bk ← get_bucket t b;
  if negb (mehcached_has_extra_bucket bk) then Some t else
  '(prev_extra_bucket, current_extra_bucket) ← last_extra (length (buckets t)) t b b;
  cur ← get_bucket t current_extra_bucket;
  (* an extra bucket in use holds an item; else moved_item_index is not set *)
  moved_item_index ← next_used (item_vec cur) 0;
  let last_item := match next_used (item_vec cur) (S moved_item_index) with
                   | Some _ => false | None => true end in
  v ← get_slot t current_extra_bucket moved_item_index;
  t ← set_slot t b unused_item_index v;
  t ← set_slot t current_extra_bucket moved_item_index 0;
  if last_item then mehcached_free_extra_bucket t prev_extra_bucket else Some t.

(** ** Searching a bucket *)

(** The first index of a bucket whose item satisfies [f]. *)
Fixpoint find_slot (f : Z -> option bool) (items : list Z) (i : nat) : option (option nat) :=
  match items with
  | [] => Some None
  | v :: items' =>
      r ← f v;
      if r : bool then Some (Some i) else find_slot f items' (S i)
  end.

(** The first bucket of a chain, and index in it, whose item satisfies [f]; the
    inner [None] stands for [MEHCACHED_ITEMS_PER_BUCKET]. *)
Fixpoint find_in_chain (fuel : nat) (f : Z -> option bool) (t : mehcached_table)
    (current_bucket : Z) : option (option (Z * nat)) :=
  bk ← get_bucket t current_bucket;
  r ← find_slot f (item_vec bk) 0;
  match r with
  | Some item_index => Some (Some (current_bucket, item_index))
  | None =>
      if mehcached_has_extra_bucket bk then
        match fuel with
        | O => None
        | S fuel' =>
            e ← mehcached_extra_bucket t (next_extra_bucket_index bk);
            find_in_chain fuel' f t e
        end
      else Some None
  end.

Definition mehcached_compare_keys (key1 : reader) (key1_len : Z) (key2 : reader) (key2_len : Z)
    : option bool :=
  if key1_len =? key2_len then mehcached_memcmp8 key1 key2 key1_len else Some false.

(** [item->data]. *)
Definition item_data (p : mehcached_pool) (item : Z) : reader := pload_bytes p (item + sizeof_item).

Definition item_matches (t : mehcached_table) (key_hash tag : Z) (key : list Z) (key_length : Z)
    (v : Z) : option bool :=
  if negb (MEHCACHED_TAG v =? tag) then Some false else
  p ← get_alloc t (MEHCACHED_ALLOC_ID v);
  let item := mehcached_pool_item p (MEHCACHED_ITEM_OFFSET v) in
  kh ← pload 8 p (item + off_key_hash);
  if negb (kh =? key_hash) then Some false else
  kv ← pload 4 p (item + off_kv_length_vec);
  mehcached_compare_keys (item_data p item) (MEHCACHED_KEY_LENGTH kv) (buf_read key) key_length.

Definition mehcached_find_item_index (t : mehcached_table) (b key_hash tag : Z) (key : list Z)
    (key_length : Z) : option (option (Z * nat)) :=
  find_in_chain (length (buckets t)) (item_matches t key_hash tag key key_length) t b.

Definition mehcached_find_same_tag (t : mehcached_table) (b tag : Z)
    : option (option (Z * nat)) :=
  find_in_chain (length (buckets t)) (fun v => Some (MEHCACHED_TAG v =? tag)) t b.

(** [for] loop of [mehcached_find_empty_or_oldest] over one bucket: [inl] the index of
    an empty item, [inr] the oldest item so far, with its distance. *)
Fixpoint oldest_slot (t : mehcached_table) (b : Z) (items : list Z) (i : nat)
    (oldest : Z * (Z * nat)) : option (nat + Z * (Z * nat)) :=
  match items with
  | [] => Some (inr oldest)
  | v :: items' =>
      if v =? 0 then Some (inl i) else
      p ← get_alloc t (MEHCACHED_ALLOC_ID v);
      let distance := u64 (pool_tail p - MEHCACHED_ITEM_OFFSET v) &' MEHCACHED_ITEM_OFFSET_MASK in
      oldest_slot t b items' (S i)
        (if oldest.1 >? distance then (distance, (b, i)) else oldest)
  end.

Fixpoint oldest_in_chain (fuel : nat) (t : mehcached_table) (b : Z) (oldest : Z * (Z * nat))
    : option (Z * nat) :=
  bk ← get_bucket t b;
  r ← oldest_slot t b (item_vec bk) 0 oldest;
  match r with
  | inl item_index => Some (b, item_index)
  | inr oldest =>
      if mehcached_has_extra_bucket bk then
        match fuel with
        | O => None
        | S fuel' =>
            e ← mehcached_extra_bucket t (next_extra_bucket_index bk);
            oldest_in_chain fuel' t e oldest
        end
      else Some oldest.2
  end.

(** The initial distance is [(uint64_t)-1]; the first item is nearer than that, so
    the bucket that goes with it is never used. *)
Definition mehcached_find_empty_or_oldest (t : mehcached_table) (b : Z) : option (Z * nat) :=
  oldest_in_chain (length (buckets t)) t b (2 ^ 64 - 1, (b, O)).

(** [mehcached_find_empty]: used when eviction is off. *)
Definition mehcached_find_empty (t : mehcached_table) (b : Z)
    : option (option (Z * nat) * mehcached_table) :=
  r ← find_in_chain (length (buckets t)) (fun v => Some (v =? 0)) t b;
  match r with
  | Some loc => Some (Some loc, t)
  | None =>
      '(_, current_bucket) ← last_extra (length (buckets t)) t b b;
      '(ok, t) ← mehcached_alloc_extra_bucket t current_bucket;
      if ok : bool then
        bk ← get_bucket t current_bucket;
        e ← mehcached_extra_bucket t (next_extra_bucket_index bk);
        Some (Some (e, O), t)
      else Some (None, t)
  end.

(** ** Items *)

Definition mehcached_set_item (p : mehcached_pool) (item key_hash : Z) (key : list Z)
    (key_length : Z) (value : list Z) (value_length expire_time : Z) : option mehcached_pool :=
  if negb (key_length <=? MEHCACHED_KEY_MASK) then None else
  if negb (value_length <=? MEHCACHED_VALUE_MASK) then None else
  p ← pstore 4 p (item + off_kv_length_vec) (MEHCACHED_KV_LENGTH_VEC key_length value_length);
  p ← pstore 8 p (item + off_key_hash) key_hash;
  p ← pstore 4 p (item + off_expire_time) expire_time;
  k ← mehcached_memcpy8 (buf_read key) key_length;
  p ← pstore_bytes p (item + sizeof_item) k;
  v ← mehcached_memcpy8 (buf_read value) value_length;
  pstore_bytes p (item + sizeof_item + MEHCACHED_ROUNDUP8 key_length) v.

Definition mehcached_set_item_value (p : mehcached_pool) (item : Z) (value : list Z)
    (value_length expire_time : Z) : option mehcached_pool :=
  if negb (value_length <=? MEHCACHED_VALUE_MASK) then None else
  kv ← pload 4 p (item + off_kv_length_vec);
  let key_length := MEHCACHED_KEY_LENGTH kv in
  p ← pstore 4 p (item + off_kv_length_vec) (MEHCACHED_KV_LENGTH_VEC key_length value_length);
  p ← pstore 4 p (item + off_expire_time) expire_time;
  v ← mehcached_memcpy8 (buf_read value) value_length;
  pstore_bytes p (item + sizeof_item + MEHCACHED_ROUNDUP8 key_length) v.

(** ** Cleaning *)

(** One bucket: items of this pool that have been overwritten are cleared. *)
Definition cleanup_items (current_alloc_id : Z) (p : mehcached_pool) (items : list Z) : list Z :=
  (fun v => if v =? 0 then v
            else if negb (MEHCACHED_ALLOC_ID v =? current_alloc_id) then v
            else if negb (mehcached_pool_is_valid p (MEHCACHED_ITEM_OFFSET v)) then 0
            else v) <$> items.

Fixpoint cleanup_chain (fuel : nat) (current_alloc_id : Z) (t : mehcached_table) (b : Z)
    : option mehcached_table :=
  bk ← get_bucket t b;
  p ← get_alloc t current_alloc_id;
  let t := set_bucket t b (set_items bk (cleanup_items current_alloc_id p (item_vec bk))) in
  if mehcached_has_extra_bucket bk then
    match fuel with
    | O => None
    | S fuel' =>
        e ← mehcached_extra_bucket t (next_extra_bucket_index bk);
        cleanup_chain fuel' current_alloc_id t e
    end
  else Some t.

Fixpoint cleanup_loop (fuel : nat) (current_alloc_id bucket_index bucket_index_end : Z)
    (t : mehcached_table) : option mehcached_table :=
  if bucket_index =? bucket_index_end then Some t else
  match fuel with
  | O => None
  | S fuel' =>
      t ← mehcached_lock_bucket t bucket_index;
      t ← cleanup_chain (length (buckets t)) current_alloc_id t bucket_index;
      t ← mehcached_unlock_bucket t bucket_index;
      cleanup_loop fuel' current_alloc_id (u64 (bucket_index + 1) &' num_buckets_mask t)
        bucket_index_end t
  end.

(** The loop visits each bucket at most once. *)
Definition mehcached_cleanup_bucket (current_alloc_id : Z) (t : mehcached_table)
    (old_tail new_tail : Z) : option mehcached_table :=
  let bucket_index := (old_tail >>' rshift t) &' num_buckets_mask t in
  let bucket_index_end := (new_tail >>' rshift t) &' num_buckets_mask t in
  cleanup_loop (Z.to_nat (num_buckets t)) current_alloc_id bucket_index bucket_index_end t.

Definition mehcached_cleanup_all (current_alloc_id : Z) (t : mehcached_table)
    : option mehcached_table :=
  t ← mehcached_cleanup_bucket current_alloc_id t 0 (u64 (1 <<' rshift t));
  mehcached_cleanup_bucket current_alloc_id t (u64 (1 <<' rshift t)) 0.

(** ** Operations *)

(** What [mehcached_get] returns: the result, the buffer [out_value], which is
    written also when the item turns out to be stale, the length and the expiry time
    when found. *)
Record get_out := GetOut {
  found : bool;
  out_value : list Z;
  out_length : Z;
  out_expire_time : option Z }.

(** The part of [mehcached_get] after the value has been read: an item far from the
    tail is copied to the tail, header included. *)
Definition move_to_head (current_alloc_id : Z) (t : mehcached_table) (b : Z) (loc : Z * nat)
    (iv item_size : Z) : option mehcached_table :=
  let item_offset := MEHCACHED_ITEM_OFFSET iv in
  p ← get_alloc t current_alloc_id;
  let distance_from_tail := u64 (pool_tail p - item_offset) &' pool_mask p in
  if distance_from_tail >? mth_threshold t then
    t ← mehcached_lock_bucket t b;
    p ← mehcached_pool_lock p;
    cur ← get_slot t loc.1 loc.2;
    if cur =? iv then
      '(new_item_offset, p) ← mehcached_pool_allocate p item_size;
      let new_tail := pool_tail p in
      '(p, t) ←
        (if mehcached_pool_is_valid p item_offset then
           let item := mehcached_pool_item p item_offset in
           let new_item := mehcached_pool_item p new_item_offset in
           bs ← mehcached_memcpy8 (pload_bytes p item) item_size;
           p ← pstore_bytes p new_item bs;
           t ← set_slot t loc.1 loc.2
                 (MEHCACHED_ITEM_VEC (MEHCACHED_TAG iv) current_alloc_id new_item_offset);
           Some (p, t)
         else Some (p, t));
      p ← mehcached_pool_unlock p;
      let t := set_alloc t current_alloc_id p in
      t ← mehcached_unlock_bucket t b;
      mehcached_cleanup_bucket current_alloc_id t new_item_offset new_tail
    else
      p ← mehcached_pool_unlock p;
      let t := set_alloc t current_alloc_id p in
      mehcached_unlock_bucket t b
  else Some t.

(** One iteration of the loop of [mehcached_get]; the inner [None] is [continue],
    taken when the version of the bucket has changed. *)
Definition get_attempt (current_alloc_id : Z) (t : mehcached_table) (key_hash : Z)
    (key : list Z) (key_length : Z) (out_buf : list Z) (in_length : Z) (readonly : bool)
    : option (option (get_out * mehcached_table)) :=
  let bucket := mehcached_calc_bucket_index t key_hash in
  let tag := mehcached_calc_tag key_hash in
  version_start ← mehcached_read_version_begin t bucket;
  r ← mehcached_find_item_index t bucket key_hash tag key key_length;
  match r with
  | None =>
      version_end ← mehcached_read_version_end t bucket;
      if negb (version_start =? version_end) then Some None
      else Some (Some (GetOut false out_buf in_length None, t))
  | Some loc =>
      iv ← get_slot t loc.1 loc.2;
      let item_offset := MEHCACHED_ITEM_OFFSET iv in
      let alloc_id := MEHCACHED_ALLOC_ID iv in
      let alloc_id := if alloc_id >=? alloc_id_mask t + 1 then 0 else alloc_id in
      p ← get_alloc t alloc_id;
      let item := mehcached_pool_item p item_offset in
      expire_time ← pload 4 p (item + off_expire_time);
      kv ← pload 4 p (item + off_kv_length_vec);
      let key_length := Z.min (MEHCACHED_KEY_LENGTH kv) MEHCACHED_MAX_KEY_LENGTH in
      let value_length := Z.min (MEHCACHED_VALUE_LENGTH kv) MEHCACHED_MAX_VALUE_LENGTH in
      let item_size :=
        u32 (sizeof_item + MEHCACHED_ROUNDUP8 key_length + MEHCACHED_ROUNDUP8 value_length) in
      let value_length := if value_length >? in_length then in_length else value_length in
      v ← mehcached_memcpy8
            (pload_bytes p (item + sizeof_item + MEHCACHED_ROUNDUP8 key_length)) value_length;
      out_buf ← buf_write out_buf v;
      version_end ← mehcached_read_version_end t bucket;
      if negb (mehcached_pool_is_valid p item_offset) then
        if negb (version_start =? version_end) then Some None else
        t ← (if readonly then Some t else
               t ← mehcached_lock_bucket t bucket;
               t ← set_slot t loc.1 loc.2 0;
               mehcached_unlock_bucket t bucket);
        Some (Some (GetOut false out_buf in_length None, t))
      else if negb (version_start =? version_end) then Some None
      else if value_length >? 1500 then None
      else
        t ← (if negb readonly && (alloc_id =? current_alloc_id)
             then move_to_head current_alloc_id t bucket loc iv item_size else Some t);
        Some (Some (GetOut true out_buf value_length (Some expire_time), t))
  end.

(** [while (true) { ... }]; with nobody else at work one iteration is enough. *)
Fixpoint get_loop (fuel : nat) (current_alloc_id : Z) (t : mehcached_table) (key_hash : Z)
    (key : list Z) (key_length : Z) (out_buf : list Z) (in_length : Z) (readonly : bool)
    : option (get_out * mehcached_table) :=
  match fuel with
  | O => None
  | S fuel' =>
      r ← get_attempt current_alloc_id t key_hash key key_length out_buf in_length readonly;
      match r with
      | Some res => Some res
      | None => get_loop fuel' current_alloc_id t key_hash key key_length out_buf in_length readonly
      end
  end.

Definition mehcached_get (current_alloc_id : Z) (t : mehcached_table) (key_hash : Z)
    (key : list Z) (key_length : Z) (out_buf : list Z) (in_length : Z) (readonly : bool)
    : option (get_out * mehcached_table) :=
  if negb (key_length <=? MEHCACHED_MAX_KEY_LENGTH) then None else
  get_loop 1 current_alloc_id t key_hash key key_length out_buf in_length readonly.

Definition mehcached_test (t : mehcached_table) (key_hash : Z) (key : list Z) (key_length : Z)
    : option bool :=
  if negb (key_length <=? MEHCACHED_MAX_KEY_LENGTH) then None else
  let bucket := mehcached_calc_bucket_index t key_hash in
  let tag := mehcached_calc_tag key_hash in
  version_start ← mehcached_read_version_begin t bucket;
  r ← mehcached_find_item_index t bucket key_hash tag key key_length;
  version_end ← mehcached_read_version_end t bucket;
  (* a changed version would mean another attempt *)
  if negb (version_start =? version_end) then None
  else Some (match r with Some _ => true | None => false end).

(** The in-place update of [mehcached_set]: [None] inside when it does not apply. *)
Definition set_inplace (current_alloc_id : Z) (p : mehcached_pool) (iv : Z) (value : list Z)
    (value_length expire_time new_item_size : Z) : option (option mehcached_pool) :=
  let item_offset := MEHCACHED_ITEM_OFFSET iv in
  if MEHCACHED_ALLOC_ID iv =? current_alloc_id then
    let item := mehcached_pool_item p item_offset in
    if mehcached_pool_is_valid p item_offset then
      old_size ← pload 8 p item;
      if old_size >=? new_item_size then
        p ← mehcached_set_item_value p item value value_length expire_time;
        Some (Some p)
      else Some None
    else Some None
  else Some None.

(** The second half of [mehcached_set]: the item is written at the tail of the log and
    entered in the slot [loc].  The bucket and the pool [p] are locked. *)
Definition store_new (current_alloc_id : Z) (t : mehcached_table) (p : mehcached_pool)
    (bucket : Z) (loc : Z * nat) (key_hash : Z) (key : list Z) (key_length : Z)
    (value : list Z) (value_length expire_time : Z) : option mehcached_table :=
  let tag := mehcached_calc_tag key_hash in
  let new_item_size :=
    u32 (sizeof_item + MEHCACHED_ROUNDUP8 key_length + MEHCACHED_ROUNDUP8 value_length) in
  '(new_item_offset, p) ← mehcached_pool_allocate p new_item_size;
  let new_tail := pool_tail p in
  let new_item := mehcached_pool_item p new_item_offset in
  p ← mehcached_set_item p new_item key_hash key key_length value value_length expire_time;
  p ← mehcached_pool_unlock p;
  let t := set_alloc t current_alloc_id p in
  t ← set_slot t loc.1 loc.2 (MEHCACHED_ITEM_VEC tag current_alloc_id new_item_offset);
  t ← mehcached_unlock_bucket t bucket;
  mehcached_cleanup_bucket current_alloc_id t new_item_offset new_tail.

Definition mehcached_set (current_alloc_id : Z) (t : mehcached_table) (key_hash : Z)
    (key : list Z) (key_length : Z) (value : list Z) (value_length expire_time : Z)
    (overwrite : bool) : option (bool * mehcached_table) :=
  if negb (key_length <=? MEHCACHED_MAX_KEY_LENGTH) then None else
  if negb (value_length <=? MEHCACHED_MAX_VALUE_LENGTH) then None else
  let bucket := mehcached_calc_bucket_index t key_hash in
  let tag := mehcached_calc_tag key_hash in
  t ← mehcached_lock_bucket t bucket;
  r ← mehcached_find_item_index t bucket key_hash tag key key_length;
  if (match r with Some _ => true | None => false end) && negb overwrite then
    t ← mehcached_unlock_bucket t bucket;
    Some (false, t)
  else
    '(overwriting, loc) ←
      (match r with
       | Some loc => Some (true, loc)
       | None =>
           r ← mehcached_find_same_tag t bucket tag;
           match r with
           | Some loc => Some (false, loc)
           | None => loc ← mehcached_find_empty_or_oldest t bucket; Some (false, loc)
           end
       end);
    let new_item_size :=
      u32 (sizeof_item + MEHCACHED_ROUNDUP8 key_length + MEHCACHED_ROUNDUP8 value_length) in
    p ← get_alloc t current_alloc_id;
    p ← mehcached_pool_lock p;
    iv ← get_slot t loc.1 loc.2;
    inplace ← (if overwriting : bool
               then set_inplace current_alloc_id p iv value value_length expire_time new_item_size
               else Some None);
    match inplace with
    | Some p =>
        p ← mehcached_pool_unlock p;
        t ← mehcached_unlock_bucket (set_alloc t current_alloc_id p) bucket;
        Some (true, t)
    | None =>
        t ← store_new current_alloc_id t p bucket loc key_hash key key_length value value_length
              expire_time;
        Some (true, t)
    end.

Definition mehcached_delete (t : mehcached_table) (key_hash : Z) (key : list Z) (key_length : Z)
    : option (bool * mehcached_table) :=
  if negb (key_length <=? MEHCACHED_MAX_KEY_LENGTH) then None else
  let bucket := mehcached_calc_bucket_index t key_hash in
  let tag := mehcached_calc_tag key_hash in
  t ← mehcached_lock_bucket t bucket;
  r ← mehcached_find_item_index t bucket key_hash tag key key_length;
  match r with
  | None =>
      t ← mehcached_unlock_bucket t bucket;
      Some (false, t)
  | Some loc =>
      t ← set_slot t loc.1 loc.2 0;
      t ← mehcached_fill_hole t loc.1 loc.2;
      t ← mehcached_unlock_bucket t bucket;
      Some (true, t)
  end.

(** The result is the new value when the increment took place. *)
Definition mehcached_increment (current_alloc_id : Z) (t : mehcached_table) (key_hash : Z)
    (key : list Z) (key_length increment expire_time : Z)
    : option (option Z * mehcached_table) :=
  if negb (key_length <=? MEHCACHED_MAX_KEY_LENGTH) then None else
  let bucket := mehcached_calc_bucket_index t key_hash in
  let tag := mehcached_calc_tag key_hash in
  t ← mehcached_lock_bucket t bucket;
  r ← mehcached_find_item_index t bucket key_hash tag key key_length;
  match r with
  | None => t ← mehcached_unlock_bucket t bucket; Some (None, t)
  | Some loc =>
      iv ← get_slot t loc.1 loc.2;
      if negb (current_alloc_id =? MEHCACHED_ALLOC_ID iv) then
        t ← mehcached_unlock_bucket t bucket; Some (None, t)
      else
        let item_offset := MEHCACHED_ITEM_OFFSET iv in
        p ← get_alloc t current_alloc_id;
        p ← mehcached_pool_lock p;
        '(res, p) ←
          (if negb (mehcached_pool_is_valid p item_offset) then Some (None, p) else
           let item := mehcached_pool_item p item_offset in
           kv ← pload 4 p (item + off_kv_length_vec);
           if negb (MEHCACHED_VALUE_LENGTH kv =? 8) then Some (None, p) else
           let value := item + sizeof_item + MEHCACHED_ROUNDUP8 key_length in
           old_value ← pload 8 p value;
           let new_value := u64 (old_value + increment) in
           p ← pstore 8 p value new_value;
           p ← pstore 4 p (item + off_expire_time) expire_time;
           Some (Some new_value, p));
        p ← mehcached_pool_unlock p;
        t ← mehcached_unlock_bucket (set_alloc t current_alloc_id p) bucket;
        Some (res, t)
  end.

(** ** Set-up *)

(** [memset(table->buckets, 0, ...)]. *)
Definition empty_bucket : mehcached_bucket := Bucket 0 0 (replicate MEHCACHED_ITEMS_PER_BUCKET 0).
Definition zero_buckets (n : Z) : list mehcached_bucket := replicate (Z.to_nat n) empty_bucket.

(** [for (i = 1; i < 1 + num_extra_buckets - 1; i++) extra_buckets[i].next = i + 1;]
    and the last one, whose successor is 0. *)
Fixpoint link_extra (n : nat) (t : mehcached_table) (i : Z) : option mehcached_table :=
  e ← mehcached_extra_bucket t i;
  bk ← get_bucket t e;
  match n with
  | O => Some (set_bucket t e (set_next bk 0))
  | S n' => link_extra n' (set_bucket t e (set_next bk (i + 1))) (i + 1)
  end.

(** [for] loop of [mehcached_table_reset] over the pools. *)
Fixpoint reset_pools (n : nat) (t : mehcached_table) (alloc_id : Z) : option mehcached_table :=
  match n with
  | O => Some t
  | S n' =>
      p ← get_alloc t alloc_id;
      p ← mehcached_pool_lock p;
      p ← mehcached_pool_unlock (mehcached_pool_reset p);
      reset_pools n' (set_alloc t alloc_id p) (alloc_id + 1)
  end.

Definition mehcached_table_reset (t : mehcached_table) : option mehcached_table :=
  let t := Table (alloc t) (alloc_id_mask t) (mth_threshold t)
    (zero_buckets (num_buckets t + num_extra_buckets t))
    (concurrent_access_mode t) (num_buckets t) (num_buckets_mask t) (num_extra_buckets t)
    (extra_lock t) (extra_head t) (rshift t) in
  t ← (if num_extra_buckets t =? 0 then Some (set_extra t (extra_lock t) 0)
       else t ← link_extra (Z.to_nat (num_extra_buckets t - 1)) t 1;
            Some (set_extra t (extra_lock t) 1));
  reset_pools (Z.to_nat (alloc_id_mask t + 1)) t 0.

(** [while (((OFFSET_MASK + 1) >> 1 >> rshift) > num_buckets) rshift++;] *)
Fixpoint rshift_loop (fuel : nat) (n r : Z) : option Z :=
  if ((MEHCACHED_ITEM_OFFSET_MASK + 1) >>' 1) >>' r >? n then
    match fuel with O => None | S fuel' => rshift_loop fuel' n (r + 1) end
  else Some r.

(** [while (((size_t)1 << log) < num_buckets) log++;] *)
Fixpoint log_loop (fuel : nat) (n log : Z) : option Z :=
  if u64 (1 <<' log) <? n then
    match fuel with O => None | S fuel' => log_loop fuel' n (log + 1) end
  else Some log.

(** The shared-memory allocations are taken to succeed; [contents] is what the pages
    of the pool hold.  [mth_num / mth_den] is the [double] [mth_threshold]. *)
Definition mehcached_table_init (contents : gmap Z Z) (n num_pools pool_sz : Z)
    (concurrent_table_read concurrent_table_write concurrent_alloc_write : bool)
    (mth_num mth_den : Z) : option mehcached_table :=
  if negb (n >? 0) then None else
  if negb (num_pools =? 1) then None else
  log_num_buckets ← log_loop 63 n 0;
  let n := u64 (1 <<' log_num_buckets) in
  if negb (log_num_buckets <=? 32) then None else
  let nb := u32 n in
  let nb_mask := u32 (u32 n - 1) in
  let num_extra := if MEHCACHED_NO_EVICTION then nb / 10 else 0 in
  let mode := if negb concurrent_table_read then 0
              else if negb concurrent_table_write then 1 else 2 in
  num_pools ← mehcached_next_power_of_two num_pools;
  p ← mehcached_pool_init contents pool_sz concurrent_table_read concurrent_alloc_write;
  rs ← rshift_loop 64 nb 0;
  mehcached_table_reset
    (Table [p] (num_pools - 1) (pool_size p * mth_num / mth_den) (zero_buckets (nb + num_extra))
       mode nb nb_mask num_extra 0 0 rs).

(** [mehcached_table_free] resets the table and unmaps its memory. *)
Definition mehcached_table_free (t : mehcached_table) : option unit :=
  _ ← mehcached_table_reset t; Some tt.
