(* ===== verification/MicaSpec.v ===== *)
(** * MICA as a lossy map

    The table of [MicaTable] implements a cache: what it returns for a key is what was
    last stored under it, or nothing.  The invariant, its preservation by every
    operation, and the refinement of an abstract lossy map. *)
From S2P Require Import Prelude PoolAlloc MicaTable.

(** ** Packed words *)

Lemma item_vec_val tag o :
  0 <= tag < 2 ^ 16 ->
  MEHCACHED_ITEM_VEC tag 0 (o mod 2 ^ 40) = tag * 2 ^ 48 + o mod 2 ^ 40.
Proof.
  intros Ht. pose proof (Z.mod_pos_bound o (2 ^ 40) ltac:(lia)).
  unfold MEHCACHED_ITEM_VEC. rewrite u64_id.
  - apply lor_shiftl. lia.
  - rewrite Z.shiftl_mul_pow2 by lia. lia.
Qed.

Lemma item_vec_fields tag o :
  0 <= tag < 2 ^ 16 ->
  let v := MEHCACHED_ITEM_VEC tag 0 (o mod 2 ^ 40) in
  MEHCACHED_TAG v = tag /\ MEHCACHED_ITEM_OFFSET v = o mod 2 ^ 40 /\ (0 < tag -> v <> 0).
Proof.
  intros Ht v. unfold v. rewrite item_vec_val by done.
  pose proof (Z.mod_pos_bound o (2 ^ 40) ltac:(lia)).
  unfold MEHCACHED_TAG, MEHCACHED_ITEM_OFFSET.
  change MEHCACHED_ITEM_OFFSET_MASK with (2 ^ 40 - 1). rewrite land_mask by lia.
  rewrite Z.shiftr_div_pow2 by lia. split; [|split; [|lia]].
  - rewrite Z.div_add_l by lia. rewrite (Z.div_small (o mod 2 ^ 40)); lia.
  - change (2 ^ 48) with (2 ^ 8 * 2 ^ 40). rewrite Z.mul_assoc, Z.add_comm, Z.mod_add by lia.
    apply Zmod_mod.
Qed.

Lemma kv_fields k v :
  0 <= k <= 255 -> 0 <= v < 2 ^ 24 ->
  let w := MEHCACHED_KV_LENGTH_VEC k v in
  MEHCACHED_KEY_LENGTH w = k /\ MEHCACHED_VALUE_LENGTH w = v /\ 0 <= w < 2 ^ 32.
Proof.
  intros Hk Hv w. assert (w = k * 2 ^ 24 + v) as ->.
  { unfold w, MEHCACHED_KV_LENGTH_VEC. rewrite (wrap_small 32 v) by lia.
    rewrite wrap_small by (rewrite Z.shiftl_mul_pow2 by lia; lia). apply lor_shiftl. lia. }
  unfold MEHCACHED_KEY_LENGTH, MEHCACHED_VALUE_LENGTH.
  change MEHCACHED_VALUE_MASK with (2 ^ 24 - 1). rewrite land_mask by lia.
  rewrite Z.shiftr_div_pow2, Z.div_add_l by lia. rewrite (Z.div_small v) by lia.
  rewrite (Z.add_comm (k * 2 ^ 24)), Z.mod_add, Z.mod_small by lia. lia.
Qed.

Lemma calc_tag_range h : 0 < mehcached_calc_tag h < 2 ^ 16.
Proof.
  unfold mehcached_calc_tag. pose proof (wrap_range 16 (h &' MEHCACHED_TAG_MASK) ltac:(lia)).
  destruct (Z.eqb_spec (u16 (h &' MEHCACHED_TAG_MASK)) 0); lia.
Qed.

(** ** Writes within a range of the log *)

(** [patched p p' a n]: [p'] is [p] with other bytes in the ring positions of
    [a, a+n) only. *)
Definition patched (p p' : mehcached_pool) (a n : Z) : Prop :=
  p' = pool_set_data p (pool_data p') /\
  forall x, (forall y, a <= y < a + n -> y mod pool_size p <> x mod pool_size p) ->
    rd p' x = rd p x.

Lemma patched_refl p a n : patched p p a n.
Proof. split; [by destruct p|done]. Qed.

Lemma patched_size p p' a n : patched p p' a n -> pool_size p' = pool_size p.
Proof. intros [Hp _]. by rewrite Hp. Qed.

Lemma patched_log_write p a bs :
  0 < pool_size p -> Z.of_nat (length bs) <= pool_size p ->
  patched p (log_write p a bs) a (Z.of_nat (length bs)).
Proof.
  intros ? Hl. split; [done|]. intros x Hx.
  set (x' := a + (x - a) mod pool_size p).
  assert (x' mod pool_size p = x mod pool_size p) as He.
  { unfold x'. rewrite Zplus_mod_idemp_r. f_equal. lia. }
  pose proof (Z.mod_pos_bound (x - a) (pool_size p) ltac:(lia)).
  rewrite <- (rd_mod p), <- He, rd_mod.
  change (pool_size p) with (pool_size (log_write p a bs)) in He.
  rewrite <- (rd_mod (log_write p a bs)), <- He, rd_mod.
  assert (~ x' < a + Z.of_nat (length bs)).
  { intros ?. apply (Hx x'); [unfold x' in *; lia|done]. }
  rewrite rd_log_write, decide_False by (unfold x' in *; lia). done.
Qed.

Lemma patched_sub p p' a n b m :
  patched p p' a n -> b <= a -> a + n <= b + m -> patched p p' b m.
Proof. intros [Hp Hx] ??. split; [done|]. intros x Hr. apply Hx. intros y ?. apply Hr. lia. Qed.

Lemma patched_trans p p1 p2 a n :
  patched p p1 a n -> patched p1 p2 a n -> patched p p2 a n.
Proof.
  intros [Hp H1] [Hp1 H2]. assert (pool_size p1 = pool_size p) as Hs by (by rewrite Hp).
  split; [rewrite Hp1, Hp; done|]. intros x Hx. rewrite H2 by (by rewrite Hs). by apply H1.
Qed.

Lemma patched_geom p p' a n : patched p p' a n -> pool_geom p -> pool_geom p'.
Proof. intros [Hp _] [? ? ?]. rewrite Hp. by split. Qed.

(** Disjoint in the ring. *)
Lemma patched_bytes p p' a n o m :
  patched p p' a n ->
  a + n <= o /\ o + m <= a + pool_size p \/ o + m <= a /\ a + n <= o + pool_size p ->
  log_bytes p' o m = log_bytes p o m.
Proof.
  intros [_ Hx] Hd. apply log_bytes_ext. intros i Hi. apply Hx. intros y Hy.
  destruct Hd as [[]|[]].
  - apply mod_neq. lia.
  - apply not_eq_sym, mod_neq. lia.
Qed.

(** A store at an item, [d] bytes from its start. *)
Lemma pstore_item p o d bs :
  pool_geom p -> 0 <= d -> d + Z.of_nat (length bs) <= MB2 ->
  exists p', pstore_bytes p (mehcached_pool_item p (o mod 2 ^ 40) + d) bs = Some p' /\
    patched p p' (o + d) (Z.of_nat (length bs)) /\
    log_bytes p' (o + d) (Z.of_nat (length bs)) = bs.
Proof.
  intros Hg Hd Hl. pose proof (geom_bounds p Hg).
  rewrite pstore_bytes_item by done. eexists. split; [done|]. split.
  - apply patched_log_write; lia.
  - apply log_bytes_written; lia.
Qed.

Lemma patched_item p p' a n o :
  patched p p' a n -> mehcached_pool_item p' o = mehcached_pool_item p o.
Proof. intros [Hp _]. by rewrite Hp. Qed.

Lemma pload_item p o d n :
  pool_geom p -> 0 <= d -> d + n <= MB2 ->
  pload n p (mehcached_pool_item p (o mod 2 ^ 40) + d) = Some (le_value (log_bytes p (o + d) n)).
Proof. intros. unfold pload. by rewrite pload_bytes_item. Qed.

(** ** Items *)

(** A key, or a value, is its bytes, padded to a multiple of eight, and its length. *)
Abbreviation bytestring := (list Z * Z)%type.

Definition padded (buf : list Z) (len : Z) : bytestring :=
  (take (Z.to_nat (MEHCACHED_ROUNDUP8 len)) buf, len).

Lemma roundup_key klen :
  0 <= klen <= MEHCACHED_MAX_KEY_LENGTH -> klen <= MEHCACHED_ROUNDUP8 klen <= 256.
Proof. unfold MEHCACHED_MAX_KEY_LENGTH. intros. rewrite roundup8_val by lia. zlia. Qed.

(** The size of the item of a key and a value. *)
Definition item_bytes (klen vlen : Z) : Z :=
  sizeof_item + MEHCACHED_ROUNDUP8 klen + MEHCACHED_ROUNDUP8 vlen.

Definition lengths_ok (klen vlen : Z) : Prop :=
  0 <= klen <= MEHCACHED_MAX_KEY_LENGTH /\ 0 <= vlen <= MEHCACHED_MAX_VALUE_LENGTH.

(** [buf] has room for [len] bytes and their padding. *)
Definition buf_ok (buf : list Z) (len : Z) : Prop :=
  MEHCACHED_ROUNDUP8 len <= Z.of_nat (length buf).

Lemma item_bytes_bounds klen vlen :
  lengths_ok klen vlen ->
  24 <= item_bytes klen vlen <= 1048856 /\ item_bytes klen vlen mod 8 = 0 /\
  klen <= MEHCACHED_ROUNDUP8 klen <= 256 /\ vlen <= MEHCACHED_ROUNDUP8 vlen <= 1048576.
Proof.
  unfold lengths_ok, item_bytes, sizeof_item, MEHCACHED_MAX_KEY_LENGTH,
    MEHCACHED_MAX_VALUE_LENGTH. intros [Hk Hv].
  rewrite !roundup8_val by lia. zlia.
Qed.

(** The item at log offset [o], of size [n], holds the key [K] and the value [V]. *)
Record item_at (p : mehcached_pool) (o n kh : Z) (K V : bytestring) : Prop := {
  it_kv : le_value (log_bytes p (o + 8) 4) = MEHCACHED_KV_LENGTH_VEC K.2 V.2;
  it_hash : le_value (log_bytes p (o + 16) 8) = kh;
  it_key : log_bytes p (o + 24) (MEHCACHED_ROUNDUP8 K.2) = K.1;
  it_value : log_bytes p (o + 24 + MEHCACHED_ROUNDUP8 K.2) (MEHCACHED_ROUNDUP8 V.2) = V.1;
  it_lens : lengths_ok K.2 V.2;
  it_size : item_bytes K.2 V.2 <= n <= MB2 }.

Lemma item_at_frame p p' a m o n kh K V :
  patched p p' a m -> item_at p o n kh K V ->
  a + m <= o /\ o + n <= a + pool_size p \/ o + n <= a /\ a + m <= o + pool_size p ->
  item_at p' o n kh K V.
Proof.
  intros Hp [Hkv Hh Hk Hv Hl Hs] Hd.
  destruct (item_bytes_bounds _ _ Hl) as (? & ? & ? & ?).
  unfold item_bytes, sizeof_item in *. destruct Hl as [Hl1 Hl2].
  split; rewrite ?(patched_bytes p p' a m) by (done || lia); done.
Qed.

Lemma buf_read_padded buf len :
  buf_ok buf len -> mehcached_memcpy8 (buf_read buf) len = Some (padded buf len).1.
Proof. intros. unfold mehcached_memcpy8, buf_read. rewrite decide_True; [done|]. unfold buf_ok in *. lia. Qed.

Lemma padded_length buf len :
  buf_ok buf len -> 0 <= MEHCACHED_ROUNDUP8 len ->
  Z.of_nat (length (padded buf len).1) = MEHCACHED_ROUNDUP8 len.
Proof. intros. unfold padded, buf_ok in *. simpl. rewrite length_take. lia. Qed.

(** One store of the code: rewrite it, name the new pool and keep its geometry. *)
Ltac step_store p' Hp Hb o d :=
  match goal with
  | |- context [pstore_bytes ?q _ ?bs] =>
      match goal with
      | Hg : pool_geom q |- _ =>
          destruct (pstore_item q o d bs Hg) as (p' & -> & Hp & Hb);
          [ cbn; rewrite ?le_bytes_length; lia | rewrite ?le_bytes_length; lia
          | cbn [mbind option_bind];
            pose proof (patched_geom _ _ _ _ Hp Hg); rewrite ?le_bytes_length in Hp, Hb ]
      end
  end.

Lemma le_value_stored bs n v :
  bs = le_bytes n v -> 0 <= v < 2 ^ (8 * Z.of_nat n) -> le_value bs = v.
Proof. intros -> Hv. rewrite le_value_bytes. by apply Z.mod_small. Qed.

Lemma set_item_spec p o kh key klen value vlen expire :
  pool_geom p -> lengths_ok klen vlen -> buf_ok key klen -> buf_ok value vlen ->
  0 <= kh < 2 ^ 64 ->
  exists p', mehcached_set_item p (mehcached_pool_item p (o mod 2 ^ 40)) kh key klen value vlen
      expire = Some p' /\
    patched p p' (o + 8) (item_bytes klen vlen - 8) /\
    item_at p' o (item_bytes klen vlen) kh (padded key klen) (padded value vlen).
Proof.
  intros Hg Hlen Hk Hv Hkh. destruct (item_bytes_bounds _ _ Hlen) as (? & ? & ? & ?).
  pose proof (geom_bounds p Hg) as Hsz. pose proof Hlen as [[? Hkl] [? Hvl]].
  unfold MEHCACHED_MAX_KEY_LENGTH, MEHCACHED_MAX_VALUE_LENGTH in *.
  pose proof (padded_length key klen Hk ltac:(lia)) as Hpk.
  pose proof (padded_length value vlen Hv ltac:(lia)) as Hpv.
  destruct (kv_fields klen vlen ltac:(lia) ltac:(lia)) as (_ & _ & Hkv).
  unfold mehcached_set_item, pstore, off_kv_length_vec, off_key_hash, off_expire_time, item_bytes,
    sizeof_item in *.
  change MEHCACHED_KEY_MASK with 255. change MEHCACHED_VALUE_MASK with 16777215.
  rewrite !(proj2 (Z.leb_le _ _)) by lia. cbn [negb].
  step_store p1 Hp1 Hb1 o 8. rewrite <- (patched_item _ _ _ _ _ Hp1).
  step_store p2 Hp2 Hb2 o 16. rewrite <- (patched_item _ _ _ _ _ Hp2).
  step_store p3 Hp3 Hb3 o 12. rewrite <- (patched_item _ _ _ _ _ Hp3).
  rewrite (buf_read_padded key klen) by done. cbn [mbind option_bind].
  step_store p4 Hp4 Hb4 o 24. rewrite <- (patched_item _ _ _ _ _ Hp4).
  rewrite (buf_read_padded value vlen) by done. cbn [mbind option_bind].
  rewrite <- Z.add_assoc. step_store p5 Hp5 Hb5 o (24 + MEHCACHED_ROUNDUP8 klen).
  rewrite ?Hpk, ?Hpv, ?Z.add_assoc in *.
  pose proof (patched_size _ _ _ _ Hp1). pose proof (patched_size _ _ _ _ Hp2).
  pose proof (patched_size _ _ _ _ Hp3). pose proof (patched_size _ _ _ _ Hp4).
  exists p5. split; [done|]. split.
  { eapply patched_trans; [eapply patched_trans; [eapply patched_trans; [eapply patched_trans|]|]|];
      (eapply patched_sub; [eassumption|simpl; lia..]). }
  split; unfold padded; cbn [fst snd]; [| | | |done|unfold item_bytes, sizeof_item; lia].
  - rewrite (patched_bytes _ _ _ _ _ _ Hp5), (patched_bytes _ _ _ _ _ _ Hp4),
      (patched_bytes _ _ _ _ _ _ Hp3), (patched_bytes _ _ _ _ _ _ Hp2) by (simpl; lia).
    by eapply le_value_stored; [apply Hb1|].
  - rewrite (patched_bytes _ _ _ _ _ _ Hp5), (patched_bytes _ _ _ _ _ _ Hp4),
      (patched_bytes _ _ _ _ _ _ Hp3) by (simpl; lia).
    by eapply le_value_stored; [apply Hb2|].
  - by rewrite (patched_bytes _ _ _ _ _ _ Hp5) by lia.
  - done.
Qed.

Lemma set_item_value_spec p o n kh K V value vlen expire :
  pool_geom p -> item_at p o n kh K V -> lengths_ok K.2 vlen -> buf_ok value vlen ->
  item_bytes K.2 vlen <= n ->
  exists p', mehcached_set_item_value p (mehcached_pool_item p (o mod 2 ^ 40)) value vlen expire =
      Some p' /\
    patched p p' (o + 8) (n - 8) /\ item_at p' o n kh K (padded value vlen).
Proof.
  intros Hg [Hkv Hh Hkey Hval Hlen0 Hsz] Hlen Hv Hn.
  destruct (item_bytes_bounds _ _ Hlen) as (? & ? & ? & ?).
  destruct (item_bytes_bounds _ _ Hlen0) as (? & ? & ? & ?).
  pose proof (geom_bounds p Hg) as Hps. pose proof Hlen as [[? Hkl] [? Hvl]].
  destruct Hlen0 as [_ [? Hvl0]].
  unfold MEHCACHED_MAX_KEY_LENGTH, MEHCACHED_MAX_VALUE_LENGTH in *.
  pose proof (padded_length value vlen Hv ltac:(lia)) as Hpv.
  destruct (kv_fields K.2 V.2 ltac:(lia) ltac:(lia)) as (Hkl0 & _ & _).
  destruct (kv_fields K.2 vlen ltac:(lia) ltac:(lia)) as (_ & _ & Hkv').
  unfold mehcached_set_item_value, pstore, off_kv_length_vec, off_expire_time, item_bytes,
    sizeof_item in *.
  change MEHCACHED_VALUE_MASK with 16777215.
  rewrite !(proj2 (Z.leb_le _ _)) by lia. cbn [negb].
  rewrite pload_item by (done || lia). cbn [mbind option_bind]. rewrite Hkv, Hkl0.
  step_store p1 Hp1 Hb1 o 8. rewrite <- (patched_item _ _ _ _ _ Hp1).
  step_store p3 Hp3 Hb3 o 12. rewrite <- (patched_item _ _ _ _ _ Hp3).
  rewrite (buf_read_padded value vlen) by done. cbn [mbind option_bind].
  rewrite <- Z.add_assoc. step_store p5 Hp5 Hb5 o (24 + MEHCACHED_ROUNDUP8 K.2).
  rewrite ?Hpv, ?Z.add_assoc in *.
  pose proof (patched_size _ _ _ _ Hp1). pose proof (patched_size _ _ _ _ Hp3).
  exists p5. split; [done|]. split.
  { eapply patched_trans; [eapply patched_trans|];
      (eapply patched_sub; [eassumption|simpl; lia..]). }
  split; unfold padded; cbn [fst snd]; [| | | |done|unfold item_bytes, sizeof_item; lia].
  - rewrite (patched_bytes _ _ _ _ _ _ Hp5), (patched_bytes _ _ _ _ _ _ Hp3) by (simpl; lia).
    by eapply le_value_stored; [apply Hb1|].
  - by rewrite (patched_bytes _ _ _ _ _ _ Hp5), (patched_bytes _ _ _ _ _ _ Hp3),
      (patched_bytes _ _ _ _ _ _ Hp1) by (simpl; lia).
  - by rewrite (patched_bytes _ _ _ _ _ _ Hp5), (patched_bytes _ _ _ _ _ _ Hp3),
      (patched_bytes _ _ _ _ _ _ Hp1) by (simpl; lia).
  - done.
Qed.

(** ** Searching *)

Lemma find_slot_spec f items : forall i,
  (forall v, v ∈ items -> is_Some (f v)) ->
  exists r, find_slot f items i = Some r /\
    match r with
    | Some j => exists v, (i <= j)%nat /\ items !! (j - i)%nat = Some v /\ f v = Some true
    | None => forall v, v ∈ items -> f v = Some false
    end.
Proof.
  induction items as [|v items IH]; intros i Hf; simpl.
  { exists None. split; [done|]. intros v Hv. by apply elem_of_nil in Hv. }
  destruct (Hf v) as [b Hb]; [set_solver|]. rewrite Hb. cbn [mbind option_bind].
  destruct b.
  { exists (Some i). split; [done|]. exists v. by rewrite Nat.sub_diag. }
  destruct (IH (S i)) as (r & Hr & Hspec); [set_solver|]. exists r. split; [done|].
  destruct r as [j|].
  - destruct Hspec as (w & ? & Hj & ?). exists w. split; [lia|]. split; [|done].
    replace (j - i)%nat with (S (j - S i)) by lia. done.
  - intros w [->|Hw]%elem_of_cons; [done|]. by apply Hspec.
Qed.

(** Without extra buckets the search is over one bucket. *)
Lemma find_in_chain_spec fuel f t b bk :
  get_bucket t b = Some bk -> (forall v, v ∈ item_vec bk -> is_Some (f v)) ->
  exists r, find_in_chain fuel f t b = Some r /\
    match r with
    | Some loc => exists v, loc.1 = b /\ item_vec bk !! loc.2 = Some v /\ f v = Some true
    | None => forall v, v ∈ item_vec bk -> f v = Some false
    end.
Proof.
  intros Hbk Hf. destruct (find_slot_spec f (item_vec bk) 0 Hf) as (r & Hr & Hspec).
  destruct fuel; simpl; rewrite Hbk; cbn [mbind option_bind]; rewrite Hr;
    cbn [mbind option_bind]; destruct r as [j|]; eexists; (split; [done|]);
    try done; destruct Hspec as (v & ? & Hj & ?); exists v; rewrite Nat.sub_0_r in Hj; done.
Qed.

Lemma oldest_slot_spec t p b items : forall i oldest,
  alloc t = [p] ->
  exists r, oldest_slot t b items i oldest = Some r /\
    match r with
    | inl j => (i <= j)%nat /\ items !! (j - i)%nat = Some 0
    | inr best => (forall v, v ∈ items -> v <> 0) /\ (best = oldest \/
        best.2.1 = b /\ (i <= best.2.2)%nat /\ is_Some (items !! (best.2.2 - i)%nat))
    end.
Proof.
  induction items as [|v items IH]; intros i oldest Ha; simpl.
  { eexists. split; [done|]. split; [by intros v Hv%elem_of_nil|by left]. }
  destruct (Z.eqb_spec v 0) as [->|Hv].
  { eexists. split; [done|]. split; [lia|]. by rewrite Nat.sub_diag. }
  unfold get_alloc, MEHCACHED_ALLOC_ID. rewrite Ha. simpl. cbn [mbind option_bind].
  match goal with |- context [oldest_slot t b items (S i) ?o] =>
    destruct (IH (S i) o Ha) as (r & -> & Hr); remember o as best0 end.
  exists r. split; [done|]. destruct r as [j|best].
  - destruct Hr as [? Hr]. split; [lia|].
    replace (j - i)%nat with (S (j - S i)) by lia. done.
  - destruct Hr as [Hnz Hr]. split; [by intros w [->|?%Hnz]%elem_of_cons|].
    destruct Hr as [->|(? & ? & Hr)].
    + subst best0. destruct (Z.gtb _ _); [|by left]. right. simpl.
      rewrite Nat.sub_diag. repeat split; [lia|by eexists].
    + right. split; [done|]. split; [lia|].
      replace (best.2.2 - i)%nat with (S (best.2.2 - S i)) by lia. done.
Qed.

Lemma find_empty_or_oldest_spec t p b bk :
  alloc t = [p] -> get_bucket t b = Some bk -> item_vec bk <> [] ->
  exists i v, mehcached_find_empty_or_oldest t b = Some (b, i) /\ item_vec bk !! i = Some v /\
    (v = 0 \/ forall w, w ∈ item_vec bk -> w <> 0).
Proof.
  intros Ha Hbk Hne. unfold mehcached_find_empty_or_oldest.
  destruct (oldest_slot_spec t p b (item_vec bk) 0 (2 ^ 64 - 1, (b, O)) Ha) as (r & Hr & Hspec).
  assert (oldest_in_chain (length (buckets t)) t b (2 ^ 64 - 1, (b, O)) =
    match r with inl j => Some (b, j) | inr best => Some best.2 end) as ->
    by (destruct (length (buckets t)); simpl; rewrite Hbk; cbn [mbind option_bind]; rewrite Hr;
        by destruct r).
  destruct r as [j|[d [b' j]]]; cbn [fst snd] in Hspec; rewrite ?Nat.sub_0_r in Hspec.
  - exists j, 0. split; [done|]. split; [apply Hspec|by left].
  - destruct Hspec as [Hnz [[= -> -> ->]|(-> & _ & [v Hv])]].
    + destruct (item_vec bk) as [|v vs]; [done|]. by exists 0%nat, v; auto.
    + by exists j, v; auto.
Qed.

Lemma get_alloc_single t p : alloc t = [p] -> get_alloc t 0 = Some p.
Proof. unfold get_alloc. by intros ->. Qed.

(** ** Versions

    The locks change the versions of buckets and nothing else. *)

Definition with_buckets (t : mehcached_table) (bs : list mehcached_bucket) : mehcached_table :=
  Table (alloc t) (alloc_id_mask t) (mth_threshold t) bs
    (concurrent_access_mode t) (num_buckets t) (num_buckets_mask t) (num_extra_buckets t)
    (extra_lock t) (extra_head t) (rshift t).

Definition same_items (t t' : mehcached_table) : Prop :=
  t' = with_buckets t (buckets t') /\ item_vec <$> buckets t' = item_vec <$> buckets t.

Lemma same_items_refl t : same_items t t.
Proof. split; [by destruct t|done]. Qed.

Lemma same_items_sym t t' : same_items t t' -> same_items t' t.
Proof. intros [Ht Hb]. split; [|done]. rewrite Ht. by destruct t. Qed.

Lemma same_items_get t t' b bk :
  same_items t t' -> get_bucket t' b = Some bk ->
  exists bk0, get_bucket t b = Some bk0 /\ item_vec bk = item_vec bk0.
Proof.
  intros [_ Hb] Hg. unfold get_bucket in *.
  assert ((item_vec <$> buckets t') !! Z.to_nat b = Some (item_vec bk)) as Hi
    by (by rewrite list_lookup_fmap, Hg).
  rewrite Hb, list_lookup_fmap in Hi.
  destruct (buckets t !! Z.to_nat b) as [bk0|] eqn:E; [|done].
  exists bk0. split; [done|]. by injection Hi.
Qed.

Lemma get_set_bucket t b bk b' :
  0 <= b -> 0 <= b' -> is_Some (get_bucket t b) ->
  get_bucket (set_bucket t b bk) b' = if decide (b = b') then Some bk else get_bucket t b'.
Proof.
  intros ?? [bk0 Hb]. unfold get_bucket, set_bucket in *. simpl.
  case_decide as He; [subst|].
  - apply list_lookup_insert_eq. by eapply lookup_lt_Some.
  - apply list_lookup_insert_ne. lia.
Qed.

(** The versions of all buckets are even, but for that of a locked bucket. *)
Definition ver_ok (t : mehcached_table) (locked : option Z) : Prop :=
  concurrent_access_mode t = 0 \/
  (concurrent_access_mode t = 1 \/ concurrent_access_mode t = 2) /\
  forall b bk, 0 <= b -> get_bucket t b = Some bk ->
    0 <= version bk < 2 ^ 32 /\ version bk mod 2 = if decide (locked = Some b) then 1 else 0.

Lemma ver_ok_frame t b bk bk' lk :
  0 <= b -> get_bucket t b = Some bk -> version bk' = version bk -> ver_ok t lk ->
  ver_ok (set_bucket t b bk') lk.
Proof.
  intros Hb Hbk Hv [?|[Hm Hvs]]; [by left|]. right. split; [done|]. intros b1 bk1 Hb1.
  rewrite get_set_bucket by (done || by eexists). case_decide; [|by apply Hvs].
  subst. intros [= <-]. rewrite Hv. by apply Hvs.
Qed.

Lemma version_change t b bk v lk lk' :
  0 <= b -> get_bucket t b = Some bk -> 0 <= v < 2 ^ 32 ->
  (lk = None \/ lk = Some b) -> (lk' = None \/ lk' = Some b) ->
  v mod 2 = (if decide (lk' = Some b) then 1 else 0) -> ver_ok t lk ->
  same_items t (set_bucket t b (set_version bk v)) /\
  ver_ok (set_bucket t b (set_version bk v)) lk'.
Proof.
  intros Hb Hbk Hv Hlk Hlk' Hm Hok. split.
  - split; [done|]. simpl. rewrite list_fmap_insert. apply list_insert_id.
    rewrite list_lookup_fmap. unfold get_bucket in Hbk. by rewrite Hbk.
  - destruct Hok as [?|[Hmode Hvs]]; [by left|]. right. split; [done|]. intros b1 bk1 Hb1.
    rewrite get_set_bucket by (done || by eexists).
    destruct (decide (b = b1)) as [<-|]; [intros [= <-]; done|].
    intros Hbk1. destruct (Hvs _ _ Hb1 Hbk1) as [? ->]. split; [done|].
    destruct Hlk as [-> | ->], Hlk' as [-> | ->]; by rewrite !decide_False by congruence.
Qed.

Lemma land1 v : v &' 1 = v mod 2.
Proof. apply (land_mask v 1). lia. Qed.

Lemma even_lnot1 v : 0 <= v -> v mod 2 = 0 -> v &' Z.lnot 1 = v /\ v |' 1 = v + 1.
Proof.
  intros ? Hm. split.
  - change 1 with (Z.ones 1). rewrite <- Z.ldiff_land, Z.ldiff_ones_r by lia.
    rewrite Z.shiftl_mul_pow2, Z.shiftr_div_pow2 by lia. change (2 ^ 1) with 2. zlia.
  - replace v with (Z.shiftl (v / 2) 1) at 1
      by (rewrite Z.shiftl_mul_pow2 by lia; change (2 ^ 1) with 2; zlia).
    rewrite lor_shiftl by lia. change (2 ^ 1) with 2. zlia.
Qed.

Lemma lock_bucket_spec t b bk :
  0 <= b -> get_bucket t b = Some bk -> ver_ok t None ->
  exists t', mehcached_lock_bucket t b = Some t' /\ same_items t t' /\ ver_ok t' (Some b).
Proof.
  intros Hb Hbk Hok. unfold mehcached_lock_bucket.
  destruct Hok as [Hm|[Hm Hvs]].
  { rewrite Hm. exists t. split; [done|]. split; [apply same_items_refl|by left]. }
  destruct (Hvs b bk Hb Hbk) as [Hv Hv2]. rewrite decide_False in Hv2 by done.
  assert (u32 (version bk + 1) = version bk + 1 /\ 0 <= version bk + 1 < 2 ^ 32 /\
    (version bk + 1) mod 2 = 1) as (Hu & Hr & Hp).
  { assert (version bk + 1 < 2 ^ 32) by (change (2 ^ 32) with (2 * 2 ^ 31) in *; zlia).
    split; [apply wrap_small; lia|]. split; [lia|zlia]. }
  destruct (even_lnot1 (version bk) ltac:(lia) Hv2) as [Hl1 Hl2].
  assert (ver_ok t None) as Hok by (by right).
  destruct (version_change t b bk (version bk + 1) None (Some b) Hb Hbk Hr) as [Hs Hok'];
    [by left|by right|by rewrite decide_True|done|].
  exists (set_bucket t b (set_version bk (version bk + 1))).
  destruct Hm as [-> | ->]; simpl; rewrite Hbk; cbn [mbind option_bind].
  - rewrite land1, Hv2, Hu. done.
  - by rewrite Hl1, Z.eqb_refl, Hl2.
Qed.

Lemma unlock_bucket_spec t b bk :
  0 <= b -> get_bucket t b = Some bk -> ver_ok t (Some b) ->
  exists t', mehcached_unlock_bucket t b = Some t' /\ same_items t t' /\ ver_ok t' None.
Proof.
  intros Hb Hbk Hok. unfold mehcached_unlock_bucket.
  destruct Hok as [Hm|[Hm Hvs]].
  { rewrite Hm. exists t. split; [done|]. split; [apply same_items_refl|by left]. }
  destruct (Hvs b bk Hb Hbk) as [Hv Hv2]. rewrite decide_True in Hv2 by done.
  assert (0 <= u32 (version bk + 1) < 2 ^ 32 /\ u32 (version bk + 1) mod 2 = 0) as [Hr Hp].
  { split; [apply wrap_range; lia|]. 
    rewrite (wrap_mod_pow2 32 (version bk + 1) 1 ltac:(lia) :
      u32 (version bk + 1) mod 2 = (version bk + 1) mod 2). zlia. }
  destruct (version_change t b bk (u32 (version bk + 1)) (Some b) None Hb Hbk Hr) as [Hs Hok'];
    [by right|by left|by rewrite decide_False|by right|].
  exists (set_bucket t b (set_version bk (u32 (version bk + 1)))).
  assert (concurrent_access_mode t =? 0 = false) as -> by (destruct Hm as [-> | ->]; done).
  cbn [negb]. rewrite Hbk. cbn [mbind option_bind]. by rewrite land1, Hv2.
Qed.

(** ** The invariant *)

Abbreviation cache := (gmap bytestring bytestring).

(** The sizes that [mehcached_table_init] sets up for two buckets or more, with one
    pool and no extra buckets (a single bucket would never be cleaned): as many buckets as there are values of the top bits of an offset. *)
Record table_geom (t : mehcached_table) : Prop := {
  tg_buckets : exists m, 1 <= m <= 31 /\ num_buckets t = 2 ^ m /\ rshift t = 39 - m;
  tg_mask : num_buckets_mask t = num_buckets t - 1;
  tg_length : Z.of_nat (length (buckets t)) = num_buckets t;
  tg_items : forall b bk, get_bucket t b = Some bk ->
    length (item_vec bk) = MEHCACHED_ITEMS_PER_BUCKET;
  tg_pools : alloc_id_mask t = 0 }.

Lemma bucket_index_range t h :
  table_geom t -> 0 <= mehcached_calc_bucket_index t h < num_buckets t.
Proof.
  intros [(m & Hm & Hn & _) Hk _ _ _]. unfold mehcached_calc_bucket_index.
  rewrite Hk, Hn, land_mask by lia. apply Z.mod_pos_bound. lia.
Qed.

Lemma bucket_at t b :
  table_geom t -> 0 <= b < num_buckets t -> exists bk, get_bucket t b = Some bk.
Proof.
  intros Hg Hb. apply lookup_lt_is_Some_2. pose proof (tg_length _ Hg). lia.
Qed.

(** [c] counts the buckets that have been cleaned since the start, one for every
    [2^rshift] bytes of log.  An item in bucket [b] is younger than the last
    cleaning of [b] allows. *)
Definition aged (t : mehcached_table) (p : mehcached_pool) (C o b : Z) : Prop :=
  forall c, 0 <= c < C -> c mod num_buckets t = b -> (c + 1) * 2 ^ rshift t <= o + pool_size p.

(** The bytes from offset [o] on have not been overwritten. *)
Definition intact (p : mehcached_pool) (o : Z) : Prop := pool_tail p <= o + pool_size p.

Section Spec.
(** The hash that clients compute for a key. *)
Context (H : bytestring -> Z).

(** The item at [o], of size [n], is the entry for [K] in the cache. *)
Definition holds (t : mehcached_table) (p : mehcached_pool) (A : cache) (b tag o n : Z)
    (K V : bytestring) : Prop :=
  item_at p o n (H K) K V /\ mehcached_calc_tag (H K) = tag /\
  mehcached_calc_bucket_index t (H K) = b /\ A !! K = Some V.

(** An item word in bucket [b]: if its item is intact it is an entry of the cache. *)
Definition slot_ok (t : mehcached_table) (p : mehcached_pool) (L : list (Z * Z)) (A : cache)
    (C b v : Z) : Prop :=
  exists o tag, v = MEHCACHED_ITEM_VEC tag 0 (o mod 2 ^ 40) /\ 0 < tag < 2 ^ 16 /\
    0 <= o < pool_tail p /\ aged t p C o b /\
    (intact p o -> exists n K V, (o, n) ∈ L /\ holds t p A b tag o n K V).

Record tinv (C : Z) (t : mehcached_table) (p : mehcached_pool) (L : list (Z * Z)) (A : cache)
    : Prop := {
  ti_geom : table_geom t;
  ti_alloc : alloc t = [p];
  ti_pool : pool_inv p L;
  ti_count : 0 <= C /\ pool_tail p < (C + 1) * 2 ^ rshift t + MB2;
  ti_slots : forall b bk i v, 0 <= b -> get_bucket t b = Some bk ->
    item_vec bk !! i = Some v -> v <> 0 -> slot_ok t p L A C b v;
  ti_tags : forall b bk i j v w, 0 <= b -> get_bucket t b = Some bk ->
    item_vec bk !! i = Some v -> item_vec bk !! j = Some w -> v <> 0 -> w <> 0 ->
    MEHCACHED_TAG v = MEHCACHED_TAG w -> i = j }.

Lemma ti_pgeom C t p L A : tinv C t p L A -> pool_geom p.
Proof. intros Hinv. apply (inv_geom _ _ (ti_pool _ _ _ _ _ Hinv)). Qed.

Lemma pow_rshift t : table_geom t -> num_buckets t * 2 ^ rshift t = 2 ^ 39 /\
  1 <= num_buckets t /\ 0 <= rshift t <= 39.
Proof.
  intros [(m & Hm & -> & ->) _ _ _ _]. rewrite <- Z.pow_add_r by lia.
  split; [f_equal; lia|]. lia.
Qed.

(** Thanks to the cleaning, no item word is old enough for its offset of 40 bits to
    be taken for that of a later item. *)
Lemma no_wrap C t p L A o b :
  tinv C t p L A -> aged t p C o b -> 0 <= b < num_buckets t -> 0 <= o ->
  pool_tail p - o < 2 ^ 40.
Proof.
  intros Hinv Ha Hb Ho. destruct (pow_rshift t (ti_geom _ _ _ _ _ Hinv)) as (Hnb & Hn1 & Hr).
  destruct (ti_count _ _ _ _ _ Hinv) as [HC Ht].
  pose proof (geom_bounds p (ti_pgeom _ _ _ _ _ Hinv)) as Hsz.
  set (nb := num_buckets t) in *. set (R := 2 ^ rshift t) in *.
  assert (0 < R) as HR by (unfold R; lia).
  destruct (decide (C < nb)) as [Hlt|Hge].
  { assert ((C + 1) * R <= nb * R) by (apply Z.mul_le_mono_nonneg_r; lia). lia. }
  assert ((C - nb + (b - C) mod nb) mod nb = b) as Hmod.
  { rewrite Zplus_mod_idemp_r. replace (C - nb + (b - C)) with (b + -1 * nb) by lia.
    rewrite Z.mod_add by lia. by apply Z.mod_small. }
  pose proof (Z.mod_pos_bound (b - C) nb ltac:(lia)) as Hc.
  pose proof (Ha (C - nb + (b - C) mod nb) ltac:(lia) Hmod) as Hage. fold R in Hage.
  assert ((C - nb + 1) * R <= (C - nb + (b - C) mod nb + 1) * R)
    by (apply Z.mul_le_mono_nonneg_r; lia).
  assert ((C + 1) * R = (C - nb + 1) * R + nb * R) by lia. lia.
Qed.

(** What [mehcached_pool_is_valid] says of an item word of the table. *)
Lemma valid_intact C t p L A o b :
  tinv C t p L A -> aged t p C o b -> 0 <= b < num_buckets t -> 0 <= o < pool_tail p ->
  mehcached_pool_is_valid p (o mod 2 ^ 40) = true <-> intact p o.
Proof.
  intros Hinv Ha Hb Ho. pose proof (no_wrap _ _ _ _ _ _ _ Hinv Ha Hb ltac:(lia)).
  rewrite is_valid_spec by (apply (ti_pgeom _ _ _ _ _ Hinv) || lia).
  rewrite Z.leb_le. unfold intact. lia.
Qed.

(** *** Matching a key *)

Section Key.
Context (key : list Z) (klen : Z) (Hkl : 0 <= klen <= MEHCACHED_MAX_KEY_LENGTH)
  (Hkb : buf_ok key klen).
Let K0 : bytestring := padded key klen.
Let tag0 : Z := mehcached_calc_tag (H K0).

Lemma matches_zero t : item_matches t (H K0) tag0 key klen 0 = Some false.
Proof.
  unfold item_matches. change (MEHCACHED_TAG 0) with 0.
  pose proof (calc_tag_range (H K0) : 0 < tag0 < 2 ^ 16).
  by rewrite (proj2 (Z.eqb_neq 0 tag0)) by lia.
Qed.

(** The comparison is defined on every item word; it is that of the tag, the hash,
    the length and the key at the item's place. *)
Lemma matches_eval t p o tag :
  alloc t = [p] -> pool_geom p -> 0 < tag < 2 ^ 16 ->
  item_matches t (H K0) tag0 key klen (MEHCACHED_ITEM_VEC tag 0 (o mod 2 ^ 40)) =
    Some ((tag =? tag0) && (le_value (log_bytes p (o + 16) 8) =? H K0) &&
          (MEHCACHED_KEY_LENGTH (le_value (log_bytes p (o + 8) 4)) =? klen) &&
          bool_decide (log_bytes p (o + 24) (MEHCACHED_ROUNDUP8 klen) = K0.1)).
Proof.
  intros Ha Hg Htag. destruct (item_vec_fields tag o ltac:(lia)) as (Ht & Ho & _).
  pose proof (roundup_key klen Hkl). unfold item_matches. rewrite Ht, Ho.
  destruct (Z.eqb_spec tag tag0); [|done]. cbn [negb andb].
  unfold MEHCACHED_ALLOC_ID. rewrite (get_alloc_single t p Ha). cbn [mbind option_bind]. unfold off_key_hash, off_kv_length_vec.
  rewrite (pload_item p o 16 8) by (done || lia). cbn [mbind option_bind].
  destruct (Z.eqb_spec (le_value (log_bytes p (o + 16) 8)) (H K0)); [|done].
  cbn [negb andb]. rewrite (pload_item p o 8 4) by (done || lia). cbn [mbind option_bind].
  unfold mehcached_compare_keys.
  destruct (Z.eqb_spec (MEHCACHED_KEY_LENGTH (le_value (log_bytes p (o + 8) 4))) klen)
    as [->|]; [|done]. cbn [andb].
  unfold mehcached_memcmp8, item_data, sizeof_item.
  rewrite pload_bytes_item by (done || lia). cbn [mbind option_bind].
  change (buf_read key (MEHCACHED_ROUNDUP8 klen)) with (mehcached_memcpy8 (buf_read key) klen).
  rewrite buf_read_padded by done. done.
Qed.

Lemma matches_total C t p L A b v :
  tinv C t p L A -> v <> 0 -> slot_ok t p L A C b v ->
  is_Some (item_matches t (H K0) tag0 key klen v).
Proof.
  intros Hinv _ (o & tag & -> & Htag & _).
  rewrite (matches_eval t p); 
    [by eexists|apply (ti_alloc _ _ _ _ _ Hinv)|by eapply ti_pgeom|done].
Qed.

(** An intact item matches exactly when its key is the one looked for. *)
Lemma matches_intact t p A b o n tag K V :
  alloc t = [p] -> pool_geom p -> 0 < tag < 2 ^ 16 -> holds t p A b tag o n K V ->
  item_matches t (H K0) tag0 key klen (MEHCACHED_ITEM_VEC tag 0 (o mod 2 ^ 40)) = Some true
  <-> K = K0.
Proof.
  intros Ha Hg Htag (Hit & Htg & _ & _). rewrite (matches_eval t p) by done.
  destruct Hit as [Hkv Hh Hk _ [Hl1 Hl2] _].
  unfold MEHCACHED_MAX_KEY_LENGTH, MEHCACHED_MAX_VALUE_LENGTH in *.
  destruct (kv_fields K.2 V.2 ltac:(lia) ltac:(lia)) as (Hkl' & _ & _).
  rewrite Hkv, Hkl', Hh. split.
  - intros [= Heq]. apply andb_true_iff in Heq as [[[_ _]%andb_true_iff Hlen]%andb_true_iff Hb].
    apply bool_decide_eq_true in Hb. apply Z.eqb_eq in Hlen. destruct K as [kb kl].
    simpl in *. subst kl. rewrite Hk in Hb. unfold K0, padded in *. simpl in *. congruence.
  - intros ->. rewrite (proj2 (Z.eqb_eq tag tag0)) by done. rewrite Z.eqb_refl.
    rewrite (proj2 (Z.eqb_eq K0.2 klen)) by done. cbn [andb]. f_equal.
    by apply bool_decide_eq_true.
Qed.

(** The search for the key in its bucket. *)
Lemma find_key_spec C t p L A b bk :
  tinv C t p L A -> 0 <= b -> get_bucket t b = Some bk ->
  exists r, mehcached_find_item_index t b (H K0) tag0 key klen = Some r /\
    match r with
    | Some loc => exists v, loc.1 = b /\ item_vec bk !! loc.2 = Some v /\ v <> 0 /\
        item_matches t (H K0) tag0 key klen v = Some true
    | None => forall v, v ∈ item_vec bk -> item_matches t (H K0) tag0 key klen v = Some false
    end.
Proof.
  intros Hinv Hb Hbk.
  destruct (find_in_chain_spec (length (buckets t)) (item_matches t (H K0) tag0 key klen) t b bk
    Hbk) as (r & Hr & Hspec).
  { intros v [i Hi]%list_elem_of_lookup. destruct (decide (v = 0)) as [->|Hne].
    - rewrite matches_zero. by eexists.
    - eapply matches_total; [done..|]. by eapply (ti_slots _ _ _ _ _ Hinv). }
  exists r. split; [done|]. destruct r as [loc|]; [|done].
  destruct Hspec as (v & ? & ? & Hm). exists v. repeat split; try done.
  intros ->. rewrite matches_zero in Hm. done.
Qed.

(** An item word that matches has the tag of the key. *)
Lemma matches_tag t v :
  item_matches t (H K0) tag0 key klen v = Some true -> MEHCACHED_TAG v = tag0.
Proof.
  unfold item_matches. destruct (Z.eqb_spec (MEHCACHED_TAG v) tag0); [done|]. done.
Qed.
End Key.

Definition key_tag (K : bytestring) : Z := mehcached_calc_tag (H K).
Definition key_bucket (t : mehcached_table) (K : bytestring) : Z :=
  mehcached_calc_bucket_index t (H K).

(** ** Steps that keep the invariant *)

Lemma slot_ok_same t t' p L A C b v :
  num_buckets t' = num_buckets t -> rshift t' = rshift t ->
  num_buckets_mask t' = num_buckets_mask t ->
  slot_ok t p L A C b v -> slot_ok t' p L A C b v.
Proof.
  intros Hn Hr Hm (o & tag & -> & Ht & Ho & Ha & Hi). exists o, tag.
  split; [done|]. split; [done|]. split; [done|]. split.
  - intros c. rewrite Hn, Hr. apply Ha.
  - intros (n & K & V & ? & ? & ? & Hb & ?)%Hi. exists n, K, V. split; [done|].
    split; [done|]. split; [done|]. split; [|done].
    unfold mehcached_calc_bucket_index in *. by rewrite Hm.
Qed.

Lemma tinv_same_items C t t' p L A : same_items t t' -> tinv C t p L A -> tinv C t' p L A.
Proof.
  intros Hs [Hg Ha Hp Hc Hsl Htg].
  assert (forall b bk, get_bucket t' b = Some bk ->
    exists bk0, get_bucket t b = Some bk0 /\ item_vec bk = item_vec bk0) as Hget
    by (intros b bk; by apply same_items_get).
  destruct Hs as [Ht Hb]. assert (length (buckets t') = length (buckets t)) as Hlen
    by (by rewrite <- (length_fmap item_vec), Hb, length_fmap).
  split; try done; try (rewrite Ht; done).
  - destruct Hg as [? ? ? ? ?]. split; try done; try (rewrite Ht; done).
    + rewrite Ht. simpl. by rewrite Hlen.
    + intros b bk (bk0 & ? & ->)%Hget. eauto.
  - intros b bk i v Hb0 (bk0 & ? & ->)%Hget ??.
    apply (slot_ok_same t); [by rewrite Ht..|]. by eapply Hsl.
  - intros b bk i j v w Hb0 (bk0 & ? & ->)%Hget. by eapply Htg.
Qed.

(** A new item word in slot [i] of bucket [b]. *)
Lemma tinv_set_slot C t p L A A' b bk i v :
  tinv C t p L A -> 0 <= b -> get_bucket t b = Some bk ->
  (v <> 0 -> slot_ok t p L A' C b v) ->
  (v <> 0 -> forall j w, item_vec bk !! j = Some w -> w <> 0 ->
    MEHCACHED_TAG w = MEHCACHED_TAG v -> j = i) ->
  (forall b' bk' j w, 0 <= b' -> get_bucket t b' = Some bk' -> item_vec bk' !! j = Some w ->
    w <> 0 -> (b', j) <> (b, i) -> slot_ok t p L A C b' w -> slot_ok t p L A' C b' w) ->
  tinv C (set_bucket t b (set_items bk (<[i := v]> (item_vec bk)))) p L A'.
Proof.
  intros [Hg Ha Hp Hc Hsl Htg] Hb Hbk Hv Hvt Hoth.
  assert (forall b' bk', 0 <= b' ->
    get_bucket (set_bucket t b (set_items bk (<[i := v]> (item_vec bk)))) b' = Some bk' ->
    exists bk0, get_bucket t b' = Some bk0 /\
      item_vec bk' = (if decide (b = b') then <[i := v]> (item_vec bk) else item_vec bk0) /\
      (b = b' -> bk0 = bk)) as Hget.
  { intros b' bk' Hb'. rewrite get_set_bucket by (done || by eexists).
    destruct (decide (b = b')) as [<-|]; [intros [= <-]; by exists bk|]. intros ?. by exists bk'. }
  assert (forall b' bk' j w, 0 <= b' ->
    get_bucket (set_bucket t b (set_items bk (<[i := v]> (item_vec bk)))) b' = Some bk' ->
    item_vec bk' !! j = Some w ->
    (b' = b /\ j = i /\ w = v) \/
    (exists bk0, get_bucket t b' = Some bk0 /\ item_vec bk0 !! j = Some w /\
       (b', j) <> (b, i) /\ (b = b' -> bk0 = bk))) as Hslot.
  { intros b' bk' j w Hb' Hbk'. destruct (Hget _ _ Hb' Hbk') as (bk0 & Hbk0 & -> & Heq).
    destruct (decide (b = b')) as [<-|Hne]; intros Hj.
    - apply list_lookup_insert_Some in Hj as [(-> & <- & _)|[Hne Hj]]; [by left|].
      right. exists bk. split; [done|]. split; [done|]. split; [congruence|done].
    - right. exists bk0. split; [done|]. split; [done|]. split; [congruence|done]. }
  split; simpl; try done.
  - destruct Hg as [? ? Hlen Hlens ?]. split; simpl; try done.
    + by rewrite length_insert.
    + intros b' bk' Hbk'. unfold get_bucket in Hbk'. simpl in Hbk'.
      apply list_lookup_insert_Some in Hbk' as [(? & <- & _)|[_ Hbk']].
      * simpl. rewrite length_insert. by eapply Hlens.
      * by eapply Hlens.
  - intros b' bk' j w Hb' Hbk' Hj Hw. apply (slot_ok_same t); [done..|].
    destruct (Hslot _ _ _ _ Hb' Hbk' Hj) as [(-> & -> & ->)|(bk0 & ? & ? & ? & _)]; [by apply Hv|].
    eapply Hoth; [done..|]. by eapply Hsl.
  - intros b' bk' j j' w w' Hb' Hbk' Hj Hj' Hw Hw' Ht.
    destruct (Hslot _ _ _ _ Hb' Hbk' Hj) as [(-> & -> & ->)|(bk1 & Hb1 & Hi1 & Hn1 & He1)],
      (Hslot _ _ _ _ Hb' Hbk' Hj') as [(? & -> & ->)|(bk2 & Hb2 & Hi2 & Hn2 & He2)];
      [done| | |].
    + rewrite (He2 eq_refl) in Hi2. symmetry. by eapply Hvt.
    + subst b'. rewrite (He1 eq_refl) in Hi1. by eapply Hvt.
    + rewrite Hb1 in Hb2. injection Hb2 as <-. by eapply Htg.
Qed.

(** *** Changes of the pool *)

(** Where a write inside the item [(o, n)] leaves another intact item alone. *)
Lemma intact_disjoint p L o n o' n' :
  pool_inv p L -> (o, n) ∈ L -> (o', n') ∈ L -> o' <> o -> intact p o -> intact p o' ->
  o + n <= o' /\ o' + n' <= o + 8 + pool_size p \/ o' + n' <= o /\ o + n <= o' + pool_size p.
Proof.
  intros Hinv Hin Hin' Hne Hi Hi'. unfold intact in *.
  destruct (chain_elem _ _ _ _ _ (inv_chain _ _ Hinv) Hin) as (_ & ? & _).
  destruct (chain_elem _ _ _ _ _ (inv_chain _ _ Hinv) Hin') as (_ & ? & _).
  destruct (chain_disjoint _ _ _ _ _ _ _ (inv_chain _ _ Hinv) Hin Hin') as [[? ?]|[?|?]]; lia.
Qed.

Lemma pool_inv_patched p p' L o n :
  pool_inv p L -> (o, n) ∈ L -> intact p o -> patched p p' (o + 8) (n - 8) -> pool_inv p' L.
Proof.
  intros Hinv Hin Hi Hp. pose proof (geom_bounds p (inv_geom _ _ Hinv)).
  destruct (chain_elem _ _ _ _ _ (inv_chain _ _ Hinv) Hin) as (? & ? & ? & _).
  assert (pool_head p' = pool_head p /\ pool_tail p' = pool_tail p /\
    pool_size p' = pool_size p) as (Hh & Ht & Hs)
    by (destruct Hp as [Hp _]; by rewrite Hp).
  split.
  - by eapply patched_geom; [|apply Hinv].
  - rewrite Ht. apply Hinv.
  - rewrite Hh, Ht. apply Hinv.
  - rewrite Hh, Ht, Hs. apply Hinv.
  - intros o' n' Hin' Hi'. rewrite Ht, Hs in Hi'. rewrite <- (inv_headers _ _ Hinv o' n') by done.
    destruct (chain_elem _ _ _ _ _ (inv_chain _ _ Hinv) Hin') as (_ & ? & ? & _).
    unfold header. f_equal. apply (patched_bytes _ _ _ _ _ _ Hp).
    destruct (decide (o' = o)) as [->|Hne]; [lia|].
    destruct (intact_disjoint p L o n o' n') as [[]|[]]; [done..| |]; lia.
Qed.

Lemma item_at_other p p' L o n o' n' kh K V :
  pool_inv p L -> (o, n) ∈ L -> (o', n') ∈ L -> o' <> o -> intact p o -> intact p o' ->
  patched p p' (o + 8) (n - 8) -> item_at p o' n' kh K V -> item_at p' o' n' kh K V.
Proof.
  intros Hinv Hin Hin' Hne Hi Hi' Hp Hit. eapply item_at_frame; [done..|].
  destruct (intact_disjoint p L o n o' n') as [[]|[]]; [done..| |]; lia.
Qed.

(** Bytes that a push does not touch. *)
Lemma item_at_ext p p' o n kh K V :
  (forall d m, 0 <= d -> d + m <= n -> log_bytes p' (o + d) m = log_bytes p (o + d) m) ->
  item_at p o n kh K V -> item_at p' o n kh K V.
Proof.
  intros Hb [Hkv Hh Hk Hv Hl Hs]. destruct (item_bytes_bounds _ _ Hl) as (? & ? & ? & ?).
  unfold item_bytes, sizeof_item in *. destruct Hl as [Hl1 Hl2].
  split; rewrite <- ?(Z.add_assoc o 24); rewrite ?Hb by lia; try done.
  by rewrite (Z.add_assoc o 24).
Qed.

(** The slots of the table under a new pool. *)
Lemma slot_ok_pool t p p' L L' A A' C b v :
  pool_size p' = pool_size p -> pool_tail p <= pool_tail p' ->
  (forall o n K V, v = MEHCACHED_ITEM_VEC (key_tag K) 0 (o mod 2 ^ 40) -> key_bucket t K = b ->
    0 <= o < pool_tail p -> aged t p C o b ->
    (o, n) ∈ L -> item_at p o n (H K) K V -> A !! K = Some V -> intact p' o ->
    exists V', (o, n) ∈ L' /\ item_at p' o n (H K) K V' /\ A' !! K = Some V') ->
  slot_ok t p L A C b v -> slot_ok t p' L' A' C b v.
Proof.
  intros Hs Ht Hi (o & tag & -> & Htag & Ho & Ha & Hin). exists o, tag.
  split; [done|]. split; [done|]. split; [lia|]. split.
  { intros c. rewrite Hs. apply Ha. }
  intros Hint. destruct Hin as (n & K & V & HL & Hit & Hkt & Hkb & HA).
  { unfold intact in *. lia. }
  destruct (Hi o n K V) as (V' & ? & ? & ?); try done.
  { unfold key_tag. by rewrite Hkt. }
  exists n, K, V'. done.
Qed.

Lemma tinv_set_alloc C t p p' L L' A A' :
  tinv C t p L A -> pool_inv p' L' -> pool_tail p' < (C + 1) * 2 ^ rshift t + MB2 ->
  (forall b bk i v, 0 <= b -> get_bucket t b = Some bk -> item_vec bk !! i = Some v -> v <> 0 ->
    slot_ok t p L A C b v -> slot_ok t p' L' A' C b v) ->
  tinv C (set_alloc t 0 p') p' L' A'.
Proof.
  intros [Hg Ha Hp Hc Hsl Htg] Hp' Ht Hsl'. split; simpl.
  - destruct Hg as [? ? ? ? ?]. by split.
  - by rewrite Ha.
  - done.
  - split; [lia|done].
  - intros b bk i v Hb Hbk Hi Hv. apply (slot_ok_same t); [done..|].
    eapply Hsl'; [done..|]. by eapply Hsl.
  - done.
Qed.

(** A new item at the tail, its contents written. *)
Lemma tinv_push C t p L A n p1 p2 :
  tinv C t p L A -> pool_tail p < (C + 1) * 2 ^ rshift t -> 8 <= n <= MB2 ->
  pool_inv p1 (L ++ [(pool_tail p, n)]) -> pool_size p1 = pool_size p -> pool_tail p1 = pool_tail p + n ->
  (forall o m, o + m <= pool_tail p -> pool_tail p + n <= o + pool_size p ->
     log_bytes p1 o m = log_bytes p o m) ->
  patched p1 p2 (pool_tail p + 8) (n - 8) ->
  tinv C (set_alloc t 0 p2) p2 (L ++ [(pool_tail p, n)]) A /\
  pool_tail p2 = pool_tail p + n /\ pool_size p2 = pool_size p.
Proof.
  intros Hinv Ht Hn Hp1 Hs1 Ht1 Hfr Hpat.
  pose proof (ti_pgeom _ _ _ _ _ Hinv) as Hg. pose proof (geom_bounds p Hg).
  assert (pool_tail p2 = pool_tail p1 /\ pool_size p2 = pool_size p1) as [Ht2 Hs2].
  { destruct Hpat as [Hp2 _]. by rewrite Hp2. }
  assert ((pool_tail p, n) ∈ L ++ [(pool_tail p, n)]) as Hnew by set_solver.
  assert (intact p1 (pool_tail p)) as Hi1 by (unfold intact; lia).
  split; [|lia]. eapply tinv_set_alloc; [done| |lia|].
  - by eapply pool_inv_patched.
  - intros b bk i v Hb Hbk Hi Hv. apply slot_ok_pool; [lia|lia|].
    intros o m K V -> _ Ho _ HL Hit HA Hint. unfold intact in Hint. rewrite Ht2, Hs2, Ht1, Hs1 in Hint.
    destruct (chain_elem _ _ _ _ _ (inv_chain _ _ (ti_pool _ _ _ _ _ Hinv)) HL) as (_ & ? & ? & _).
    exists V. split; [set_solver|]. split; [|done].
    eapply (item_at_other p1 p2 _ (pool_tail p) n o m); try done.
    + set_solver.
    + lia.
    + unfold intact. lia.
    + eapply item_at_ext; [|done]. intros d k ??. apply Hfr; lia.
Qed.

(** *** Cleaning *)

(** Every intact item word of [t] is still there in [t']. *)
Definition keeps (p : mehcached_pool) (t t' : mehcached_table) : Prop :=
  forall b i v, 0 <= b -> get_slot t b i = Some v ->
    mehcached_pool_is_valid p (MEHCACHED_ITEM_OFFSET v) = true -> get_slot t' b i = Some v.

Lemma same_items_slot t t' b i : same_items t t' -> get_slot t' b i = get_slot t b i.
Proof.
  intros Hs. unfold get_slot. destruct (get_bucket t' b) as [bk|] eqn:E.
  - destruct (same_items_get _ _ _ _ Hs E) as (bk0 & -> & He). cbn [mbind option_bind].
    by rewrite He.
  - destruct (get_bucket t b) as [bk|] eqn:E'; [|done].
    destruct (same_items_get _ _ _ _ (same_items_sym _ _ Hs) E') as (bk0 & ? & _). congruence.
Qed.

Lemma keeps_trans p t1 t2 t3 : keeps p t1 t2 -> keeps p t2 t3 -> keeps p t1 t3.
Proof. intros H1 H2 b i v Hb Hs Hv. apply H2; auto. Qed.

Lemma keeps_same p t t' : same_items t t' -> keeps p t t'.
Proof. intros Hs b i v _ Hv _. by rewrite (same_items_slot _ _ _ _ Hs). Qed.

Lemma cleanup_items_lookup p items i v :
  cleanup_items 0 p items !! i = Some v -> v <> 0 ->
  items !! i = Some v /\ mehcached_pool_is_valid p (MEHCACHED_ITEM_OFFSET v) = true.
Proof.
  unfold cleanup_items, MEHCACHED_ALLOC_ID. rewrite list_lookup_fmap.
  destruct (items !! i) as [w|]; simpl; [|done]. intros [= <-].
  destruct (Z.eqb_spec w 0); [done|]. cbn [negb].
  by destruct (mehcached_pool_is_valid p (MEHCACHED_ITEM_OFFSET w)) eqn:E.
Qed.

Definition cleaned (t : mehcached_table) (p : mehcached_pool) (b : Z) (bk : mehcached_bucket) :=
  set_bucket t b (set_items bk (cleanup_items 0 p (item_vec bk))).

Lemma cleanup_chain_eval fuel t p b bk :
  alloc t = [p] -> get_bucket t b = Some bk ->
  cleanup_chain fuel 0 t b = Some (cleaned t p b bk).
Proof.
  intros Ha Hbk. destruct fuel; simpl; rewrite Hbk; cbn [mbind option_bind];
    by rewrite (get_alloc_single t p Ha).
Qed.

Lemma tinv_cleaned C t p L A bk :
  tinv C t p L A -> get_bucket t (C mod num_buckets t) = Some bk ->
  (C + 1) * 2 ^ rshift t <= pool_tail p ->
  tinv (C + 1) (cleaned t p (C mod num_buckets t) bk) p L A /\
  keeps p t (cleaned t p (C mod num_buckets t) bk).
Proof.
  intros Hinv Hbk Ht. destruct (pow_rshift t (ti_geom _ _ _ _ _ Hinv)) as (Hnb & Hn1 & Hr).
  set (b := C mod num_buckets t) in *.
  assert (0 <= b < num_buckets t) as Hb by (apply Z.mod_pos_bound; lia).
  assert (forall b' bk' j w, 0 <= b' -> get_bucket (cleaned t p b bk) b' = Some bk' ->
    item_vec bk' !! j = Some w -> w <> 0 ->
    exists bk0, get_bucket t b' = Some bk0 /\ item_vec bk0 !! j = Some w /\
      (b' = b -> mehcached_pool_is_valid p (MEHCACHED_ITEM_OFFSET w) = true)) as Hslot.
  { intros b' bk' j w Hb'. unfold cleaned. rewrite get_set_bucket by (lia || by eexists).
    destruct (decide (b = b')) as [<-|Hne].
    - intros [= <-] Hj Hw. destruct (cleanup_items_lookup _ _ _ _ Hj Hw). by exists bk.
    - intros Hbk' Hj _. exists bk'. split; [done|]. split; [done|]. intros ->. by destruct Hne. }
  split.
  - pose proof Hinv as [Hg Ha Hp Hc Hsl Htg]. split; simpl; try done.
    + destruct Hg as [? ? Hlen Hlens ?]. split; simpl; try done; [by rewrite length_insert|].
      intros b' bk' Hbk'. unfold get_bucket in Hbk'. simpl in Hbk'.
      apply list_lookup_insert_Some in Hbk' as [(? & <- & _)|[_ Hbk']]; [|by eapply Hlens].
      simpl. unfold cleanup_items. rewrite length_fmap. by eapply Hlens.
    + assert ((C + 1 + 1) * 2 ^ rshift t = (C + 1) * 2 ^ rshift t + 2 ^ rshift t) by lia. lia.
    + intros b' bk' j w Hb' Hbk' Hj Hw.
      destruct (Hslot _ _ _ _ Hb' Hbk' Hj Hw) as (bk0 & Hbk0 & Hj0 & Hvalid).
      destruct (Hsl _ _ _ _ Hb' Hbk0 Hj0 Hw) as (o & tag & -> & Htag & Ho & Hage & Hi).
      exists o, tag. split; [done|]. split; [done|]. split; [done|]. split; [|done].
      intros c Hcr Hmod. simpl in *. destruct (decide (c < C)); [apply Hage; lia|].
      assert (c = C) as -> by lia.
      assert (intact p o) as Hint.
      { apply (valid_intact C t p L A o b); [done|by subst b'|done|done|].
        destruct (item_vec_fields tag o ltac:(lia)) as (_ & <- & _). by apply Hvalid. }
      unfold intact in Hint. lia.
    + intros b' bk' j j' w w' Hb' Hbk' Hj Hj' Hw Hw'.
      destruct (Hslot _ _ _ _ Hb' Hbk' Hj Hw) as (bk0 & Hbk0 & Hj0 & _).
      destruct (Hslot _ _ _ _ Hb' Hbk' Hj' Hw') as (bk1 & Hbk1 & Hj1 & _).
      rewrite Hbk0 in Hbk1. injection Hbk1 as <-. by eapply Htg.
  - intros b' i v Hb' Hv Hvalid. unfold get_slot, cleaned in *.
    rewrite get_set_bucket by (lia || by eexists).
    destruct (decide (b = b')) as [<-|]; [|done]. rewrite Hbk in Hv.
    cbn [mbind option_bind] in *. simpl. unfold cleanup_items. rewrite list_lookup_fmap, Hv. simpl.
    unfold MEHCACHED_ALLOC_ID. rewrite Hvalid. simpl. by destruct (v =? 0).
Qed.

(** What no operation changes. *)
Definition config (t : mehcached_table) : Z * Z * Z * Z * Z :=
  (mth_threshold t, concurrent_access_mode t, num_buckets t, num_buckets_mask t, rshift t).

Lemma same_items_config t t' : same_items t t' -> config t' = config t.
Proof. intros [Ht _]. by rewrite Ht. Qed.

Lemma config_rshift t t' : config t' = config t -> rshift t' = rshift t.
Proof. unfold config. congruence. Qed.

Lemma ver_ok_items t b bk items lk :
  0 <= b -> get_bucket t b = Some bk -> ver_ok t lk ->
  ver_ok (set_bucket t b (set_items bk items)) lk.
Proof. intros. by apply (ver_ok_frame t b bk). Qed.

Lemma cleanup_loop_spec fuel : forall C Cend t p L A,
  tinv C t p L A -> ver_ok t None -> C <= Cend -> Cend - C <= Z.of_nat fuel ->
  Cend - C < num_buckets t -> Cend * 2 ^ rshift t <= pool_tail p ->
  exists t', cleanup_loop fuel 0 (C mod num_buckets t) (Cend mod num_buckets t) t = Some t' /\
    tinv Cend t' p L A /\ ver_ok t' None /\ keeps p t t' /\ config t' = config t.
Proof.
  induction fuel as [|fuel IH]; intros C Cend t p L A Hinv Hver Hle Hf Hlt Ht; cbn [cleanup_loop].
  { assert (C = Cend) as -> by lia. rewrite Z.eqb_refl. exists t.
    by split; [|split; [|split; [|split; [intros ????|]]]]. }
  destruct (Z.eqb_spec (C mod num_buckets t) (Cend mod num_buckets t)) as [He|Hne].
  { destruct (decide (C = Cend)) as [->|]; [|by destruct (mod_neq C Cend (num_buckets t)); [lia|]].
    exists t. by split; [|split; [|split; [|split; [intros ????|]]]]. }
  assert (C < Cend) as HC by (destruct (decide (C = Cend)) as [->|]; [done|lia]).
  pose proof (ti_geom _ _ _ _ _ Hinv) as Hg.
  destruct (pow_rshift t Hg) as (Hnb & Hn1 & Hr).
  assert (0 <= C mod num_buckets t < num_buckets t) as Hb by (apply Z.mod_pos_bound; lia).
  destruct (bucket_at t _ Hg Hb) as [bk Hbk].
  destruct (lock_bucket_spec t _ bk (proj1 Hb) Hbk Hver) as (t1 & -> & Hs1 & Hv1).
  cbn [mbind option_bind].
  pose proof (tinv_same_items _ _ _ _ _ _ Hs1 Hinv) as Hinv1.
  assert (num_buckets t1 = num_buckets t /\ rshift t1 = rshift t /\
    num_buckets_mask t1 = num_buckets_mask t) as (Hn & Hrs & Hmk)
    by (destruct Hs1 as [Hs1 _]; by rewrite Hs1).
  destruct (bucket_at t1 (C mod num_buckets t)) as [bk1 Hbk1]; [apply Hinv1|by rewrite Hn|].
  rewrite (cleanup_chain_eval _ t1 p _ bk1) by (done || apply Hinv1). cbn [mbind option_bind].
  rewrite <- Hn in *.
  destruct (tinv_cleaned C t1 p L A bk1 Hinv1 Hbk1) as [Hinv2 Hk2].
  { rewrite Hrs. assert ((C + 1) * 2 ^ rshift t <= Cend * 2 ^ rshift t)
      by (apply Z.mul_le_mono_nonneg_r; lia). lia. }
  set (t2 := cleaned t1 p (C mod num_buckets t1) bk1) in *.
  assert (get_bucket t2 (C mod num_buckets t1) =
    Some (set_items bk1 (cleanup_items 0 p (item_vec bk1)))) as Hbk2.
  { unfold t2, cleaned. rewrite get_set_bucket by (lia || by eexists). by rewrite decide_True. }
  destruct (unlock_bucket_spec t2 _ _ (proj1 Hb) Hbk2) as (t3 & -> & Hs3 & Hv3).
  { apply ver_ok_items; [lia|done|done]. }
  cbn [mbind option_bind].
  pose proof (tinv_same_items _ _ _ _ _ _ Hs3 Hinv2) as Hinv3.
  assert (num_buckets t3 = num_buckets t1 /\ rshift t3 = rshift t1 /\
    num_buckets_mask t3 = num_buckets_mask t1) as (Hn3 & Hrs3 & Hmk3)
    by (destruct Hs3 as [Hs3 _]; by rewrite Hs3).
  assert (u64 (C mod num_buckets t1 + 1) &' num_buckets_mask t3 = (C + 1) mod num_buckets t3) as ->.
  { rewrite Hmk3, Hmk, (tg_mask _ Hg), <- Hn, Hn3.
    destruct (tg_buckets _ Hg) as (m & Hm & Hnm & _).
    pose proof (Z.pow_le_mono_r 2 m 31 ltac:(lia) ltac:(lia)).
    rewrite u64_id by lia. rewrite Hn, Hnm, land_mask by lia.
    by rewrite Zplus_mod_idemp_l. }
  rewrite <- Hn3.
  destruct (IH (C + 1) Cend t3 p L A) as (t' & -> & ? & ? & ? & Hcf);
    [done|done|lia|lia|lia|by rewrite Hrs3, Hrs|].
  exists t'. split; [done|]. split; [done|]. split; [done|]. split.
  - eapply keeps_trans; [by apply keeps_same|]. eapply keeps_trans; [done|].
    eapply keeps_trans; [by apply keeps_same|done].
  - by rewrite Hcf, (same_items_config _ _ Hs3), <- (same_items_config _ _ Hs1).
Qed.

Lemma log_div t x : table_geom t -> 0 <= x -> (x >>' rshift t) &' num_buckets_mask t =
  (x / 2 ^ rshift t) mod num_buckets t.
Proof.
  intros Hg Hx. destruct (tg_buckets _ Hg) as (m & Hm & Hnm & _).
  destruct (pow_rshift t Hg) as (_ & _ & ?).
  rewrite (tg_mask _ Hg), Hnm, land_mask, Z.shiftr_div_pow2 by lia. done.
Qed.

Lemma mod_div_mod x nb R : 0 < nb -> 0 < R -> (x mod (2 * (nb * R)) / R) mod nb = (x / R) mod nb.
Proof.
  intros Hn HR. rewrite (Z.div_mod x (2 * (nb * R))) at 2 by lia.
  replace (2 * (nb * R) * (x / (2 * (nb * R))) + x mod (2 * (nb * R)))
    with (x mod (2 * (nb * R)) + 2 * (x / (2 * (nb * R))) * nb * R) by lia.
  rewrite Z.div_add by lia. by rewrite Z.mod_add by lia.
Qed.

Lemma cleanup_spec t p L A T n :
  tinv (T / 2 ^ rshift t) t p L A -> ver_ok t None -> 0 <= T -> 0 <= n <= MB2 ->
  pool_tail p = T + n ->
  exists t', mehcached_cleanup_bucket 0 t (T mod 2 ^ 40) (pool_tail p) = Some t' /\
    tinv (pool_tail p / 2 ^ rshift t) t' p L A /\ ver_ok t' None /\ keeps p t t' /\
    config t' = config t.
Proof.
  intros Hinv Hver HT Hn Ht. pose proof (ti_geom _ _ _ _ _ Hinv) as Hg.
  destruct (pow_rshift t Hg) as (Hnb & Hn1 & Hr).
  set (R := 2 ^ rshift t) in *. assert (0 < R) as HR by (unfold R; lia).
  assert (2 <= num_buckets t) as Hn2.
  { destruct (tg_buckets _ Hg) as (m & Hm & -> & _).
    apply (Z.pow_le_mono_r 2 1 m); lia. }
  assert (2 * R <= 2 ^ 39) by (rewrite <- Hnb; apply Z.mul_le_mono_nonneg_r; lia).
  unfold mehcached_cleanup_bucket. pose proof (Z.mod_pos_bound T (2 ^ 40) ltac:(lia)).
  rewrite !log_div by (done || lia). fold R.
  change (2 ^ 40) with (2 * 2 ^ 39). rewrite <- Hnb.
  rewrite mod_div_mod by lia.
  pose proof (Z.mul_div_le (pool_tail p) R HR). pose proof (Z.mul_div_le T R HR).
  pose proof (Z.mul_succ_div_gt T R HR) as Hgt.
  assert (T / R <= pool_tail p / R) by (apply Z.div_le_mono; lia).
  assert (pool_tail p / R - T / R < num_buckets t) as Hlt.
  { destruct (decide (pool_tail p / R - T / R < num_buckets t)); [done|].
    assert (num_buckets t * R <= (pool_tail p / R - T / R) * R)
      by (apply Z.mul_le_mono_nonneg_r; lia). lia. }
  destruct (cleanup_loop_spec (Z.to_nat (num_buckets t)) (T / R) (pool_tail p / R) t p L A)
    as (t' & He & Hinv' & ? & ? & ?); [done|done|lia|lia|done|fold R; lia|].
  by exists t'.
Qed.
End Spec.
