(* ===== verification/Seqlock.v ===== *)
(** * Versions of a bucket, with other threads: the locks of [ported-mica/table.c]

    The functions of [MicaTable.v] run alone.  Here every access of a thread to shared
    memory is a step of its own, and a schedule interleaves the steps of any number of
    threads on one bucket: [mehcached_lock_bucket] reads the version and then compares and
    swaps it, [mehcached_unlock_bucket] reads it and then writes it, readers read slot by
    slot between [mehcached_read_version_begin] and [mehcached_read_version_end].  Memory is
    sequentially consistent, which the barriers of the source are there for. *)
From S2P Require Import Prelude PoolAlloc MicaTable.

(** ** Threads

    [RReading v since seen]: the version read at the start and what was read so far;
    [since] counts the sections finished before, which no step looks at. *)
Inductive thread :=
  | RBegin
  | RReading (v : Z) (since : nat) (seen : list (nat * Z))
  | RAccepted (since : nat) (seen : list (nat * Z))
  | WStart
  | WCas (v : Z)
  | WHolds
  | WUnlock (v : Z)
  | WDone
  | WFailed.

Inductive action :=
  | Next
  | ReadSlot (i : nat)
  | WriteSlot (i : nat) (x : Z).

(** The bucket, and the number of sections that writers have finished. *)
Record shared := Shared { bucket : mehcached_bucket; sections : nat }.

Definition with_bucket (sh : shared) (bk : mehcached_bucket) : shared := Shared bk (sections sh).

(** ** One access of each function *)

(** [mehcached_read_version_begin]: an odd version is read again. *)
Definition begin_access (sh : shared) : thread :=
  let v := version (bucket sh) in
  if negb (v &' 1 =? 0) then RBegin else RReading v (sections sh) [].

(** [version_start != mehcached_read_version_end(table, bucket)]: another attempt. *)
Definition end_access (sh : shared) (v : Z) (since : nat) (seen : list (nat * Z)) : thread :=
  if negb (v =? version (bucket sh)) then RBegin else RAccepted since seen.

(** [mehcached_lock_bucket], mode 2. *)
Definition lock_read (sh : shared) : Z := version (bucket sh) &' Z.lnot 1.

Definition lock_cas (sh : shared) (v : Z) : option shared :=
  if version (bucket sh) =? v then Some (with_bucket sh (set_version (bucket sh) (v |' 1))) else None.

(** [mehcached_unlock_bucket]: the assertion and the two accesses of [version++]. *)
Definition unlock_read (sh : shared) : option Z :=
  let v := version (bucket sh) in if v &' 1 =? 1 then Some v else None.

Definition unlock_write (sh : shared) (v : Z) : shared :=
  Shared (set_version (bucket sh) (u32 (v + 1))) (S (sections sh)).

Definition read_slot (sh : shared) (i : nat) : option Z := item_vec (bucket sh) !! i.

Definition write_slot (sh : shared) (i : nat) (x : Z) : option shared :=
  _ ← item_vec (bucket sh) !! i;
  Some (with_bucket sh (set_items (bucket sh) (<[i := x]> (item_vec (bucket sh))))).

(** ** Steps and schedules *)

Definition act (sh : shared) (th : thread) (a : action) : option (shared * thread) :=
  match th, a with
  | RBegin, Next => Some (sh, begin_access sh)
  | RReading v since seen, ReadSlot i => x ← read_slot sh i; Some (sh, RReading v since ((i, x) :: seen))
  | RReading v since seen, Next => Some (sh, end_access sh v since seen)
  | RAccepted _ _, Next => Some (sh, RBegin)
  | WStart, Next => Some (sh, WCas (lock_read sh))
  | WCas v, Next =>
      Some (match lock_cas sh v with Some sh => (sh, WHolds) | None => (sh, WStart) end)
  | WHolds, WriteSlot i x => sh ← write_slot sh i x; Some (sh, WHolds)
  | WHolds, Next =>
      Some (sh, match unlock_read sh with Some v => WUnlock v | None => WFailed end)
  | WUnlock v, Next => Some (unlock_write sh v, WDone)
  | WDone, Next => Some (sh, WStart)
  | _, _ => None
  end.

Record system := System { memory : shared; threads : list thread }.

(** Thread [i] makes one step; an action that its state does not allow is skipped. *)
Definition system_step (s : system) (c : nat * action) : system :=
  default s (th ← threads s !! c.1;
             '(sh, th) ← act (memory s) th c.2;
             Some (System sh (<[c.1 := th]> (threads s)))).

Definition run_schedule (s : system) (sched : list (nat * action)) : system :=
  foldl system_step s sched.

(** ** The functions of the table are these accesses, made without interruption *)

Lemma lock_bucket_alone t b bk n :
  concurrent_access_mode t = 2 -> get_bucket t b = Some bk ->
  mehcached_lock_bucket t b =
    (sh ← lock_cas (Shared bk n) (lock_read (Shared bk n)); Some (set_bucket t b (bucket sh))).
Proof.
  intros Hm Hb. unfold mehcached_lock_bucket, lock_cas, lock_read. rewrite Hm. cbn [Z.eqb].
  rewrite Hb. cbn. by destruct (_ =? _).
Qed.

Lemma unlock_bucket_alone t b bk n :
  concurrent_access_mode t <> 0 -> get_bucket t b = Some bk ->
  mehcached_unlock_bucket t b =
    (v ← unlock_read (Shared bk n); Some (set_bucket t b (bucket (unlock_write (Shared bk n) v)))).
Proof.
  intros Hm Hb. unfold mehcached_unlock_bucket, unlock_read.
  rewrite (proj2 (Z.eqb_neq _ _) Hm), Hb. cbn. by destruct (_ =? _).
Qed.

(** ** The invariant

    [h] is the thread inside a section.  A reader whose version is the current one has seen
    the slots as they are now, unless a section is open. *)

Section invariant.
Context (v0 : Z).

Definition agrees (sh : shared) (p : nat * Z) : Prop := read_slot sh p.1 = Some p.2.

Definition thread_ok (sh : shared) (h : option nat) (i : nat) (th : thread) : Prop :=
  match th with
  | WHolds => h = Some i
  | WUnlock v => h = Some i /\ v = version (bucket sh)
  | WFailed => False
  | WCas v => h <> Some i /\ Z.even v = true
  | RReading v since seen =>
      h <> Some i /\ v = u32 (v0 + 2 * Z.of_nat since) /\ (since <= sections sh)%nat /\
      (since = sections sh -> h = None -> Forall (agrees sh) seen)
  | _ => h <> Some i
  end.

Record seq_inv (s : system) (h : option nat) : Prop := {
  si_version : version (bucket (memory s)) =
    u32 (v0 + 2 * Z.of_nat (sections (memory s))) + match h with Some _ => 1 | None => 0 end;
  si_threads : forall i th, threads s !! i = Some th -> thread_ok (memory s) h i th }.

(** What a step of thread [i] may do to the memory. *)
Record frame (i : nat) (sh sh' : shared) (h h' : option nat) : Prop := {
  fr_holder : forall j, j <> i -> h = Some j <-> h' = Some j;
  fr_sections : (sections sh <= sections sh')%nat;
  fr_version : forall j, j <> i -> h = Some j -> version (bucket sh') = version (bucket sh);
  fr_slots : sections sh' = sections sh -> h' = None ->
    h = None /\ item_vec (bucket sh') = item_vec (bucket sh) }.

Lemma frame_refl i sh h : frame i sh sh h h.
Proof. by split. Qed.

Lemma thread_ok_frame i sh sh' h h' j th :
  frame i sh sh' h h' -> j <> i -> thread_ok sh h j th -> thread_ok sh' h' j th.
Proof.
  intros [Hh Hn Hv Hs] Hj. pose proof (Hh j Hj) as Hhj. destruct th as [|v since seen| | |v| |v| |]; cbn; try tauto.
  - intros (H1 & H2 & H3 & H4). split; [tauto|]. split; [done|]. split; [lia|].
    intros -> Hnone. assert (sections sh' = sections sh) as Heq by lia.
    destruct (Hs Heq Hnone) as [Hn' Hvec]. specialize (H4 Heq Hn').
    eapply Forall_impl; [exact H4|]. intros p. unfold agrees, read_slot. by rewrite Hvec.
  - intros [H1 ->]. split; [tauto|]. by rewrite (Hv j).
Qed.

Lemma step_inv s h i th sh' th' h' :
  seq_inv s h -> threads s !! i = Some th -> frame i (memory s) sh' h h' ->
  version (bucket sh') = u32 (v0 + 2 * Z.of_nat (sections sh')) + match h' with Some _ => 1 | None => 0 end ->
  thread_ok sh' h' i th' ->
  seq_inv (System sh' (<[i := th']> (threads s))) h'.
Proof.
  intros [_ Hth] Hi Hf Hv Hok. split; cbn; [done|]. intros j thj Hj.
  destruct (decide (j = i)) as [->|Hne].
  - rewrite list_lookup_insert_eq in Hj by (by eapply lookup_lt_Some). by injection Hj as <-.
  - rewrite list_lookup_insert_ne in Hj by done. eapply thread_ok_frame; [done|done|by apply Hth].
Qed.

Context (Hv0 : Z.even v0 = true).

Lemma even_version n : Z.even (u32 (v0 + 2 * Z.of_nat n)) = true.
Proof.
  unfold wrap. apply Zeven_bool_iff in Hv0. apply Zeven_ex in Hv0 as [q ->].
  rewrite Z.even_spec. exists ((q + Z.of_nat n) mod 2 ^ 31).
  replace (2 * q + 2 * Z.of_nat n) with ((q + Z.of_nat n) * 2) by lia.
  change (2 ^ 32) with (2 ^ 31 * 2). rewrite Z.mul_mod_distr_r by lia. lia.
Qed.

Lemma odd_land v : v &' 1 = if Z.even v then 0 else 1.
Proof.
  change 1 with (Z.ones 1) at 1. rewrite Z.land_ones by lia. change (2 ^ 1) with 2.
  rewrite Zmod_even. done.
Qed.

Lemma even_or v : Z.even v = true -> v |' 1 = v + 1.
Proof.
  intros He. apply Z.even_spec in He as [q ->]. replace (2 * q) with (q <<' 1) by (rewrite Z.shiftl_mul_pow2; lia).
  rewrite (lor_shiftl q 1 1) by lia. rewrite Z.shiftl_mul_pow2; lia.
Qed.

Lemma even_clear v : Z.even (v &' Z.lnot 1) = true.
Proof.
  rewrite <- Z.negb_odd, <- Z.bit0_odd, Z.land_spec, Z.lnot_spec by lia. cbn. by rewrite andb_false_r.
Qed.

(** An open section makes the version odd. *)
Lemma version_parity s h :
  seq_inv s h -> Z.even (version (bucket (memory s))) = match h with Some _ => false | None => true end.
Proof.
  intros [Hv _]. rewrite Hv. destruct h; rewrite Z.even_add, even_version; done.
Qed.

(** A step that opens a section, one that writes in it, and the one that closes it. *)
Lemma lock_inv s i v sh :
  seq_inv s None -> threads s !! i = Some (WCas v) -> Z.even v = true -> lock_cas (memory s) v = Some sh ->
  seq_inv (System sh (<[i := WHolds]> (threads s))) (Some i).
Proof.
  intros Hinv Hi He. unfold lock_cas. destruct (Z.eqb_spec (version (bucket (memory s))) v) as [Heq|]; [|done].
  intros [= <-]. eapply step_inv; [done|done|..|done].
  - split; cbn; [|done|done|done]. intros j Hj. split; [done|]. intros [= ->]. done.
  - cbn. rewrite even_or by done. pose proof (si_version _ _ Hinv) as Hv. cbn in Hv. lia.
Qed.

Lemma write_inv s i j x sh :
  seq_inv s (Some i) -> threads s !! i = Some WHolds -> write_slot (memory s) j x = Some sh ->
  seq_inv (System sh (<[i := WHolds]> (threads s))) (Some i).
Proof.
  intros Hinv Hi. unfold write_slot. destruct (_ !! j); [|done]. intros [= <-].
  eapply step_inv; [done|done|..|done].
  - by split.
  - apply (si_version _ _ Hinv).
Qed.

Lemma unlock_inv s i :
  seq_inv s (Some i) -> threads s !! i = Some (WUnlock (version (bucket (memory s)))) ->
  seq_inv (System (unlock_write (memory s) (version (bucket (memory s)))) (<[i := WDone]> (threads s))) None.
Proof.
  intros Hinv Hi. eapply step_inv; [done|done|..|done].
  - split; cbn; [|lia|by intros j ? [= ->]|lia]. intros j Hj. split; [|done]. intros [= ->]. done.
  - cbn. rewrite (si_version _ _ Hinv). rewrite <- Z.add_assoc, wrap_add_l. change (1 + 1) with 2.
    rewrite Z.add_0_r. f_equal. lia.
Qed.

Lemma act_inv s h i th a sh' th' :
  seq_inv s h -> threads s !! i = Some th -> act (memory s) th a = Some (sh', th') ->
  exists h', seq_inv (System sh' (<[i := th']> (threads s))) h'.
Proof.
  intros Hinv Hi Hact. pose proof (version_parity s h Hinv) as Hpar.
  pose proof (si_threads _ _ Hinv i th Hi) as Hok. pose proof (si_version _ _ Hinv) as Hv.
  assert (forall th1, thread_ok (memory s) h i th1 ->
    exists h', seq_inv (System (memory s) (<[i := th1]> (threads s))) h') as Hsame.
  { intros th1 Hok1. exists h. eapply step_inv; [done|done|apply frame_refl|done|done]. }
  destruct th as [|v since seen| | |v| |v| |], a as [|k|k x]; cbn in Hact; try done;
    try (injection Hact as <- <-; apply Hsame; exact Hok).
  - injection Hact as <- <-. apply Hsame. unfold begin_access. rewrite odd_land, Hpar.
    destruct h; cbn in *; [done|]. split; [done|]. split; [lia|]. split; [done|]. intros _ _. constructor.
  - injection Hact as <- <-. apply Hsame. unfold end_access. destruct Hok. by destruct (_ =? _).
  - destruct (read_slot (memory s) k) as [y|] eqn:Hy; [|done]. injection Hact as <- <-. apply Hsame.
    destruct Hok as (H1 & H2 & H3 & H4). split; [done|]. split; [done|]. split; [done|].
    intros Hs Hh. apply Forall_cons. split; [done|by apply H4].
  - injection Hact as <- <-. apply Hsame. split; [exact Hok|apply even_clear].
  - destruct Hok as [H1 H2]. destruct (lock_cas (memory s) v) as [sh|] eqn:Hc; injection Hact as <- <-.
    + destruct h as [j|]; [|by exists (Some i); eapply lock_inv]. exfalso. unfold lock_cas in Hc.
      destruct (Z.eqb_spec (version (bucket (memory s))) v); [congruence|done].
    + by apply Hsame.
  - injection Hact as <- <-. apply Hsame. unfold unlock_read. rewrite odd_land, Hpar. cbn in Hok. by subst h.
  - destruct (write_slot (memory s) k x) as [sh|] eqn:Hw; [|done]. injection Hact as <- <-.
    cbn in Hok. subst h. exists (Some i). by eapply write_inv.
  - destruct Hok as [-> ->]. injection Hact as <- <-. exists None. by apply unlock_inv.
Qed.

Lemma run_inv sched : forall s h, seq_inv s h -> exists h', seq_inv (run_schedule s sched) h'.
Proof.
  induction sched as [|[i a] sched IH]; intros s h Hinv; cbn; [by exists h|].
  assert (exists h', seq_inv (system_step s (i, a)) h') as [h' Hinv']; [|by eapply IH].
  unfold system_step. cbn. destruct (threads s !! i) as [th|] eqn:Hi; cbn; [|by exists h].
  destruct (act (memory s) th a) as [[sh' th']|] eqn:Ha; cbn; [|by exists h]. by eapply act_inv.
Qed.
End invariant.

(** ** Theorems *)

(** Nobody has started. *)
Definition fresh (s : system) : Prop :=
  sections (memory s) = O /\ Z.even (version (bucket (memory s))) = true /\
  0 <= version (bucket (memory s)) < 2 ^ 32 /\ Forall (fun th => th = RBegin \/ th = WStart) (threads s).

Lemma fresh_inv s : fresh s -> seq_inv (version (bucket (memory s))) s None.
Proof.
  intros (Hn & He & Hr & Hth). split.
  - rewrite Hn, !Z.add_0_r. symmetry. by apply (wrap_small 32).
  - intros i th Hi. rewrite Forall_lookup in Hth. by destruct (Hth i th Hi) as [->| ->].
Qed.

Definition in_section (th : thread) : Prop :=
  match th with WHolds | WUnlock _ => True | _ => False end.

(** C12: Under every schedule of any number of readers and writers, at most one writer is inside
    its section, and the assertion of [mehcached_unlock_bucket] never fails. *)
Theorem seqlock_excludes s sched :
  fresh s ->
  let s' := run_schedule s sched in
  (forall i j thi thj, threads s' !! i = Some thi -> threads s' !! j = Some thj ->
     in_section thi -> in_section thj -> i = j) /\
  WFailed ∉ threads s'.
Proof.
  intros Hf s'. destruct (run_inv _ (proj1 (proj2 Hf)) sched s None (fresh_inv s Hf)) as [h [_ Hth]].
  assert (forall i th, threads s' !! i = Some th -> in_section th -> h = Some i) as Hin.
  { intros i th Hi Hs. specialize (Hth i th Hi). destruct th; cbn in *; tauto. }
  split.
  - intros i j thi thj Hi Hj Hsi Hsj. pose proof (Hin i thi Hi Hsi). pose proof (Hin j thj Hj Hsj). congruence.
  - intros [i Hi]%list_elem_of_lookup. by specialize (Hth i _ Hi).
Qed.

(** C11: A reader whose versions agree has read one state of the bucket: every slot it read is
    still what it read, and no section is open.  The version has 32 bits and steps by 2, so
    this holds when fewer than 2^31 sections were finished while it was reading. *)
Theorem seqlock_reads_atomic s sched i v since seen s' :
  fresh s -> s' = run_schedule s sched ->
  threads s' !! i = Some (RReading v since seen) ->
  act (memory s') (RReading v since seen) Next = Some (memory s', RAccepted since seen) ->
  Z.of_nat (sections (memory s')) < Z.of_nat since + 2 ^ 31 ->
  Forall (fun p => item_vec (bucket (memory s')) !! p.1 = Some p.2) seen /\
  sections (memory s') = since /\
  forall j th, threads s' !! j = Some th -> ~ in_section th.
Proof.
  intros Hf Hs' Hi Hacc Hfew.
  destruct (run_inv _ (proj1 (proj2 Hf)) sched s None (fresh_inv s Hf)) as [h Hinv]. rewrite <- Hs' in Hinv.
  set (v0 := version (bucket (memory s))) in *.
  destruct (si_threads _ _ _ Hinv i _ Hi) as (H1 & Hv & Hle & Hagree).
  cbn in Hacc. unfold end_access in Hacc.
  destruct (Z.eqb_spec v (version (bucket (memory s')))) as [Heq|]; [|done]. clear Hacc.
  assert (h = None) as ->.
  { pose proof (version_parity v0 (proj1 (proj2 Hf)) s' h Hinv) as Hp.
    rewrite <- Heq, Hv, even_version in Hp by apply Hf. by destruct h. }
  assert (sections (memory s') = since) as Hsec.
  { rewrite (si_version _ _ _ Hinv), Hv, Z.add_0_r in Heq. unfold wrap in Heq.
    Z.to_euclidean_division_equations. lia. }
  split; [by apply Hagree|]. split; [done|]. intros j th Hj Hin.
  pose proof (si_threads _ _ _ Hinv j th Hj) as Hok. destruct th; cbn in *; try done. by destruct Hok.
Qed.

(** ** Examples *)

Definition bucket7 (items : list Z) : mehcached_bucket := Bucket 0 0 (items ++ replicate 5 0).

Definition two : system := System (Shared (bucket7 [0; 0]) 0) [RBegin; WStart].

Lemma two_fresh : fresh two.
Proof. split; [done|]. split; [done|]. split; [cbn; lia|]. repeat constructor; tauto. Qed.

Definition one_section (ws : list (nat * Z)) : list (nat * action) :=
  [(1%nat, Next); (1%nat, Next)] ++ ((fun w => (1%nat, WriteSlot w.1 w.2)) <$> ws) ++
  [(1%nat, Next); (1%nat, Next); (1%nat, Next)].

Lemma seqlock_excludes_witness :
  WFailed ∉ threads (run_schedule two (one_section [(0%nat, 7)])).
Proof. apply (seqlock_excludes two (one_section [(0%nat, 7)]) two_fresh). Defined.

Lemma seqlock_reads_atomic_witness :
  sections (memory (run_schedule two (one_section [(0%nat, 7)] ++ [(0%nat, Next); (0%nat, ReadSlot 0)]))) = 1%nat.
Proof.
  apply (seqlock_reads_atomic two (one_section [(0%nat, 7)] ++ [(0%nat, Next); (0%nat, ReadSlot 0)])
    0 2 1 [(0%nat, 7)]); [exact two_fresh|reflexivity|reflexivity|reflexivity|vm_compute; reflexivity].
Defined.

(** Sections that write nothing move the version only. *)
Fixpoint idle_sections (n : nat) : list (nat * action) :=
  match n with O => [] | S n => one_section [] ++ idle_sections n end.

Lemma run_app s sched1 sched2 : run_schedule s (sched1 ++ sched2) = run_schedule (run_schedule s sched1) sched2.
Proof. apply foldl_app. Qed.

(** Taking the lock of a bucket that nobody holds. *)
Lemma take_lock nx items v k r :
  0 <= v < 2 ^ 32 -> Z.even v = true ->
  run_schedule (System (Shared (Bucket v nx items) k) [r; WStart]) [(1%nat, Next); (1%nat, Next)] =
    System (Shared (Bucket (v + 1) nx items) k) [r; WHolds].
Proof.
  intros Hv He. assert (v &' Z.lnot 1 = v) as Hclear.
  { rewrite <- Z.ldiff_land. change 1 with (Z.ones 1). rewrite Z.ldiff_ones_r by lia.
    apply Z.even_spec in He as [q ->]. rewrite Z.shiftl_mul_pow2, Z.shiftr_div_pow2 by lia.
    rewrite (Z.mul_comm 2), Z.div_mul; lia. }
  cbn. unfold system_step. cbn. unfold lock_read, lock_cas. cbn. rewrite Hclear, Z.eqb_refl. cbn.
  by rewrite even_or.
Qed.

(** Releasing it. *)
Lemma release_lock nx items v k r :
  Z.even v = true ->
  run_schedule (System (Shared (Bucket (v + 1) nx items) k) [r; WHolds])
      [(1%nat, Next); (1%nat, Next); (1%nat, Next)] =
    System (Shared (Bucket (u32 (v + 2)) nx items) (S k)) [r; WStart].
Proof.
  intros He. cbn. unfold system_step. cbn. unfold unlock_read. cbn.
  rewrite odd_land, Z.even_add, He. cbn. unfold unlock_write. cbn.
  by replace (v + 1 + 1) with (v + 2) by lia.
Qed.

Lemma one_idle nx items v k r :
  0 <= v < 2 ^ 32 -> Z.even v = true ->
  run_schedule (System (Shared (Bucket v nx items) k) [r; WStart]) (one_section []) =
    System (Shared (Bucket (u32 (v + 2)) nx items) (S k)) [r; WStart].
Proof.
  intros Hv He. unfold one_section. rewrite run_app, take_lock by done. by apply release_lock.
Qed.

Lemma idle_run n nx items r : forall v k,
  0 <= v < 2 ^ 32 -> Z.even v = true ->
  run_schedule (System (Shared (Bucket v nx items) k) [r; WStart]) (idle_sections n) =
    System (Shared (Bucket (u32 (v + 2 * Z.of_nat n)) nx items) (k + n)) [r; WStart].
Proof.
  induction n as [|n IH]; intros v k Hv He.
  - cbn [idle_sections]. rewrite Z.add_0_r, Nat.add_0_r. rewrite (wrap_small 32) by done. done.
  - cbn [idle_sections]. rewrite run_app, one_idle by done.
    rewrite IH; [|apply wrap_range; lia|by apply (even_version v He 1)].
    rewrite wrap_add_l. f_equal. f_equal; [|lia]. f_equal. f_equal. lia.
Qed.

(** A section that writes the first two slots. *)
Lemma one_writes nx a0 a1 rest b0 b1 v k r :
  0 <= v < 2 ^ 32 -> Z.even v = true ->
  run_schedule (System (Shared (Bucket v nx (a0 :: a1 :: rest)) k) [r; WStart])
      (one_section [(0%nat, b0); (1%nat, b1)]) =
    System (Shared (Bucket (u32 (v + 2)) nx (b0 :: b1 :: rest)) (S k)) [r; WStart].
Proof.
  intros Hv He. unfold one_section. rewrite run_app, take_lock, run_app by done.
  apply (release_lock nx (b0 :: b1 :: rest)). done.
Qed.

(** *** Every state on the way *)

Definition slots (s : system) : list Z := item_vec (bucket (memory s)).

Fixpoint along (P : list Z -> Prop) (s : system) (sched : list (nat * action)) : Prop :=
  P (slots s) /\ match sched with [] => True | c :: sched => along P (system_step s c) sched end.

Lemma along_app P sched1 sched2 : forall s,
  along P s sched1 -> along P (run_schedule s sched1) sched2 -> along P s (sched1 ++ sched2).
Proof.
  induction sched1 as [|c sched1 IH]; intros s H1 H2; [done|]. destruct H1 as [H H1].
  split; [done|]. by apply IH.
Qed.

Lemma along_take P sched : forall s j, along P s sched -> P (slots (run_schedule s (take j sched))).
Proof.
  induction sched as [|c sched IH]; intros s j [H H']; [by rewrite take_nil|].
  destruct j as [|j]; [done|]. cbn [take]. by apply (IH (system_step s c)).
Qed.

Definition writes_nothing (c : nat * action) : Prop :=
  match c.2 with WriteSlot _ _ => False | _ => True end.

Lemma step_slots s c : writes_nothing c -> slots (system_step s c) = slots s.
Proof.
  unfold system_step, slots. destruct c as [i a]. cbn. intros Hc.
  destruct (threads s !! i) as [th|]; [|done]. cbn.
  destruct th, a; try done; cbn; unfold read_slot, lock_cas, with_bucket, unlock_write;
    try (by repeat case_match); try (by destruct (item_vec _ !! _)).
  by destruct (_ =? _).
Qed.

Lemma along_quiet P sched : forall s,
  Forall writes_nothing sched -> P (slots s) -> along P s sched.
Proof.
  induction sched as [|c sched IH]; intros s Hq H; [by split|]. apply Forall_cons in Hq as [Hc Hq].
  split; [done|]. apply IH; [done|]. by rewrite step_slots.
Qed.

Lemma idle_quiet n : Forall writes_nothing (idle_sections n) /\ Forall (fun c => c.1 = 1%nat) (idle_sections n).
Proof.
  induction n as [|n [IH1 IH2]]; [by split|]. cbn [idle_sections].
  split; apply Forall_app; (split; [|done]); by repeat constructor.
Qed.

Lemma along_writes P nx a0 a1 rest b0 b1 v k r :
  0 <= v < 2 ^ 32 -> Z.even v = true ->
  P (a0 :: a1 :: rest) -> P (b0 :: a1 :: rest) -> P (b0 :: b1 :: rest) ->
  along P (System (Shared (Bucket v nx (a0 :: a1 :: rest)) k) [r; WStart])
    (one_section [(0%nat, b0); (1%nat, b1)]).
Proof.
  intros Hv He H1 H2 H3. unfold one_section. apply along_app.
  { apply along_quiet; [by repeat constructor|done]. }
  rewrite take_lock by done. apply along_app; [by repeat split|].
  apply along_quiet; [by repeat constructor|done].
Qed.

(** C35: A reader and a writer of any bucket, at any even version: if the writer finishes exactly
    2^31 sections while the reader is between its two version reads, the reader finds its
    version again and accepts.  In the schedule of the proof the first section changes the
    slots 0 and 1, in this order, and the others change nothing; the reader reads slot 0
    before all of them and slot 1 after all of them, and accepts a pair of values that the
    bucket did not hold together in any state of the run. *)
Theorem seqlock_version_wraps v nx a0 a1 rest k b0 b1 :
  0 <= v < 2 ^ 32 -> Z.even v = true -> a0 <> b0 -> a1 <> b1 ->
  let start := System (Shared (Bucket v nx (a0 :: a1 :: rest)) k) [RBegin; WStart] in
  exists mid, Forall (fun c => c.1 = 1%nat) mid /\
    let sched := [(0%nat, Next); (0%nat, ReadSlot 0)] ++ mid ++ [(0%nat, ReadSlot 1); (0%nat, Next)] in
    let s := run_schedule start sched in
    threads s !! 0%nat = Some (RAccepted k [(1%nat, b1); (0%nat, a0)]) /\
    Z.of_nat (sections (memory s)) = Z.of_nat k + 2 ^ 31 /\
    forall j, let items := item_vec (bucket (memory (run_schedule start (take j sched)))) in
      ~ (items !! 0%nat = Some a0 /\ items !! 1%nat = Some b1).
Proof.
  intros Hv He H0 H1 start. remember (Z.to_nat (2 ^ 31 - 1)) as n eqn:Hn.
  assert (Z.of_nat n = 2 ^ 31 - 1) as Hz by (subst n; apply Z2Nat.id; lia). clear Hn.
  set (mid := one_section [(0%nat, b0); (1%nat, b1)] ++ idle_sections n).
  destruct (idle_quiet n) as [Hq Hi]. exists mid. split.
  { apply Forall_app. split; [by repeat constructor|done]. }
  assert (run_schedule start [(0%nat, Next); (0%nat, ReadSlot 0)] =
    System (Shared (Bucket v nx (a0 :: a1 :: rest)) k) [RReading v k [(0%nat, a0)]; WStart]) as Hs1.
  { subst start. unfold run_schedule, system_step. cbn. unfold begin_access. cbn.
    by rewrite odd_land, He. }
  assert (u32 (u32 (v + 2) + 2 * (2 ^ 31 - 1)) = v) as Hvv.
  { rewrite wrap_add_l. replace (v + 2 + 2 * (2 ^ 31 - 1)) with (v + 1 * 2 ^ 32) by lia.
    unfold wrap. rewrite Z.mod_add by lia. by apply Z.mod_small. }
  cbv zeta. rewrite !run_app, Hs1. unfold mid. rewrite run_app, one_writes, idle_run by
    (done || (apply wrap_range; lia) || by apply (even_version v He 1)).
  rewrite Hz, Hvv. split; [by cbn; unfold end_access; cbn; rewrite Z.eqb_refl|].
  split; [cbn; lia|]. intros j.
  set (P := fun items : list Z => ~ (items !! 0%nat = Some a0 /\ items !! 1%nat = Some b1)).
  assert (P (a0 :: a1 :: rest) /\ P (b0 :: a1 :: rest) /\ P (b0 :: b1 :: rest)) as (P1 & P2 & P3).
  { unfold P. cbn. split; [|split]; intros [??]; congruence. }
  apply (along_take P). apply along_app; [by apply along_quiet; [repeat constructor|]|].
  rewrite Hs1. apply along_app; [apply along_app|].
  - by apply along_writes.
  - rewrite one_writes by done. by apply along_quiet.
  - rewrite run_app, one_writes, idle_run by
      (done || (apply wrap_range; lia) || by apply (even_version v He 1)).
    by apply along_quiet; [repeat constructor|].
Qed.

(** A bucket of zeros and a writer of sevens. *)
Lemma seqlock_version_wraps_witness :
  exists mid, Forall (fun c => c.1 = 1%nat) mid /\
    let sched := [(0%nat, Next); (0%nat, ReadSlot 0)] ++ mid ++ [(0%nat, ReadSlot 1); (0%nat, Next)] in
    let s := run_schedule two sched in
    threads s !! 0%nat = Some (RAccepted 0 [(1%nat, 7); (0%nat, 0)]) /\
    Z.of_nat (sections (memory s)) = Z.of_nat 0 + 2 ^ 31 /\
    forall j, let items := item_vec (bucket (memory (run_schedule two (take j sched)))) in
      ~ (items !! 0%nat = Some 0 /\ items !! 1%nat = Some 7).
Proof.
  apply (seqlock_version_wraps 0 0 0 0 (replicate 5 0) 0 7 7); [lia|reflexivity|lia|lia].
Defined.
