(* ===== verification/MicaCache.v ===== *)
(** * The operations of MICA against a lossy map

    Every operation of the table keeps the invariant of [MicaSpec] and acts on the
    abstract cache, a finite map, as its name says; a look-up may miss. *)
From S2P Require Import Prelude PoolAlloc MicaTable MicaSpec.

(** ** The lock of the pool *)

Lemma pool_lock_spec p :
  pool_lock_word p = 0 ->
  exists l, mehcached_pool_lock p = Some (pool_set_lock p l) /\
    forall p', pool_mode p' = pool_mode p -> pool_lock_word p' = l ->
      mehcached_pool_unlock p' = Some (pool_set_lock p' 0).
Proof.
  intros Hl. unfold mehcached_pool_lock, mehcached_pool_unlock.
  destruct (Z.eqb_spec (pool_mode p) 2) as [Hm|Hm].
  - exists 1. rewrite Hl. split; [done|]. intros p' -> ->. by rewrite (proj2 (Z.eqb_eq _ 2) Hm).
  - exists 0. split; [by destruct p; simpl in *; subst|]. intros p' -> Hl'.
    rewrite (proj2 (Z.eqb_neq _ 2) Hm). by destruct p'; simpl in *; subst.
Qed.

Lemma pool_inv_lock p L l : pool_inv p L -> pool_inv (pool_set_lock p l) L.
Proof. intros [[? ? ?] ? ? ? ?]. by split. Qed.

Section Cache.
Context (H : bytestring -> Z) (HH : forall K, 0 <= H K < 2 ^ 64).

Lemma slot_ok_lock t p L A C b v l :
  slot_ok H t p L A C b v -> slot_ok H t (pool_set_lock p l) L A C b v.
Proof.
  apply slot_ok_pool; [done..|]. intros o n K V _ _ _ _ HL [? ? ? ? ? ?] HA _. by exists V.
Qed.

Lemma tinv_lock C t p L A l :
  tinv H C t p L A -> tinv H C (set_alloc t 0 (pool_set_lock p l)) (pool_set_lock p l) L A.
Proof.
  intros Hinv. eapply tinv_set_alloc; [done|by apply pool_inv_lock, Hinv|apply Hinv|].
  intros b bk i v _ _ _ _. apply slot_ok_lock.
Qed.

(** ** The state between operations *)

(** The table caches a part of [A], and [k] items more can be stored before the
    64-bit positions of the log overflow; nothing moves to the head (FIFO). *)
Definition minv (t : mehcached_table) (A : cache) (k : Z) : Prop :=
  exists p L, tinv H (pool_tail p / 2 ^ rshift t) t p L A /\ ver_ok t None /\
    pool_lock_word p = 0 /\ pool_tail p + k * MB2 < 2 ^ 63 /\ pool_mask p <= mth_threshold t.

(** [key] is in the table, and intact. *)
Definition cached (t : mehcached_table) (key : list Z) (klen : Z) : Prop :=
  let K := padded key klen in
  exists p i v, alloc t = [p] /\ get_slot t (key_bucket H t K) i = Some v /\ v <> 0 /\
    mehcached_pool_is_valid p (MEHCACHED_ITEM_OFFSET v) = true /\
    item_matches t (H K) (key_tag H K) key klen v = Some true.

(** The bytes appended to the log, and its room. *)
Definition log_used (t : mehcached_table) : Z :=
  match alloc t with p :: _ => pool_tail p | [] => 0 end.
Definition log_room (t : mehcached_table) : Z :=
  match alloc t with p :: _ => pool_size p | [] => 0 end.

(** No entry is lost. *)
Definition loses_none (t t' : mehcached_table) : Prop :=
  forall key klen, cached t key klen -> cached t' key klen.

Lemma loses_none_refl t : loses_none t t.
Proof. by intros key klen. Qed.

Lemma matches_alloc t t' h tag key klen v :
  alloc t' = alloc t -> item_matches t' h tag key klen v = item_matches t h tag key klen v.
Proof. intros Ha. unfold item_matches, get_alloc. by rewrite Ha. Qed.

Lemma config_bucket t t' K : config t' = config t -> key_bucket H t' K = key_bucket H t K.
Proof. intros [= _ _ _ Hm _]. unfold key_bucket, mehcached_calc_bucket_index. by rewrite Hm. Qed.

Lemma set_slot_eval t b i v bk v0 :
  get_bucket t b = Some bk -> item_vec bk !! i = Some v0 ->
  set_slot t b i v = Some (set_bucket t b (set_items bk (<[i := v]> (item_vec bk)))).
Proof.
  intros Hbk Hi. unfold set_slot. rewrite Hbk. cbn [mbind option_bind].
  rewrite decide_True; [done|]. by eapply lookup_lt_Some.
Qed.

Lemma get_slot_eval t b i bk v :
  get_bucket t b = Some bk -> item_vec bk !! i = Some v -> get_slot t b i = Some v.
Proof. intros Hbk Hi. unfold get_slot. by rewrite Hbk. Qed.

Lemma get_slot_inv t b i v :
  get_slot t b i = Some v -> exists bk, get_bucket t b = Some bk /\ item_vec bk !! i = Some v.
Proof. intros (bk & ? & ?)%bind_Some. by exists bk. Qed.

(** An entry for another key of the same bucket and tag is in the given slot. *)
Lemma other_key t p L A A' C b bk i K0 :
  tinv H C t p L A -> get_bucket t b = Some bk -> b = key_bucket H t K0 ->
  (forall j w, item_vec bk !! j = Some w -> w <> 0 ->
     MEHCACHED_TAG w = key_tag H K0 -> j = i) ->
  (forall K, K <> K0 -> A' !! K = A !! K) ->
  forall b' bk' j w, 0 <= b' -> get_bucket t b' = Some bk' -> item_vec bk' !! j = Some w ->
    w <> 0 -> (b', j) <> (b, i) -> slot_ok H t p L A C b' w -> slot_ok H t p L A' C b' w.
Proof.
  intros Hinv Hbk Hb Huniq HA b' bk' j w Hb' Hbk' Hj Hw Hne.
  apply slot_ok_pool; [done..|]. intros o n K V -> HbK _ _ HL Hit HK _.
  exists V. split; [done|]. split; [done|]. rewrite HA; [done|]. intros ->.
  apply Hne. rewrite <- HbK, <- Hb in *. f_equal. rewrite Hbk in Hbk'. injection Hbk' as <-.
  apply (Huniq j _ Hj Hw).
  by destruct (item_vec_fields (key_tag H K0) o) as [? _];
    [pose proof (calc_tag_range (H K0)); unfold key_tag; lia|].
Qed.

(** ** Storing a new item *)

Lemma store_new_pool C t p L A l K0 key klen value vlen expire :
  tinv H C t p L A -> pool_tail p < (C + 1) * 2 ^ rshift t -> pool_tail p + MB2 < 2 ^ 63 ->
  lengths_ok klen vlen -> buf_ok key klen -> buf_ok value vlen -> K0 = padded key klen ->
  let n := item_bytes klen vlen in
  let o := pool_tail p in
  exists p1 p2, mehcached_pool_allocate (pool_set_lock p l) n = Some (o mod 2 ^ 40, p1) /\
    mehcached_set_item p1 (mehcached_pool_item p1 (o mod 2 ^ 40)) (H K0) key klen value vlen
      expire = Some p2 /\
    pool_tail p1 = o + n /\ pool_tail p2 = o + n /\ pool_size p2 = pool_size p /\
    pool_mask p2 = pool_mask p /\ pool_mode p2 = pool_mode p /\ pool_lock_word p2 = l /\
    item_at p2 o n (H K0) K0 (padded value vlen) /\
    tinv H C (set_alloc t 0 (pool_set_lock p2 0)) (pool_set_lock p2 0) (L ++ [(o, n)]) A.
Proof.
  intros Hinv Ht Hmax Hlen Hk Hv -> n o.
  destruct (item_bytes_bounds _ _ Hlen) as (Hn & Hn8 & _). fold n in Hn, Hn8.
  destruct (push_tail_spec (pool_set_lock p l) L n) as (p1 & Hpush & Hp1 & Hsame & Ht1 & Hfr);
    [apply pool_inv_lock, Hinv|lia|done|simpl; lia|].
  change (pool_tail (pool_set_lock p l)) with o in *. simpl in Hsame, Hfr.
  destruct Hsame as (Hm1 & Hl1 & Hs1 & Hk1).
  destruct (set_item_spec p1 o (H (padded key klen)) key klen value vlen expire)
    as (p2 & Hset & Hpat & Hit); [apply (inv_geom _ _ Hp1)|done..|apply HH|]. fold n in Hit, Hpat.
  destruct (tinv_push H C t p L A n p1 p2) as (Hinv2 & Ht2 & Hs2); try done; [lia|].
  exists p1, p2. split; [done|]. split; [done|]. split; [done|]. split; [done|]. split; [done|].
  assert (pool_mask p2 = pool_mask p1 /\ pool_mode p2 = pool_mode p1 /\
    pool_lock_word p2 = pool_lock_word p1) as (-> & -> & ->)
    by (destruct Hpat as [Hpat _]; by rewrite Hpat).
  split; [done|]. split; [done|]. split; [done|]. split; [done|].
  apply (tinv_lock _ _ _ _ _ 0) in Hinv2.
  unfold set_alloc in *. simpl in Hinv2. by rewrite list_insert_insert_eq in Hinv2.
Qed.

(** The chunk of the log the tail is in. *)
Lemma log_chunk_bounds x k : 0 <= k -> x / 2 ^ k * 2 ^ k <= x < (x / 2 ^ k + 1) * 2 ^ k.
Proof.
  intros Hk. pose proof (Z.pow_pos_nonneg 2 k ltac:(lia) Hk).
  pose proof (Z.mul_div_le x (2 ^ k) ltac:(lia)).
  pose proof (Z.mul_succ_div_gt x (2 ^ k) ltac:(lia)). lia.
Qed.

(** Writing a slot leaves the other slots. *)
Lemma set_slot_frame t b bk i v b' j w :
  0 <= b -> get_bucket t b = Some bk -> 0 <= b' -> (b', j) <> (b, i) ->
  get_slot t b' j = Some w ->
  get_slot (set_bucket t b (set_items bk (<[i := v]> (item_vec bk)))) b' j = Some w.
Proof.
  intros Hb0 Hbk Hb' Hne Hw. unfold get_slot.
  rewrite get_set_bucket by (done || by exists bk). case_decide as Hbb; [subst b'|done].
  cbn [mbind option_bind set_items item_vec]. rewrite list_lookup_insert_ne by congruence.
  unfold get_slot in Hw. by rewrite Hbk in Hw.
Qed.

(** The slot of the locked bucket [b] that has the item appended last: the invariant, for the
    map with the new entry. *)
Section NewSlot.
Context (t : mehcached_table) (p : mehcached_pool) (L : list (Z * Z)) (A : cache)
  (C b o n : Z) (bk : mehcached_bucket) (i : nat) (v0 : Z) (key : list Z) (klen : Z)
  (V : bytestring).
Let K0 : bytestring := padded key klen.
Let v : Z := MEHCACHED_ITEM_VEC (key_tag H K0) 0 (o mod 2 ^ 40).
Let t2 : mehcached_table := set_bucket t b (set_items bk (<[i := v]> (item_vec bk))).
Context (Hinv : tinv H C t p (L ++ [(o, n)]) A) (Hb0 : 0 <= b)
  (Hb : b = key_bucket H t K0) (Hbk : get_bucket t b = Some bk) (Hi : item_vec bk !! i = Some v0)
  (Huniq : forall j w, item_vec bk !! j = Some w -> w <> 0 -> MEHCACHED_TAG w = key_tag H K0 ->
    j = i)
  (Hn : 0 < n < MB2) (Ho : 0 <= o) (Hend : o + n = pool_tail p) (Hint : intact p o) (HC : C * 2 ^ rshift t <= o)
  (Hit : item_at p o n (H K0) K0 V).

Lemma new_slot_holds : holds H t p (<[K0 := V]> A) b (key_tag H K0) o n K0 V.
Proof.
  split; [by destruct Hit; split|]. split; [done|]. split; [done|]. apply lookup_insert_eq.
Qed.

Lemma new_slot_tinv : tinv H C t2 p (L ++ [(o, n)]) (<[K0 := V]> A).
Proof.
  pose proof (calc_tag_range (H K0) : 0 < key_tag H K0 < 2 ^ 16) as Htag.
  destruct (item_vec_fields (key_tag H K0) o) as (Hvt & _); [lia|].
  eapply tinv_set_slot; [done|done|done| | |].
  - intros _. exists o, (key_tag H K0). split; [done|]. split; [done|].
    split; [lia|]. split.
    + intros c Hc _. destruct (pow_rshift t (ti_geom _ _ _ _ _ _ Hinv)) as (_ & _ & ?).
      assert ((c + 1) * 2 ^ rshift t <= C * 2 ^ rshift t) by (apply Z.mul_le_mono_nonneg_r; lia).
      pose proof (geom_bounds p (ti_pgeom _ _ _ _ _ _ Hinv)). lia.
    + intros _. exists n, K0, V. split; [set_solver|].
      apply new_slot_holds.
  - intros _ j w Hj Hw Htw. unfold v in Htw. rewrite Hvt in Htw. by eapply Huniq.
  - eapply other_key; [done|done|by rewrite Hb|done|].
    intros K HK. by rewrite lookup_insert_ne.
Qed.

Lemma new_slot_valid : mehcached_pool_is_valid p (MEHCACHED_ITEM_OFFSET v) = true.
Proof.
  pose proof (calc_tag_range (H K0) : 0 < key_tag H K0 < 2 ^ 16) as Htag.
  destruct (item_vec_fields (key_tag H K0) o) as (_ & Hvo & _); [lia|]. unfold v. rewrite Hvo.
  pose proof (geom_bounds p (ti_pgeom _ _ _ _ _ _ Hinv)).
  rewrite is_valid_spec by (apply (ti_pgeom _ _ _ _ _ _ Hinv) || lia). unfold intact in Hint.
  apply Z.leb_le. lia.
Qed.

(** A table that kept the slot has the key. *)
Lemma new_slot_cached t' : lengths_ok klen (V.2) -> buf_ok key klen -> alloc t' = [p] ->
  config t' = config t -> get_slot t' b i = Some v -> cached t' key klen.
Proof.
  intros Hlen Hk Ha Hc Hs.
  pose proof (calc_tag_range (H K0) : 0 < key_tag H K0 < 2 ^ 16) as Htag.
  destruct (item_vec_fields (key_tag H K0) o) as (_ & _ & Hv0); [lia|].
  exists p, i, v. fold K0. rewrite (config_bucket _ _ _ Hc), <- Hb.
  split; [done|]. split; [done|]. split; [by apply Hv0; lia|]. split; [apply new_slot_valid|].
  rewrite (matches_alloc t) by (by rewrite Ha, (ti_alloc _ _ _ _ _ _ Hinv)).
  eapply matches_intact; [apply Hlen|..|apply new_slot_holds|]; done || apply Hinv.
Qed.
End NewSlot.

Lemma store_new_spec t p L A b bk i v0 l key klen value vlen expire :
  let K0 := padded key klen in
  tinv H (pool_tail p / 2 ^ rshift t) t p L A -> ver_ok t (Some b) ->
  pool_tail p + MB2 < 2 ^ 63 ->
  (forall p', pool_mode p' = pool_mode p -> pool_lock_word p' = l ->
     mehcached_pool_unlock p' = Some (pool_set_lock p' 0)) ->
  b = key_bucket H t K0 -> get_bucket t b = Some bk -> item_vec bk !! i = Some v0 ->
  (forall j w, item_vec bk !! j = Some w -> w <> 0 ->
     MEHCACHED_TAG w = key_tag H K0 -> j = i) ->
  lengths_ok klen vlen -> buf_ok key klen -> buf_ok value vlen ->
  exists t' p' L',
    store_new 0 t (pool_set_lock p l) b (b, i) (H K0) key klen value vlen expire = Some t' /\
    tinv H (pool_tail p' / 2 ^ rshift t') t' p' L' (<[K0 := padded value vlen]> A) /\
    ver_ok t' None /\ pool_lock_word p' = 0 /\ pool_tail p' = pool_tail p + item_bytes klen vlen /\
    pool_mask p' = pool_mask p /\ pool_size p' = pool_size p /\ config t' = config t /\
    cached t' key klen /\
    (forall b' j w, 0 <= b' -> (b', j) <> (b, i) -> get_slot t b' j = Some w ->
       mehcached_pool_is_valid p' (MEHCACHED_ITEM_OFFSET w) = true -> get_slot t' b' j = Some w).
Proof.
  intros K0 Hinv Hver Hmax Hunl Hb Hbk Hi Huniq Hlen Hk Hv.
  destruct (item_bytes_bounds _ _ Hlen) as (Hn & _).
  assert (0 <= b) as Hb0 by (subst b; apply (bucket_index_range t (H K0)); apply Hinv).
  destruct (pow_rshift t (ti_geom _ _ _ _ _ _ Hinv)) as (_ & _ & Hr).
  destruct (geom_pos p (ti_pgeom _ _ _ _ _ _ Hinv)) as [Hpos _].
  destruct (log_chunk_bounds (pool_tail p) (rshift t)) as [HC1 HC2]; [lia|].
  set (C := pool_tail p / 2 ^ rshift t) in *.
  destruct (store_new_pool C t p L A l K0 key klen value vlen expire)
    as (p1 & p2 & Hal & Hset & Ht1 & Ht2 & Hs2 & Hm2 & Hmd2 & Hl2 & Hit & Hinv2); try done.
  set (n := item_bytes klen vlen) in *. set (o := pool_tail p) in *.
  set (p3 := pool_set_lock p2 0) in *. set (t1 := set_alloc t 0 p3) in *.
  assert (intact p3 o) as Hint.
  { pose proof (geom_bounds p (ti_pgeom _ _ _ _ _ _ Hinv)). unfold intact, p3. simpl. lia. }
  assert (item_at p3 o n (H K0) K0 (padded value vlen)) as Hit3 by (by destruct Hit; split).
  pose proof (new_slot_tinv t1 p3 L A C b o n bk i v0 key klen _ Hinv2 Hb0 Hb Hbk Hi Huniq
    ltac:(lia) ltac:(lia) (eq_sym Ht2) Hint HC1 Hit3) as Hinv3. fold K0 in Hinv3.
  set (v := MEHCACHED_ITEM_VEC (key_tag H K0) 0 (o mod 2 ^ 40)) in *.
  set (t2 := set_bucket t1 b (set_items bk (<[i := v]> (item_vec bk)))) in *.
  assert (get_bucket t2 b = Some (set_items bk (<[i := v]> (item_vec bk)))) as Hbk2.
  { unfold t2. rewrite get_set_bucket by (done || by exists bk). by rewrite decide_True. }
  destruct (unlock_bucket_spec t2 b _ Hb0 Hbk2) as (t3 & Hun & Hs3 & Hv3);
    [by apply ver_ok_items|].
  destruct (cleanup_spec H t3 p3 (L ++ [(o, n)]) (<[K0 := padded value vlen]> A) o n)
    as (t4 & Hcl & Hinv4 & Hv4 & Hk4 & Hc4).
  { apply (tinv_same_items _ _ t2); [done|]. by destruct Hs3 as [-> _]. }
  1-4: unfold p3; simpl; (done || lia).
  assert (config t4 = config t) as Hcfg by (by rewrite Hc4, (same_items_config _ _ Hs3)).
  exists t4, p3, (L ++ [(o, n)]). split.
  { unfold store_new. fold (item_bytes klen vlen). fold n.
    rewrite (wrap_small 32 n) by lia. rewrite Hal. cbn [mbind option_bind].
    rewrite Hset. cbn [mbind option_bind]. rewrite Hunl by (done || lia).
    cbn [mbind option_bind fst snd].
    fold p3 t1. change (mehcached_calc_tag (H K0)) with (key_tag H K0). fold v.
    rewrite (set_slot_eval t1 b i v bk v0) by done. cbn [mbind option_bind]. fold t2.
    rewrite Hun. cbn [mbind option_bind]. rewrite Ht1, <- Ht2. done. }
  split; [by rewrite (config_rshift _ _ Hc4)|]. repeat (split; [done|]).
  split.
  - apply (new_slot_cached t1 p3 L A C b o n i key klen (padded value vlen)); try done.
    1, 2: lia.
    + apply Hinv4.
    + apply Hk4; [done| |].
      * rewrite (same_items_slot _ _ _ _ Hs3). eapply get_slot_eval; [done|]. simpl.
        apply list_lookup_insert_eq. by eapply lookup_lt_Some.
      * apply (new_slot_valid t1 p3 L A C o n key klen); done || lia.
  - intros b' j w Hb' Hne Hw Hval. apply Hk4; [done| |done].
    rewrite (same_items_slot _ _ _ _ Hs3). by apply (set_slot_frame t1).
Qed.

(** ** Updating an item in place *)

Lemma item_key_inj p o n n' kh kh' K K' V V' :
  item_at p o n kh K V -> item_at p o n' kh' K' V' -> K = K'.
Proof.
  intros [Hkv _ Hk _ [Hl1 Hl2] _] [Hkv' _ Hk' _ [Hl1' Hl2'] _].
  unfold MEHCACHED_MAX_KEY_LENGTH, MEHCACHED_MAX_VALUE_LENGTH in *.
  destruct (kv_fields K.2 V.2) as (Hf & _ & _); [lia..|].
  destruct (kv_fields K'.2 V'.2) as (Hf' & _ & _); [lia..|].
  rewrite <- Hkv in Hf. rewrite <- Hkv' in Hf'. destruct K as [k kl], K' as [k' kl']. simpl in *.
  assert (kl = kl') as -> by congruence. f_equal. congruence.
Qed.

Lemma tinv_inplace C t p L A b bk i o n K0 V V' p2 :
  tinv H C t p L A -> 0 <= b -> get_bucket t b = Some bk ->
  item_vec bk !! i = Some (MEHCACHED_ITEM_VEC (key_tag H K0) 0 (o mod 2 ^ 40)) ->
  0 <= o < pool_tail p -> (o, n) ∈ L -> intact p o -> holds H t p A b (key_tag H K0) o n K0 V ->
  patched p p2 (o + 8) (n - 8) -> item_at p2 o n (H K0) K0 V' ->
  tinv H C (set_alloc t 0 p2) p2 L (<[K0 := V']> A).
Proof.
  intros Hinv Hb Hbk Hi Ho HL Hint (Hit & _ & HbK & HA) Hpat Hit2.
  pose proof (geom_bounds p (ti_pgeom _ _ _ _ _ _ Hinv)) as Hsz.
  assert (pool_tail p2 = pool_tail p /\ pool_size p2 = pool_size p) as [Ht2 Hs2]
    by (destruct Hpat as [Hp2 _]; by rewrite Hp2).
  pose proof (calc_tag_range (H K0) : 0 < key_tag H K0 < 2 ^ 16) as Htag.
  destruct (item_vec_fields (key_tag H K0) o) as (Htv & Hov & Hv0); [lia|].
  eapply tinv_set_alloc; [done|by eapply pool_inv_patched; [apply Hinv|..]|rewrite Ht2; apply Hinv|].
  intros b' bk' j w Hb' Hbk' Hj Hw.
  apply slot_ok_pool; [lia|lia|]. intros o' n' K W Hwv HK Ho' _ HL' Hit' HA' Hint'.
  assert (intact p o') as Hi' by (unfold intact in *; lia).
  destruct (decide (o' = o)) as [->|Hne].
  - assert (n' = n) as ->.
    { destruct (chain_disjoint _ _ _ _ _ _ _ (inv_chain _ _ (ti_pool _ _ _ _ _ _ Hinv)) HL' HL)
        as [[_ ->]|Hd]; [done|].
      destruct (chain_elem _ _ _ _ _ (inv_chain _ _ (ti_pool _ _ _ _ _ _ Hinv)) HL)
        as (_ & _ & ? & _).
      destruct (chain_elem _ _ _ _ _ (inv_chain _ _ (ti_pool _ _ _ _ _ _ Hinv)) HL')
        as (_ & _ & ? & _). lia. }
    assert (K = K0) as -> by (by eapply item_key_inj).
    exists V'. split; [done|]. split; [done|]. apply lookup_insert_eq.
  - exists W. split; [done|]. split.
    { by apply (item_at_other p p2 L o n); [apply Hinv|..]. }
    rewrite lookup_insert_ne; [done|]. intros <-. apply Hne.
    assert (b' = b) as -> by (unfold key_bucket in HK; congruence). rewrite Hbk in Hbk'. injection Hbk' as <-.
    destruct (item_vec_fields (key_tag H K0) o') as (Htv' & Hov' & _); [lia|].
    assert (j = i) as ->.
    { eapply (ti_tags _ _ _ _ _ _ Hinv b bk); [done|done|exact Hj|exact Hi|done|by apply Hv0; lia|].
      by rewrite Hwv, Htv, Htv'. }
    rewrite Hi in Hj. injection Hj as Hj. rewrite <- Hj in Hwv.
    apply (f_equal MEHCACHED_ITEM_OFFSET) in Hwv. rewrite Hov, Hov' in Hwv.
    unfold intact in *. destruct (decide (o < o')).
    + by destruct (mod_neq o o' (2 ^ 40)); [lia|].
    + destruct (decide (o' < o)); [|lia]. by destruct (mod_neq o' o (2 ^ 40)); [lia|].
Qed.

(** The slot of an intact item that matches the key. *)
Lemma matched_slot C t p L A b bk i v key klen :
  let K0 := padded key klen in
  tinv H C t p L A -> 0 <= b < num_buckets t -> get_bucket t b = Some bk ->
  0 <= klen <= MEHCACHED_MAX_KEY_LENGTH -> buf_ok key klen ->
  item_vec bk !! i = Some v -> v <> 0 ->
  item_matches t (H K0) (key_tag H K0) key klen v = Some true ->
  exists o, v = MEHCACHED_ITEM_VEC (key_tag H K0) 0 (o mod 2 ^ 40) /\
    MEHCACHED_ITEM_OFFSET v = o mod 2 ^ 40 /\ 0 <= o < pool_tail p /\
    (mehcached_pool_is_valid p (MEHCACHED_ITEM_OFFSET v) = true <-> intact p o) /\
    (intact p o -> exists n V, (o, n) ∈ L /\ holds H t p A b (key_tag H K0) o n K0 V).
Proof.
  intros K0 Hinv Hb Hbk Hkl Hkb Hi Hv Hm. pose proof (matches_tag _ _ _ _ _ Hm) as Htv.
  destruct (ti_slots _ _ _ _ _ _ Hinv b bk i v ltac:(lia) Hbk Hi Hv)
    as (o & tag & -> & Htag & Ho & Hage & Hint).
  destruct (item_vec_fields tag o) as (Htg & Hov & _); [lia|]. rewrite Htg in Htv. subst tag.
  exists o. split; [done|]. split; [done|]. split; [done|]. split.
  - rewrite Hov. by eapply valid_intact.
  - intros (n & K & V & HL & Hh)%Hint.
    eapply matches_intact in Hm; [|done|done|apply Hinv|by eapply ti_pgeom|done|exact Hh].
    subst K. by exists n, V.
Qed.

(** ** Locking the bucket of a key and searching it *)

(** What the search for a key finds in bucket [b]: slot [i] of it, with item word [v],
    or nothing. *)
Definition search_result (t : mehcached_table) (b : Z) (bk : mehcached_bucket) (key : list Z)
    (klen : Z) (r : option (Z * nat)) : Prop :=
  let K0 := padded key klen in
  match r with
  | Some loc => exists i v, loc = (b, i) /\ item_vec bk !! i = Some v /\ v <> 0 /\
      item_matches t (H K0) (key_tag H K0) key klen v = Some true
  | None => forall v, v ∈ item_vec bk ->
      item_matches t (H K0) (key_tag H K0) key klen v = Some false
  end.

Lemma op_search C t p L A b key klen :
  let K0 := padded key klen in
  tinv H C t p L A -> b = key_bucket H t K0 ->
  0 <= klen <= MEHCACHED_MAX_KEY_LENGTH -> buf_ok key klen ->
  exists bk r, 0 <= b < num_buckets t /\ get_bucket t b = Some bk /\
    mehcached_find_item_index t b (H K0) (key_tag H K0) key klen = Some r /\
    search_result t b bk key klen r.
Proof.
  intros K0 Hinv -> Hkl Hkb. pose proof (bucket_index_range t (H K0) (ti_geom _ _ _ _ _ _ Hinv)).
  destruct (bucket_at t (key_bucket H t K0) (ti_geom _ _ _ _ _ _ Hinv)) as [bk Hbk]; [done|].
  destruct (find_key_spec H key klen Hkl Hkb C t p L A (key_bucket H t K0) bk)
    as (r & Hr & Hspec); [done|unfold key_bucket; lia|done|].
  exists bk, r. split; [done|]. split; [done|]. split; [done|]. destruct r as [[b' i]|]; [|done].
  destruct Hspec as (v & Hb' & ? & ? & ?). simpl in *. subst b'. by exists i, v.
Qed.

Lemma op_lock C t p L A b :
  tinv H C t p L A -> ver_ok t None -> 0 <= b < num_buckets t ->
  exists t1, mehcached_lock_bucket t b = Some t1 /\ tinv H C t1 p L A /\ ver_ok t1 (Some b) /\
    config t1 = config t /\ same_items t t1.
Proof.
  intros Hinv Hver Hb. destruct (bucket_at t b (ti_geom _ _ _ _ _ _ Hinv) Hb) as [bk Hbk].
  destruct (lock_bucket_spec t b bk (proj1 Hb) Hbk Hver) as (t1 & -> & Hs & Hv).
  exists t1. split; [done|]. split; [by eapply tinv_same_items|]. split; [done|].
  split; [by apply same_items_config|done].
Qed.

Lemma op_unlock C t p L A b :
  tinv H C t p L A -> ver_ok t (Some b) -> 0 <= b < num_buckets t ->
  exists t1, mehcached_unlock_bucket t b = Some t1 /\ tinv H C t1 p L A /\ ver_ok t1 None /\
    config t1 = config t /\ same_items t t1.
Proof.
  intros Hinv Hver Hb. destruct (bucket_at t b (ti_geom _ _ _ _ _ _ Hinv) Hb) as [bk Hbk].
  destruct (unlock_bucket_spec t b bk (proj1 Hb) Hbk Hver) as (t1 & -> & Hs & Hv).
  exists t1. split; [done|]. split; [by eapply tinv_same_items|]. split; [done|].
  split; [by apply same_items_config|done].
Qed.

Lemma config_fields t t' :
  config t' = config t -> num_buckets t' = num_buckets t /\ rshift t' = rshift t /\
    mth_threshold t' = mth_threshold t.
Proof. by intros [= -> _ -> _ ->]. Qed.

Lemma ver_ok_alloc t id p lk : ver_ok t lk -> ver_ok (set_alloc t id p) lk.
Proof. done. Qed.

(** The lock of the pool is taken and given back around a change of its bytes. *)
Lemma tinv_relock C t p L A p2 l :
  tinv H C (set_alloc (set_alloc t 0 (pool_set_lock p l)) 0 p2) p2 L A ->
  tinv H C (set_alloc t 0 (pool_set_lock p2 0)) (pool_set_lock p2 0) L A.
Proof.
  intros Hinv. apply (tinv_lock _ _ _ _ _ 0) in Hinv.
  unfold set_alloc in *. simpl in Hinv. by rewrite !list_insert_insert_eq in Hinv.
Qed.

(** An update in place, of the intact item at [o], under the lock of the pool. *)
Lemma relock_inplace C t p L A b bk i o n l K0 V V' p2 :
  tinv H C t p L A -> 0 <= b -> get_bucket t b = Some bk ->
  item_vec bk !! i = Some (MEHCACHED_ITEM_VEC (key_tag H K0) 0 (o mod 2 ^ 40)) ->
  0 <= o < pool_tail p -> (o, n) ∈ L -> intact p o -> holds H t p A b (key_tag H K0) o n K0 V ->
  patched (pool_set_lock p l) p2 (o + 8) (n - 8) -> item_at p2 o n (H K0) K0 V' ->
  tinv H C (set_alloc t 0 (pool_set_lock p2 0)) (pool_set_lock p2 0) L (<[K0 := V']> A).
Proof.
  intros Hinv Hb Hbk Hi Ho HL Hint Hh Hpat Hit2. pose proof (tinv_lock _ _ _ _ _ l Hinv) as Hinvl.
  apply (tinv_relock _ _ p _ _ _ l).
  eapply (tinv_inplace C _ (pool_set_lock p l) L A b bk i o n K0 V); try done.
  destruct Hh as ([] & Ht & Hb' & HA). by split; [split|split; [|split]].
Qed.

(** The in-place path of a store. *)
Lemma set_inplace_spec C t p L A b bk i v l key klen value vlen expire :
  let K0 := padded key klen in
  tinv H C t p L A -> 0 <= b < num_buckets t -> get_bucket t b = Some bk ->
  lengths_ok klen vlen -> buf_ok key klen -> buf_ok value vlen ->
  item_vec bk !! i = Some v -> v <> 0 ->
  item_matches t (H K0) (key_tag H K0) key klen v = Some true ->
  exists r, set_inplace 0 (pool_set_lock p l) v value vlen expire (item_bytes klen vlen) = Some r /\
    match r with
    | None => mehcached_pool_is_valid p (MEHCACHED_ITEM_OFFSET v) = true ->
        exists V, A !! K0 = Some V /\ item_bytes klen V.2 < item_bytes klen vlen
    | Some p2 => pool_lock_word p2 = l /\ pool_tail p2 = pool_tail p /\ pool_mode p2 = pool_mode p /\
        pool_mask p2 = pool_mask p /\ pool_size p2 = pool_size p /\
        mehcached_pool_is_valid (pool_set_lock p2 0) (MEHCACHED_ITEM_OFFSET v) = true /\
        item_matches (set_alloc t 0 (pool_set_lock p2 0)) (H K0) (key_tag H K0) key klen v =
          Some true /\
        tinv H C (set_alloc t 0 (pool_set_lock p2 0)) (pool_set_lock p2 0) L
          (<[K0 := padded value vlen]> A)
    end.
Proof.
  intros K0 Hinv Hb Hbk Hlen Hk Hv Hi Hv0 Hm.
  destruct (matched_slot C t p L A b bk i v key klen) as (o & Hvv & Hov & Ho & Hval & Hint);
    try done; [apply Hlen|]. fold K0 in Hvv, Hint.
  unfold set_inplace. change (MEHCACHED_ALLOC_ID v) with 0. cbn [Z.eqb].
  change (mehcached_pool_is_valid (pool_set_lock p l)) with (mehcached_pool_is_valid p).
  destruct (mehcached_pool_is_valid p (MEHCACHED_ITEM_OFFSET v)) eqn:Hvalid;
    [|by exists None; split; [|intros ?; congruence]].
  pose proof (proj1 Hval eq_refl) as Hin. destruct (Hint Hin) as (n & V & HL & Hh). clear Hint.
  pose proof (tinv_lock _ _ _ _ _ l Hinv) as Hinvl.
  set (pl := pool_set_lock p l) in *. set (tl := set_alloc t 0 pl) in *.
  pose proof (ti_pgeom _ _ _ _ _ _ Hinvl) as Hgl.
  assert (item_at pl o n (H K0) K0 V) as Hit by (by destruct Hh as ([] & _); split).
  rewrite Hov. unfold pload.
  pose proof (pload_item pl o 0 8 Hgl ltac:(lia) ltac:(lia)) as Hl. rewrite !Z.add_0_r in Hl.
  unfold pload in Hl. rewrite Hl. cbn [mbind option_bind].
  change (le_value (log_bytes pl o 8)) with (header p o).
  rewrite (inv_headers _ _ (ti_pool _ _ _ _ _ _ Hinv) o n) by done.
  destruct (Z.geb_spec n (item_bytes klen vlen)) as [Hn|Hn].
  2:{ exists None. split; [done|]. intros _. exists V. split; [apply Hh|].
      pose proof (it_size _ _ _ _ _ _ Hit) as [? _]. change K0.2 with klen in *. lia. }
  destruct (set_item_value_spec pl o n (H K0) K0 V value vlen expire) as (p2 & -> & Hpat & Hit2);
    [done..|]. cbn [mbind option_bind]. exists (Some p2). split; [done|].
  assert (pool_lock_word p2 = l /\ pool_tail p2 = pool_tail p /\ pool_mode p2 = pool_mode p /\
    pool_mask p2 = pool_mask p /\ pool_size p2 = pool_size p) as (-> & Ht2 & -> & -> & Hs2)
    by (destruct Hpat as [Hp2 _]; by rewrite Hp2).
  split; [done|]. split; [done|]. split; [done|]. split; [done|]. split; [done|]. split.
  { rewrite <- Hvalid, Hov. unfold mehcached_pool_is_valid. simpl. by rewrite Ht2, Hs2. }
  assert (tinv H C (set_alloc t 0 (pool_set_lock p2 0)) (pool_set_lock p2 0) L
    (<[K0 := padded value vlen]> A)) as Hinv'.
  { apply (relock_inplace C t p L A b bk i o n l K0 V); try done; [lia|by rewrite <- Hvv]. }
  split; [|done]. rewrite Hvv. destruct Hh as (_ & Ht & Hb' & HA).
  apply (matches_intact H key klen (proj1 Hlen) Hk _ (pool_set_lock p2 0)
    (<[K0 := padded value vlen]> A) b o n _ K0 (padded value vlen));
    [apply (ti_alloc _ _ _ _ _ _ Hinv')|by eapply ti_pgeom|apply calc_tag_range| |done].
  split; [by destruct Hit2; split|]. split; [done|]. split; [done|]. apply lookup_insert_eq.
Qed.

(** ** The operations *)

(** Packing up the state between operations. *)
Lemma minv_pack t t' p' L' A' k :
  tinv H (pool_tail p' / 2 ^ rshift t) t' p' L' A' -> ver_ok t' None -> pool_lock_word p' = 0 ->
  pool_tail p' + k * MB2 < 2 ^ 63 -> pool_mask p' <= mth_threshold t -> config t' = config t ->
  minv t' A' k.
Proof.
  intros ? ? ? ? ? Hc. destruct (config_fields _ _ Hc) as (_ & Hr & Hm).
  exists p', L'. by rewrite Hr, Hm.
Qed.

(** The slot that a store takes when the key is not found: no other slot has its tag, and
    it is taken from an item of another tag only if the bucket is full. *)
Lemma set_slot_choice C t p L A b bk tag :
  tinv H C t p L A -> 0 <= b -> get_bucket t b = Some bk -> 0 < tag ->
  exists i v,
    (r ← mehcached_find_same_tag t b tag;
     match r with
     | Some loc => Some (false, loc)
     | None => loc ← mehcached_find_empty_or_oldest t b; Some (false, loc)
     end) = Some (false, (b, i)) /\ item_vec bk !! i = Some v /\
    (forall j w, item_vec bk !! j = Some w -> w <> 0 -> MEHCACHED_TAG w = tag -> j = i) /\
    (v = 0 \/ MEHCACHED_TAG v = tag \/ forall w, w ∈ item_vec bk -> w <> 0).
Proof.
  intros Hinv Hb Hbk Htag.
  destruct (find_in_chain_spec (length (buckets t)) (fun v => Some (MEHCACHED_TAG v =? tag))
    t b bk Hbk) as (r & Hr & Hspec); [intros v _; exact (mk_is_Some _ _ eq_refl)|].
  unfold mehcached_find_same_tag. rewrite Hr. cbn [mbind option_bind].
  destruct r as [[b' i]|].
  - destruct Hspec as (v & Hb' & Hi & Ht). cbn [fst snd] in Hb', Hi. subst b'. exists i, v.
    apply (inj Some), Z.eqb_eq in Ht.
    split; [done|]. split; [done|]. split; [|by right; left]. intros j w Hj Hw Htw.
    eapply (ti_tags _ _ _ _ _ _ Hinv); [done|done|exact Hj|exact Hi|done| |congruence].
    intros ->. change (MEHCACHED_TAG 0) with 0 in Ht. lia.
  - destruct (find_empty_or_oldest_spec t p b bk) as (i & v & -> & Hi & Hz);
      [apply Hinv|done| |].
    { intros Hnil. pose proof (tg_items _ (ti_geom _ _ _ _ _ _ Hinv) _ _ Hbk) as Hlen.
      by rewrite Hnil in Hlen. }
    exists i, v. split; [done|]. split; [done|]. split; [|destruct Hz; auto].
    intros j w Hj Hw Htw.
    pose proof (Hspec w ltac:(by eapply list_elem_of_lookup_2)) as Hf.
    apply (inj Some), Z.eqb_neq in Hf. done.
Qed.

(** The slots that a store keeps: those of intact items, but for the tag of the key and,
    when the key is new and the bucket is full, one victim. *)
Definition kept (t t' : mehcached_table) (p' : mehcached_pool) (key : list Z) (klen : Z) : Prop :=
  let K := padded key klen in
  forall b' j w, 0 <= b' -> get_slot t b' j = Some w -> w <> 0 ->
    mehcached_pool_is_valid p' (MEHCACHED_ITEM_OFFSET w) = true ->
    get_slot t' b' j = Some w \/
    b' = key_bucket H t K /\ (MEHCACHED_TAG w = key_tag H K \/
      ~ cached t key klen /\ forall i v, get_slot t b' i = Some v -> v <> 0).

(** What a store that succeeds leaves. *)
Record stored (t t' : mehcached_table) (p p' : mehcached_pool) (L' : list (Z * Z)) (A : cache)
    (key : list Z) (klen : Z) (V : bytestring) : Prop := {
  st_inv : tinv H (pool_tail p' / 2 ^ rshift t') t' p' L' (<[padded key klen := V]> A);
  st_ver : ver_ok t' None;
  st_lock : pool_lock_word p' = 0;
  st_mask : pool_mask p' = pool_mask p;
  st_size : pool_size p' = pool_size p;
  st_config : config t' = config t;
  st_tail : pool_tail p <= pool_tail p' <= pool_tail p + item_bytes klen V.2;
  st_same_tail : cached t key klen -> (exists V0, A !! padded key klen = Some V0 /\ V0.2 = V.2) ->
    pool_tail p' = pool_tail p;
  st_cached : cached t' key klen;
  st_kept : kept t t' p' key klen }.

(** [mehcached_set] once the slot has been chosen. *)
Definition set_rest (t : mehcached_table) (p : mehcached_pool) (b : Z) (overwriting : bool)
    (loc : Z * nat) (kh : Z) (key : list Z) (klen : Z) (value : list Z) (vlen expire : Z)
    : option (bool * mehcached_table) :=
  iv ← get_slot t loc.1 loc.2;
  inplace ← (if overwriting then set_inplace 0 p iv value vlen expire (item_bytes klen vlen)
             else Some None);
  match inplace with
  | Some p =>
      p ← mehcached_pool_unlock p;
      t ← mehcached_unlock_bucket (set_alloc t 0 p) b;
      Some (true, t)
  | None => t ← store_new 0 t p b loc kh key klen value vlen expire; Some (true, t)
  end.

Section Set_.
Context (t : mehcached_table) (p : mehcached_pool) (L : list (Z * Z)) (A : cache)
  (key : list Z) (klen : Z) (value : list Z) (vlen : Z).
Let K0 : bytestring := padded key klen.
Let b : Z := key_bucket H t K0.
Context (Hinv : tinv H (pool_tail p / 2 ^ rshift t) t p L A) (Hmax : pool_tail p + MB2 < 2 ^ 63)
  (Hlen : lengths_ok klen vlen) (Hk : buf_ok key klen) (Hv : buf_ok value vlen).

(** A new item in slot [i] of the locked bucket. *)
Lemma set_rest_new bk i v0 l (ovw : bool) expire :
  ver_ok t (Some b) -> get_bucket t b = Some bk -> item_vec bk !! i = Some v0 ->
  (forall p', pool_mode p' = pool_mode p -> pool_lock_word p' = l ->
     mehcached_pool_unlock p' = Some (pool_set_lock p' 0)) ->
  (forall j w, item_vec bk !! j = Some w -> w <> 0 ->
     MEHCACHED_TAG w = key_tag H K0 -> j = i) ->
  (v0 = 0 \/ MEHCACHED_TAG v0 = key_tag H K0 \/
     ~ cached t key klen /\ forall w, w ∈ item_vec bk -> w <> 0) ->
  (if ovw then set_inplace 0 (pool_set_lock p l) v0 value vlen expire (item_bytes klen vlen)
   else Some None) = Some None ->
  ~ (cached t key klen /\ exists V0, A !! K0 = Some V0 /\ V0.2 = vlen) ->
  exists t' p' L', set_rest t (pool_set_lock p l) b ovw (b, i) (H K0) key klen value vlen expire =
    Some (true, t') /\ stored t t' p p' L' A key klen (padded value vlen).
Proof.
  intros Hver Hbk Hi Hunl Hu Hvict Hin Hnc.
  destruct (store_new_spec t p L A b bk i v0 l key klen value vlen expire)
    as (t' & p' & L' & Hst & Hinv' & Hv' & Hl' & Ht' & Hmk & Hsz & Hc' & Hca & Hkeep); try done.
  exists t', p', L'. split.
  { unfold set_rest. cbn [fst snd]. rewrite (get_slot_eval t b i bk v0) by done.
    cbn [mbind option_bind]. rewrite Hin. cbn [mbind option_bind]. fold K0 in Hst. by rewrite Hst. }
  pose proof (item_bytes_bounds _ _ Hlen) as [? _].
  split; try done; [cbn [snd padded]; lia|by intros ? ?; destruct Hnc|].
  intros b' j w Hb' Hw Hw0 Hval. fold K0 b.
  destruct (decide ((b', j) = (b, i))) as [[= -> ->]|Hne].
  - right. split; [done|]. apply get_slot_inv in Hw as (bk' & Hbk' & Hi').
    rewrite Hbk in Hbk'. injection Hbk' as <-. rewrite Hi in Hi'. injection Hi' as ->.
    destruct Hvict as [|[|[Hca' Hz]]]; [done|by left|right]. split; [done|]. intros i' w'.
    unfold get_slot. rewrite Hbk. cbn [mbind option_bind]. intros Hw'.
    apply Hz. by eapply list_elem_of_lookup_2.
  - left. by apply Hkeep.
Qed.

(** An update in place of the item of slot [i]. *)
Lemma set_rest_inplace bk i v l expire p2 :
  ver_ok t (Some b) -> 0 <= b < num_buckets t -> get_bucket t b = Some bk ->
  item_vec bk !! i = Some v -> v <> 0 ->
  item_matches t (H K0) (key_tag H K0) key klen v = Some true ->
  (forall p', pool_mode p' = pool_mode p -> pool_lock_word p' = l ->
     mehcached_pool_unlock p' = Some (pool_set_lock p' 0)) ->
  set_inplace 0 (pool_set_lock p l) v value vlen expire (item_bytes klen vlen) = Some (Some p2) ->
  exists t' p' L', set_rest t (pool_set_lock p l) b true (b, i) (H K0) key klen value vlen expire =
    Some (true, t') /\ stored t t' p p' L' A key klen (padded value vlen).
Proof.
  intros Hver Hb Hbk Hi Hv0 Hm Hunl Hin.
  destruct (set_inplace_spec _ t p L A b bk i v l key klen value vlen expire Hinv Hb Hbk
    Hlen Hk Hv Hi Hv0 Hm) as (r & Hin' & Hr).
  rewrite Hin in Hin'. injection Hin' as <-.
  destruct Hr as (Hl2 & Ht2 & Hmd2 & Hmk2 & Hsz2 & Hval & Hmt & Hinv2).
  destruct (op_unlock _ _ (pool_set_lock p2 0) L _ b Hinv2 Hver Hb)
    as (t3 & Hun & Hinv3 & Hv3 & Hc3 & Hs3).
  exists t3, (pool_set_lock p2 0), L. split.
  { unfold set_rest. cbn [fst snd]. rewrite (get_slot_eval t b i bk v) by done.
    cbn [mbind option_bind]. rewrite Hin. cbn [mbind option_bind]. rewrite Hunl by done.
    cbn [mbind option_bind]. by rewrite Hun. }
  pose proof (item_bytes_bounds _ _ Hlen) as [? _].
  split; try done.
  - simpl. rewrite Ht2. by rewrite (config_rshift _ _ Hc3).
  - simpl. lia.
  - exists (pool_set_lock p2 0), i, v. fold K0. rewrite (config_bucket _ _ _ Hc3).
    split; [apply (ti_alloc _ _ _ _ _ _ Hinv3)|]. rewrite (same_items_slot _ _ _ _ Hs3).
    split; [by apply (get_slot_eval t b i bk)|]. split; [done|]. split; [done|].
    rewrite <- Hmt. apply matches_alloc.
    by rewrite (ti_alloc _ _ _ _ _ _ Hinv3), (ti_alloc _ _ _ _ _ _ Hinv2).
  - intros b' j w _ Hw _ _. left. by rewrite (same_items_slot _ _ _ _ Hs3).
Qed.
End Set_.

(** The key of a cached entry is found, in its slot. *)
Lemma cached_found C t p L A b bk key klen r :
  let K0 := padded key klen in
  tinv H C t p L A -> b = key_bucket H t K0 -> 0 <= b -> get_bucket t b = Some bk ->
  search_result t b bk key klen r -> cached t key klen ->
  exists i v, r = Some (b, i) /\ item_vec bk !! i = Some v /\
    mehcached_pool_is_valid p (MEHCACHED_ITEM_OFFSET v) = true.
Proof.
  intros K0 Hinv Hb Hb0 Hbk Hr (p' & i & v & Ha & Hsl & Hv & Hval & Hm). fold K0 in Hm, Hsl.
  rewrite (ti_alloc _ _ _ _ _ _ Hinv) in Ha. injection Ha as <-.
  apply get_slot_inv in Hsl as (bk' & Hbk' & Hi). rewrite <- Hb, Hbk in Hbk'. injection Hbk' as <-.
  destruct r as [loc|].
  - destruct Hr as (j & w & -> & Hj & Hw & Hmw). fold K0 in Hmw.
    assert (j = i) as ->.
    { eapply (ti_tags _ _ _ _ _ _ Hinv); [exact Hb0|exact Hbk|exact Hj|exact Hi|done|done|].
      by rewrite (matches_tag _ _ _ _ _ Hm), (matches_tag _ _ _ _ _ Hmw). }
    by exists i, v.
  - pose proof (Hr v ltac:(by eapply list_elem_of_lookup_2)) as Hf. fold K0 in Hf. congruence.
Qed.

(** A search hit is the entry, or an item that the log has come round to. *)
Lemma cached_or_lapped C t p L A b bk i v key klen :
  let K0 := padded key klen in
  tinv H C t p L A -> b = key_bucket H t K0 -> 0 <= b < num_buckets t ->
  get_bucket t b = Some bk -> 0 <= klen <= MEHCACHED_MAX_KEY_LENGTH -> buf_ok key klen ->
  item_vec bk !! i = Some v -> v <> 0 ->
  item_matches t (H K0) (key_tag H K0) key klen v = Some true ->
  cached t key klen \/ log_room t < log_used t.
Proof.
  intros K0 Hinv Hb0 Hb Hbk Hkl Hkb Hi Hv Hm. pose proof (ti_alloc _ _ _ _ _ _ Hinv) as Ha.
  destruct (matched_slot C t p L A b bk i v key klen) as (o & _ & _ & Ho & Hval & _); [done..|].
  destruct (mehcached_pool_is_valid p (MEHCACHED_ITEM_OFFSET v)) eqn:Hvalid.
  - left. exists p, i, v. fold K0. rewrite <- Hb0. split; [done|].
    split; [by apply (get_slot_eval t b i bk)|]. by split.
  - right. unfold log_room, log_used. rewrite Ha.
    assert (~ intact p o) as Hn by (intros Hin; apply Hval in Hin; congruence).
    unfold intact in Hn. lia.
Qed.

(** An entry whose slot keeps its item word is kept. *)
Lemma cached_kept t t' key klen :
  alloc t' = alloc t -> config t' = config t ->
  (forall p i v, alloc t = [p] -> get_slot t (key_bucket H t (padded key klen)) i = Some v -> v <> 0 ->
     mehcached_pool_is_valid p (MEHCACHED_ITEM_OFFSET v) = true ->
     item_matches t (H (padded key klen)) (key_tag H (padded key klen)) key klen v = Some true ->
     get_slot t' (key_bucket H t (padded key klen)) i = Some v) ->
  cached t key klen -> cached t' key klen.
Proof.
  intros Ha Hc Hk (p & i & v & Hp & Hs & Hv & Hval & Hm). exists p, i, v.
  rewrite Ha, (config_bucket _ _ _ Hc), (matches_alloc t t') by done.
  split; [done|]. split; [by apply (Hk p)|]. done.
Qed.

Lemma same_items_cached t t' key klen :
  same_items t t' -> alloc t' = alloc t -> cached t key klen -> cached t' key klen.
Proof.
  intros Hs Ha (p & i & v & Hp & Hsl & Hv & Hval & Hm). exists p, i, v.
  rewrite Ha, (same_items_slot _ _ _ _ Hs), (config_bucket _ _ _ (same_items_config _ _ Hs)).
  by rewrite (matches_alloc t t').
Qed.

Lemma stored_same_items t t1 t' p p' L' A key klen V :
  same_items t t1 -> alloc t1 = alloc t -> stored t1 t' p p' L' A key klen V ->
  stored t t' p p' L' A key klen V.
Proof.
  intros Hs Ha [? ? ? ? ? Hc' ? Hst' ? Hkept]. pose proof (same_items_config _ _ Hs) as Hc.
  split; try done.
  - by rewrite Hc'.
  - intros Hct. apply Hst'. by eapply same_items_cached.
  - intros b' j w. specialize (Hkept b' j w). cbv zeta in Hkept.
    rewrite (same_items_slot _ _ _ _ Hs), (config_bucket _ _ _ Hc) in Hkept.
    intros ? ? ? ?. destruct Hkept as [|[? [|[Hz1 Hz]]]]; auto. right. split; [done|]. right.
    split; [intros Hct; by eapply Hz1, same_items_cached|].
    intros i' v'. rewrite <- (same_items_slot t t1) by done. apply Hz.
Qed.

(** The slot that a store uses: that of the key or one of [set_slot_choice]. *)
Definition set_slot_of (t : mehcached_table) (b tag : Z) (r : option (Z * nat))
    : option (bool * (Z * nat)) :=
  match r with
  | Some loc => Some (true, loc)
  | None => r ← mehcached_find_same_tag t b tag;
            match r with
            | Some loc => Some (false, loc)
            | None => loc ← mehcached_find_empty_or_oldest t b; Some (false, loc)
            end
  end.

Lemma set_unfold t t1 p pl b r kh key klen value vlen expire ow :
  lengths_ok klen vlen -> b = mehcached_calc_bucket_index t kh ->
  mehcached_lock_bucket t b = Some t1 -> alloc t1 = [p] -> mehcached_pool_lock p = Some pl ->
  mehcached_find_item_index t1 b kh (mehcached_calc_tag kh) key klen = Some r ->
  mehcached_set 0 t kh key klen value vlen expire ow =
    if (match r with Some _ => true | None => false end) && negb ow then
      t2 ← mehcached_unlock_bucket t1 b; Some (false, t2)
    else
      '(ovw, loc) ← set_slot_of t1 b (mehcached_calc_tag kh) r;
      set_rest t1 pl b ovw loc kh key klen value vlen expire.
Proof.
  intros Hlen -> Hl Ha Hlock Hf. pose proof Hlen as [[_ Hkl] [_ Hvl]]. unfold mehcached_set.
  rewrite (proj2 (Z.leb_le _ _) Hkl), (proj2 (Z.leb_le _ _) Hvl). cbn [negb].
  rewrite Hl. cbn [mbind option_bind]. rewrite Hf. cbn [mbind option_bind].
  destruct (_ && _); [done|].
  rewrite (get_alloc_single t1 p Ha). cbn [mbind option_bind]. rewrite Hlock.
  cbn [mbind option_bind]. fold (item_bytes klen vlen).
  rewrite (wrap_small 32) by (pose proof (item_bytes_bounds _ _ Hlen); lia). done.
Qed.

(** The whole of [mehcached_set]. *)
(** What a call of [mehcached_set] leaves: the new entry, or a table whose entry for the key
    stopped a call that may not overwrite. *)
Definition set_outcome (t t' : mehcached_table) (p : mehcached_pool) (L : list (Z * Z)) (A : cache)
    (key : list Z) (klen : Z) (value : list Z) (vlen : Z) (ow ok : bool) : Prop :=
  let K0 := padded key klen in
  if ok then (ow = false -> ~ cached t key klen) /\
    exists p' L', stored t t' p p' L' A key klen (padded value vlen)
  else ow = false /\ tinv H (pool_tail p / 2 ^ rshift t') t' p L A /\ ver_ok t' None /\
    config t' = config t /\ loses_none t t' /\
    exists bk i v, get_bucket t (key_bucket H t K0) = Some bk /\ item_vec bk !! i = Some v /\
      v <> 0 /\ item_matches t (H K0) (key_tag H K0) key klen v = Some true.

Lemma outcome_stored t t1 p l L A b key klen value vlen ow ovw i expire :
  same_items t t1 -> config t1 = config t -> alloc t1 = alloc t ->
  b = key_bucket H t1 (padded key klen) -> (ow = false -> ~ cached t1 key klen) ->
  (exists t' p' L', set_rest t1 (pool_set_lock p l) b ovw (b, i) (H (padded key klen)) key klen
     value vlen expire = Some (true, t') /\
   stored t1 t' p p' L' A key klen (padded value vlen)) ->
  exists ok t', set_rest t1 (pool_set_lock p l) b ovw (b, i) (H (padded key klen)) key klen value
    vlen expire = Some (ok, t') /\ set_outcome t t' p L A key klen value vlen ow ok.
Proof.
  intros Hs1 Hc1 Ha Hb1 Hn (t' & p' & L' & He & Hst). exists true, t'.
  split; [done|]. split; [intros How Hc; by eapply Hn, same_items_cached|].
  exists p', L'. by eapply stored_same_items.
Qed.

Lemma outcome_blocked t t1 p L A b bk i v key klen value vlen :
  let K0 := padded key klen in
  same_items t t1 -> config t1 = config t -> alloc t1 = alloc t -> b = key_bucket H t K0 ->
  tinv H (pool_tail p / 2 ^ rshift t1) t1 p L A -> ver_ok t1 (Some b) -> 0 <= b < num_buckets t1 ->
  get_bucket t1 b = Some bk -> item_vec bk !! i = Some v -> v <> 0 ->
  item_matches t1 (H K0) (key_tag H K0) key klen v = Some true ->
  exists t2, mehcached_unlock_bucket t1 b = Some t2 /\
    set_outcome t t2 p L A key klen value vlen false false.
Proof.
  intros K0 Hs1 Hc1 Ha Hb Hinv1 Hver1 Hb' Hbk Hi Hv0 Hm.
  destruct (op_unlock _ t1 p L A b Hinv1 Hver1 Hb') as (t2 & Hun & Hinv2 & ? & Hc2 & Hs2).
  exists t2. split; [done|]. split; [done|]. rewrite (config_rshift _ _ Hc2).
  split; [done|]. split; [done|]. split; [by rewrite Hc2|]. split.
  { intros key' klen' Hca. apply (same_items_cached t1); [done| |by apply (same_items_cached t)].
    by rewrite (ti_alloc _ _ _ _ _ _ Hinv1), (ti_alloc _ _ _ _ _ _ Hinv2). }
  destruct (same_items_get _ _ b bk Hs1 Hbk) as (bk0 & Hbk0 & Hit). fold K0. rewrite <- Hb.
  exists bk0, i, v. rewrite <- Hit. split; [done|]. split; [done|]. split; [done|].
  by rewrite <- (matches_alloc t t1).
Qed.

Lemma set_effect t p L A key klen value vlen expire ow :
  let K0 := padded key klen in
  let b := key_bucket H t K0 in
  tinv H (pool_tail p / 2 ^ rshift t) t p L A -> ver_ok t None -> pool_lock_word p = 0 ->
  pool_tail p + MB2 < 2 ^ 63 -> lengths_ok klen vlen -> buf_ok key klen -> buf_ok value vlen ->
  exists ok t', mehcached_set 0 t (H K0) key klen value vlen expire ow = Some (ok, t') /\
    set_outcome t t' p L A key klen value vlen ow ok.
Proof.
  intros K0 b Hinv Hver Hlk Hmax Hlen Hk Hv.
  pose proof (calc_tag_range (H K0) : 0 < key_tag H K0 < 2 ^ 16) as Htag.
  assert (0 <= b < num_buckets t) as Hb by (apply bucket_index_range; apply Hinv).
  destruct (op_lock _ t p L A b Hinv Hver Hb) as (t1 & Hl1 & Hinv1 & Hver1 & Hc1 & Hs1).
  destruct (config_fields _ _ Hc1) as (Hn1 & Hr1 & Hm1).
  assert (b = key_bucket H t1 K0) as Hb1 by (by rewrite (config_bucket _ _ _ Hc1)).
  destruct (op_search _ t1 p L A b key klen Hinv1 Hb1) as (bk & r & Hb' & Hbk & Hf & Hr);
    [apply Hlen|done|]. fold K0 in Hf.
  destruct (pool_lock_spec p Hlk) as (l & Hlock & Hunl).
  pose proof (ti_alloc _ _ _ _ _ _ Hinv1) as Ha1.
  assert (alloc t1 = alloc t) as Ha by (by rewrite Ha1, (ti_alloc _ _ _ _ _ _ Hinv)).
  pose proof (cached_found _ t1 p L A b bk key klen r Hinv1 Hb1 (proj1 Hb) Hbk Hr) as Hca.
  fold K0 in Hb1.
  rewrite <- Hr1 in Hinv1.
  rewrite (set_unfold t t1 p (pool_set_lock p l) b r) by done.
  change (mehcached_calc_tag (H K0)) with (key_tag H K0).
  destruct r as [loc|]; cbn [set_slot_of andb mbind option_bind].
  - destruct Hr as (i & v & -> & Hi & Hv0 & Hm). fold K0 in Hm.
    destruct ow; cbn [negb].
    2:{ destruct (outcome_blocked t t1 p L A b bk i v key klen value vlen) as (t2 & -> & Ho);
          try done. by exists false, t2. }
    apply outcome_stored; [done..|]. rewrite Hb1 in *. assert (forall j w, item_vec bk !! j = Some w -> w <> 0 ->
      MEHCACHED_TAG w = key_tag H K0 -> j = i) as Hu.
    { intros j w Hj Hw Htw. apply matches_tag in Hm.
      eapply (ti_tags _ _ _ _ _ _ Hinv1); [apply Hb|done|exact Hj|exact Hi|done|done|].
      by rewrite Htw. }
    destruct (set_inplace_spec _ t1 p L A _ bk i v l key klen value vlen expire Hinv1 Hb' Hbk
      Hlen Hk Hv Hi Hv0 Hm) as (r & Hin & Hr).
    destruct r as [p2|].
    + by apply (set_rest_inplace t1 p L A key klen value vlen Hinv1 Hlen Hk Hv bk i v l expire p2).
    + apply (set_rest_new t1 p L A key klen value vlen Hinv1 Hmax Hlen Hk Hv bk i v l true expire);
        try done; [right; left; by apply (matches_tag H key klen) in Hm|].
      intros (Hct & V0 & HA0 & HV0). destruct (Hca Hct) as (j & w & [= <-] & Hw & Hval).
      rewrite Hi in Hw. injection Hw as <-. destruct (Hr Hval) as (V & HA & Hlt).
      fold K0 in HA, HA0. rewrite HA0 in HA. injection HA as <-. rewrite HV0 in Hlt. lia.
  - destruct (set_slot_choice _ t1 p L A b bk (key_tag H K0) Hinv1 (proj1 Hb) Hbk (proj1 Htag))
      as (i & v & -> & Hi & Hu & Hvict). cbn [mbind option_bind].
    apply outcome_stored; [done..|by intros _ (? & ? & ? & _)%Hca|]. rewrite Hb1 in *.
    apply (set_rest_new t1 p L A key klen value vlen Hinv1 Hmax Hlen Hk Hv bk i v l false expire);
      try done.
    + destruct Hvict as [|[|Hz]]; [by left|by right; left|right; right]. split; [|done].
      intros Hct. by destruct (Hca Hct) as (j & w & ? & _).
    + intros (Hct & _). by destruct (Hca Hct) as (j & w & ? & _).
Qed.

Lemma cache_set_spec t A k key klen value vlen expire ow :
  let K0 := padded key klen in
  minv t A k -> 1 <= k -> lengths_ok klen vlen -> buf_ok key klen -> buf_ok value vlen ->
  exists ok t', mehcached_set 0 t (H K0) key klen value vlen expire ow = Some (ok, t') /\
    minv t' (if ok then <[K0 := padded value vlen]> A else A) (k - 1) /\
    (ok = true -> cached t' key klen) /\ (ok = false -> ow = false).
Proof.
  intros K0 (p & L & Hinv & Hver & Hlk & Hmax & Hmth) Hk1 Hlen Hk Hv.
  pose proof (item_bytes_bounds _ _ Hlen) as [? _].
  destruct (set_effect t p L A key klen value vlen expire ow) as (ok & t' & He & Hok);
    [done..|lia|done|done|done|].
  exists ok, t'. split; [done|]. destruct ok.
  - destruct Hok as (_ & p' & L' & [? ? ? ? ? Hc Ht ? ? ?]). cbn [snd padded] in Ht.
    split; [|done]. apply (minv_pack t t' p' L'); try done; [|lia|lia].
    by destruct (config_fields _ _ Hc) as (_ & <- & _).
  - destruct Hok as (-> & ? & ? & Hc & _). split; [|done].
    apply (minv_pack t t' p L); try done; [|lia]. by destruct (config_fields _ _ Hc) as (_ & <- & _).
Qed.

Lemma read_versions t b bk :
  ver_ok t None -> 0 <= b -> get_bucket t b = Some bk ->
  exists v, mehcached_read_version_begin t b = Some v /\ mehcached_read_version_end t b = Some v.
Proof.
  intros Hver Hb Hbk. unfold mehcached_read_version_begin, mehcached_read_version_end.
  destruct Hver as [-> |[Hm Hv]]; [by exists 0|].
  destruct (Hv b bk Hb Hbk) as [_ He]. rewrite decide_False in He by done.
  assert (concurrent_access_mode t =? 0 = false) as -> by (destruct Hm as [-> | ->]; done).
  cbn [negb]. rewrite Hbk. cbn [mbind option_bind]. rewrite land1, He. by exists (version bk).
Qed.

(** A look-up in FIFO mode moves nothing to the head. *)
Lemma no_move t p b loc iv n :
  alloc t = [p] -> pool_geom p -> pool_mask p <= mth_threshold t ->
  move_to_head 0 t b loc iv n = Some t.
Proof.
  intros Ha Hg Hm. unfold move_to_head. rewrite (get_alloc_single t p Ha). cbn [mbind option_bind].
  destruct (geom_size _ Hg) as (k & Hk & Hs). rewrite (geom_mask _ Hg), Hs in *.
  rewrite land_mask by lia.
  pose proof (Z.mod_pos_bound (u64 (pool_tail p - MEHCACHED_ITEM_OFFSET iv)) (2 ^ k) ltac:(lia)).
  match goal with |- context [?a >? ?b] => destruct (Z.gtb_spec a b) end; [lia|done].
Qed.

(** What a search hit is read as: the lengths, and the value of an intact item. *)
Lemma read_item C t p L A b bk i v key klen len :
  let K0 := padded key klen in
  tinv H C t p L A -> 0 <= b < num_buckets t -> get_bucket t b = Some bk ->
  0 <= klen <= MEHCACHED_MAX_KEY_LENGTH -> buf_ok key klen -> 0 <= len <= 1500 ->
  item_vec bk !! i = Some v -> v <> 0 ->
  item_matches t (H K0) (key_tag H K0) key klen v = Some true ->
  let item := mehcached_pool_item p (MEHCACHED_ITEM_OFFSET v) in
  exists e kv bs, pload 4 p (item + off_expire_time) = Some e /\
    pload 4 p (item + off_kv_length_vec) = Some kv /\
    Z.min (MEHCACHED_KEY_LENGTH kv) MEHCACHED_MAX_KEY_LENGTH = klen /\
    let vl := Z.min (Z.min (MEHCACHED_VALUE_LENGTH kv) MEHCACHED_MAX_VALUE_LENGTH) len in
    0 <= vl /\
    mehcached_memcpy8 (pload_bytes p (item + sizeof_item + MEHCACHED_ROUNDUP8 klen)) vl = Some bs /\
    Z.of_nat (length bs) = MEHCACHED_ROUNDUP8 vl /\
    (mehcached_pool_is_valid p (MEHCACHED_ITEM_OFFSET v) = true ->
       exists V, A !! K0 = Some V /\ vl = Z.min V.2 len /\
         bs = take (Z.to_nat (MEHCACHED_ROUNDUP8 vl)) V.1).
Proof.
  intros K0 Hinv Hb Hbk Hkl Hkb Hlen Hi Hv Hm item.
  destruct (matched_slot C t p L A b bk i v key klen) as (o & Hvv & Hov & Ho & Hval & Hint);
    try done. fold K0 in Hvv, Hint.
  pose proof (ti_pgeom _ _ _ _ _ _ Hinv) as Hg.
  rewrite Hvv, (matches_eval H key klen Hkl Hkb t p o) in Hm;
    [|apply Hinv|done|apply calc_tag_range].
  apply (inj Some), andb_true_iff in Hm as [[_ Hkl']%andb_true_iff _]. apply Z.eqb_eq in Hkl'.
  unfold item. rewrite Hov in *. unfold off_expire_time, off_kv_length_vec, sizeof_item.
  set (kv := le_value (log_bytes p (o + 8) 4)) in *. pose proof (roundup_key klen Hkl) as Hrk.
  set (vl := Z.min (Z.min (MEHCACHED_VALUE_LENGTH kv) MEHCACHED_MAX_VALUE_LENGTH) len).
  assert (0 <= MEHCACHED_VALUE_LENGTH kv) as Hvl0.
  { unfold MEHCACHED_VALUE_LENGTH. change MEHCACHED_VALUE_MASK with (2 ^ 24 - 1).
    rewrite land_mask by lia. apply Z.mod_pos_bound. lia. }
  assert (0 <= vl <= 1500) as Hvl by (unfold vl, MEHCACHED_MAX_VALUE_LENGTH; lia).
  destruct (roundup8_bounds vl ltac:(lia)) as [Hrv _].
  exists (le_value (log_bytes p (o + 12) 4)), kv,
    (log_bytes p (o + (24 + MEHCACHED_ROUNDUP8 klen)) (MEHCACHED_ROUNDUP8 vl)).
  rewrite !pload_item by (done || lia). split; [done|]. split; [done|]. cbv zeta. fold vl.
  unfold MEHCACHED_MAX_KEY_LENGTH in *. split; [lia|]. split; [lia|]. split.
  { unfold mehcached_memcpy8. rewrite <- Z.add_assoc. apply pload_bytes_item; [done|lia..]. }
  split; [apply log_bytes_length; lia|]. intros Hvalid.
  apply Hval in Hvalid. destruct (Hint Hvalid) as (n & V & _ & [Hkv _ _ Hbv [_ Hl2] _] & _ & _ & HA).
  exists V. split; [done|]. fold kv in Hkv. change K0.2 with klen in Hkv. unfold MEHCACHED_MAX_VALUE_LENGTH in *.
  destruct (kv_fields klen V.2) as (_ & HV & _); [lia|lia|].
  assert (vl = Z.min V.2 len) as Hvle by (unfold vl; rewrite Hkv, HV; simpl; lia).
  split; [done|]. rewrite <- Hbv. cbn [snd K0 padded].
  destruct (roundup8_bounds V.2 ltac:(lia)) as [HrV _].
  assert (MEHCACHED_ROUNDUP8 vl <= MEHCACHED_ROUNDUP8 V.2) as Hle.
  { rewrite !roundup8_val by lia. apply Z.mul_le_mono_nonneg_r; [lia|]. apply Z.div_le_mono; lia. }
  replace (MEHCACHED_ROUNDUP8 V.2)
    with (MEHCACHED_ROUNDUP8 vl + (MEHCACHED_ROUNDUP8 V.2 - MEHCACHED_ROUNDUP8 vl)) by lia.
  rewrite log_bytes_app by lia.
  rewrite take_app_le by (pose proof (log_bytes_length p (o + 24 + MEHCACHED_ROUNDUP8 klen)
    (MEHCACHED_ROUNDUP8 vl) ltac:(lia)); lia).
  rewrite take_ge by (pose proof (log_bytes_length p (o + 24 + MEHCACHED_ROUNDUP8 klen)
    (MEHCACHED_ROUNDUP8 vl) ltac:(lia)); lia). by rewrite Z.add_assoc.
Qed.

(** Clearing slot [i] of the locked bucket [b], and releasing the bucket. *)
Lemma clear_slot C t p L A A' b bk i v :
  tinv H C t p L A -> ver_ok t (Some b) -> 0 <= b < num_buckets t -> get_bucket t b = Some bk ->
  item_vec bk !! i = Some v ->
  (forall b' bk' j w, 0 <= b' -> get_bucket t b' = Some bk' -> item_vec bk' !! j = Some w ->
    w <> 0 -> (b', j) <> (b, i) -> slot_ok H t p L A C b' w -> slot_ok H t p L A' C b' w) ->
  exists t1 t2, set_slot t b i 0 = Some t1 /\ get_bucket t1 b = Some (set_items bk (<[i := 0]> (item_vec bk))) /\
    mehcached_unlock_bucket t1 b = Some t2 /\ tinv H C t2 p L A' /\ ver_ok t2 None /\
    config t2 = config t /\
    (forall b' j w, 0 <= b' -> (b', j) <> (b, i) -> get_slot t b' j = Some w ->
       get_slot t2 b' j = Some w).
Proof.
  intros Hinv Hver Hb Hbk Hi Hoth. rewrite (set_slot_eval t b i 0 bk v) by done.
  set (t1 := set_bucket t b (set_items bk (<[i := 0]> (item_vec bk)))).
  assert (tinv H C t1 p L A') as Hinv1 by (by eapply tinv_set_slot; [|lia|..]).
  destruct (op_unlock C t1 p L A' b Hinv1) as (t2 & ? & ? & ? & ? & Hs2);
    [by apply ver_ok_items; [lia|..]|done|].
  exists t1, t2. split; [done|]. split.
  { unfold t1. rewrite get_set_bucket by (lia || by exists bk). by rewrite decide_True. }
  do 4 (split; [done|]). intros b' j w Hb' Hne Hw. rewrite (same_items_slot _ _ _ _ Hs2).
  apply set_slot_frame; [lia|done..].
Qed.

(** The result of a look-up: what the cache holds, cut to the length asked for. *)
Definition get_ok (A : cache) (K : bytestring) (buf : list Z) (len : Z) (o : get_out) : Prop :=
  found o = true ->
  exists V, A !! K = Some V /\ out_length o = Z.min V.2 len /\
    let n := Z.to_nat (MEHCACHED_ROUNDUP8 (out_length o)) in
    out_value o = take n V.1 ++ drop n buf.

(** A stale item is taken out of its slot. *)
Lemma drop_stale t p L A k b bk i v :
  tinv H (pool_tail p / 2 ^ rshift t) t p L A -> ver_ok t None -> pool_lock_word p = 0 ->
  pool_tail p + k * MB2 < 2 ^ 63 -> pool_mask p <= mth_threshold t ->
  0 <= b < num_buckets t -> get_bucket t b = Some bk -> item_vec bk !! i = Some v ->
  mehcached_pool_is_valid p (MEHCACHED_ITEM_OFFSET v) = false ->
  exists t', (t ← mehcached_lock_bucket t b; t ← set_slot t b i 0; mehcached_unlock_bucket t b) = Some t' /\
    minv t' A k /\ alloc t' = alloc t /\ config t' = config t /\ loses_none t t'.
Proof.
  intros Hinv Hver Hlk Hmax Hmth Hb Hbk Hi Hval. pose proof (ti_alloc _ _ _ _ _ _ Hinv) as Ha.
  pose proof (get_slot_eval t b i bk v Hbk Hi) as Hsl.
  destruct (op_lock _ t p L A b Hinv Hver Hb) as (t1 & -> & Hinv1 & Hver1 & Hc1 & Hs1).
  cbn [mbind option_bind]. destruct (config_fields _ _ Hc1) as (Hn1 & Hr1 & Hm1).
  destruct (same_items_get _ _ b bk (same_items_sym _ _ Hs1) Hbk) as (bk1 & Hbk1 & Hit1).
  rewrite Hit1 in Hi.
  destruct (clear_slot _ t1 p L A A b bk1 i v Hinv1 Hver1) as (t2 & t3 & -> & _ & Hun & Hinv3 & Hv3 & Hc3 & Hfr);
    [by rewrite Hn1|done|done|done|].
  cbn [mbind option_bind]. exists t3. split; [done|].
  split; [apply (minv_pack t t3 p L); try done; by rewrite Hc3|].
  assert (alloc t3 = alloc t) as Ha3 by (by rewrite Ha, (ti_alloc _ _ _ _ _ _ Hinv3)).
  split; [done|]. split; [by rewrite Hc3|]. intros key klen. apply cached_kept; [done|by rewrite Hc3|].
  intros p' j w Hp' Hw _ Hvw _. rewrite Ha in Hp'. injection Hp' as <-.
  apply Hfr; [apply (bucket_index_range t (H (padded key klen))), Hinv|
    intros [= <- ->]; rewrite Hsl in Hw; congruence|].
  by rewrite (same_items_slot _ _ _ _ Hs1).
Qed.

Lemma cache_get_spec t A k key klen buf len ro :
  let K0 := padded key klen in
  minv t A k -> 0 <= klen <= MEHCACHED_MAX_KEY_LENGTH -> buf_ok key klen ->
  0 <= len <= 1500 -> buf_ok buf len ->
  exists o t', mehcached_get 0 t (H K0) key klen buf len ro = Some (o, t') /\
    minv t' A k /\ get_ok A K0 buf len o /\ (cached t key klen -> found o = true) /\
    (found o = true -> t' = t) /\
    alloc t' = alloc t /\ config t' = config t /\ loses_none t t'.
Proof.
  intros K0 (p & L & Hinv & Hver & Hlk & Hmax & Hmth) Hkl Hkb Hlen Hbuf.
  set (b := key_bucket H t K0). unfold mehcached_get. cbn [get_loop]. unfold get_attempt.
  rewrite (proj2 (Z.leb_le _ _) (proj2 Hkl)). cbn [negb].
  change (mehcached_calc_bucket_index t (H K0)) with b.
  change (mehcached_calc_tag (H K0)) with (key_tag H K0).
  destruct (op_search _ t p L A b key klen Hinv eq_refl Hkl Hkb)
    as (bk & r & Hb & Hbk & Hf & Hr). fold K0 in Hf.
  pose proof (cached_found _ t p L A b bk key klen r Hinv eq_refl (proj1 Hb) Hbk Hr) as Hca.
  destruct (read_versions t b bk Hver (proj1 Hb) Hbk) as (vn & Hv1 & Hv2).
  rewrite Hv1. cbn [mbind option_bind]. rewrite Hf. cbn [mbind option_bind].
  destruct r as [loc|].
  2:{ rewrite Hv2. cbn [mbind option_bind]. rewrite Z.eqb_refl. cbn [negb mbind option_bind].
      eexists _, t. split; [done|]. split; [by exists p, L|]. split; [done|].
      split; [by intros (i & v & ? & _)%Hca|]. by pose proof (loses_none_refl t). }
  destruct Hr as (i & v & -> & Hi & Hv & Hm). fold K0 in Hm. cbn [fst snd].
  rewrite (get_slot_eval t b i bk v) by done. cbn [mbind option_bind]. cbv zeta.
  rewrite (tg_pools _ (ti_geom _ _ _ _ _ _ Hinv)). change (MEHCACHED_ALLOC_ID v) with 0.
  change (if 0 >=? 0 + 1 then 0 else 0) with 0.
  rewrite (get_alloc_single t p (ti_alloc _ _ _ _ _ _ Hinv)).
  cbn [mbind option_bind].
  destruct (read_item _ t p L A b bk i v key klen len Hinv Hb Hbk Hkl Hkb Hlen Hi Hv Hm)
    as (e & kv & bs & He & Hkv & Hkl' & Hvl0 & Hbs & Hbl & Hval).
  rewrite He. cbn [mbind option_bind]. rewrite Hkv. cbn [mbind option_bind]. rewrite Hkl'.
  set (vl0 := Z.min (MEHCACHED_VALUE_LENGTH kv) MEHCACHED_MAX_VALUE_LENGTH) in *.
  assert ((if vl0 >? len then len else vl0) = Z.min vl0 len) as ->
    by (destruct (Z.gtb_spec vl0 len); lia).
  rewrite Hbs. cbn [mbind option_bind].
  assert (MEHCACHED_ROUNDUP8 (Z.min vl0 len) <= MEHCACHED_ROUNDUP8 len) as Hrl.
  { rewrite !roundup8_val by lia. apply Z.mul_le_mono_nonneg_r; [lia|]. apply Z.div_le_mono; lia. }
  unfold buf_write. rewrite decide_True by (unfold buf_ok in Hbuf; lia). cbn [mbind option_bind].
  rewrite Hv2. cbn [mbind option_bind]. rewrite Z.eqb_refl. cbn [negb].
  destruct (mehcached_pool_is_valid p (MEHCACHED_ITEM_OFFSET v)) eqn:Hvalid; cbn [negb].
  - destruct (Hval eq_refl) as (V & HA & HV & HbV).
    destruct (Z.gtb_spec (Z.min vl0 len) 1500); [lia|].
    assert ((if negb ro && (0 =? 0) then move_to_head 0 t b (b, i) v
      (u32 (sizeof_item + MEHCACHED_ROUNDUP8 klen + MEHCACHED_ROUNDUP8 vl0)) else Some t) = Some t)
      as ->.
    { destruct (negb ro && (0 =? 0)); [|done].
      apply (no_move t p); [apply (ti_alloc _ _ _ _ _ _ Hinv)|by eapply ti_pgeom|done]. }
    cbn [mbind option_bind]. eexists _, t. split; [done|]. split; [by exists p, L|]. split; [|by pose proof (loses_none_refl t)].
    intros _. exists V. split; [done|]. split; [done|]. cbn [out_value out_length].
    rewrite <- HbV. do 2 f_equal. lia.
  - destruct ro; cbn [mbind option_bind].
    { eexists _, t. split; [done|]. split; [by exists p, L|]. split; [done|].
      split; [by intros (j & w & [= <-] & Hw & ?)%Hca; congruence|].
      by pose proof (loses_none_refl t). }
    destruct (drop_stale t p L A k b bk i v) as (t3 & -> & Ht3 & Hlog); [done..|].
    cbn [mbind option_bind].
    eexists _, t3. split; [done|]. split; [done|]. split; [done|]. split; [|done].
    intros (j & w & [= <-] & Hw & ?)%Hca. congruence.
Qed.

Lemma cache_test_spec t A k key klen :
  let K0 := padded key klen in
  minv t A k -> 0 <= klen <= MEHCACHED_MAX_KEY_LENGTH -> buf_ok key klen ->
  exists r, mehcached_test t (H K0) key klen = Some r /\ (cached t key klen -> r = true) /\
    (r = true -> cached t key klen \/ log_room t < log_used t).
Proof.
  intros K0 (p & L & Hinv & Hver & _) Hkl Hkb. set (b := key_bucket H t K0).
  unfold mehcached_test. rewrite (proj2 (Z.leb_le _ _) (proj2 Hkl)). cbn [negb].
  change (mehcached_calc_bucket_index t (H K0)) with b.
  change (mehcached_calc_tag (H K0)) with (key_tag H K0).
  destruct (op_search _ t p L A b key klen Hinv eq_refl Hkl Hkb)
    as (bk & r & Hb & Hbk & Hf & Hr). fold K0 in Hf.
  destruct (read_versions t b bk Hver (proj1 Hb) Hbk) as (vn & Hv1 & Hv2).
  rewrite Hv1. cbn [mbind option_bind]. rewrite Hf. cbn [mbind option_bind].
  rewrite Hv2. cbn [mbind option_bind]. rewrite Z.eqb_refl. cbn [negb].
  eexists. split; [done|]. split.
  { intros Hc. destruct (cached_found _ t p L A b bk key klen r Hinv eq_refl (proj1 Hb) Hbk Hr Hc)
      as (i & v & -> & _). done. }
  destruct r as [loc|]; [|done]. intros _. destruct Hr as (i & v & _ & Hi & Hv & Hm).
  by eapply (cached_or_lapped _ t p L A b bk i v).
Qed.

(** The cache changes at keys that no intact item word of the table has. *)
Lemma tinv_cache C t p L A A' :
  tinv H C t p L A ->
  (forall b bk i v, 0 <= b -> get_bucket t b = Some bk -> item_vec bk !! i = Some v -> v <> 0 ->
    slot_ok H t p L A C b v -> slot_ok H t p L A' C b v) ->
  tinv H C t p L A'.
Proof.
  intros [? ? ? ? Hsl ?] Hs. split; try done. intros b bk i v Hb Hbk Hi Hv.
  eapply Hs; [done..|]. by eapply Hsl.
Qed.

(** A key that the search does not find is not the key of an intact item. *)
Lemma not_found_delete C t p L A b bk key klen :
  let K0 := padded key klen in
  tinv H C t p L A -> b = key_bucket H t K0 -> 0 <= b -> get_bucket t b = Some bk ->
  0 <= klen <= MEHCACHED_MAX_KEY_LENGTH -> buf_ok key klen ->
  search_result t b bk key klen None -> tinv H C t p L (delete K0 A).
Proof.
  intros K0 Hinv Hb Hb0 Hbk Hkl Hkb Hr. eapply tinv_cache; [done|].
  intros b' bk' i v Hb' Hbk' Hi Hv. apply slot_ok_pool; [done..|].
  intros o n K V Hvv HK Ho _ HL Hit HA _. exists V. split; [done|]. split; [done|].
  rewrite lookup_delete_ne; [done|]. intros <-.
  assert (b' = b) as -> by congruence. rewrite Hbk in Hbk'. injection Hbk' as <-.
  pose proof (Hr v ltac:(by eapply list_elem_of_lookup_2)) as Hf. fold K0 in Hf.
  rewrite Hvv in Hf.
  pose proof (proj2 (matches_intact H key klen Hkl Hkb t p A b o n (key_tag H K0) K0 V
    (ti_alloc _ _ _ _ _ _ Hinv) (ti_pgeom _ _ _ _ _ _ Hinv) (calc_tag_range _)
    (conj Hit (conj eq_refl (conj (eq_sym Hb) HA)))) eq_refl) as Ht.
  discriminate (eq_trans (eq_sym Ht) Hf).
Qed.

(** Clearing the slot of a key keeps the entries of the other keys. *)
Lemma cleared_others C t t' p L A b bk i v key klen :
  let K0 := padded key klen in
  tinv H C t p L A -> b = key_bucket H t K0 -> 0 <= b < num_buckets t ->
  get_bucket t b = Some bk -> 0 <= klen <= MEHCACHED_MAX_KEY_LENGTH -> buf_ok key klen ->
  item_vec bk !! i = Some v -> v <> 0 ->
  item_matches t (H K0) (key_tag H K0) key klen v = Some true ->
  alloc t' = alloc t -> config t' = config t ->
  (forall b' j w, 0 <= b' -> (b', j) <> (b, i) -> get_slot t b' j = Some w ->
     get_slot t' b' j = Some w) ->
  forall key' klen', 0 <= klen' <= MEHCACHED_MAX_KEY_LENGTH -> buf_ok key' klen' ->
    padded key' klen' <> K0 -> cached t key' klen' -> cached t' key' klen'.
Proof.
  intros K0 Hinv Hb0 Hb Hbk Hkl Hkb Hi Hv Hm Ha Hc Hfr key' klen' Hkl' Hkb' Hne.
  apply cached_kept; [done..|]. intros p' j w Hp' Hsl Hw Hval Hmw.
  pose proof (bucket_index_range t (H (padded key' klen')) (ti_geom _ _ _ _ _ _ Hinv)) as Hr'.
  apply Hfr; [apply Hr'| |done]. intros [= Hbb ->]. apply Hne.
  rewrite (ti_alloc _ _ _ _ _ _ Hinv) in Hp'. injection Hp' as <-.
  rewrite Hbb in Hsl. rewrite (get_slot_eval t b i bk v Hbk Hi) in Hsl. injection Hsl as <-.
  destruct (matched_slot C t p L A b bk i v key' klen') as (o & Hvv & _ & _ & Hvi & Hint); [done..|].
  destruct (Hint (proj1 Hvi Hval)) as (n & V & _ & Hh). symmetry. rewrite Hvv in Hm.
  apply (matches_tag H key klen) in Hm as Htg.
  destruct (item_vec_fields (key_tag H (padded key' klen')) o) as (Htv & _); [pose proof (calc_tag_range (H (padded key' klen'))); unfold key_tag; lia|].
  symmetry. rewrite Htv in Htg.
  eapply (matches_intact H key klen Hkl Hkb t p A b o n); [apply Hinv|by eapply ti_pgeom| |exact Hh|exact Hm].
  apply calc_tag_range.
Qed.

Lemma cache_delete_spec t A k key klen :
  let K0 := padded key klen in
  minv t A k -> 0 <= klen <= MEHCACHED_MAX_KEY_LENGTH -> buf_ok key klen ->
  exists ok t', mehcached_delete t (H K0) key klen = Some (ok, t') /\
    minv t' (delete K0 A) k /\ (ok = false -> ~ cached t key klen) /\
    (ok = true -> cached t key klen \/ log_room t < log_used t) /\
    alloc t' = alloc t /\ config t' = config t /\
    forall key' klen', 0 <= klen' <= MEHCACHED_MAX_KEY_LENGTH -> buf_ok key' klen' ->
      padded key' klen' <> K0 -> cached t key' klen' -> cached t' key' klen'.
Proof.
  intros K0 (p & L & Hinv & Hver & Hlk & Hmax & Hmth) Hkl Hkb.
  pose proof (ti_alloc _ _ _ _ _ _ Hinv) as Ha. set (b := key_bucket H t K0). unfold mehcached_delete.
  rewrite (proj2 (Z.leb_le _ _) (proj2 Hkl)). cbn [negb].
  change (mehcached_calc_bucket_index t (H K0)) with b.
  change (mehcached_calc_tag (H K0)) with (key_tag H K0).
  assert (0 <= b < num_buckets t) as Hb by (apply bucket_index_range; apply Hinv).
  destruct (op_lock _ t p L A b Hinv Hver Hb) as (t1 & -> & Hinv1 & Hver1 & Hc1 & Hs1).
  cbn [mbind option_bind]. destruct (config_fields _ _ Hc1) as (Hn1 & Hr1 & Hm1).
  assert (b = key_bucket H t1 K0) as Hb1 by (by rewrite (config_bucket _ _ _ Hc1)).
  destruct (op_search _ t1 p L A b key klen Hinv1 Hb1 Hkl Hkb) as (bk & r & Hbr & Hbk & Hf & Hr).
  fold K0 in Hf. rewrite Hf. cbn [mbind option_bind]. pose proof (ti_alloc _ _ _ _ _ _ Hinv1) as Ha1.
  destruct r as [loc|].
  - destruct Hr as (i & v & -> & Hi & Hv & Hm). fold K0 in Hm. cbn [fst snd].
    destruct (clear_slot _ t1 p L A (delete K0 A) b bk i v Hinv1 Hver1)
      as (t2 & t3 & -> & Hbk2 & Hun & Hinv3 & Hv3 & Hc3 & Hfr); [done..| |].
    { eapply other_key; [done|done|done| |intros K HK; by rewrite lookup_delete_ne].
      intros j w Hj Hw Htw. apply matches_tag in Hm.
      eapply (ti_tags _ _ _ _ _ _ Hinv1); [apply Hb|done|exact Hj|exact Hi|done|done|].
      by rewrite Htw. }
    cbn [mbind option_bind]. unfold mehcached_fill_hole. rewrite Hbk2.
    cbn [mbind option_bind mehcached_has_extra_bucket MEHCACHED_NO_EVICTION negb].
    rewrite Hun. cbn [mbind option_bind]. exists true, t3. split; [done|]. split.
    { apply (minv_pack t t3 p L); (done || (by rewrite <- Hr1) || (by rewrite Hc3)). }
    pose proof (ti_alloc _ _ _ _ _ _ Hinv3) as Ha3.
    split; [done|]. split; [intros _|].
    { destruct (cached_or_lapped (pool_tail p / 2 ^ rshift t) t1 p L A b bk i v key klen) as [Hca|Hlap]; [done..| |right];
        [|unfold log_room, log_used in *; by rewrite Ha; rewrite Ha1 in Hlap].
      left. apply (same_items_cached t1); [by apply same_items_sym|by rewrite Ha1|done]. }
    rewrite Hc3, Ha3, Ha. do 2 (split; [done|]). intros key' klen' ? ? ? Hca.
    eapply (cleared_others _ t1 t3 p L A b bk i v key klen); try done; [by rewrite Ha3, Ha1|].
    by apply (same_items_cached t); [|rewrite Ha1|].
  - pose proof (not_found_delete _ t1 p L A b bk key klen Hinv1 Hb1 (proj1 Hb) Hbk Hkl Hkb Hr)
      as Hinv2.
    destruct (op_unlock _ t1 p L _ b Hinv2 Hver1 Hbr) as (t2 & -> & Hinv3 & Hv3 & Hc3 & Hs3).
    cbn [mbind option_bind]. exists false, t2. split; [done|]. split.
    { apply (minv_pack t t2 p L); (done || (by rewrite <- Hr1) || (by rewrite Hc3)). }
    pose proof (ti_alloc _ _ _ _ _ _ Hinv3) as Ha3.
    rewrite Hc3, Ha3, Ha. split; [|split; [done|]]; cycle 1.
    { do 2 (split; [done|]). intros key' klen' _ _ _ Hca. apply (same_items_cached t1);
        [done|by rewrite Ha3|]. by apply (same_items_cached t); [|rewrite Ha1|]. }
    intros _ Hca. apply (same_items_cached t t1) in Hca; [|done|by rewrite Ha1].
    by destruct (cached_found _ t1 p L A b bk key klen None Hinv1 Hb1 (proj1 Hb) Hbk Hr Hca)
      as (i & v & ? & _).
Qed.

(** The increment of an 8-byte value. *)
Lemma incr_item_spec p o n kh K V x expire :
  pool_geom p -> item_at p o n kh K V -> V.2 = 8 ->
  exists p1 p2,
    pstore 8 p (mehcached_pool_item p (o mod 2 ^ 40) + sizeof_item + MEHCACHED_ROUNDUP8 K.2) x = Some p1 /\
    pstore 4 p1 (mehcached_pool_item p (o mod 2 ^ 40) + off_expire_time) expire = Some p2 /\
    patched p p2 (o + 8) (n - 8) /\ item_at p2 o n kh K (le_bytes 8 x, 8).
Proof.
  intros Hg [Hkv Hh Hkey Hval Hlen Hsz] HV. destruct (item_bytes_bounds _ _ Hlen) as (? & ? & ? & ?).
  pose proof (geom_bounds p Hg) as Hps. rewrite HV in *. change (MEHCACHED_ROUNDUP8 8) with 8 in *.
  unfold item_bytes, pstore, off_expire_time, sizeof_item in *.
  change (MEHCACHED_ROUNDUP8 8) with 8 in *. pose proof Hlen as [[? Hkl] _].
  destruct (pstore_item p o (24 + MEHCACHED_ROUNDUP8 K.2) (le_bytes 8 x) Hg)
    as (p1 & Hst1 & Hp1 & Hb1); [lia|rewrite le_bytes_length; lia|].
  destruct (pstore_item p1 o 12 (le_bytes 4 expire) (patched_geom _ _ _ _ Hp1 Hg))
    as (p2 & Hst2 & Hp2 & Hb2); [lia|rewrite le_bytes_length; lia|].
  rewrite (patched_item _ _ _ _ _ Hp1) in Hst2. rewrite !le_bytes_length in *.
  rewrite ?Z.add_assoc in *. pose proof (patched_size _ _ _ _ Hp1).
  exists p1, p2. split; [done|]. split; [done|]. split.
  { eapply patched_trans; (eapply patched_sub; [eassumption|simpl; lia..]). }
  assert (forall a m, o + 24 + MEHCACHED_ROUNDUP8 K.2 + 8 <= a + pool_size p ->
    o + 16 <= a -> a + m <= o + 24 + MEHCACHED_ROUNDUP8 K.2 -> log_bytes p2 a m = log_bytes p a m) as Hfr.
  { intros a m ???. rewrite (patched_bytes _ _ _ _ _ _ Hp2), (patched_bytes _ _ _ _ _ _ Hp1)
      by (simpl; lia). done. }
  split; cbn [snd]; change (MEHCACHED_ROUNDUP8 8) with 8; [| | | |done|].
  - by rewrite (patched_bytes _ _ _ _ _ _ Hp2), (patched_bytes _ _ _ _ _ _ Hp1) by (simpl; lia).
  - by rewrite Hfr by lia.
  - by rewrite Hfr by lia.
  - rewrite (patched_bytes _ _ _ _ _ _ Hp2) by (simpl; lia). done.
  - unfold item_bytes, sizeof_item. change (MEHCACHED_ROUNDUP8 8) with 8. lia.
Qed.

(** What happens to the item under the locks. *)
Lemma incr_locked t p L A b bk i v l key klen inc expire :
  let K0 := padded key klen in
  let pl := pool_set_lock p l in
  let item := mehcached_pool_item pl (MEHCACHED_ITEM_OFFSET v) in
  let not_a_number := mehcached_pool_is_valid p (MEHCACHED_ITEM_OFFSET v) = true ->
    exists V, A !! K0 = Some V /\ V.2 <> 8 in
  tinv H (pool_tail p / 2 ^ rshift t) t p L A -> 0 <= b < num_buckets t -> get_bucket t b = Some bk ->
  0 <= klen <= MEHCACHED_MAX_KEY_LENGTH -> buf_ok key klen ->
  item_vec bk !! i = Some v -> v <> 0 -> item_matches t (H K0) (key_tag H K0) key klen v = Some true ->
  exists r p2 A',
    (if negb (mehcached_pool_is_valid pl (MEHCACHED_ITEM_OFFSET v)) then Some (None, pl) else
     kv ← pload 4 pl (item + off_kv_length_vec);
     if negb (MEHCACHED_VALUE_LENGTH kv =? 8) then Some (None, pl) else
     old_value ← pload 8 pl (item + sizeof_item + MEHCACHED_ROUNDUP8 klen);
     let new_value := u64 (old_value + inc) in
     p ← pstore 8 pl (item + sizeof_item + MEHCACHED_ROUNDUP8 klen) new_value;
     p ← pstore 4 p (item + off_expire_time) expire;
     Some (Some new_value, p)) = Some (r, p2) /\
    pool_lock_word p2 = l /\ pool_tail p2 = pool_tail p /\ pool_mode p2 = pool_mode p /\
    pool_mask p2 = pool_mask p /\ pool_size p2 = pool_size p /\
    tinv H (pool_tail p / 2 ^ rshift t) (set_alloc t 0 (pool_set_lock p2 0)) (pool_set_lock p2 0) L A' /\
    match r with
    | None => A' = A /\ not_a_number
    | Some x => exists V, A !! K0 = Some V /\ V.2 = 8 /\ x = u64 (le_value V.1 + inc) /\
        A' = <[K0 := (le_bytes 8 x, 8)]> A
    end.
Proof.
  intros K0 pl item not_a_number Hinv Hb Hbk Hkl Hkb Hi Hv Hm.
  assert (not_a_number -> exists r p2 A', Some (None, pl) = Some (r, p2) /\
    pool_lock_word p2 = l /\ pool_tail p2 = pool_tail p /\ pool_mode p2 = pool_mode p /\
    pool_mask p2 = pool_mask p /\ pool_size p2 = pool_size p /\
    tinv H (pool_tail p / 2 ^ rshift t) (set_alloc t 0 (pool_set_lock p2 0)) (pool_set_lock p2 0) L A' /\
    match r with
    | None => A' = A /\ not_a_number
    | Some x => exists V, A !! K0 = Some V /\ V.2 = 8 /\ x = u64 (le_value V.1 + inc) /\
        A' = <[K0 := (le_bytes 8 x, 8)]> A
    end) as Hnone.
  { intros Hnan. exists (None : option Z), pl, A. repeat (split; [done|]). split; [|done]. exact (tinv_lock _ _ _ _ _ 0 Hinv). }
  destruct (matched_slot _ t p L A b bk i v key klen Hinv Hb Hbk Hkl Hkb Hi Hv Hm)
    as (o & Hvv & Hov & Ho & Hval & Hint). fold K0 in Hvv, Hint.
  change (mehcached_pool_is_valid pl) with (mehcached_pool_is_valid p).
  destruct (mehcached_pool_is_valid p (MEHCACHED_ITEM_OFFSET v)) eqn:Hvalid; cbn [negb];
    [|by apply Hnone].
  pose proof (proj1 Hval eq_refl) as Hin. destruct (Hint Hin) as (n & V & HL & Hh). clear Hint.
  pose proof (inv_geom _ _ (pool_inv_lock _ _ l (ti_pool _ _ _ _ _ _ Hinv))) as Hgl.
  assert (item_at pl o n (H K0) K0 V) as Hit by (by destruct Hh as ([] & _); split).
  pose proof Hit as [Hkv _ _ Hvl Hlens Hsz].
  destruct (item_bytes_bounds _ _ Hlens) as (_ & _ & ? & ?).
  unfold item. rewrite Hov. unfold off_kv_length_vec. rewrite pload_item by (done || lia).
  cbn [mbind option_bind]. rewrite Hkv.
  destruct (kv_fields K0.2 V.2) as (_ & -> & _); [apply Hlens| |].
  { destruct Hlens as [_ Hl2]. unfold MEHCACHED_MAX_VALUE_LENGTH in Hl2. lia. }
  destruct (Z.eqb_spec V.2 8) as [HV|]; cbn [negb mbind option_bind];
    [|apply Hnone; intros _; exists V; split; [apply Hh|done]].
  clear Hnone. pose proof (proj1 Hkl : 0 <= K0.2) as Hk0. change klen with K0.2.
  assert (sizeof_item + MEHCACHED_ROUNDUP8 K0.2 + 8 <= MB2) by (unfold sizeof_item; lia).
  rewrite <- (Z.add_assoc _ sizeof_item), pload_item by (done || (unfold sizeof_item; lia)). cbn [mbind option_bind].
  rewrite (Z.add_assoc _ sizeof_item). rewrite HV in Hvl.
  change (MEHCACHED_ROUNDUP8 8) with 8 in Hvl. rewrite Z.add_assoc.
  change (o + sizeof_item + MEHCACHED_ROUNDUP8 K0.2)
    with (o + 24 + MEHCACHED_ROUNDUP8 K0.2). rewrite Hvl. cbv zeta.
  set (x := u64 (le_value V.1 + inc)).
  destruct (incr_item_spec pl o n (H K0) K0 V x expire) as (p1 & p2 & -> & Hst2 & Hpat & Hit2); [done..|].
  cbn [mbind option_bind]. rewrite Hst2. cbn [mbind option_bind].
  exists (Some x), p2, (<[K0 := (le_bytes 8 x, 8)]> A). split; [done|].
  pose proof Hpat as [Hp2 _]. do 5 (split; [by rewrite Hp2|]). split.
  - apply (relock_inplace _ t p L A b bk i o n l K0 V); try done; [lia|by rewrite <- Hvv].
  - exists V. split; [apply Hh|done].
Qed.

(** The items change in their bytes only. *)
Definition same_slots (t t' : mehcached_table) : Prop :=
  config t' = config t /\ (forall b i, get_slot t' b i = get_slot t b i) /\
  exists p p', alloc t = [p] /\ alloc t' = [p'] /\ pool_tail p' = pool_tail p /\
    pool_size p' = pool_size p.

Lemma cache_increment_spec t A k key klen inc expire :
  let K0 := padded key klen in
  minv t A k -> 0 <= klen <= MEHCACHED_MAX_KEY_LENGTH -> buf_ok key klen ->
  exists r t', mehcached_increment 0 t (H K0) key klen inc expire = Some (r, t') /\
    same_slots t t' /\
    match r with
    | None => minv t' A k /\ (cached t key klen -> exists V, A !! K0 = Some V /\ V.2 <> 8)
    | Some x => exists V, A !! K0 = Some V /\ V.2 = 8 /\ x = u64 (le_value V.1 + inc) /\
        minv t' (<[K0 := (le_bytes 8 x, 8)]> A) k
    end.
Proof.
  intros K0 (p & L & Hinv & Hver & Hlk & Hmax & Hmth) Hkl Hkb.
  set (b := key_bucket H t K0). unfold mehcached_increment.
  rewrite (proj2 (Z.leb_le _ _) (proj2 Hkl)). cbn [negb].
  change (mehcached_calc_bucket_index t (H K0)) with b.
  change (mehcached_calc_tag (H K0)) with (key_tag H K0).
  assert (0 <= b < num_buckets t) as Hb by (apply bucket_index_range; apply Hinv).
  destruct (op_lock _ t p L A b Hinv Hver Hb) as (t1 & -> & Hinv1 & Hver1 & Hc1 & Hs1).
  cbn [mbind option_bind]. destruct (config_fields _ _ Hc1) as (Hn1 & Hr1 & Hm1).
  assert (b = key_bucket H t1 K0) as Hb1 by (by rewrite (config_bucket _ _ _ Hc1)).
  destruct (op_search _ t1 p L A b key klen Hinv1 Hb1 Hkl Hkb) as (bk & r & Hbr & Hbk & Hf & Hr).
  fold K0 in Hf. rewrite Hf. cbn [mbind option_bind]. rewrite <- Hr1 in *. rewrite <- Hm1 in Hmth.
  pose proof (ti_alloc _ _ _ _ _ _ Hinv) as Ha. pose proof (ti_alloc _ _ _ _ _ _ Hinv1) as Ha1.
  assert (cached t key klen -> cached t1 key klen) as Hca1
    by (apply same_items_cached; [done|by rewrite Ha1]).
  pose proof (cached_found _ t1 p L A b bk key klen r Hinv1 Hb1 (proj1 Hb) Hbk Hr) as Hcf.
  destruct r as [loc|].
  2:{ destruct (op_unlock _ t1 p L _ b Hinv1 Hver1 Hbr) as (t2 & -> & Hinv3 & Hv3 & Hc3 & Hs3).
      cbn [mbind option_bind]. exists None, t2. split; [done|]. split; [|split].
      - split; [by rewrite Hc3|]. split; [|exists p, p; by rewrite (ti_alloc _ _ _ _ _ _ Hinv3)].
        intros b' i'. by rewrite (same_items_slot _ _ _ _ Hs3), (same_items_slot _ _ _ _ Hs1).
      - by apply (minv_pack t1 t2 p L).
      - intros Hca%Hca1%Hcf. by destruct Hca as (i & v & ? & _). }
  destruct Hr as (i & v & -> & Hi & Hv & Hm). fold K0 in Hm. cbn [fst snd].
  rewrite (get_slot_eval t1 b i bk v) by done. cbn [mbind option_bind].
  change (MEHCACHED_ALLOC_ID v) with 0. cbn [Z.eqb negb].
  rewrite (get_alloc_single t1 p Ha1). cbn [mbind option_bind].
  destruct (pool_lock_spec p Hlk) as (l & -> & Hunlock). cbn [mbind option_bind]. cbv zeta.
  destruct (incr_locked t1 p L A b bk i v l key klen inc expire Hinv1 Hbr Hbk Hkl Hkb Hi Hv Hm)
    as (r & p2 & A' & He & Hl2 & Ht2 & Hmd2 & Hmk2 & Hsz2 & Hinv2 & Hres). cbv zeta in He.
  rewrite He. cbn [mbind option_bind]. rewrite Hunlock by done. cbn [mbind option_bind].
  destruct (op_unlock _ _ _ L A' b Hinv2 Hver1 Hbr) as (t2 & -> & Hinv3 & Hv3 & Hc3 & Hs3).
  cbn [mbind option_bind]. exists r, t2. split; [done|]. split.
  { split; [by rewrite Hc3|]. split.
    - intros b' i'. rewrite (same_items_slot _ _ _ _ Hs3). by rewrite <- (same_items_slot _ _ _ _ Hs1).
    - exists p, (pool_set_lock p2 0). by rewrite (ti_alloc _ _ _ _ _ _ Hinv3). }
  assert (minv t2 A' k) as Hmi
    by (apply (minv_pack t1 t2 (pool_set_lock p2 0) L); try done; simpl; by rewrite ?Ht2, ?Hmk2).
  destruct r as [x|].
  { destruct Hres as (V & HA & HV & Hx & ->). by exists V. }
  destruct Hres as [-> Hnan]. split; [done|]. intros Hca%Hca1%Hcf.
  destruct Hca as (j & w & [= <-] & Hw & Hval). apply Hnan. rewrite Hi in Hw. by injection Hw as <-.
Qed.
End Cache.
