(* ===== verification/MicaLossy.v ===== *)
(** * The abstract lossy map that MICA implements, operation by operation

    The entries that the table can find, as a finite map, with the bytes that the log has
    used and its room.  Gets, tests, deletes and increments act on the map exactly; only a
    store drops entries, and only those that it may. *)
From S2P Require Import Prelude PoolAlloc MicaTable MicaSpec MicaCache.

(** ** The specification *)

(** A request to the table: the buffers that hold the key and the value, their lengths,
    and the flags. *)
Inductive mica_op :=
  | OpGet (key : list Z) (klen : Z) (buf : list Z) (len : Z) (readonly : bool)
  | OpTest (key : list Z) (klen : Z)
  | OpSet (key : list Z) (klen : Z) (value : list Z) (vlen expire : Z) (overwrite : bool)
  | OpDelete (key : list Z) (klen : Z)
  | OpIncrement (key : list Z) (klen inc expire : Z).

Inductive mica_res :=
  | RGet (o : get_out)
  | RBool (b : bool)
  | RIncrement (x : option Z).

(** What the callers must respect. *)
Definition op_ok (o : mica_op) : Prop :=
  match o with
  | OpGet key klen buf len _ => 0 <= klen <= MEHCACHED_MAX_KEY_LENGTH /\ buf_ok key klen /\
      0 <= len <= 1500 /\ buf_ok buf len
  | OpTest key klen | OpDelete key klen | OpIncrement key klen _ _ =>
      0 <= klen <= MEHCACHED_MAX_KEY_LENGTH /\ buf_ok key klen
  | OpSet key klen value vlen _ _ =>
      lengths_ok klen vlen /\ buf_ok key klen /\ buf_ok value vlen
  end.

#[global] Instance op_ok_dec o : Decision (op_ok o).
Proof. destruct o; cbn; unfold buf_ok, lengths_ok; apply _. Defined.

(** The entries that can be found, and the log: bytes appended since the start, room. *)
Record lossy := Lossy { entries : cache; used : Z; room : Z }.

Definition with_entries (S : lossy) (A : cache) : lossy := Lossy A (used S) (room S).

(** The log has come round: item words of overwritten items may be left. *)
Definition lapped (S : lossy) : Prop := room S < used S.

(** What a store of [K] drops: nothing unless the log comes round, or the key is new and the
    bucket of [K] has to give way. *)
Definition may_drop (bucket : bytestring -> Z) (S S' : lossy) (K K' : bytestring) : Prop :=
  lapped S' \/ entries S !! K = None /\ bucket K' = bucket K.

Inductive lossy_step (bucket : bytestring -> Z) : lossy -> mica_op -> mica_res -> lossy -> Prop :=
  | step_get S key klen buf len ro o :
      match entries S !! padded key klen with
      | None => found o = false
      | Some V => found o = true /\ out_length o = Z.min V.2 len /\
          let n := Z.to_nat (MEHCACHED_ROUNDUP8 (out_length o)) in
          out_value o = take n V.1 ++ drop n buf
      end ->
      lossy_step bucket S (OpGet key klen buf len ro) (RGet o) S
  | step_test S key klen b :
      (is_Some (entries S !! padded key klen) -> b = true) ->
      (b = true -> is_Some (entries S !! padded key klen) \/ lapped S) ->
      lossy_step bucket S (OpTest key klen) (RBool b) S
  | step_set S key klen value vlen expire ow S' :
      let K := padded key klen in
      (ow = false -> entries S !! K = None) ->
      entries S' !! K = Some (padded value vlen) ->
      (forall K', K' <> K -> entries S' !! K' = entries S !! K' \/
         entries S' !! K' = None /\ may_drop bucket S S' K K') ->
      room S' = room S -> used S <= used S' <= used S + item_bytes klen vlen ->
      (forall V, entries S !! K = Some V -> V.2 = vlen -> used S' = used S) ->
      lossy_step bucket S (OpSet key klen value vlen expire ow) (RBool true) S'
  | step_set_fails S key klen value vlen expire :
      is_Some (entries S !! padded key klen) \/ lapped S ->
      lossy_step bucket S (OpSet key klen value vlen expire false) (RBool false) S
  | step_delete S key klen b :
      (is_Some (entries S !! padded key klen) -> b = true) ->
      (b = true -> is_Some (entries S !! padded key klen) \/ lapped S) ->
      lossy_step bucket S (OpDelete key klen) (RBool b)
        (with_entries S (delete (padded key klen) (entries S)))
  | step_increment S key klen inc expire V :
      entries S !! padded key klen = Some V -> V.2 = 8 ->
      let x := u64 (le_value V.1 + inc) in
      lossy_step bucket S (OpIncrement key klen inc expire) (RIncrement (Some x))
        (with_entries S (<[padded key klen := (le_bytes 8 x, 8)]> (entries S)))
  | step_increment_fails S key klen inc expire :
      (forall V, entries S !! padded key klen = Some V -> V.2 <> 8) ->
      lossy_step bucket S (OpIncrement key klen inc expire) (RIncrement None) S.

Inductive lossy_steps (bucket : bytestring -> Z)
    : lossy -> list mica_op -> list mica_res -> lossy -> Prop :=
  | steps_nil S : lossy_steps bucket S [] [] S
  | steps_cons S o r S' os rs S'' :
      lossy_step bucket S o r S' -> lossy_steps bucket S' os rs S'' ->
      lossy_steps bucket S (o :: os) (r :: rs) S''.

(** ** Resident keys *)

Lemma buf_ok_padded key klen : buf_ok key klen -> buf_ok (padded key klen).1 klen.
Proof.
  unfold buf_ok, padded. intros Hb. cbn [fst].
  rewrite length_take. lia.
Qed.

Lemma padded_padded key klen : padded (padded key klen).1 klen = padded key klen.
Proof. unfold padded. cbn [fst]. by rewrite take_take, Nat.min_id. Qed.

(** The part of a map that satisfies a property. *)
Lemma map_restrict (A : cache) (P : bytestring -> Prop) :
  (forall K, is_Some (A !! K) -> P K \/ ~ P K) ->
  exists A' : cache, forall K V, A' !! K = Some V <-> A !! K = Some V /\ P K.
Proof.
  induction A as [|K0 V0 A HK0 IH] using map_ind; intros Hdec.
  { exists ∅. intros K V. rewrite lookup_empty. naive_solver. }
  destruct IH as [A' HA'].
  { intros K HK. apply Hdec. destruct (decide (K = K0)) as [->|].
    - rewrite lookup_insert_eq. by eexists.
    - by rewrite lookup_insert_ne. }
  assert (A' !! K0 = None) as HN.
  { destruct (A' !! K0) as [V|] eqn:He; [|done]. apply HA' in He as [? _]. congruence. }
  destruct (Hdec K0) as [Hp|Hp]; [rewrite lookup_insert_eq; by eexists| |].
  - exists (<[K0 := V0]> A'). intros K V. destruct (decide (K = K0)) as [->|].
    + rewrite !lookup_insert_eq. naive_solver.
    + by rewrite !lookup_insert_ne.
  - exists A'. intros K V. destruct (decide (K = K0)) as [->|].
    + rewrite HN. naive_solver.
    + by rewrite lookup_insert_ne.
Qed.

Section Lossy.
Context (H : bytestring -> Z) (HH : forall K, 0 <= H K < 2 ^ 64).

(** [K] can be found. *)
Definition resident (t : mehcached_table) (K : bytestring) : Prop :=
  padded K.1 K.2 = K /\ 0 <= K.2 <= MEHCACHED_MAX_KEY_LENGTH /\ buf_ok K.1 K.2 /\
  cached H t K.1 K.2.

(** The entry of an intact item. *)
Lemma holds_resident C t p L A b i v o n K V :
  tinv H C t p L A -> 0 <= b -> get_slot t b i = Some v -> v <> 0 ->
  v = MEHCACHED_ITEM_VEC (key_tag H K) 0 (o mod 2 ^ 40) ->
  mehcached_pool_is_valid p (MEHCACHED_ITEM_OFFSET v) = true ->
  holds H t p A b (key_tag H K) o n K V -> resident t K.
Proof.
  intros Hinv Hb Hs Hv Hvv Hval Hh. pose proof Hh as (Hit & _ & HbK & _).
  pose proof (it_key _ _ _ _ _ _ Hit) as Hk. pose proof (it_lens _ _ _ _ _ _ Hit) as [Hl _].
  assert (0 <= MEHCACHED_ROUNDUP8 K.2) as Hr by (pose proof (roundup_key _ Hl); lia).
  pose proof (log_bytes_length p (o + 24) _ Hr) as Hlen. rewrite Hk in Hlen.
  assert (padded K.1 K.2 = K) as HK.
  { unfold padded. rewrite take_ge by lia. by destruct K. }
  assert (buf_ok K.1 K.2) as Hbuf by (unfold buf_ok; lia).
  do 3 (split; [done|]). exists p, i, v. rewrite HK.
  split; [apply Hinv|]. split; [by rewrite <- HbK in Hs|]. split; [done|]. split; [done|].
  rewrite Hvv. rewrite <- HK at 1 2.
  eapply (matches_intact H K.1 K.2 Hl Hbuf); [apply Hinv|by eapply ti_pgeom|apply calc_tag_range|exact Hh|done].
Qed.

(** The slot of a key that can be found. *)
Lemma cached_slot C t p L A key klen :
  let K := padded key klen in
  tinv H C t p L A -> 0 <= klen <= MEHCACHED_MAX_KEY_LENGTH -> buf_ok key klen ->
  cached H t key klen ->
  exists i v o n V, get_slot t (key_bucket H t K) i = Some v /\ v <> 0 /\
    v = MEHCACHED_ITEM_VEC (key_tag H K) 0 (o mod 2 ^ 40) /\ MEHCACHED_TAG v = key_tag H K /\
    mehcached_pool_is_valid p (MEHCACHED_ITEM_OFFSET v) = true /\
    item_matches t (H K) (key_tag H K) key klen v = Some true /\
    holds H t p A (key_bucket H t K) (key_tag H K) o n K V.
Proof.
  intros K Hinv Hkl Hkb (p' & i & v & Ha & Hs & Hv & Hval & Hm). fold K in Hs, Hm.
  rewrite (ti_alloc _ _ _ _ _ _ Hinv) in Ha. injection Ha as <-.
  pose proof (bucket_index_range t (H K) (ti_geom _ _ _ _ _ _ Hinv)) as Hb.
  apply get_slot_inv in Hs as (bk & Hbk & Hi).
  destruct (matched_slot H C t p L A _ bk i v key klen Hinv Hb Hbk Hkl Hkb Hi Hv Hm)
    as (o & Hvv & _ & _ & Hvi & Hint).
  destruct (Hint (proj1 Hvi Hval)) as (n & V & _ & Hh). exists i, v, o, n, V.
  split; [by apply (get_slot_eval t _ i bk)|]. do 2 (split; [done|]).
  split; [by apply (matches_tag H key klen) in Hm|]. by split.
Qed.

Lemma cached_resident C t p L A key klen :
  tinv H C t p L A -> 0 <= klen <= MEHCACHED_MAX_KEY_LENGTH -> buf_ok key klen ->
  cached H t key klen <-> resident t (padded key klen).
Proof.
  intros Hinv Hkl Hkb. split.
  - intros Hc. destruct (cached_slot C t p L A key klen) as (i & v & o & n & V & ? & ? & ? & ? & ? & ? & ?);
      [done..|]. eapply holds_resident; [done| |done..].
    apply (bucket_index_range t (H (padded key klen))), Hinv.
  - intros (_ & _ & Hbuf & Hc). cbn [snd padded] in Hc.
    destruct (cached_slot C t p L A (padded key klen).1 klen)
      as (i & v & o & n & V & Hs & Hv & Hvv & _ & Hval & _ & Hh); [done..|].
    rewrite padded_padded in *. exists p, i, v. split; [apply Hinv|]. do 3 (split; [done|]).
    rewrite Hvv. eapply (matches_intact H key klen Hkl Hkb);
      [apply Hinv|by eapply ti_pgeom|apply calc_tag_range|exact Hh|done].
Qed.

(** One key for each tag of a bucket. *)
Lemma resident_inj C t p L A K K' :
  tinv H C t p L A -> resident t K -> resident t K' ->
  key_bucket H t K = key_bucket H t K' -> key_tag H K = key_tag H K' -> K = K'.
Proof.
  intros Hinv (HK & Hl & Hb & Hc) (HK' & Hl' & Hb' & Hc') Hbb Htt.
  destruct (cached_slot C t p L A K.1 K.2 Hinv Hl Hb Hc)
    as (i & v & o & n & V & Hs & Hv & Hvv & Ht & _ & _ & Hh).
  destruct (cached_slot C t p L A K'.1 K'.2 Hinv Hl' Hb' Hc')
    as (j & w & o' & n' & V' & Hs' & Hw & _ & Ht' & _ & Hm & _).
  rewrite HK in *. rewrite HK' in *. rewrite <- Hbb in Hs'.
  apply get_slot_inv in Hs as (bk & Hbk & Hi). apply get_slot_inv in Hs' as (bk' & Hbk' & Hj).
  rewrite Hbk in Hbk'. injection Hbk' as <-.
  pose proof (bucket_index_range t (H K) (ti_geom _ _ _ _ _ _ Hinv)) as Hr.
  assert (i = j) as ->.
  { eapply (ti_tags _ _ _ _ _ _ Hinv); [apply Hr|exact Hbk|exact Hi|exact Hj|done|done|congruence]. }
  rewrite Hi in Hj. injection Hj as <-. rewrite Hvv in Hm.
  pose proof (matches_intact H K'.1 K'.2 Hl' Hb' t p A _ o n (key_tag H K) K V
    (ti_alloc _ _ _ _ _ _ Hinv) (ti_pgeom _ _ _ _ _ _ Hinv) (calc_tag_range _) Hh) as Hmi.
  rewrite HK' in Hmi. by apply Hmi.
Qed.

(** An entry whose slot keeps a valid item word stays, if the keys of its bucket and tag did. *)
Lemma slot_survives C t p L A C' t' p' L' A' K :
  tinv H C t p L A -> tinv H C' t' p' L' A' -> config t' = config t -> resident t K ->
  (forall i w, get_slot t (key_bucket H t K) i = Some w -> w <> 0 ->
     MEHCACHED_TAG w = key_tag H K ->
     mehcached_pool_is_valid p (MEHCACHED_ITEM_OFFSET w) = true ->
     get_slot t' (key_bucket H t K) i = Some w /\
     mehcached_pool_is_valid p' (MEHCACHED_ITEM_OFFSET w) = true) ->
  (forall K', is_Some (A' !! K') -> key_bucket H t K' = key_bucket H t K ->
     key_tag H K' = key_tag H K -> resident t K') ->
  resident t' K.
Proof.
  intros Hinv Hinv' Hc Hres Hslot Hkeys. pose proof Hres as (HK & Hl & Hb & Hca).
  destruct (cached_slot C t p L A K.1 K.2 Hinv Hl Hb Hca)
    as (i & v & _ & _ & _ & Hs & Hv & _ & Ht & Hval & _). rewrite HK in Hs, Ht.
  destruct (Hslot i v Hs Hv Ht Hval) as [Hs' Hval'].
  pose proof (bucket_index_range t' (H K) (ti_geom _ _ _ _ _ _ Hinv')) as Hr.
  change (mehcached_calc_bucket_index t' (H K)) with (key_bucket H t' K) in Hr.
  rewrite (config_bucket H t t' K Hc) in Hr.
  pose proof Hs' as Hs2. apply get_slot_inv in Hs2 as (bk & Hbk & Hi).
  destruct (ti_slots _ _ _ _ _ _ Hinv' _ bk i v (proj1 Hr) Hbk Hi Hv)
    as (o & tag & Hvv & Htag & Ho & Hage & Hint).
  destruct (item_vec_fields tag o) as (Htv & Hov & _); [lia|].
  assert (tag = key_tag H K) as -> by (by rewrite <- Htv, <- Hvv).
  assert (intact p' o) as Hin.
  { eapply valid_intact; [done..|]. by rewrite <- Hov, <- Hvv. }
  destruct (Hint Hin) as (n & K' & V & _ & Hh). pose proof Hh as (_ & Htk & Hbk' & HA).
  change (mehcached_calc_bucket_index t' (H K')) with (key_bucket H t' K') in Hbk'.
  rewrite (config_bucket H t t' K' Hc) in Hbk'.
  assert (K' = K) as ->.
  { apply (resident_inj C t p L A); [done|apply Hkeys; by try eexists|done..]. }
  eapply (holds_resident C' t' p' L' A' (key_bucket H t K) i v o n K V); try done. apply Hr.
Qed.

(** ** The state between operations *)

(** The table [t] (of the shape of [t0]) can find the entries of [S], and room for [k] items
    more before the 64-bit positions of the log overflow. *)
Record represents (t0 t : mehcached_table) (S : lossy) (k : Z) : Prop := {
  rp_inv : minv H t (entries S) k;
  rp_config : config t = config t0;
  rp_used : used S = log_used t;
  rp_room : room S = log_room t;
  rp_keys : forall K, is_Some (entries S !! K) -> resident t K }.

Lemma represents_key t0 t S k key klen :
  represents t0 t S k -> 0 <= klen <= MEHCACHED_MAX_KEY_LENGTH -> buf_ok key klen ->
  is_Some (entries S !! padded key klen) <-> cached H t key klen.
Proof.
  intros [(p & L & Hinv & _) _ _ _ Hk] Hkl Hkb.
  split; [intros Hr%Hk; by eapply cached_resident|]. intros Hr.
  destruct (cached_slot _ t p L (entries S) key klen Hinv Hkl Hkb Hr)
    as (i & v & o & n & V & _ & _ & _ & _ & _ & _ & _ & _ & _ & HA). by eexists.
Qed.

Lemma represents_frame t0 t S k t' k' :
  represents t0 t S k -> minv H t' (entries S) k' -> alloc t' = alloc t -> config t' = config t ->
  loses_none H t t' -> represents t0 t' S k'.
Proof.
  intros [_ ? ? ? Hk] Hi Ha Hc Hn. split; [done|congruence| | |].
  - unfold log_used. by rewrite Ha.
  - unfold log_room. by rewrite Ha.
  - intros K (? & ? & ? & ?)%Hk. do 3 (split; [done|]). by apply Hn.
Qed.

Lemma represents_weaken t0 t S k k' : represents t0 t S k -> k' <= k -> represents t0 t S k'.
Proof.
  intros [(p & L & ? & ? & ? & ? & ?) ? ? ? ?] Hk. split; try done.
  exists p, L. split; [done|]. split; [done|]. split; [done|]. split; [lia|done].
Qed.

(** ** The operations *)

Lemma lossy_get t0 t S k key klen buf len ro :
  represents t0 t S k -> op_ok (OpGet key klen buf len ro) ->
  exists o t', mehcached_get 0 t (H (padded key klen)) key klen buf len ro = Some (o, t') /\
    lossy_step (key_bucket H t0) S (OpGet key klen buf len ro) (RGet o) S /\ represents t0 t' S k.
Proof.
  intros Hr (Hkl & Hkb & Hlen & Hbuf).
  destruct (cache_get_spec H t (entries S) k key klen buf len ro (rp_inv _ _ _ _ Hr))
    as (o & t' & Hg & Hi & Ho & Hca & _ & Ha & Hc & Hn); [done..|].
  exists o, t'. split; [done|]. split; [|by eapply represents_frame].
  constructor. pose proof (represents_key t0 t S k key klen Hr Hkl Hkb) as Hkey.
  destruct (entries S !! padded key klen) as [V|] eqn:HV.
  - assert (found o = true) as Hf by (apply Hca, Hkey; by eexists).
    destruct (Ho Hf) as (V' & HV' & ? & ?). rewrite HV in HV'. by injection HV' as <-.
  - destruct (found o) eqn:Hf; [|done]. destruct (Ho Hf) as (V' & HV' & _). congruence.
Qed.

Lemma lossy_test t0 t S k key klen :
  represents t0 t S k -> op_ok (OpTest key klen) ->
  exists b, mehcached_test t (H (padded key klen)) key klen = Some b /\
    lossy_step (key_bucket H t0) S (OpTest key klen) (RBool b) S.
Proof.
  intros Hr [Hkl Hkb].
  destruct (cache_test_spec H t (entries S) k key klen (rp_inv _ _ _ _ Hr))
    as (b & Hb & Hca & Hlap); [done..|].
  pose proof (represents_key t0 t S k key klen Hr Hkl Hkb) as Hkey.
  exists b. split; [done|]. constructor; [by rewrite Hkey|]. rewrite Hkey. unfold lapped.
  by rewrite (rp_used _ _ _ _ Hr), (rp_room _ _ _ _ Hr).
Qed.

Lemma lossy_delete t0 t S k key klen :
  represents t0 t S k -> op_ok (OpDelete key klen) ->
  let S' := with_entries S (delete (padded key klen) (entries S)) in
  exists b t', mehcached_delete t (H (padded key klen)) key klen = Some (b, t') /\
    lossy_step (key_bucket H t0) S (OpDelete key klen) (RBool b) S' /\ represents t0 t' S' k.
Proof.
  intros Hr [Hkl Hkb] S'.
  destruct (cache_delete_spec H t (entries S) k key klen (rp_inv _ _ _ _ Hr))
    as (b & t' & Hb & Hi & Hf & Hlap & Ha & Hc & Hoth); [done..|].
  pose proof (represents_key t0 t S k key klen Hr Hkl Hkb) as Hkey.
  exists b, t'. split; [done|]. split.
  - constructor.
    + rewrite Hkey. intros Hca. destruct b; [done|]. by destruct (Hf eq_refl).
    + rewrite Hkey. unfold lapped. by rewrite (rp_used _ _ _ _ Hr), (rp_room _ _ _ _ Hr).
  - destruct Hr as [_ Hcf Hu Hro Hk]. split; [done|congruence|..].
    + unfold log_used. by rewrite Ha.
    + unfold log_room. by rewrite Ha.
    + intros K [V HV]. cbn [entries with_entries S'] in HV. apply lookup_delete_Some in HV as [HK HV].
      destruct (Hk K ltac:(by eexists)) as (HKp & ? & ? & ?).
      do 3 (split; [done|]). apply Hoth; [done..|by rewrite HKp|done].
Qed.

(** The entries stay when items change in their bytes only. *)
Lemma represents_same_slots t0 t S k t' A' :
  represents t0 t S k -> same_slots t t' -> minv H t' A' k ->
  (forall K, is_Some (A' !! K) -> is_Some (entries S !! K)) ->
  represents t0 t' (with_entries S A') k.
Proof.
  intros [(p & L & Hinv & _) Hcf Hu Hro Hk] (Hc & Hs & p1 & p' & Hp & Hp' & Htl & Hsz) Hi Hsub.
  rewrite (ti_alloc _ _ _ _ _ _ Hinv) in Hp. injection Hp as <-.
  pose proof Hi as (p2 & L' & Hinv' & _). pose proof (ti_alloc _ _ _ _ _ _ Hinv') as Hp2.
  rewrite Hp' in Hp2. injection Hp2 as <-.
  split; [done|congruence|..].
  - unfold log_used in *. rewrite Hp'. by rewrite (ti_alloc _ _ _ _ _ _ Hinv), <- Htl in Hu.
  - unfold log_room in *. rewrite Hp'. by rewrite (ti_alloc _ _ _ _ _ _ Hinv), <- Hsz in Hro.
  - intros K HK%Hsub%Hk. eapply (slot_survives _ t p L (entries S) _ t' p' L' A'); try done.
    + intros i w Hw _ _ Hval. rewrite Hs. split; [done|]. rewrite <- Hval.
      unfold mehcached_pool_is_valid. by rewrite Htl, Hsz.
    + intros K' HK' _ _. by apply Hk, Hsub.
Qed.

Lemma lossy_increment t0 t S k key klen inc expire :
  represents t0 t S k -> op_ok (OpIncrement key klen inc expire) ->
  exists x t' S', mehcached_increment 0 t (H (padded key klen)) key klen inc expire = Some (x, t') /\
    lossy_step (key_bucket H t0) S (OpIncrement key klen inc expire) (RIncrement x) S' /\
    represents t0 t' S' k.
Proof.
  intros Hr [Hkl Hkb].
  destruct (cache_increment_spec H t (entries S) k key klen inc expire (rp_inv _ _ _ _ Hr))
    as (x & t' & Hx & Hs & Hres); [done..|].
  pose proof (represents_key t0 t S k key klen Hr Hkl Hkb) as Hkey.
  destruct x as [x|].
  - destruct Hres as (V & HA & HV & -> & Hi). eexists _, t', _. split; [done|].
    split; [by apply step_increment|]. eapply represents_same_slots; [done..|].
    intros K. destruct (decide (K = padded key klen)) as [->|]; [by intros; eexists|].
    by rewrite lookup_insert_ne.
  - destruct Hres as [Hi Hnan]. exists None, t', S. split; [done|]. split.
    + constructor. intros V HV. destruct Hnan as (V' & HV' & ?); [apply Hkey; by eexists|].
      rewrite HV in HV'. by injection HV' as <-.
    + destruct S as [A u r]. apply (represents_same_slots t0 t (Lossy A u r)); done.
Qed.

(** A store keeps the entries that it may not drop. *)
Lemma resident_dec C t p L A key klen :
  tinv H C t p L A -> 0 <= klen <= MEHCACHED_MAX_KEY_LENGTH -> buf_ok key klen ->
  resident t (padded key klen) \/ ~ resident t (padded key klen).
Proof.
  intros Hinv Hkl Hkb. rewrite <- (cached_resident C t p L A key klen) by done.
  destruct (op_search H C t p L A _ key klen Hinv eq_refl Hkl Hkb) as (bk & r & Hb & Hbk & _ & Hr).
  pose proof (cached_found H C t p L A _ bk key klen r Hinv eq_refl (proj1 Hb) Hbk Hr) as Hcf.
  destruct r as [loc|]; [|by right; intros (? & ? & ? & _)%Hcf].
  destruct Hr as (i & v & -> & Hi & Hv & Hm).
  destruct (mehcached_pool_is_valid p (MEHCACHED_ITEM_OFFSET v)) eqn:Hval.
  - left. exists p, i, v. split; [apply Hinv|]. split; [by eapply get_slot_eval|]. done.
  - right. intros (j & w & [= <-] & Hw & Hval')%Hcf. congruence.
Qed.

Lemma tinv_restrict C t p L A A' :
  tinv H C t p L A -> (forall K V, A' !! K = Some V <-> A !! K = Some V /\ resident t K) ->
  tinv H C t p L A'.
Proof.
  intros Hinv HA'. eapply tinv_cache; [done|]. intros b bk i v Hb Hbk Hi Hv
    (o & tag & Hvv & Htag & Ho & Hage & Hint).
  exists o, tag. do 4 (split; [done|]). intros Hin.
  destruct (Hint Hin) as (n & K & V & HL & Hit & Ht & HK & HA). exists n, K, V.
  split; [done|]. do 3 (split; [done|]). apply HA'. split; [done|]. subst tag.
  destruct (item_vec_fields (key_tag H K) o) as (_ & Hov & _); [unfold key_tag; lia|].
  assert (0 <= b < num_buckets t) as Hr.
  { rewrite <- HK. apply bucket_index_range, Hinv. }
  eapply (holds_resident C t p L A b i v o n K V); [done|lia|by eapply get_slot_eval|done|done| |done].
  rewrite Hvv. change (mehcached_calc_tag (H K)) with (key_tag H K). rewrite Hov. by eapply valid_intact.
Qed.

Lemma stored_keeps C t t' p p' L L' A key klen V K :
  let K0 := padded key klen in
  tinv H C t p L A -> (forall K', is_Some (A !! K') -> resident t K') ->
  stored H t t' p p' L' A key klen V -> 0 <= klen <= MEHCACHED_MAX_KEY_LENGTH -> buf_ok key klen ->
  is_Some (A !! K) -> K <> K0 ->
  resident t' K \/ pool_size p' < pool_tail p' \/
    A !! K0 = None /\ key_bucket H t K = key_bucket H t K0.
Proof.
  intros K0 Hinv Hk [Hinv' _ _ _ Hsz Hc Htl _ _ Hkept] Hkl Hkb HK Hne.
  destruct (decide (pool_size p' < pool_tail p')); [by right; left|].
  destruct (decide (A !! K0 = None /\ key_bucket H t K = key_bucket H t K0)) as [|Hn];
    [by right; right|]. left.
  assert (forall K', is_Some (<[K0 := V]> A !! K') -> key_bucket H t K' = key_bucket H t K ->
    is_Some (A !! K')) as Hin.
  { intros K' HK' Hb. destruct (decide (K' = K0)) as [->|]; [|by rewrite lookup_insert_ne in HK'].
    destruct (A !! K0); [by eexists|]. by destruct Hn. }
  pose proof (bucket_index_range t (H K) (ti_geom _ _ _ _ _ _ Hinv)) as Hr.
  change (mehcached_calc_bucket_index t (H K)) with (key_bucket H t K) in Hr.
  eapply (slot_survives C t p L A _ t' p' L' (<[K0 := V]> A)); try done; [by apply Hk| |].
  2:{ intros K' HK' Hb _. by apply Hk, Hin. }
  intros i w Hw Hw0 Htg Hval.
  assert (mehcached_pool_is_valid p' (MEHCACHED_ITEM_OFFSET w) = true) as Hval'.
  { pose proof Hw as Hw2. apply get_slot_inv in Hw2 as (bk & Hbk & Hi).
    destruct (ti_slots _ _ _ _ _ _ Hinv _ bk i w (proj1 Hr) Hbk Hi Hw0) as (o & tag & -> & Ht & Ho & _).
    destruct (item_vec_fields tag o) as (_ & -> & _); [lia|].
    pose proof (geom_bounds p' (ti_pgeom _ _ _ _ _ _ Hinv')).
    rewrite is_valid_spec by ((by eapply ti_pgeom) || lia). apply Z.leb_le. lia. }
  split; [|done]. destruct (Hkept (key_bucket H t K) i w) as [|[Hb Hbad]]; [lia|done..|].
  exfalso. fold K0 in Hb, Hbad.
  destruct (decide (is_Some (A !! K0))) as [HK0|HN].
  2:{ apply Hn. split; [by apply eq_None_not_Some|done]. }
  apply Hk in HK0 as Hres0. destruct Hbad as [Htk|[Hnc _]].
  - apply Hne, (resident_inj C t p L A); [done|by apply Hk|done|done|congruence].
  - apply Hnc. by eapply cached_resident.
Qed.

Lemma lossy_set t0 t S k key klen value vlen expire ow :
  represents t0 t S k -> 1 <= k -> op_ok (OpSet key klen value vlen expire ow) ->
  exists b t' S', mehcached_set 0 t (H (padded key klen)) key klen value vlen expire ow = Some (b, t') /\
    lossy_step (key_bucket H t0) S (OpSet key klen value vlen expire ow) (RBool b) S' /\
    represents t0 t' S' (k - 1).
Proof.
  intros Hr Hk1 (Hlen & Hkb & Hvb). set (K0 := padded key klen).
  pose proof (item_bytes_bounds _ _ Hlen) as [Hn _]. pose proof (proj1 Hlen) as Hkl.
  pose proof (represents_key t0 t S k key klen Hr Hkl Hkb) as Hkey. fold K0 in Hkey.
  pose proof Hr as [(p & L & Hinv & Hver & Hlk & Hmax & Hmth) Hcf Hu Hro Hk].
  pose proof (ti_alloc _ _ _ _ _ _ Hinv) as Ha. unfold log_used, log_room in Hu, Hro.
  rewrite Ha in Hu, Hro.
  destruct (set_effect H HH t p L (entries S) key klen value vlen expire ow)
    as (b & t' & He & Ho); [done..|lia|done|done|done|].
  exists b, t'. fold K0 in He. destruct b; cbn [set_outcome] in Ho.
  - destruct Ho as (How & p' & L' & Hst). pose proof Hst as [Hinv' Hver' Hlk' Hmk' Hsz' Hc' Htl' Hsame Hca' _].
    fold K0 in Hinv', Hsame. cbn [snd padded] in Htl'. pose proof (ti_alloc _ _ _ _ _ _ Hinv') as Ha'.
    assert (resident t' K0) as Hres0 by (by eapply cached_resident).
    destruct (map_restrict (<[K0 := padded value vlen]> (entries S)) (resident t')) as [A' HA'].
    { intros K HK. destruct (decide (K = K0)) as [->|]; [by left|].
      rewrite lookup_insert_ne in HK by done. destruct (Hk K HK) as (HKp & HKl & HKb & _).
      rewrite <- HKp. by eapply resident_dec. }
    exists (Lossy A' (pool_tail p') (pool_size p')). split; [done|]. split.
    + apply step_set; cbn [entries used room]; [| | |congruence|lia|].
      * intros Hf. apply eq_None_not_Some. fold K0. rewrite Hkey. by apply How.
      * apply HA'. by rewrite lookup_insert_eq.
      * fold K0. intros K HK. destruct (entries S !! K) as [V|] eqn:HV.
        2:{ left. apply eq_None_not_Some. intros [V' [HV' _]%HA'].
            rewrite lookup_insert_ne in HV' by done. congruence. }
        destruct (stored_keeps _ t t' p p' L L' (entries S) key klen _ K Hinv Hk Hst Hkl Hkb)
          as [Hres|Hdrop]; [by eexists|done| |].
        { left. apply HA'. by rewrite lookup_insert_ne. }
        destruct (A' !! K) as [V'|] eqn:HV'; [left; apply HA' in HV' as [HV' _];
          by rewrite lookup_insert_ne, HV in HV'|right]. split; [done|].
        unfold may_drop, lapped. cbn [used room].
        rewrite <- !(config_bucket H t0 t) by done. exact Hdrop.
      * intros V HV HVl. rewrite Hu. apply Hsame; [apply Hkey; by eexists|by exists V].
    + split; cbn [entries used room]; [| | | |].
      * apply (minv_pack H t t' p' L'); try done; [|lia|by rewrite Hmk'].
        rewrite <- (config_rshift _ _ Hc'). by eapply tinv_restrict.
      * congruence.
      * unfold log_used. by rewrite Ha'.
      * unfold log_room. by rewrite Ha'.
      * by intros K [V [_ HK]%HA'].
  - destruct Ho as (-> & Hinv' & Hver' & Hc' & Hno & bk & i & v & Hbk & Hi & Hv & Hm).
    exists S. split; [done|]. split.
    + constructor. fold K0. rewrite Hkey. unfold lapped. rewrite (rp_used _ _ _ _ Hr), (rp_room _ _ _ _ Hr).
      eapply (cached_or_lapped H _ t p L (entries S) _ bk i v); try done.
      apply bucket_index_range, Hinv.
    + eapply represents_frame; [done| | |done|done].
      * apply (minv_pack H t t' p L); try done; [|lia]. by rewrite <- (config_rshift _ _ Hc').
      * by rewrite Ha, (ti_alloc _ _ _ _ _ _ Hinv').
Qed.
End Lossy.
