(* ===== verification/MicaRefine.v ===== *)
(** * MICA as a lossy map: set-up, runs of operations, and what the map guarantees

    [mehcached_table_init] establishes the invariant of [MicaCache], every sequence of
    operations runs to its end and answers as a finite map would, except that a
    look-up may miss an entry that the log has overwritten; an entry that has just
    been stored is found. *)
From S2P Require Import Prelude PoolAlloc MicaTable MicaSpec MicaCache MicaLossy.

(** ** Initialisation *)

Lemma log_loop_spec fuel n : forall r,
  0 <= r -> r + Z.of_nat fuel <= 63 -> n <= 2 ^ (r + Z.of_nat fuel) ->
  exists m, log_loop fuel n r = Some m /\ r <= m <= r + Z.of_nat fuel /\ n <= 2 ^ m /\
    (r = m \/ 2 ^ (m - 1) < n).
Proof.
  assert (forall s, 0 <= s <= 63 -> u64 (1 <<' s) = 2 ^ s) as Hsh.
  { intros s Hs. rewrite Z.shiftl_1_l. apply wrap_small. split; [lia|].
    apply Z.pow_lt_mono_r; lia. }
  induction fuel as [|fuel IH]; intros r Hr Hf Hn; cbn [log_loop]; rewrite Hsh by lia;
    destruct (Z.ltb_spec (2 ^ r) n) as [Hlt|]; try (exists r; split; [done|lia]).
  { rewrite Z.add_0_r in Hn. lia. }
  destruct (IH (r + 1)) as (m & -> & ? & ? & Hm);
    [lia|lia|by replace (r + 1 + Z.of_nat fuel) with (r + Z.of_nat (S fuel)) by lia|].
  exists m. split; [done|]. split; [lia|]. split; [done|]. right.
  destruct Hm as [<-|]; [by replace (r + 1 - 1) with r by lia|done].
Qed.

Lemma rshift_loop_spec m fuel : forall r,
  0 <= m <= 39 -> 0 <= r <= 39 - m -> 39 - m - r <= Z.of_nat fuel ->
  rshift_loop fuel (2 ^ m) r = Some (39 - m).
Proof.
  induction fuel as [|fuel IH]; intros r Hm Hr Hf; cbn [rshift_loop];
    change ((MEHCACHED_ITEM_OFFSET_MASK + 1) >>' 1) with (2 ^ 39);
    rewrite Z.shiftr_div_pow2 by lia; rewrite <- Z.pow_sub_r by lia;
    destruct (Z.gtb_spec (2 ^ (39 - r)) (2 ^ m)) as [Hgt|Hle].
  - apply Z.pow_lt_mono_r_iff in Hgt; lia.
  - apply Z.pow_le_mono_r_iff in Hle; [|lia|lia]. f_equal. lia.
  - apply Z.pow_lt_mono_r_iff in Hgt; [|lia|lia]. apply IH; lia.
  - apply Z.pow_le_mono_r_iff in Hle; [|lia|lia]. f_equal. lia.
Qed.

Section Refine.
Context (H : bytestring -> Z) (HH : forall K, 0 <= H K < 2 ^ 64).

Lemma zero_buckets_lookup n b bk :
  zero_buckets n !! b = Some bk -> bk = empty_bucket.
Proof. unfold zero_buckets. by intros [-> _]%lookup_replicate. Qed.

(** A table without entries, over an empty log. *)
Record fresh (t : mehcached_table) (p : mehcached_pool) : Prop := {
  fr_inv : tinv H (pool_tail p / 2 ^ rshift t) t p [] ∅;
  fr_ver : ver_ok t None;
  fr_lock : pool_lock_word p = 0;
  fr_tail : pool_tail p = 0;
  fr_mth : pool_mask p <= mth_threshold t }.

(** [mehcached_table_reset] forgets every entry and the log. *)
Lemma reset_spec t p L :
  table_geom t -> alloc t = [p] -> pool_inv p L -> pool_lock_word p = 0 ->
  num_extra_buckets t = 0 -> 0 <= concurrent_access_mode t <= 2 ->
  pool_mask p <= mth_threshold t ->
  exists t' p', mehcached_table_reset t = Some t' /\ fresh t' p' /\ pool_size p' = pool_size p.
Proof.
  intros Hg Ha Hp Hl He Hmode Hmth. unfold mehcached_table_reset. rewrite He.
  cbn [num_extra_buckets Z.eqb mbind option_bind set_extra extra_lock].
  destruct Hg as [Hn Hm Hb Hi Hid]. rewrite Hid, Ha, Z.add_0_r.
  match goal with |- context [reset_pools ?n ?t0 0] => set (t0' := t0) end.
  change (Z.to_nat (alloc_id_mask t0' + 1)) with 1%nat.
  cbn [reset_pools]. change (get_alloc t0' 0) with (Some p). cbn [mbind option_bind].
  destruct (pool_lock_spec p Hl) as (l & -> & Hun). cbn [mbind option_bind].
  rewrite Hun by done. cbn [mbind option_bind]. 
  set (p' := pool_set_lock (mehcached_pool_reset (pool_set_lock p l)) 0).
  exists (set_alloc t0' 0 p'), p'. split; [done|].
  pose proof (geom_bounds p (inv_geom _ _ Hp)) as Hps.
  destruct Hn as (m & Hm1 & Hn1 & Hr1).
  assert (0 <= num_buckets t) by (rewrite Hn1; lia).
  split; [|done]. split; [| |done|done|done].
  - split.
    + split; simpl.
      * by exists m.
      * done.
      * unfold zero_buckets. rewrite length_replicate. lia.
      * intros b bk Hbk. apply zero_buckets_lookup in Hbk as ->. done.
      * done.
    + done.
    + destruct Hp as [[? ? ?] _ _ _ _]. subst p'. split; simpl; [split; simpl; lia || done|done|by left|clear - Hps; lia|].
      by intros o n Hon%not_elem_of_nil.
    + subst p'. cbn [pool_tail pool_set_lock mehcached_pool_reset pool_set_tail]. simpl (rshift _).
      pose proof (Z.pow_pos_nonneg 2 (rshift t)). rewrite Z.div_0_l by lia. lia.
    + intros b bk i v _ Hbk Hv Hv0. apply zero_buckets_lookup in Hbk as ->.
      apply lookup_replicate in Hv as [-> _]. done.
    + intros b bk i j v w _ Hbk Hv _ Hv0. apply zero_buckets_lookup in Hbk as ->.
      apply lookup_replicate in Hv as [-> _]. done.
  - unfold ver_ok. simpl. destruct (decide (concurrent_access_mode t = 0)); [by left|].
    right. split; [lia|]. intros b bk _ Hbk. apply zero_buckets_lookup in Hbk as ->.
    simpl. split; [lia|done].
Qed.

(** Two buckets or more, and a move-to-head threshold of the whole log (FIFO). *)
Lemma table_init_fresh contents n sz r w aw num den :
  2 <= n <= 2 ^ 31 -> 0 <= sz <= 2 ^ 38 -> 0 < den <= num ->
  exists t p, mehcached_table_init contents n 1 sz r w aw num den = Some t /\ fresh t p /\
    sz <= pool_size p.
Proof.
  intros Hn Hs Hth. unfold mehcached_table_init.
  rewrite (proj2 (Z.gtb_lt n 0)) by lia. cbn [negb Z.eqb Pos.eqb].
  destruct (log_loop_spec 63 n 0) as (m & -> & Hm & Hnm & Hm'); [lia|lia|lia|].
  cbn [mbind option_bind].
  assert (1 <= m) as Hm1.
  { destruct (decide (1 <= m)); [done|]. assert (m = 0) as -> by lia. simpl in Hnm. lia. }
  assert (m <= 31) as Hm31.
  { destruct Hm' as [|Hlt]; [lia|]. destruct (decide (m <= 31)); [done|].
    pose proof (Z.pow_le_mono_r 2 31 (m - 1) ltac:(lia) ltac:(lia)). lia. }
  pose proof (Z.pow_le_mono_r 2 1 m ltac:(lia) Hm1).
  pose proof (Z.pow_le_mono_r 2 m 31 ltac:(lia) Hm31).
  assert (u64 (1 <<' m) = 2 ^ m) as -> by (rewrite Z.shiftl_1_l; apply wrap_small; lia).
  rewrite (proj2 (Z.leb_le m 32)) by lia. cbn [negb].
  rewrite (wrap_small 32 (2 ^ m)), (wrap_small 32 (2 ^ m - 1)) by lia.
  change (mehcached_next_power_of_two 1) with (Some 1). cbn [mbind option_bind].
  destruct (pool_init_spec contents sz r aw Hs) as (p & -> & Hp & Hl & _ & Hsz & _). cbn [mbind option_bind].
  rewrite (rshift_loop_spec m 64 0) by lia. cbn [mbind option_bind MEHCACHED_NO_EVICTION].
  rewrite Z.add_0_r. change (1 - 1) with 0.
  match goal with |- context [mehcached_table_reset ?t0] => set (t := t0) end.
  destruct (reset_spec t p []) as (t' & p' & -> & Hfr & Hs'); try done;
    [| | |exists t', p'; by rewrite Hs'].
  - split; simpl; [by exists m|done| | |done].
    + unfold zero_buckets. rewrite length_replicate. lia.
    + intros b bk Hbk. by apply zero_buckets_lookup in Hbk as ->.
  - simpl. by destruct r, w.
  - simpl. rewrite (geom_mask p (inv_geom _ _ Hp)).
    pose proof (geom_bounds p (inv_geom _ _ Hp)).
    enough (pool_size p <= pool_size p * num / den) by lia.
    apply Z.div_le_lower_bound; [lia|]. rewrite Z.mul_comm. apply Z.mul_le_mono_nonneg_l; lia.
Qed.

Lemma fresh_minv t p k : fresh t p -> k * MB2 < 2 ^ 63 -> minv H t ∅ k.
Proof.
  intros [? ? ? Ht ?] Hk. exists p, []. do 3 (split; [done|]). by rewrite Ht.
Qed.

Lemma table_init_spec contents n sz r w aw num den k :
  2 <= n <= 2 ^ 31 -> 0 <= sz <= 2 ^ 38 -> 0 < den <= num -> k * MB2 < 2 ^ 63 ->
  exists t cap, mehcached_table_init contents n 1 sz r w aw num den = Some t /\ sz <= cap /\
    represents H t t (Lossy ∅ 0 cap) k.
Proof.
  intros Hn Hs Hth Hk. destruct (table_init_fresh contents n sz r w aw num den Hn Hs Hth)
    as (t & p & Ht & Hfr & Hsz). exists t, (pool_size p). split; [done|]. split; [done|].
  pose proof (ti_alloc _ _ _ _ _ _ (fr_inv _ _ Hfr)) as Ha.
  split; [by eapply fresh_minv|done|..].
  - unfold log_used. rewrite Ha. by rewrite (fr_tail _ _ Hfr).
  - unfold log_room. by rewrite Ha.
  - intros K [V HV]. cbn [entries] in HV. by rewrite lookup_empty in HV.
Qed.

(** ** Runs of operations *)

(** The client hashes the key and calls the table. *)
Definition mica_apply (t : mehcached_table) (o : mica_op) : option (mica_res * mehcached_table) :=
  match o with
  | OpGet key klen buf len ro =>
      '(o, t) ← mehcached_get 0 t (H (padded key klen)) key klen buf len ro; Some (RGet o, t)
  | OpTest key klen =>
      b ← mehcached_test t (H (padded key klen)) key klen; Some (RBool b, t)
  | OpSet key klen value vlen expire ow =>
      '(b, t) ← mehcached_set 0 t (H (padded key klen)) key klen value vlen expire ow;
      Some (RBool b, t)
  | OpDelete key klen =>
      '(b, t) ← mehcached_delete t (H (padded key klen)) key klen; Some (RBool b, t)
  | OpIncrement key klen inc expire =>
      '(x, t) ← mehcached_increment 0 t (H (padded key klen)) key klen inc expire;
      Some (RIncrement x, t)
  end.

Fixpoint mica_run (t : mehcached_table) (ops : list mica_op) : option (list mica_res * mehcached_table) :=
  match ops with
  | [] => Some ([], t)
  | o :: ops =>
      '(r, t) ← mica_apply t o;
      '(rs, t) ← mica_run t ops;
      Some (r :: rs, t)
  end.

Lemma apply_refines t0 t S k o :
  represents H t0 t S k -> 1 <= k -> op_ok o ->
  exists r t' S', mica_apply t o = Some (r, t') /\ lossy_step (key_bucket H t0) S o r S' /\
    represents H t0 t' S' (k - 1).
Proof.
  intros Hr Hk Hok. destruct o; cbn [mica_apply].
  - destruct (lossy_get H t0 t S k key klen buf len readonly Hr Hok) as (o & t' & -> & ? & ?).
    exists (RGet o), t', S. split; [done|]. split; [done|]. eapply represents_weaken; [done|lia].
  - destruct (lossy_test H t0 t S k key klen Hr Hok) as (b & -> & ?).
    exists (RBool b), t, S. split; [done|]. split; [done|]. eapply represents_weaken; [done|lia].
  - destruct (lossy_set H HH t0 t S k key klen value vlen expire overwrite Hr Hk Hok)
      as (b & t' & S' & -> & ? & ?). by exists (RBool b), t', S'.
  - destruct (lossy_delete H t0 t S k key klen Hr Hok) as (b & t' & -> & ? & ?).
    eexists (RBool b), t', _. split; [done|]. split; [done|]. eapply represents_weaken; [done|lia].
  - destruct (lossy_increment H t0 t S k key klen inc expire Hr Hok) as (x & t' & S' & -> & ? & ?).
    exists (RIncrement x), t', S'. split; [done|]. split; [done|].
    eapply represents_weaken; [done|lia].
Qed.

Lemma run_refines t0 ops : forall t S k,
  represents H t0 t S k -> Z.of_nat (length ops) <= k -> Forall op_ok ops ->
  exists rs t' S', mica_run t ops = Some (rs, t') /\
    lossy_steps (key_bucket H t0) S ops rs S' /\
    represents H t0 t' S' (k - Z.of_nat (length ops)).
Proof.
  induction ops as [|o ops IH]; intros t S k Hinv Hk Hok.
  { exists [], t, S. split; [done|]. split; [constructor|]. simpl. by rewrite Z.sub_0_r. }
  apply Forall_cons in Hok as [Ho Hok]. simpl in Hk. cbn [mica_run].
  destruct (apply_refines t0 t S k o) as (r & t1 & S1 & -> & Hs & Hi); [done|lia|done|].
  cbn [mbind option_bind].
  destruct (IH t1 S1 (k - 1)) as (rs & t2 & S2 & -> & Hss & Hi2); [done|lia|done|].
  cbn [mbind option_bind]. exists (r :: rs), t2, S2. split; [done|].
  split; [by econstructor|]. replace (k - Z.of_nat (length (o :: ops)))
    with (k - 1 - Z.of_nat (length ops)) by (simpl; lia). done.
Qed.
End Refine.

(** ** Properties *)

(** The state after initialisation and any run of operations, with [j] stores to spare. *)
Lemma init_run_represents H contents n sz r w aw num den ops j :
  (forall K, 0 <= H K < 2 ^ 64) -> 2 <= n <= 2 ^ 31 -> 0 <= sz <= 2 ^ 38 -> 0 < den <= num ->
  Forall op_ok ops -> 0 <= j -> (Z.of_nat (length ops) + j) * MB2 < 2 ^ 63 ->
  exists t cap rs t' S, mehcached_table_init contents n 1 sz r w aw num den = Some t /\
    sz <= cap /\ mica_run H t ops = Some (rs, t') /\
    lossy_steps (key_bucket H t) (Lossy ∅ 0 cap) ops rs S /\ represents H t t' S j.
Proof.
  intros HH Hn Hs Hth Hok Hj Hmax.
  destruct (table_init_spec H contents n sz r w aw num den (Z.of_nat (length ops) + j))
    as (t & cap & Ht & Hcap & Hinv); [done..|].
  destruct (run_refines H HH t ops t _ _ Hinv) as (rs & t' & S & Hr & Hc & Hi); [lia|done|].
  exists t, cap, rs, t', S. do 4 (split; [done|]).
  by replace j with (Z.of_nat (length ops) + j - Z.of_nat (length ops)) by lia.
Qed.

Lemma init_run_minv H contents n sz r w aw num den ops j :
  (forall K, 0 <= H K < 2 ^ 64) -> 2 <= n <= 2 ^ 31 -> 0 <= sz <= 2 ^ 38 -> 0 < den <= num ->
  Forall op_ok ops -> 0 <= j -> (Z.of_nat (length ops) + j) * MB2 < 2 ^ 63 ->
  exists t rs t' A, mehcached_table_init contents n 1 sz r w aw num den = Some t /\
    mica_run H t ops = Some (rs, t') /\ minv H t' A j.
Proof.
  intros HH Hn Hs Hth Hok Hj Hmax.
  destruct (init_run_represents H contents n sz r w aw num den ops j)
    as (t & cap & rs & t' & S & Ht & _ & Hr & _ & Hi); [done..|].
  exists t, rs, t', (entries S). split; [done|]. split; [done|]. apply Hi.
Qed.

(** C5: The table, with the FIFO threshold ([mth_threshold] of the whole log), 2 to 2^31
    buckets, a log of up to 2^38 bytes and any concurrency mode, initialises; and on every
    sequence of gets, tests, sets, deletes and increments (fewer than 2^42 of them, so that
    the 64-bit log positions do not overflow), with key and value lengths within
    [MEHCACHED_MAX_KEY_LENGTH] and [MEHCACHED_MAX_VALUE_LENGTH], buffers that hold the
    padded lengths, and get buffers of at most 1500 bytes (the assertion of table.c:779),
    no operation fails or loops, and every answer is that of a map.  A get finds the key
    if and only if the map has it, and returns its value; a test and a delete answer true
    for every key the map has, and for no other unless the log has come round; an
    increment succeeds exactly on the 8-byte values of the map; a store fails only
    without the permission to overwrite, on a key the map has (or a stale one of a log
    that has come round).  Only a store may drop other entries: when the log has come
    round, or when its key is new and another entry of the same bucket has to give way. *)
Theorem mica_refines_lossy_map H contents n sz r w aw num den ops :
  (forall K, 0 <= H K < 2 ^ 64) -> 2 <= n <= 2 ^ 31 -> 0 <= sz <= 2 ^ 38 -> 0 < den <= num ->
  Forall op_ok ops -> Z.of_nat (length ops) * MB2 < 2 ^ 63 ->
  exists t cap rs t' S, mehcached_table_init contents n 1 sz r w aw num den = Some t /\
    sz <= cap /\ mica_run H t ops = Some (rs, t') /\
    lossy_steps (key_bucket H t) (Lossy ∅ 0 cap) ops rs S.
Proof.
  intros HH Hn Hs Hth Hok Hmax.
  destruct (init_run_represents H contents n sz r w aw num den ops 0)
    as (t & cap & rs & t' & S & Ht & Hcap & Hr & Hc & _); [done..|lia|].
  by exists t, cap, rs, t', S.
Qed.

(** A hash, and a mixed run: a key stored, incremented, looked up, deleted, looked up. *)
Definition sample_hash (K : bytestring) : Z := u64 (2654435761 * le_value K.1).
Definition sample_key (x : Z) : list Z := le_bytes 8 x.
Definition sample_ops : list mica_op :=
  [OpSet (sample_key 7) 8 (le_bytes 8 41) 8 0 true; OpIncrement (sample_key 7) 8 1 0;
   OpGet (sample_key 7) 8 (replicate 8 0) 8 true; OpTest (sample_key 9) 8;
   OpDelete (sample_key 7) 8; OpGet (sample_key 7) 8 (replicate 8 0) 8 true].

Lemma sample_hash_range K : 0 <= sample_hash K < 2 ^ 64.
Proof. apply wrap_range. lia. Qed.

Lemma mica_refines_lossy_map_witness :
  exists t cap rs t' S, mehcached_table_init ∅ 134 1 80000 false false false 1 1 = Some t /\
    80000 <= cap /\ mica_run sample_hash t sample_ops = Some (rs, t') /\
    lossy_steps (key_bucket sample_hash t) (Lossy ∅ 0 cap) sample_ops rs S.
Proof.
  apply (mica_refines_lossy_map sample_hash ∅ 134 80000 false false false 1 1 sample_ops);
    [exact sample_hash_range|lia|lia|lia|apply (bool_decide_unpack (Forall op_ok sample_ops)); vm_compute; exact I|].
  vm_compute. reflexivity.
Defined.

(** The same run, evaluated. *)
Example sample_run :
  (t ← mehcached_table_init ∅ 134 1 80000 false false false 1 1;
   '(rs, _) ← mica_run sample_hash t sample_ops; Some rs) =
  Some [RBool true; RIncrement (Some 42); RGet (GetOut true (le_bytes 8 42) 8 (Some 0));
        RBool false; RBool true; RGet (GetOut false (replicate 8 0) 8 None)].
Proof. vm_compute. reflexivity. Qed.

(** C22: Round trip, under the conditions of C5: the FIFO threshold (with a smaller one the log
    cannot be walked: C37), 2 to 2^31 buckets, a log of up to 2^38 bytes, key and value
    lengths within the maxima, buffers that hold the padded lengths, and with the store fewer
    than 2^42 operations.  After any run of such operations a store with permission to
    overwrite succeeds, and the look-up that follows it, with a buffer of at most 1500 bytes
    (the assertion of table.c:779), finds the key and returns the stored value, cut to the
    caller's length, whatever the store had to evict. *)
Theorem mica_set_then_get H contents n sz r w aw num den ops key klen value vlen expire buf len ro :
  (forall K, 0 <= H K < 2 ^ 64) -> 2 <= n <= 2 ^ 31 -> 0 <= sz <= 2 ^ 38 -> 0 < den <= num ->
  Forall op_ok ops -> Z.of_nat (S (length ops)) * MB2 < 2 ^ 63 ->
  op_ok (OpSet key klen value vlen expire true) -> 0 <= len <= 1500 -> buf_ok buf len ->
  exists t rs t1 t2 t3 o, mehcached_table_init contents n 1 sz r w aw num den = Some t /\
    mica_run H t ops = Some (rs, t1) /\
    mehcached_set 0 t1 (H (padded key klen)) key klen value vlen expire true = Some (true, t2) /\
    mehcached_get 0 t2 (H (padded key klen)) key klen buf len ro = Some (o, t3) /\
    found o = true /\ out_length o = Z.min vlen len /\
    let m := Z.to_nat (MEHCACHED_ROUNDUP8 (out_length o)) in
    out_value o = take m (padded value vlen).1 ++ drop m buf.
Proof.
  intros HH Hn Hs Hth Hok Hmax (Hl & Hk & Hv) Hlen Hbuf.
  destruct (init_run_minv H contents n sz r w aw num den ops 1)
    as (t & rs & t1 & A & Ht & Hr & Hi); [done..|lia|].
  destruct (cache_set_spec H HH t1 A 1 key klen value vlen expire true)
    as (b & t2 & Hset & Hi2 & Hca & Hb); [done..|].
  destruct b; [|by specialize (Hb eq_refl)].
  destruct (cache_get_spec H t2 _ _ key klen buf len ro Hi2) as (o & t3 & Hget & _ & Ho & Hf & _);
    [apply Hl|done..|].
  specialize (Hf (Hca eq_refl)). destruct (Ho Hf) as (V & HV & Hlo & Hvo).
  rewrite lookup_insert_eq in HV. apply (inj Some) in HV as <-.
  by exists t, rs, t1, t2, t3, o.
Qed.

Lemma mica_set_then_get_witness :
  exists t rs t1 t2 t3 o, mehcached_table_init ∅ 134 1 80000 false false false 1 1 = Some t /\
    mica_run sample_hash t sample_ops = Some (rs, t1) /\
    mehcached_set 0 t1 (sample_hash (padded (sample_key 7) 8)) (sample_key 7) 8
      (le_bytes 16 5) 16 0 true = Some (true, t2) /\
    mehcached_get 0 t2 (sample_hash (padded (sample_key 7) 8)) (sample_key 7) 8
      (replicate 8 0) 8 true = Some (o, t3) /\
    found o = true /\ out_length o = Z.min 16 8 /\
    let m := Z.to_nat (MEHCACHED_ROUNDUP8 (out_length o)) in
    out_value o = take m (padded (le_bytes 16 5) 16).1 ++ drop m (replicate 8 0).
Proof.
  apply (mica_set_then_get sample_hash ∅ 134 80000 false false false 1 1 sample_ops
    (sample_key 7) 8 (le_bytes 16 5) 16 0 (replicate 8 0) 8 true);
    [exact sample_hash_range|lia|lia|lia| | | |lia|];
    [apply (bool_decide_unpack (Forall op_ok sample_ops)); vm_compute; exact I
    |vm_compute; reflexivity
    |apply (bool_decide_unpack (op_ok (OpSet (sample_key 7) 8 (le_bytes 16 5) 16 0 true)));
     vm_compute; exact I
    |vm_compute; discriminate].
Defined.



(** The assertion on the number of buckets lets 2^32 through, which the field
    [num_buckets] of 32 bits cannot hold: the table is set up without any bucket, and
    the first store is out of its bounds. *)
Theorem mica_table_without_buckets :
  exists t, mehcached_table_init ∅ (2 ^ 32) 1 0 false false false 1 1 = Some t /\
    num_buckets t = 0 /\ buckets t = [] /\
    forall h key klen value vlen expire ow,
      mehcached_set 0 t h key klen value vlen expire ow = None.
Proof.
  eexists. split; [vm_compute; reflexivity|]. split; [done|]. split; [done|]. intros.
  unfold mehcached_set. destruct (negb (klen <=? _)); [done|].
  by destruct (negb (vlen <=? _)).
Qed.

(** The table of one bucket. *)
Lemma reset_pools_mask n : forall t a t',
  reset_pools n t a = Some t' -> num_buckets_mask t' = num_buckets_mask t.
Proof.
  induction n as [|n IH]; cbn [reset_pools]; intros t a t' Ht; [by simplify_eq|].
  apply bind_Some in Ht as (? & _ & Ht). apply bind_Some in Ht as (? & _ & Ht).
  apply bind_Some in Ht as (? & _ & Ht%IH). by rewrite Ht.
Qed.

Lemma single_bucket_mask contents sz r w aw num den t :
  mehcached_table_init contents 1 1 sz r w aw num den = Some t -> num_buckets_mask t = 0.
Proof.
  unfold mehcached_table_init. intros Ht. change (log_loop 63 1 0) with (Some 0) in Ht.
  change (mehcached_next_power_of_two 1) with (Some 1) in Ht.
  cbn [negb Z.gtb Z.eqb Z.compare Pos.eqb mbind option_bind Z.leb] in Ht.
  destruct (mehcached_pool_init contents sz r aw) as [p|]; [|done]. cbn [mbind option_bind] in Ht.
  change (rshift_loop 64 (u32 (u64 (1 <<' 0))) 0) with (Some 39) in Ht.
  cbn [mbind option_bind] in Ht. unfold mehcached_table_reset in Ht.
  by apply bind_Some in Ht as (? & [= <-] & ->%reset_pools_mask).
Qed.

(** A table of one bucket is never cleaned: both ends of the range of buckets that
    [mehcached_cleanup_bucket] visits are bucket 0, so items survive the 2^40 bytes after
    which the offsets of the item words come round. *)
Theorem mica_single_bucket_never_cleaned contents sz r w aw num den t old_tail new_tail :
  mehcached_table_init contents 1 1 sz r w aw num den = Some t ->
  mehcached_cleanup_bucket 0 t old_tail new_tail = Some t.
Proof.
  intros Hm%single_bucket_mask. unfold mehcached_cleanup_bucket. rewrite Hm, !Z.land_0_r.
  by destruct (Z.to_nat (num_buckets t)).
Qed.

Lemma mica_single_bucket_never_cleaned_witness :
  exists t, mehcached_table_init ∅ 1 1 0 false false false 1 1 = Some t /\
    mehcached_cleanup_bucket 0 t (2 ^ 39) (2 ^ 40) = Some t.
Proof.
  eexists. split; [vm_compute; reflexivity|].
  apply (mica_single_bucket_never_cleaned ∅ 0 false false false 1 1). vm_compute. reflexivity.
Defined.
