(* ===== verification/MicaLru.v ===== *)
(** * MICA with a move-to-head threshold (LRU)

    A get moves an item that lies far from the tail to the tail of the log, header included.
    An item that a shorter value has shrunk in place takes less room there than its header
    says, and the log can no longer be walked. *)
From S2P Require Import Prelude PoolAlloc MicaTable MicaSpec MicaCache MicaLossy MicaRefine.

(** ** What leaves the pools alone *)

Ltac split_binds :=
  repeat match goal with
  | Hb : _ ≫= _ = Some _ |- _ => apply bind_Some in Hb as (? & ? & Hb)
  | Hb : (if ?c then _ else _) = Some _ |- _ => destruct c
  | Hb : Some _ = Some _ |- _ => injection Hb as <-
  | Hb : None = Some _ |- _ => discriminate Hb
  end.

Lemma lock_alloc t b t' : mehcached_lock_bucket t b = Some t' -> alloc t' = alloc t.
Proof. unfold mehcached_lock_bucket. intros. by split_binds. Qed.

Lemma unlock_alloc t b t' : mehcached_unlock_bucket t b = Some t' -> alloc t' = alloc t.
Proof. unfold mehcached_unlock_bucket. intros. by split_binds. Qed.

Lemma set_slot_alloc t b i v t' : set_slot t b i v = Some t' -> alloc t' = alloc t.
Proof. unfold set_slot. intros. by split_binds. Qed.

Lemma pool_lock_word_only p p' :
  mehcached_pool_lock p = Some p' -> exists l, p' = pool_set_lock p l.
Proof.
  unfold mehcached_pool_lock. intros. split_binds; [by eexists|].
  exists (pool_lock_word p). by destruct p.
Qed.

Lemma pool_unlock_word_only p p' :
  mehcached_pool_unlock p = Some p' -> exists l, p' = pool_set_lock p l.
Proof.
  unfold mehcached_pool_unlock. intros. split_binds; [by eexists|].
  exists (pool_lock_word p). by destruct p.
Qed.

Lemma lock_slot t b t' i :
  0 <= b -> mehcached_lock_bucket t b = Some t' -> get_slot t' b i = get_slot t b i.
Proof.
  unfold mehcached_lock_bucket. intros Hb Ht.
  assert (forall bk v, get_bucket t b = Some bk ->
    get_slot (set_bucket t b (set_version bk v)) b i = get_slot t b i) as Hs.
  { intros bk v Hbk. unfold get_slot. rewrite get_set_bucket by (done || by exists bk).
    rewrite decide_True by done. by rewrite Hbk. }
  split_binds; (done || by apply Hs).
Qed.

Lemma cleanup_chain_alloc fuel id : forall t b t',
  cleanup_chain fuel id t b = Some t' -> alloc t' = alloc t.
Proof.
  induction fuel as [|fuel IH]; cbn [cleanup_chain]; intros t b t' Ht; split_binds; try done.
  by apply IH in Ht.
Qed.

Lemma cleanup_loop_alloc fuel id e : forall b t t',
  cleanup_loop fuel id b e t = Some t' -> alloc t' = alloc t.
Proof.
  induction fuel as [|fuel IH]; cbn [cleanup_loop]; intros b t t' Ht; split_binds; try done.
  apply IH in Ht as ->. erewrite unlock_alloc by done. erewrite cleanup_chain_alloc by done.
  by eapply lock_alloc.
Qed.

(** ** The copy *)

(** The head of the log is at an item whose header says [n]: popping it moves the head on by
    [n] bytes, or fails the check when that is past the tail. *)
Lemma pop_head_by q o n :
  pool_geom q -> pool_head q = o -> header q o = n -> 0 < n < 2 ^ 62 ->
  (pool_tail q < o + n -> mehcached_pool_pop_head q = None) /\
  (o + n <= pool_tail q <= o + n + pool_size q ->
     mehcached_pool_pop_head q = Some (pool_set_head q (o + n))).
Proof.
  intros Hg <- Hn Hr. pose proof (geom_bounds q Hg) as Hb. destruct (geom_pos q Hg).
  unfold mehcached_pool_pop_head, pload.
  pose proof (pload_bytes_item q (pool_head q) 0 8 Hg) as Hl.
  rewrite pool_item_masked, !Z.add_0_r in Hl by done.
  rewrite pool_item_mod, Hl by (done || lia).
  cbn [fmap option_fmap option_map mbind option_bind]. fold (header q (pool_head q)).
  rewrite Hn, u64_id by lia. unfold mehcached_pool_check_invariants.
  cbn [pool_tail pool_head pool_size pool_set_head]. split; intros Ht.
  - assert (u64 (pool_tail q - (pool_head q + n)) = pool_tail q - (pool_head q + n) + 2 ^ 64) as ->.
    { symmetry. apply (Z.mod_unique_pos _ _ (-1)); lia. }
    rewrite (proj2 (Z.leb_gt _ _)) by lia. done.
  - rewrite u64_id by lia. rewrite (proj2 (Z.leb_le _ _)) by lia. done.
Qed.

(** The distance from the tail, as the code masks it. *)
Lemma distance_from_tail p o :
  pool_geom p -> 0 <= o <= pool_tail p -> pool_tail p - o < pool_size p ->
  u64 (pool_tail p - o mod 2 ^ 40) &' pool_mask p = pool_tail p - o.
Proof.
  intros Hg Ho Hd. destruct (geom_size p Hg) as (k & Hk & Hs). rewrite (geom_mask p Hg), Hs in *.
  rewrite land_mask by lia. unfold wrap. rewrite mod_mod_pow2 by lia.
  rewrite Zminus_mod, mod_mod_pow2, <- Zminus_mod by lia. apply Z.mod_small. lia.
Qed.

(** The copy within the pool: the new item, of [m] bytes, has the first [m] bytes of the old
    one, the header included. *)
Lemma copy_to_tail p L o n m :
  pool_inv p L -> (o, n) ∈ L -> 8 <= m <= n -> n <= MB2 -> m mod 8 = 0 ->
  pool_tail p + m <= o + pool_size p -> pool_tail p + m < 2 ^ 63 ->
  exists p1, mehcached_pool_allocate p m = Some (pool_tail p mod 2 ^ 40, p1) /\
    mehcached_pool_is_valid p1 (o mod 2 ^ 40) = true /\
    mehcached_memcpy8 (pload_bytes p1 (mehcached_pool_item p1 (o mod 2 ^ 40))) m =
      Some (log_bytes p o m) /\
    exists p2, pstore_bytes p1 (mehcached_pool_item p1 (pool_tail p mod 2 ^ 40)) (log_bytes p o m) =
      Some p2 /\ pool_inv p1 (L ++ [(pool_tail p, m)]) /\ pool_geom p2 /\
      pool_tail p2 = pool_tail p + m /\
      log_bytes p2 (pool_tail p) m = log_bytes p o m.
Proof.
  intros Hinv HL Hm Hn Hm8 Hsz Hmax. pose proof (inv_geom _ _ Hinv) as Hg.
  pose proof (geom_bounds p Hg) as Hb. destruct (geom_pos p Hg).
  destruct (chain_elem _ _ _ _ _ (inv_chain _ _ Hinv) HL) as (? & ? & ? & _).
  destruct (push_tail_spec p L m Hinv) as (p1 & Hal & Hinv1 & (_ & _ & Hs1 & _) & Ht1 & Hfr);
    [lia|done|done|].
  pose proof (inv_geom _ _ Hinv1) as Hg1. exists p1. split; [done|]. split.
  { rewrite is_valid_spec by (done || lia). apply Z.leb_le. lia. }
  assert (Z.of_nat (length (log_bytes p o m)) = m) as Hlen by (apply log_bytes_length; lia).
  split.
  { unfold mehcached_memcpy8. rewrite roundup8_id by lia.
    pose proof (pload_bytes_item p1 o 0 m Hg1 ltac:(lia) ltac:(lia)) as Hl.
    rewrite !Z.add_0_r in Hl. rewrite Hl. f_equal. apply Hfr; lia. }
  pose proof (pstore_bytes_item p1 (pool_tail p) 0 (log_bytes p o m) Hg1 ltac:(lia) ltac:(lia)) as Hst.
  rewrite !Z.add_0_r in Hst. rewrite Hst. eexists. split; [done|]. split; [done|].
  split; [by apply pool_geom_log_write|]. split; [done|].
  pose proof (log_bytes_written p1 (pool_tail p) (log_bytes p o m) ltac:(lia) ltac:(lia)) as Hw.
  by rewrite Hlen in Hw.
Qed.

(** [move_to_head] of an item at [o], copied with [m] bytes. *)
Lemma move_to_head_copies t p L b i v o n m t' :
  alloc t = [p] -> pool_inv p L -> (o, n) ∈ L -> 0 <= b -> get_slot t b i = Some v ->
  MEHCACHED_ITEM_OFFSET v = o mod 2 ^ 40 -> 8 <= m <= n -> n <= MB2 -> m mod 8 = 0 ->
  mth_threshold t < pool_tail p - o -> pool_tail p + m <= o + pool_size p ->
  pool_tail p + m < 2 ^ 63 -> move_to_head 0 t b (b, i) v m = Some t' ->
  exists p', alloc t' = [p'] /\ pool_geom p' /\ pool_tail p' = pool_tail p + m /\
    log_bytes p' (pool_tail p) m = log_bytes p o m.
Proof.
  intros Ha Hinv HL Hb Hs Hov Hm Hn Hm8 Hth Hsz Hmax Hmv.
  destruct (chain_elem _ _ _ _ _ (inv_chain _ _ Hinv) HL) as (? & ? & ? & _).
  unfold move_to_head in Hmv. rewrite Hov, (get_alloc_single t p Ha) in Hmv.
  cbn [mbind option_bind] in Hmv.
  rewrite (distance_from_tail p o (inv_geom _ _ Hinv)) in Hmv by lia.
  rewrite (proj2 (Z.gtb_lt _ _)) in Hmv by lia.
  apply bind_Some in Hmv as (t1 & Hlock & Hmv). apply bind_Some in Hmv as (pl & Hpl & Hmv).
  apply pool_lock_word_only in Hpl as [l ->].
  cbn [fst snd] in Hmv. rewrite (lock_slot t b t1 i Hb Hlock), Hs in Hmv.
  cbn [mbind option_bind] in Hmv. rewrite Z.eqb_refl in Hmv.
  destruct (copy_to_tail (pool_set_lock p l) L o n m (pool_inv_lock _ _ l Hinv) HL Hm Hn Hm8 Hsz Hmax)
    as (p1 & Hal & Hval & Hcp & p2 & Hst & _ & Hg2 & Ht2 & Hb2).
  change (pool_tail (pool_set_lock p l)) with (pool_tail p) in *.
  rewrite Hal in Hmv. cbn [mbind option_bind] in Hmv. rewrite Hval, Hcp in Hmv.
  cbn [mbind option_bind] in Hmv. rewrite Hst in Hmv. cbn [mbind option_bind] in Hmv.
  apply bind_Some in Hmv as ([p3 t3] & Hset & Hmv).
  apply bind_Some in Hset as (t2 & Hset & [= <- <-]).
  apply bind_Some in Hmv as (p4 & Hun & Hmv). apply bind_Some in Hmv as (t4 & Hunb & Hmv).
  apply cleanup_loop_alloc in Hmv. apply unlock_alloc in Hunb. apply set_slot_alloc in Hset.
  apply lock_alloc in Hlock. exists p4.
  apply pool_unlock_word_only in Hun as [l' ->].
  split; [|split; [|done]].
  - rewrite Hmv, Hunb. unfold set_alloc. cbn [alloc]. by rewrite Hset, Hlock, Ha.
  - by destruct Hg2.
Qed.

(** C37: With a move-to-head threshold below that of FIFO the log can no longer be walked.
    Let an item of [n] bytes at position [o] of the log hold an entry that needs only
    [m < n] bytes (a shorter value was stored in place), further from the tail than the
    threshold and not reached by the new allocation.  When [mehcached_get] moves it to the
    head, the new item takes [m] bytes of the log but its header says [n].  When the head of
    the log comes to this item, with the header still there, [mehcached_pool_pop_head] moves
    on by [n]: past the start, [m] bytes further, of the item that follows; and while fewer
    than [n] bytes are there, its check fails. *)
Theorem mica_move_to_head_breaks_headers t p L b i v o n m t' :
  alloc t = [p] -> pool_inv p L -> (o, n) ∈ L -> 0 <= b -> get_slot t b i = Some v ->
  MEHCACHED_ITEM_OFFSET v = o mod 2 ^ 40 -> 8 <= m < n -> m mod 8 = 0 ->
  mth_threshold t < pool_tail p - o -> pool_tail p + m <= o + pool_size p ->
  pool_tail p + m < 2 ^ 63 -> move_to_head 0 t b (b, i) v m = Some t' ->
  exists p', alloc t' = [p'] /\ pool_geom p' /\ pool_tail p' = pool_tail p + m /\
    header p' (pool_tail p) = n /\
    forall q, pool_geom q -> pool_head q = pool_tail p ->
      header q (pool_tail p) = header p' (pool_tail p) ->
      (pool_tail q < pool_tail p + n -> mehcached_pool_pop_head q = None) /\
      (pool_tail p + n <= pool_tail q <= pool_tail p + n + pool_size q ->
         mehcached_pool_pop_head q = Some (pool_set_head q (pool_tail p + n)) /\
         pool_tail p + m < pool_tail p + n).
Proof.
  intros Ha Hinv HL Hb Hs Hov Hm Hm8 Hth Hsz Hmax Hmv.
  destruct (chain_elem _ _ _ _ _ (inv_chain _ _ Hinv) HL) as (? & ? & ? & _).
  destruct (move_to_head_copies t p L b i v o n m t') as (p' & Ha' & Hg' & Ht' & Hb');
    [done..|lia|lia|done|done|done|done|done|].
  assert (header p' (pool_tail p) = n) as Hh.
  { rewrite <- (inv_headers _ _ Hinv o n HL) by lia. unfold header. f_equal.
    replace m with (8 + (m - 8)) in Hb' by lia. rewrite !log_bytes_app in Hb' by lia.
    apply app_inj_1 in Hb' as [? _]; [done|]. apply Nat2Z.inj. by rewrite !log_bytes_length by lia. }
  exists p'. do 4 (split; [done|]). intros q Hq Hhd Hhq. rewrite Hh in Hhq.
  destruct (pop_head_by q (pool_tail p) n) as [Hpa Hpb]; [done..|lia|].
  split; [done|]. intros Hr. split; [by apply Hpb|lia].
Qed.

(** A value of 16 bytes, shrunk to 8 and then moved. *)
Definition lru_table : option mehcached_table :=
  t ← mehcached_table_init ∅ 2 1 0 false false false 0 1;
  '(_, t) ← mica_run sample_hash t
    [OpSet (sample_key 7) 8 (le_bytes 16 1) 16 0 true;
     OpSet (sample_key 7) 8 (le_bytes 8 2) 8 0 true];
  Some t.

Lemma mica_move_to_head_breaks_headers_witness :
  exists t t' p', lru_table = Some t /\
    move_to_head 0 t 0 (0, 0%nat) 6041297425140809728 40 = Some t' /\ alloc t' = [p'] /\
    pool_tail p' = 88 /\ header p' 48 = 48 /\
    mehcached_pool_pop_head (pool_set_head p' 48) = None.
Proof.
  destruct lru_table as [t|] eqn:Ht; [|vm_compute in Ht; discriminate].
  assert (exists p, alloc t = [p] /\ pool_size p = 2 ^ 21 /\ pool_mask p = 2 ^ 21 - 1 /\
    pool_head p = 0 /\ pool_tail p = 48 /\ header p 0 = 48 /\ mth_threshold t = 0 /\
    get_slot t 0 0 = Some 6041297425140809728 /\
    is_Some (move_to_head 0 t 0 (0, 0%nat) 6041297425140809728 40))
    as (p & Ha & Hs & Hm & Hhd & Htl & Hh & Hth & Hsl & t' & Ht').
  { vm_compute in Ht. injection Ht as <-. eexists. split; [reflexivity|].
    repeat (split; [vm_compute; reflexivity|]). eexists. vm_compute. reflexivity. }
  set (lru := lru_table) in *. clearbody lru. assert (pool_geom p) as Hg by (clear - Hs Hm Hhd Htl; split; [by exists 21|by rewrite Hm, Hs|by rewrite Hhd, Htl]).
  assert (pool_inv p [(0, 48)]) as Hinv.
  { clear - Hg Hs Hhd Htl Hh. split; [done|by rewrite Htl|right; exists 48; rewrite Hhd; by left|by rewrite Htl, Hhd, Hs|].
    by intros ? ? [= -> ->]%list_elem_of_singleton _. }
  destruct (mica_move_to_head_breaks_headers t p [(0, 48)] 0 0 6041297425140809728 0 48 40 t' Ha Hinv)
    as (p' & Ha' & Hg' & Htl' & Hh' & Hq);
    [apply list_elem_of_singleton; reflexivity|by vm_compute|exact Hsl|vm_compute; reflexivity|by vm_compute|
     vm_compute; reflexivity|rewrite Htl, Hth; reflexivity|rewrite Htl, Hs; by vm_compute|
     rewrite Htl; reflexivity|exact Ht'|].
  rewrite Htl in Hh', Htl', Hq. exists t, t', p'. split; [reflexivity|]. split; [exact Ht'|].
  split; [exact Ha'|]. split; [exact Htl'|]. split; [exact Hh'|].
  apply (Hq (pool_set_head p' 48)); [|reflexivity|reflexivity|simpl; rewrite Htl'; reflexivity].
  clear - Hg' Htl'. destruct Hg'. split; [assumption|assumption|simpl; lia].
Defined.
