(* ===== verification/MicaFull.v ===== *)
(** * MICA without eviction

    As long as the items fit the log, and the keys of each bucket its fifteen slots with
    distinct tags, the table is an exact map: every entry that was stored is found. *)
From S2P Require Import Prelude PoolAlloc MicaTable MicaSpec MicaCache.

(** A witness for each element of a list. *)
Lemma Forall_choose {A B} (P : A -> B -> Prop) (l : list A) :
  (forall x, x ∈ l -> exists y, P x y) -> exists l', Forall2 P l l'.
Proof.
  induction l as [|x l IH]; intros Hl; [by exists []|].
  destruct (Hl x ltac:(by left)) as [y Hy].
  destruct IH as [l' Hl']; [intros z Hz; apply Hl; by right|]. exists (y :: l'). by constructor.
Qed.

Section Full.
Context (H : bytestring -> Z) (HH : forall K, 0 <= H K < 2 ^ 64).
(** The table that serves as a reference for the geometry, and the keys in use. *)
Context (t0 : mehcached_table) (S_ : bytestring -> Prop).
Context (Hdist : forall K K', S_ K -> S_ K' -> key_bucket H t0 K = key_bucket H t0 K' ->
  key_tag H K = key_tag H K' -> K = K').
Context (Hcap : forall b Ks, NoDup Ks -> (forall K, K ∈ Ks -> S_ K /\ key_bucket H t0 K = b) ->
  (length Ks <= MEHCACHED_ITEMS_PER_BUCKET)%nat).

(** Nothing has been overwritten and every entry of [A] has its slot. *)
Record full (t : mehcached_table) (p : mehcached_pool) (L : list (Z * Z)) (A : cache) : Prop := {
  fu_inv : tinv H (pool_tail p / 2 ^ rshift t) t p L A;
  fu_ver : ver_ok t None;
  fu_lock : pool_lock_word p = 0;
  fu_mth : pool_mask p <= mth_threshold t;
  fu_config : config t = config t0;
  fu_tail : pool_tail p <= pool_size p;
  fu_keys : forall K V, A !! K = Some V -> S_ K;
  fu_slots : forall K V, A !! K = Some V -> exists i v,
    get_slot t (key_bucket H t0 K) i = Some v /\ v <> 0 /\ MEHCACHED_TAG v = key_tag H K }.

Lemma full_bucket t p L A K : full t p L A -> key_bucket H t K = key_bucket H t0 K.
Proof. intros Hf. apply config_bucket, Hf. Qed.

Lemma full_bucket_range t p L A K : full t p L A -> 0 <= key_bucket H t0 K < num_buckets t.
Proof.
  intros Hf. rewrite <- (full_bucket t p L A) by done. apply bucket_index_range.
  apply (ti_geom _ _ _ _ _ _ (fu_inv _ _ _ _ Hf)).
Qed.

(** What is in a slot. *)
Lemma full_slot t p L A b i v :
  full t p L A -> 0 <= b -> get_slot t b i = Some v -> v <> 0 ->
  exists K V o n, A !! K = Some V /\ key_bucket H t0 K = b /\ MEHCACHED_TAG v = key_tag H K /\
    v = MEHCACHED_ITEM_VEC (key_tag H K) 0 (o mod 2 ^ 40) /\
    MEHCACHED_ITEM_OFFSET v = o mod 2 ^ 40 /\ 0 <= o < pool_tail p /\
    holds H t p A b (key_tag H K) o n K V.
Proof.
  intros Hf Hb Hv Hv0. apply get_slot_inv in Hv as (bk & Hbk & Hi). pose proof (fu_inv _ _ _ _ Hf) as Hinv.
  destruct (ti_slots _ _ _ _ _ _ Hinv b bk i v Hb Hbk Hi Hv0) as (o & tag & -> & Htag & Ho & _ & Hint).
  destruct (item_vec_fields tag o) as (Ht & Hoff & _); [lia|].
  destruct Hint as (n & K & V & _ & Hh).
  { unfold intact. pose proof (fu_tail _ _ _ _ Hf). lia. }
  pose proof Hh as (_ & Htg & HbK & HA).
  exists K, V, o, n. split; [done|]. split; [by rewrite <- (full_bucket t p L A)|].
  rewrite Ht. subst tag. repeat (split; [done|]). done.
Qed.

(** Every item word is valid, and stays so as long as the log does not come round. *)
Lemma full_valid t p L A p' b i v :
  full t p L A -> 0 <= b -> get_slot t b i = Some v -> v <> 0 -> pool_geom p' ->
  pool_tail p <= pool_tail p' <= pool_size p' ->
  mehcached_pool_is_valid p' (MEHCACHED_ITEM_OFFSET v) = true.
Proof.
  intros Hf Hb Hv Hv0 Hg Ht. destruct (full_slot t p L A b i v) as (K & V & o & n & _ & _ & _ & _ & -> & Ho & _);
    [done..|]. pose proof (geom_bounds p' Hg).
  rewrite is_valid_spec by (done || lia). apply Z.leb_le. lia.
Qed.

Lemma full_geom t p L A : full t p L A -> pool_geom p.
Proof. intros Hf. by eapply ti_pgeom, (fu_inv _ _ _ _ Hf). Qed.

(** A key matches the item of its slot and no other. *)
Lemma full_matches t p L A key klen i v :
  let K0 := padded key klen in
  full t p L A -> 0 <= klen <= MEHCACHED_MAX_KEY_LENGTH -> buf_ok key klen ->
  get_slot t (key_bucket H t0 K0) i = Some v -> v <> 0 -> MEHCACHED_TAG v = key_tag H K0 ->
  S_ K0 -> item_matches t (H K0) (key_tag H K0) key klen v = Some true /\ is_Some (A !! K0).
Proof.
  intros K0 Hf Hkl Hkb Hv Hv0 Htag HS.
  destruct (full_slot t p L A _ i v Hf (proj1 (full_bucket_range t p L A K0 Hf)) Hv Hv0)
    as (K & V & o & n & HA & HbK & HtK & Hvv & _ & _ & Hh).
  assert (K = K0) as ->.
  { apply Hdist; [by eapply fu_keys|done|done|]. by rewrite <- HtK. }
  split; [|by eexists]. rewrite Hvv.
  apply (matches_intact H key klen Hkl Hkb t p A (key_bucket H t0 K0) o n (key_tag H K0) K0 V
    (ti_alloc _ _ _ _ _ _ (fu_inv _ _ _ _ Hf)) (full_geom _ _ _ _ Hf)); [apply calc_tag_range| |done].
  exact Hh.
Qed.

Lemma full_cached t p L A key klen V :
  full t p L A -> 0 <= klen <= MEHCACHED_MAX_KEY_LENGTH -> buf_ok key klen ->
  A !! padded key klen = Some V -> cached H t key klen.
Proof.
  intros Hf Hkl Hkb HA. destruct (fu_slots _ _ _ _ Hf _ _ HA) as (i & v & Hv & Hv0 & Ht).
  exists p, i, v. rewrite (full_bucket t p L A) by done.
  split; [apply (ti_alloc _ _ _ _ _ _ (fu_inv _ _ _ _ Hf))|]. split; [done|]. split; [done|].
  split.
  - eapply full_valid; [done|apply (full_bucket_range t p L A (padded key klen) Hf)|done|done|by eapply full_geom|].
    split; [lia|apply Hf].
  - eapply full_matches; try done. by eapply fu_keys.
Qed.

Lemma full_minv t p L A : full t p L A -> minv H t A 1.
Proof.
  intros Hf. pose proof (geom_bounds p (full_geom _ _ _ _ Hf)). exists p, L.
  split; [apply Hf|]. split; [apply Hf|]. split; [apply Hf|]. split; [|apply Hf].
  pose proof (fu_tail _ _ _ _ Hf). lia.
Qed.

(** A look-up finds the entry and leaves the table alone. *)
Lemma full_get t p L A key klen buf len ro V :
  full t p L A -> 0 <= klen <= MEHCACHED_MAX_KEY_LENGTH -> buf_ok key klen ->
  0 <= len <= 1500 -> buf_ok buf len -> A !! padded key klen = Some V ->
  exists o, mehcached_get 0 t (H (padded key klen)) key klen buf len ro = Some (o, t) /\
    found o = true /\ out_length o = Z.min V.2 len /\
    let m := Z.to_nat (MEHCACHED_ROUNDUP8 (out_length o)) in
    out_value o = take m V.1 ++ drop m buf.
Proof.
  intros Hf Hkl Hkb Hlen Hbuf HA.
  destruct (cache_get_spec H t A 1 key klen buf len ro (full_minv _ _ _ _ Hf))
    as (o & t' & Hget & _ & Ho & Hca & Hsame & _); [done..|].
  assert (found o = true) as Hfo by (apply Hca; by eapply full_cached).
  exists o. rewrite <- (Hsame Hfo) at 2. split; [done|]. split; [done|].
  destruct (Ho Hfo) as (V' & HV' & Hl & Hv). rewrite HA in HV'. by injection HV' as <-.
Qed.

(** A bucket without an empty slot holds fifteen keys. *)
Lemma full_capacity t p L A K0 :
  full t p L A -> S_ K0 -> A !! K0 = None ->
  ~ forall i v, get_slot t (key_bucket H t0 K0) i = Some v -> v <> 0.
Proof.
  intros Hf HS HA Hz. set (b := key_bucket H t0 K0) in *.
  pose proof (full_bucket_range t p L A K0 Hf) as Hb. fold b in Hb.
  pose proof (fu_inv _ _ _ _ Hf) as Hinv. pose proof (ti_geom _ _ _ _ _ _ Hinv) as Hg.
  destruct (bucket_at t b Hg Hb) as [bk Hbk].
  assert (forall i v, item_vec bk !! i = Some v -> get_slot t b i = Some v) as Hsl
    by (intros i v; by apply get_slot_eval).
  destruct (Forall_choose (fun v K => MEHCACHED_TAG v = key_tag H K /\ S_ K /\
    key_bucket H t0 K = b /\ is_Some (A !! K)) (item_vec bk)) as [Ks HKs].
  { intros v [i Hi]%list_elem_of_lookup. apply Hsl in Hi.
    destruct (full_slot t p L A b i v Hf (proj1 Hb) Hi (Hz _ _ Hi)) as (K & V & o & n & HK & ? & ? & _).
    exists K. split; [done|]. split; [by eapply fu_keys|]. split; [done|]. by exists V. }
  assert (length (K0 :: Ks) <= MEHCACHED_ITEMS_PER_BUCKET)%nat as Hle.
  { apply (Hcap b).
    - constructor.
      + intros [j Hj]%list_elem_of_lookup. destruct (Forall2_lookup_r _ _ _ _ _ HKs Hj)
          as (v & _ & _ & _ & _ & [V HV]). congruence.
      + apply NoDup_alt. intros i j K Hi Hj.
        destruct (Forall2_lookup_r _ _ _ _ _ HKs Hi) as (v & Hv & Ht & _).
        destruct (Forall2_lookup_r _ _ _ _ _ HKs Hj) as (w & Hw & Ht' & _).
        apply (ti_tags _ _ _ _ _ _ Hinv b bk i j v w (proj1 Hb) Hbk Hv Hw); [eauto..|congruence].
    - intros K [->|[j Hj]%list_elem_of_lookup]%elem_of_cons; [done|].
      destruct (Forall2_lookup_r _ _ _ _ _ HKs Hj) as (v & _ & _ & ? & ? & _). done. }
  apply Forall2_length in HKs. cbn [length] in Hle. rewrite <- HKs in Hle.
  rewrite (tg_items _ Hg _ _ Hbk) in Hle. lia.
Qed.

(** A store of an entry that fits keeps every other entry. *)
Lemma full_set t p L A key klen value vlen expire ow :
  let K0 := padded key klen in
  full t p L A -> S_ K0 -> lengths_ok klen vlen -> buf_ok key klen -> buf_ok value vlen ->
  (A !! K0 = None /\ pool_tail p + item_bytes klen vlen <= pool_size p \/
   ow = true /\ exists V0, A !! K0 = Some V0 /\ V0.2 = vlen) ->
  exists t' p' L', mehcached_set 0 t (H K0) key klen value vlen expire ow = Some (true, t') /\
    full t' p' L' (<[K0 := padded value vlen]> A) /\ pool_size p' = pool_size p /\
    pool_tail p' <= pool_tail p + (if A !! K0 then 0 else item_bytes klen vlen).
Proof.
  intros K0 Hf HS Hlen Hk Hv Hcase.
  pose proof (geom_bounds p (full_geom _ _ _ _ Hf)) as Hps. pose proof (fu_tail _ _ _ _ Hf) as Ht.
  pose proof (full_bucket_range t p L A K0 Hf) as Hb.
  destruct (set_effect H HH t p L A key klen value vlen expire ow (fu_inv _ _ _ _ Hf)
    (fu_ver _ _ _ _ Hf) (fu_lock _ _ _ _ Hf)) as (ok & t' & He & Hok); [lia|done..|].
  unfold set_outcome in Hok. fold K0 in He, Hok. rewrite (full_bucket t p L A) in Hok by done.
  destruct ok.
  2:{ destruct Hok as (-> & _ & _ & _ & _ & bk & i & v & Hbk & Hi & Hv0 & Hm). exfalso.
      apply (matches_tag H key klen) in Hm.
      destruct (full_matches t p L A key klen i v Hf) as [_ [V HV]]; try done;
        [apply Hlen|by eapply get_slot_eval|].
      destruct Hcase as [[HA _]|[? _]]; [fold K0 in HV; congruence|done]. }
  destruct Hok as (_ & p' & L' & Hst). exists t', p', L'. split; [done|].
  destruct Hst as [Hinv' Hver' Hlk' Hmk' Hsz' Hc' Htl' Hsame Hca' Hkept]. cbn [snd padded] in *.
  fold K0 in Hsame, Hinv'.
  assert (pool_tail p' <= pool_tail p + (if A !! K0 then 0 else item_bytes klen vlen)) as Htl.
  { destruct Hcase as [[-> _]|[_ (V0 & HA & HV0)]]; [lia|]. rewrite HA.
    rewrite Hsame; [lia| |by exists V0]. eapply full_cached; [done|apply Hlen|done|done]. }
  assert (pool_tail p' <= pool_size p') as Htl2.
  { rewrite Hsz'. destruct Hcase as [[HA ?]|[_ (V0 & HA & HV0)]]; rewrite HA in Htl; lia. }
  split; [|by split]. destruct (config_fields _ _ Hc') as (_ & _ & Hmth).
  split; try done.
  - rewrite Hmk', Hmth. apply Hf.
  - rewrite Hc'. apply Hf.
  - intros K V. destruct (decide (K = K0)) as [->|]; [done|].
    rewrite lookup_insert_ne by done. by apply Hf.
  - intros K V. destruct (decide (K = K0)) as [->|HK].
    { intros _. destruct Hca' as (_ & i & v & _ & Hsl & Hv0 & _ & Hm).
      fold K0 in Hsl, Hm. rewrite (config_bucket _ _ _ _ Hc'), (full_bucket t p L A) in Hsl by done.
      exists i, v. split; [done|]. split; [done|]. by apply (matches_tag H key klen) in Hm. }
    rewrite lookup_insert_ne by done. intros HA.
    destruct (fu_slots _ _ _ _ Hf _ _ HA) as (i & v & Hsl & Hv0 & Htg). exists i, v.
    split; [|done]. pose proof (full_bucket_range t p L A K Hf) as HbK.
    destruct (Hkept (key_bucket H t0 K) i v) as [|[HbK0 Hbad]]; [apply HbK|done|done| |done|].
    { eapply full_valid; [done|apply HbK|done|done|by eapply ti_pgeom|lia]. }
    exfalso. fold K0 in HbK0, Hbad. rewrite (full_bucket t p L A) in HbK0 by done.
    destruct Hbad as [Htk|[Hnc Hfull]].
    + apply HK, Hdist; [by eapply fu_keys|done|done|congruence].
    + rewrite HbK0 in Hfull. destruct Hcase as [[HA0 _]|[_ (V0 & HA0 & _)]].
      * by eapply full_capacity.
      * apply Hnc. eapply full_cached; [done|apply Hlen|done|done].
Qed.
End Full.
