(* ===== verification/Apps.v ===== *)
(** * The applications of [toasty.c], put together

    [process_packet_mica], the set-up of the MICA application in [main], and
    [process_packet], the switch over the seven applications, as the instance of the
    [Handler] interface of [DataPath]. *)
From S2P Require Import Prelude Mem Packet CityHash HashMap LoadBalancer FillQueue DataPath.
From S2P Require Import PoolAlloc MicaTable.

(** ** MICA *)

Definition NUM_KEYS : Z := 2000.

(** The globals of the application; [VALUE_SIZE] is a variable, 256 unless option [-p]
    makes it half the packet size. *)
Record mica_app := MicaApp {
  mica_table : mehcached_table;
  default_keys : list Z;
  keys_index : Z;
  flag : bool;
  VALUE_SIZE : Z }.

(** The call of [hash] on the eight bytes of [key]. *)
Definition key_bytes (key : Z) : list Z := le_bytes 8 key.
Definition hash_of_key (key : Z) : option Z := hash (key_bytes key) 8.

(** [stack] is what the uninitialised array [value] holds, [VALUE_SIZE] bytes. *)
Definition process_packet_mica (stack : list Z) (m : mem) (a : mica_app) (data length addr : Z)
    : option (mem * mica_app) :=
  udp ← udp_of m data;
  let payload := udp + sizeof_udphdr in
  _ ← load 2 m (udp_len udp);
  _ ← load 8 m payload;
  let fl := negb (flag a) in
  key ← default_keys a !! Z.to_nat (keys_index a);
  let ki := (keys_index a + 1) mod NUM_KEYS in
  let V := VALUE_SIZE a in
  key_hash ← hash_of_key key;
  if fl : bool then
    '(o, t) ← mehcached_get 0 (mica_table a) key_hash (key_bytes key) 8 stack V false;
    if found o && negb (out_length o =? V) then None else
    m ← store_bytes m (payload + 8) (out_value o);
    Some (m, MicaApp t (default_keys a) ki fl V)
  else
    value ← load_bytes (Z.to_nat V) m (payload + 8);
    let value := <[Z.to_nat (V - 1) := 0]> value in
    '(ok, t) ← mehcached_set 0 (mica_table a) key_hash (key_bytes key) 8 value V 0 true;
    if negb ok then None else
    m ← store_bytes m (payload + 8) value;
    Some (m, MicaApp t (default_keys a) ki fl V).

(** The set-up in [main]. *)
Definition alloc_overhead : Z := sizeof_item.
Definition mica_buckets : Z :=
  (NUM_KEYS + Z.of_nat MEHCACHED_ITEMS_PER_BUCKET - 1) / Z.of_nat MEHCACHED_ITEMS_PER_BUCKET.
Definition mica_pool_size : Z := NUM_KEYS * (alloc_overhead + 8 + 8).

Definition mica_table_init (contents : gmap Z Z) : option mehcached_table :=
  mehcached_table_init contents mica_buckets 1 mica_pool_size false false false 1 1.

Definition default_value (V : Z) : list Z := replicate (Z.to_nat (V - 1)) 65 ++ [0].

Fixpoint store_defaults (n : nat) (i V : Z) (t : mehcached_table) : option mehcached_table :=
  match n with
  | O => Some t
  | S n' =>
      key_hash ← hash_of_key i;
      '(ok, t) ← mehcached_set 0 t key_hash (key_bytes i) 8 (default_value V) V 0 false;
      if ok : bool then store_defaults n' (i + 1) V t else None
  end.

Definition mica_setup (contents : gmap Z Z) (V : Z) : option mica_app :=
  t ← mica_table_init contents;
  t ← store_defaults (Z.to_nat NUM_KEYS) 0 V t;
  Some (MicaApp t (seqZ 0 NUM_KEYS) 0 false V).

(** ** The switch *)

(** What the applications share: the UMEM and the globals. *)
Record toasty_app := ToastyApp {
  umem : mem;
  pkt_count : Z;
  dummy_count : Z;
  decryption_key : Z;
  mica : mica_app;
  maglev_state : lb_tables;
  stack_garbage : list Z }.

Definition set_umem (a : toasty_app) (m : mem) : toasty_app :=
  ToastyApp m (pkt_count a) (dummy_count a) (decryption_key a) (mica a) (maglev_state a)
    (stack_garbage a).
Definition set_dummy (a : toasty_app) (d : Z) : toasty_app :=
  ToastyApp (umem a) (pkt_count a) d (decryption_key a) (mica a) (maglev_state a)
    (stack_garbage a).
Definition set_mica (a : toasty_app) (m : mem) (c : mica_app) : toasty_app :=
  ToastyApp m (pkt_count a) (dummy_count a) (decryption_key a) c (maglev_state a)
    (stack_garbage a).
Definition set_maglev (a : toasty_app) (l : lb_tables) : toasty_app :=
  ToastyApp (umem a) (pkt_count a) (dummy_count a) (decryption_key a) (mica a) l
    (stack_garbage a).
Definition count_packet (a : toasty_app) : toasty_app :=
  ToastyApp (umem a) (s64 (pkt_count a + 1)) (dummy_count a) (decryption_key a) (mica a)
    (maglev_state a) (stack_garbage a).

Definition toasty_process_packet (opt_application_type : Z) (a : toasty_app)
    (data length addr : Z) : option toasty_app :=
  let a := count_packet a in
  if opt_application_type =? 0 then
    set_umem a <$> process_packet_nat (umem a) data length addr
  else if opt_application_type =? 1 then
    set_dummy a <$> process_packet_ids (umem a) data length addr (dummy_count a)
  else if opt_application_type =? 2 then
    set_umem a <$> process_packet_decryption (decryption_key a) (umem a) data length addr
  else if opt_application_type =? 3 then
    set_umem a <$> process_packet_l2fwd (umem a) data length addr
  else if opt_application_type =? 4 then
    '(m, c) ← process_packet_mica (stack_garbage a) (umem a) (mica a) data length addr;
    Some (set_mica a m c)
  else if opt_application_type =? 5 then
    set_maglev a <$> process_packet_maglev (maglev_state a) (umem a) data length addr
  else if opt_application_type =? 6 then
    '(m, _) ← process_packet_l3fwd_same_port (umem a) data length addr; Some (set_umem a m)
  else Some a.

(** The logic switch of [l3forward]; a forwarded packet is counted there. *)
Definition toasty_l3_action (opt_application_type : Z) (a : toasty_app) (pkt len addr : Z)
    : option (toasty_app * Z) :=
  '(m, action) ←
    (if opt_application_type =? 6 then process_packet_l3fwd_same_port (umem a) pkt len addr
     else m ← process_packet_l2fwd (umem a) pkt len addr; Some (m, 1));
  let a := set_umem a m in
  Some (if action =? 0 then a else count_packet a, action).

#[export] Instance toasty_handler : Handler toasty_app := {
  process_packet := toasty_process_packet;
  l3_action := toasty_l3_action }.
