(* ===== verification/AppTypes.v ===== *)
(** * The applications keep the types of their state

    Whatever a packet holds, the cells of the UMEM stay bytes and no cell appears or
    disappears, and every global of [toasty.c] stays a value of its C type. *)
From S2P Require Import Prelude Mem Packet CityHash HashMap LoadBalancer FillQueue DataPath.
From S2P Require Import PoolAlloc MicaTable Apps.

(** ** Stores *)

(** [m'] has the cells of [m], and holds bytes if [m] does. *)
Definition keeps_cells (m m' : mem) : Prop :=
  (forall x, is_Some (m' !! x) <-> is_Some (m !! x)) /\ (bytes_ok m -> bytes_ok m').

#[export] Instance keeps_cells_preorder : PreOrder keeps_cells.
Proof.
  split; [by split|]. intros m1 m2 m3 [D1 B1] [D2 B2]. split; [|auto]. intros x. by rewrite D2.
Qed.

Lemma store8_cells m a v m' : store8 m a v = Some m' -> keeps_cells m m'.
Proof. intros [Ha ->]%store8_inv. by destruct (store8_spec m a v Ha) as (_ & [Hd _] & Hb). Qed.

Lemma store_cells n m a v m' : store n m a v = Some m' -> keeps_cells m m'.
Proof. by intros ([Hd _] & Hb & _)%store_frame. Qed.

Lemma store_bytes_cells bs m a m' : store_bytes m a bs = Some m' -> keeps_cells m m'.
Proof. by intros ([Hd _] & Hb & _)%store_bytes_spec. Qed.

Lemma memcpy_cells m dst src n m' : memcpy m dst src n = Some m' -> keeps_cells m m'.
Proof. intros (bs & _ & H)%bind_Some. by eapply store_bytes_cells. Qed.

Create HintDb cells.
#[export] Hint Resolve store8_cells store_cells store_bytes_cells memcpy_cells : cells.

(** Goes through the binds and tests of a handler: what is left is a chain of stores. *)
Ltac open_binds :=
  repeat match goal with
  | H : mbind _ _ = Some _ |- _ => apply bind_Some in H as (? & ? & H)
  | H : context [match ?x with (_, _) => _ end] |- _ => destruct x
  | H : (if ?b then _ else _) = Some _ |- _ => destruct b eqn:?
  | H : None = Some _ |- _ => discriminate H
  | H : Some _ = Some _ |- _ => injection H as ?; subst
  end.

Ltac cells := repeat (etransitivity; [|solve [eauto with cells]]); try reflexivity.

(** ** The handlers *)

Lemma nat_cells m data length addr m' :
  process_packet_nat m data length addr = Some m' -> keeps_cells m m'.
Proof.
  unfold process_packet_nat. intros H. open_binds. cells.
Qed.

Lemma decrypt_loop_cells n : forall m payload i key m',
  decrypt_loop n m payload i key = Some m' -> keeps_cells m m'.
Proof.
  induction n as [|n IH]; intros m payload i key m'; cbn [decrypt_loop]; [by intros [= ->]|].
  intros H. open_binds. cells.
Qed.

Lemma decryption_cells key m data length addr m' :
  process_packet_decryption key m data length addr = Some m' -> keeps_cells m m'.
Proof. unfold process_packet_decryption. intros H. open_binds. by eapply decrypt_loop_cells. Qed.

Lemma l2fwd_cells m data length addr m' :
  process_packet_l2fwd m data length addr = Some m' -> keeps_cells m m'.
Proof.
  unfold process_packet_l2fwd, swap_macs. intros H. open_binds. cells.
Qed.

Lemma l3fwd_cells m data length addr m' action :
  process_packet_l3fwd_same_port m data length addr = Some (m', action) ->
  keeps_cells m m' /\ (action = 0 \/ action = 1).
Proof.
  unfold process_packet_l3fwd_same_port. intros H. open_binds.
  all: split; [cells|tauto].
Qed.

Lemma mica_cells stack m a data length addr m' a' :
  process_packet_mica stack m a data length addr = Some (m', a') ->
  keeps_cells m m' /\ VALUE_SIZE a' = VALUE_SIZE a /\ default_keys a' = default_keys a /\
  keys_index a' = (keys_index a + 1) mod NUM_KEYS.
Proof.
  unfold process_packet_mica. intros H. open_binds. all: split; [cells|done].
Qed.

Lemma ids_typed fuel m pkt length : forall i d d',
  ids_loop fuel m pkt length i d = Some d' -> - 2 ^ 31 <= d < 2 ^ 31 -> - 2 ^ 31 <= d' < 2 ^ 31.
Proof.
  induction fuel as [|fuel IH]; intros i d d'; cbn [ids_loop]; [done|]. destruct (u64 i <? length).
  - intros (b & _ & H)%bind_Some Hd. apply IH in H; [done|]. destruct (b =? 97); [by apply (swrap_range 32)|done].
  - by intros [= ->].
Qed.

(** ** The switch *)

Record app_typed (a : toasty_app) : Prop := {
  ty_umem : bytes_ok (umem a);
  ty_count : - 2 ^ 63 <= pkt_count a < 2 ^ 63;
  ty_dummy : - 2 ^ 31 <= dummy_count a < 2 ^ 31;
  ty_index : 0 <= keys_index (mica a) < NUM_KEYS }.

(** The same cells, and the configuration of MICA. *)
Record same_layout (a a' : toasty_app) : Prop := {
  sl_cells : forall x, is_Some (umem a' !! x) <-> is_Some (umem a !! x);
  sl_value_size : VALUE_SIZE (mica a') = VALUE_SIZE (mica a);
  sl_keys : default_keys (mica a') = default_keys (mica a);
  sl_decryption_key : decryption_key a' = decryption_key a }.

Lemma count_packet_typed a : app_typed a -> app_typed (count_packet a).
Proof. intros [? ? ? ?]. split; cbn; [done|by apply (swrap_range 64)|done|done]. Qed.

Lemma set_umem_typed a m :
  app_typed a -> keeps_cells (umem a) m -> app_typed (set_umem a m) /\ same_layout a (set_umem a m).
Proof. intros [? ? ? ?] [? ?]. split; split; cbn; auto. Qed.

Lemma fmap_umem_typed a r a' :
  app_typed a -> set_umem a <$> r = Some a' -> (forall m', r = Some m' -> keeps_cells (umem a) m') ->
  app_typed a' /\ same_layout a a'.
Proof.
  intros Ha (m' & -> & ->)%fmap_Some Hr. by apply set_umem_typed, Hr.
Qed.

Lemma counted_layout a a' : same_layout (count_packet a) a' -> same_layout a a'.
Proof. by intros [? ? ? ?]. Qed.

(** The layout is kept in any state. *)
Lemma process_packet_layout T a data length addr a' :
  toasty_process_packet T a data length addr = Some a' -> same_layout a a'.
Proof.
  unfold toasty_process_packet. cbv zeta. intros H.
  repeat match type of H with (if ?b then _ else _) = _ => destruct b end;
    try (apply fmap_Some in H as (m & H & ->)).
  - apply nat_cells in H as [? _]. by split.
  - by split.
  - apply decryption_cells in H as [? _]. by split.
  - apply l2fwd_cells in H as [? _]. by split.
  - apply bind_Some in H as ([m c] & Hm & [= <-]). by apply mica_cells in Hm as ([? _] & ? & ? & _).
  - by split.
  - apply bind_Some in H as ([m r] & Hm & [= <-]). apply l3fwd_cells in Hm as [[? _] _]. by split.
  - injection H as <-. by split.
Qed.

(** So are the bytes, and the stack. *)
Lemma process_packet_cells T a data length addr a' :
  toasty_process_packet T a data length addr = Some a' ->
  keeps_cells (umem a) (umem a') /\ stack_garbage a' = stack_garbage a.
Proof.
  unfold toasty_process_packet. cbv zeta. intros H.
  repeat match type of H with (if ?b then _ else _) = _ => destruct b end;
    try (apply fmap_Some in H as (m & H & ->)).
  - by apply nat_cells in H.
  - by split.
  - by apply decryption_cells in H.
  - by apply l2fwd_cells in H.
  - apply bind_Some in H as ([m c] & Hm & [= <-]). by apply mica_cells in Hm as (? & _).
  - by split.
  - apply bind_Some in H as ([m r] & Hm & [= <-]). by apply l3fwd_cells in Hm as [? _].
  - injection H as <-. by split.
Qed.

Lemma process_packet_types T a data length addr a' :
  app_typed a -> toasty_process_packet T a data length addr = Some a' ->
  app_typed a' /\ same_layout a a'.
Proof.
  intros Ha%count_packet_typed. unfold toasty_process_packet. cbv zeta.
  assert (forall a', app_typed a' /\ same_layout (count_packet a) a' -> app_typed a' /\ same_layout a a')
    as Hl by (intros a1 [? ?%counted_layout]; done).
  revert Ha Hl. generalize (count_packet a) as c. intros c Ha Hl H. apply Hl. clear Hl.
  destruct (T =? 0).
  { eapply fmap_umem_typed; [done..|]. intros ?. apply nat_cells. }
  destruct (T =? 1).
  { apply fmap_Some in H as (d & Hd & ->). destruct Ha as [? ? ? ?].
    split; split; cbn; try done. by eapply ids_typed. }
  destruct (T =? 2).
  { eapply fmap_umem_typed; [done..|]. intros ?. apply decryption_cells. }
  destruct (T =? 3).
  { eapply fmap_umem_typed; [done..|]. intros ?. apply l2fwd_cells. }
  destruct (T =? 4).
  { apply bind_Some in H as ([m c'] & Hm & [= <-]). apply mica_cells in Hm as ([? ?] & ? & ? & Hi).
    destruct Ha as [? ? ? ?]. split; split; cbn; auto. rewrite Hi. by apply Z.mod_pos_bound. }
  destruct (T =? 5).
  { apply fmap_Some in H as (l & _ & ->). destruct Ha. split; split; cbn; done. }
  destruct (T =? 6).
  { apply bind_Some in H as ([m r] & Hm & [= <-]). apply l3fwd_cells in Hm as [? _]. by apply set_umem_typed. }
  injection H as <-. split; [done|by split].
Qed.

(** C21: Types are kept: for every application, whatever the packet holds and wherever it lies,
    the handler and the logic switch of [l3forward] leave a UMEM of the same cells, all
    bytes, the globals within their C types, the index of the next key below [NUM_KEYS], and
    the configuration untouched; the action is to drop or to forward. *)
Theorem handlers_keep_types T a data length addr :
  app_typed a ->
  (forall a', process_packet (Handler := toasty_handler) T a data length addr = Some a' ->
     app_typed a' /\ same_layout a a') /\
  (forall a' action, l3_action (Handler := toasty_handler) T a data length addr = Some (a', action) ->
     app_typed a' /\ same_layout a a' /\ (action = 0 \/ action = 1)).
Proof.
  intros Ha. split; [intros a'; by apply process_packet_types|]. intros a' action. cbn [l3_action toasty_handler].
  intros ([m r] & Hm & [= <- <-])%bind_Some.
  assert (keeps_cells (umem a) m /\ (r = 0 \/ r = 1)) as [Hc Hr].
  { destruct (T =? 6); [by eapply l3fwd_cells|]. apply bind_Some in Hm as (m1 & Hm & [= <- <-]).
    split; [by eapply l2fwd_cells|by right]. }
  destruct (set_umem_typed a m Ha Hc) as [Ht Hl].
  destruct (r =? 0); [done|]. split; [by apply count_packet_typed|]. split; [by destruct Hl|done].
Qed.

(** ** Packets that the handlers take *)

Lemma nat_total m data length addr : mapped m data 76 -> is_Some (process_packet_nat m data length addr).
Proof.
  intros Hm. unfold process_packet_nat. destruct (Hm (ip_of data)) as [b Hb]; [unfold ip_of, sizeof_ether_header; lia|].
  rewrite (udp_of_Some _ _ _ Hb). cbn [mbind option_bind]. pose proof (nibble_range b).
  destruct (store_Some 4 m (ip_saddr (ip_of data)) nat_ip) as [m1 H1].
  { eapply mapped_sub; [exact Hm|unfold ip_saddr, ip_of, sizeof_ether_header; lia..]. }
  rewrite H1. cbn [mbind option_bind]. apply store_Some.
  eapply same_except_mapped; [apply (store_frame _ _ _ _ _ H1)|].
  eapply mapped_sub; [exact Hm|unfold udp_source; lia..].
Qed.

(** Past 2^31 the index becomes negative, a [size_t] beyond any length. *)
Lemma ids_loop_total fuel m pkt length : forall i d,
  0 <= i < 2 ^ 31 -> length <= i + 64 * (Z.of_nat fuel - 1) -> (0 < fuel)%nat ->
  length <= 2 ^ 63 -> mapped m pkt length -> is_Some (ids_loop fuel m pkt length i d).
Proof.
  induction fuel as [|fuel IH]; intros i d Hi Hf H0 Hl Hm; cbn [ids_loop]; [lia|].
  rewrite wrap_small by lia. destruct (Z.ltb_spec i length); [|by eexists]. unfold load8.
  destruct (Hm (pkt + i)) as [b ->]; [lia|]. cbn [mbind option_bind].
  destruct (decide (i + 64 < 2 ^ 31)).
  { rewrite swrap_small by lia. apply IH; [lia|lia|lia|done|done]. }
  assert (s32 (i + 64) = i + 64 - 2 ^ 32) as ->.
  { unfold swrap. rewrite Z.mod_small by lia. by rewrite (proj2 (Z.ltb_ge _ _)) by lia. }
  destruct fuel as [|fuel]; [lia|]. cbn [ids_loop].
  assert (u64 (i + 64 - 2 ^ 32) = i + 64 - 2 ^ 32 + 2 ^ 64) as ->.
  { symmetry. apply (Z.mod_unique_pos _ _ (-1)); lia. }
  destruct (Z.ltb_spec (i + 64 - 2 ^ 32 + 2 ^ 64) length); [lia|by eexists].
Qed.

Lemma ids_total m data length addr d :
  0 <= length <= 2 ^ 63 -> mapped m data length -> is_Some (process_packet_ids m data length addr d).
Proof. intros Hl Hm. apply ids_loop_total; [lia|zlia|lia|lia|done]. Qed.

Lemma l2fwd_total m data length addr : mapped m data 12 -> is_Some (process_packet_l2fwd m data length addr).
Proof.
  intros Hm. unfold process_packet_l2fwd, swap_macs, ETH_ALEN.
  destruct (load_bytes_Some 6 m (data + 6)) as [src Hs]; [eapply mapped_sub; [exact Hm|lia..]|].
  destruct (load_bytes_Some 6 m data) as [dst Hd]; [eapply mapped_sub; [exact Hm|lia..]|].
  rewrite Hs. cbn [mbind option_bind]. rewrite Hd. cbn [mbind option_bind].
  apply load_bytes_lookup in Hs as [Hs _]. apply load_bytes_lookup in Hd as [Hd _].
  destruct (store_bytes_Some dst m (data + 6)) as [m1 H1]; [rewrite Hd; eapply mapped_sub; [exact Hm|lia..]|].
  rewrite H1. cbn [mbind option_bind]. apply store_bytes_Some. rewrite Hs.
  eapply same_except_mapped; [apply (store_bytes_spec _ _ _ _ H1)|]. eapply mapped_sub; [exact Hm|lia..].
Qed.

(** A service of the load balancer has a table. *)
Definition services_have_tables (st : lb_tables) : Prop :=
  forall sid, is_Some (hashmap_lookup_elem st.(services) (service_bytes sid)) ->
    is_Some (hashmap_lookup_elem st.(maglev_tables) (service_bytes sid)).

Lemma maglev_total st m data length addr :
  services_have_tables st -> mapped m data 76 ->
  exists st', process_packet_maglev st m data length addr = Some st' /\ services_have_tables st'.
Proof.
  intros Hst Hm. unfold process_packet_maglev, read_sid.
  destruct (Hm (ip_of data)) as [b Hb]; [unfold ip_of, sizeof_ether_header; lia|].
  rewrite (udp_of_Some _ _ _ Hb). cbn [mbind option_bind]. pose proof (nibble_range b).
  unfold ip_saddr, ip_protocol, udp_source, ip_of, sizeof_ether_header.
  destruct (load_Some 4 m (data + 14 + 12)) as [x ->]; [eapply mapped_sub; [exact Hm|lia..]|]. cbn [mbind option_bind].
  unfold load8. destruct (Hm (data + 14 + 9)) as [y ->]; [lia|]. cbn [mbind option_bind].
  destruct (load_Some 2 m (data + 14 + (b &' 15) * 4)) as [z ->]; [eapply mapped_sub; [exact Hm|lia..]|].
  cbn [mbind option_bind].
  destruct (load_bytes_Some ETH_ALEN m (data + 6)) as [mac ->]; [eapply mapped_sub; [exact Hm|unfold ETH_ALEN; lia..]|].
  unfold find_session. cbn [dict_lookup dict_insert hashmap_dict].
  destruct (hashmap_lookup_elem (active_sessions st) _); [by eexists|].
  destruct (hashmap_lookup_elem (services st) _) eqn:Hs; [|by eexists].
  destruct (Hst _ ltac:(by eexists)) as [mapping ->]. cbn [mbind option_bind].
  destruct (hashmap_lookup_elem (backends st) _); [|by eexists].
  repeat case_match; by eexists.
Qed.

Lemma loaded_have_tables nb sessions gs st :
  0 < nb < 2 ^ 31 -> hm_rep_n sizeof_session_id sessions gs -> toasty_load_services nb sessions = Some st ->
  services_have_tables st.
Proof.
  intros Hnb Hs Hl. unfold toasty_load_services in Hl.
  pose proof (load_services_lemma service_ip (toasty_bkd_aton <$> seqZ 0 nb) sessions gs) as H.
  rewrite length_fmap, length_seqZ, Hl in H. rewrite seqZ_cons in H by lia.
  specialize (H ltac:(done) ltac:(lia) Hs). inversion H as [? mapping Hrep|]. subst.
  intros sid [v Hv].
  rewrite (hr_lookup _ _ (proj1 (lr_services _ _ Hrep))) in Hv by (unfold valid_key; by rewrite (proj2 (lr_services _ _ Hrep))).
  rewrite (hr_lookup _ _ (proj1 (lr_tables _ _ Hrep))) by (unfold valid_key; by rewrite (proj2 (lr_tables _ _ Hrep))).
  cbn [services maglev_tables loaded] in *. apply lookup_singleton_Some in Hv as [<- _].
  rewrite lookup_singleton_eq. by eexists.
Qed.

Definition no_table : mehcached_table := Table [] 0 0 [] 0 0 0 0 0 0 0.

Definition no_map {V} : hashmap V := Hashmap [] 0 0 0.

Definition idle_app (bytes : list Z) : toasty_app :=
  ToastyApp (mem_of 0 bytes) 0 0 7 (MicaApp no_table [] 0 false 256) (LB no_map no_map no_map no_map) [].

Lemma handlers_keep_types_witness :
  app_typed (idle_app (seqZ 0 64)) /\
  (forall a', toasty_process_packet 3 (idle_app (seqZ 0 64)) 0 64 0 = Some a' -> app_typed a').
Proof.
  assert (app_typed (idle_app (seqZ 0 64))) as Ha.
  { split; [|done|done|done]. unfold bytes_ok. apply (map_Forall_to_list (fun _ b => 0 <= b < 2 ^ 8)).
    apply (bool_decide_unpack _). vm_compute. exact I. }
  split; [exact Ha|]. intros a' H. apply (handlers_keep_types 3 (idle_app (seqZ 0 64)) 0 64 0 Ha), H.
Defined.
