(* ===== verification/MicaApp.v ===== *)
(** * The MICA application serves every request

    With the keys that [main] installs, the table of [toasty.c] never evicts: each bucket
    gets at most fifteen of the 2000 keys, with distinct tags, and the items fit the log
    as long as [VALUE_SIZE] is at most 1016.  So every look-up of
    [process_packet_mica] returns the value that was last stored under its key. *)
From S2P Require Import Prelude Mem Packet CityHash PoolAlloc MicaTable MicaSpec MicaCache.
From S2P Require Import MicaRefine MicaFull Apps.

(** ** The keys *)

(** [hash] as a total function on keys. *)
Definition city_hash (K : bytestring) : Z := u64 (default 0 (hash K.1 K.2)).

Lemma city_hash_range K : 0 <= city_hash K < 2 ^ 64.
Proof. apply wrap_range. lia. Qed.

Definition app_key (i : Z) : bytestring := (key_bytes i, 8).

Lemma app_key_padded i : padded (key_bytes i) 8 = app_key i.
Proof. unfold padded. by rewrite take_ge by (unfold key_bytes; rewrite le_bytes_length; done). Qed.

Definition app_keys : list Z := seqZ 0 NUM_KEYS.

Definition bucket_of (h : Z) : Z := u32 (h >>' 16) &' 255.

Definition slot_code (h : Z) : Z := bucket_of h * 2 ^ 16 + mehcached_calc_tag h.

Lemma slot_code_eq h h' :
  bucket_of h = bucket_of h' -> mehcached_calc_tag h = mehcached_calc_tag h' ->
  slot_code h = slot_code h'.
Proof. unfold slot_code. by intros -> ->. Qed.

(** How often each number occurs. *)
Definition tally (l : list Z) : gmap Z nat := foldr (fun b m => <[b := S (default O (m !! b))]> m) ∅ l.

Lemma tally_spec l b : default O (tally l !! b) = length (filter (eq b) l).
Proof.
  induction l as [|c l IH]; [done|]. cbn [tally foldr]. fold (tally l).
  rewrite filter_cons. destruct (decide (b = c)) as [->|].
  - rewrite lookup_insert_eq. cbn [default length]. by rewrite <- IH.
  - by rewrite lookup_insert_ne by done.
Qed.

Definition tally_max (n : nat) (l : list Z) : bool :=
  bool_decide (map_Forall (fun _ k => (k <= n)%nat) (tally l)).

Lemma tally_max_spec n l b : tally_max n l = true -> (length (filter (eq b) l) <= n)%nat.
Proof.
  intros Hm%bool_decide_eq_true. rewrite <- tally_spec.
  destruct (tally l !! b) as [k|] eqn:E; simpl; [by eapply Hm|lia].
Qed.

Lemma tally_NoDup l : tally_max 1 l = true -> NoDup l.
Proof.
  intros Hm. assert (forall b, (length (filter (eq b) l) <= 1)%nat) as Hle
    by (intros b; by apply tally_max_spec). clear Hm.
  induction l as [|c l IH]; [constructor|]. constructor.
  - intros Hc. specialize (Hle c). rewrite filter_cons, decide_True in Hle by done. cbn [length] in Hle.
    assert (c ∈ filter (eq c) l) as Hin by (by apply list_elem_of_filter).
    destruct (filter (eq c) l); [by apply not_elem_of_nil in Hin|simpl in Hle; lia].
  - apply IH. intros b. specialize (Hle b). rewrite filter_cons in Hle.
    destruct (decide (b = c)); cbn [length] in *; lia.
Qed.

(** The facts about CityHash on the numbers below 2000, checked in one pass: the hashes are
    defined and of 64 bits, no bucket of the 256 gets more than fifteen of them, and those
    of a bucket have distinct tags. *)
Definition all_hashes (hs : list (option Z)) : list Z := default 0 <$> hs.

Definition hashes_ok (hs : list (option Z)) : bool :=
  forallb (fun o => match o with Some h => u64 h =? h | None => false end) hs &&
  tally_max MEHCACHED_ITEMS_PER_BUCKET (bucket_of <$> all_hashes hs) &&
  tally_max 1 (slot_code <$> all_hashes hs).

Lemma hashes_ok_hash ks i :
  hashes_ok (hash_of_key <$> ks) = true -> i ∈ ks -> hash_of_key i = Some (city_hash (app_key i)).
Proof.
  intros [[Hok _]%andb_true_iff _]%andb_true_iff Hi.
  rewrite forallb_forall in Hok. specialize (Hok (hash_of_key i)).
  unfold city_hash, app_key. cbn [fst snd]. fold (hash_of_key i).
  destruct (hash_of_key i) as [h|] eqn:E.
  - cbn [default]. f_equal. symmetry. apply Z.eqb_eq, Hok.
    apply list_elem_of_In, list_elem_of_fmap. by exists i.
  - discriminate Hok. apply list_elem_of_In, list_elem_of_fmap. by exists i.
Qed.

Lemma hashes_ok_keys ks :
  hashes_ok (hash_of_key <$> ks) = true ->
  let hs := city_hash ∘ app_key <$> ks in
  tally_max MEHCACHED_ITEMS_PER_BUCKET (bucket_of <$> hs) = true /\
  tally_max 1 (slot_code <$> hs) = true.
Proof.
  intros Hok hs. assert (all_hashes (hash_of_key <$> ks) = hs) as <-.
  { unfold all_hashes, hs. rewrite <- list_fmap_compose. apply list_fmap_ext. intros j i Hi.
    apply list_elem_of_lookup_2 in Hi. unfold compose. by rewrite (hashes_ok_hash ks). }
  by apply andb_true_iff in Hok as [[_ ?]%andb_true_iff ?].
Qed.

Lemma app_hashes_ok : hashes_ok (hash_of_key <$> app_keys) = true.
Proof. vm_compute. reflexivity. Qed.

Lemma app_key_in i : 0 <= i < NUM_KEYS -> i ∈ app_keys.
Proof. intros Hi. unfold app_keys. by apply elem_of_seqZ. Qed.

Lemma app_key_hash i : 0 <= i < NUM_KEYS -> hash_of_key i = Some (city_hash (app_key i)).
Proof. intros Hi. by apply (hashes_ok_hash app_keys), app_key_in; [apply app_hashes_ok|]. Qed.

(** ** The keys fit the table *)

Lemma filter_fmap_length {A} (f : A -> Z) b l :
  length (filter (eq b) (f <$> l)) = length (filter (fun x => b = f x) l).
Proof.
  induction l as [|x l IH]; [done|]. csimpl. rewrite !filter_cons.
  destruct (decide (b = f x)); csimpl; by rewrite ?IH.
Qed.

(** No bucket gets more keys than it has slots, nor two keys of the same tag. *)
Record keys_fit (h : bytestring -> Z) (ks : list Z) : Prop := {
  kf_buckets : tally_max MEHCACHED_ITEMS_PER_BUCKET (bucket_of <$> (h ∘ app_key <$> ks)) = true;
  kf_tags : tally_max 1 (slot_code <$> (h ∘ app_key <$> ks)) = true }.

Section Fit.
Context (h : bytestring -> Z) (ks : list Z) (Hfit : keys_fit h ks).
Context (t0 : mehcached_table) (Hmask : num_buckets_mask t0 = 255).

Definition is_key_of (K : bytestring) : Prop := exists i, i ∈ ks /\ K = app_key i.

Lemma app_bucket K : key_bucket h t0 K = bucket_of (h K).
Proof. unfold key_bucket, mehcached_calc_bucket_index. by rewrite Hmask. Qed.

Lemma keys_distinct K K' :
  is_key_of K -> is_key_of K' -> key_bucket h t0 K = key_bucket h t0 K' ->
  key_tag h K = key_tag h K' -> K = K'.
Proof.
  intros (i & Hi & ->) (j & Hj & ->). rewrite !app_bucket. intros Hb Ht.
  pose proof (tally_NoDup _ (kf_tags _ _ Hfit)) as Hnd. rewrite <- list_fmap_compose in Hnd.
  apply list_elem_of_lookup in Hi as [x Hx], Hj as [y Hy].
  assert (x = y) as <-; [|by rewrite Hx in Hy; injection Hy as ->].
  unfold key_tag in Ht. pose proof (slot_code_eq _ _ Hb Ht) as Hc.
  apply (NoDup_lookup _ _ _ (slot_code (h (app_key i))) Hnd);
    rewrite list_lookup_fmap; [rewrite Hx|rewrite Hc, Hy];
    cbn [fmap option_fmap option_map]; unfold compose; reflexivity.
Qed.

Lemma keys_capacity b Ks :
  NoDup Ks -> (forall K, K ∈ Ks -> is_key_of K /\ key_bucket h t0 K = b) ->
  (length Ks <= MEHCACHED_ITEMS_PER_BUCKET)%nat.
Proof.
  intros Hnd HKs. pose proof (kf_buckets _ _ Hfit) as Hm.
  apply (tally_max_spec _ _ b) in Hm. rewrite <- list_fmap_compose, filter_fmap_length in Hm.
  etransitivity; [|exact Hm].
  rewrite <- (length_fmap app_key). apply submseteq_length, NoDup_submseteq; [done|].
  intros K HK. destruct (HKs K HK) as [(i & Hi & ->) Hb]. rewrite app_bucket in Hb.
  apply list_elem_of_fmap. exists i. split; [done|]. by apply list_elem_of_filter.
Qed.
End Fit.

(** ** The set-up stores every key *)

Definition app_table (contents : gmap Z Z) : mehcached_table :=
  Table [Pool 0 0 contents 2097152 2097151 0 0] 0 2097152 (zero_buckets 256) 0 256 255 0 0 0 31.

Lemma mica_table_init_eq contents : mica_table_init contents = Some (app_table contents).
Proof. vm_compute. reflexivity. Qed.

(** The values are whole words, and the 2000 items fit the log. *)
Definition value_size_ok (V : Z) : Prop := 8 <= V <= 1016 /\ V mod 8 = 0.

#[global] Instance value_size_ok_dec V : Decision (value_size_ok V).
Proof. unfold value_size_ok. apply _. Defined.

(** What is stored under each key: [S] has the values, of [V] bytes. *)
Definition app_cache (V : Z) (S : gmap Z (list Z)) (A : cache) : Prop :=
  (forall K X, A !! K = Some X <-> exists i v, K = app_key i /\ 0 <= i < NUM_KEYS /\
    S !! i = Some v /\ X = (v, V)) /\
  (forall i v, S !! i = Some v -> Z.of_nat (length v) = V).

Lemma app_key_inj i j : 0 <= i < NUM_KEYS -> 0 <= j < NUM_KEYS -> app_key i = app_key j -> i = j.
Proof.
  unfold NUM_KEYS. intros Hi Hj Hk. apply (f_equal (fun K : bytestring => le_value K.1)) in Hk.
  unfold app_key, key_bytes in Hk. cbn [fst] in Hk. rewrite !le_value_bytes in Hk.
  change (8 * Z.of_nat 8) with 64 in Hk. rewrite !Z.mod_small in Hk by lia. done.
Qed.

Lemma app_cache_insert V S A i v :
  app_cache V S A -> 0 <= i < NUM_KEYS -> Z.of_nat (length v) = V ->
  app_cache V (<[i := v]> S) (<[app_key i := (v, V)]> A).
Proof.
  intros [HA HS] Hi Hv. split.
  - intros K X. destruct (decide (K = app_key i)) as [->|HK].
    + rewrite lookup_insert_eq. split.
      * intros [= <-]. exists i, v. split; [done|]. split; [done|].
        split; [apply lookup_insert_eq|done].
      * intros (j & w & He & Hj & Hw & ->). apply app_key_inj in He as <-; [|done..].
        rewrite lookup_insert_eq in Hw. by injection Hw as ->.
    + rewrite lookup_insert_ne by done. rewrite HA. split; intros (j & w & -> & Hj & Hw & ->);
        exists j, w; (split; [done|]); (split; [done|]); (split; [|done]).
      * rewrite lookup_insert_ne; [done|]. by intros ->.
      * rewrite lookup_insert_ne in Hw; [done|]. by intros ->.
  - intros j w. destruct (decide (j = i)) as [->|]; [rewrite lookup_insert_eq; by intros [= <-]|].
    rewrite lookup_insert_ne by done. apply HS.
Qed.

Lemma value_padded V v : value_size_ok V -> Z.of_nat (length v) = V ->
  padded v V = (v, V) /\ buf_ok v V /\ MEHCACHED_ROUNDUP8 V = V.
Proof.
  intros [Hr Hm] Hl. assert (MEHCACHED_ROUNDUP8 V = V) as HV by (apply roundup8_id; lia).
  unfold padded, buf_ok. rewrite HV. rewrite take_ge by lia. split; [done|]. split; [lia|done].
Qed.

Section App.
Context (h : bytestring -> Z) (Hh : forall K, 0 <= h K < 2 ^ 64).
Context (Hkey : forall i, 0 <= i < NUM_KEYS -> hash_of_key i = Some (h (app_key i))).
Context (Hfit : keys_fit h app_keys).
Context (contents : gmap Z Z) (V : Z) (HV : value_size_ok V).

Let t0 : mehcached_table := app_table contents.

Definition app_full (t : mehcached_table) (p : mehcached_pool) (L : list (Z * Z)) (A : cache) : Prop :=
  full h (app_table contents) (is_key_of app_keys) t p L A /\ pool_size p = 2097152.

Lemma app_lengths : lengths_ok 8 V.
Proof. destruct HV. unfold lengths_ok, MEHCACHED_MAX_KEY_LENGTH, MEHCACHED_MAX_VALUE_LENGTH. lia. Qed.

Lemma app_item_bytes : item_bytes 8 V = 32 + V.
Proof.
  destruct HV. unfold item_bytes, sizeof_item. change (MEHCACHED_ROUNDUP8 8) with 8.
  rewrite roundup8_id; lia.
Qed.

Lemma app_buf_key i : buf_ok (key_bytes i) 8.
Proof. unfold buf_ok, key_bytes. by rewrite le_bytes_length. Qed.

(** A store of a value of [V] bytes under key [i]. *)
Lemma app_set t p L S A i v ow :
  app_full t p L A -> app_cache V S A -> 0 <= i < NUM_KEYS -> Z.of_nat (length v) = V ->
  (S !! i = None /\ pool_tail p + (32 + V) <= 2097152 \/ ow = true /\ is_Some (S !! i)) ->
  exists t' p' L', mehcached_set 0 t (h (app_key i)) (key_bytes i) 8 v V 0 ow = Some (true, t') /\
    app_full t' p' L' (<[app_key i := (v, V)]> A) /\ app_cache V (<[i := v]> S) (<[app_key i := (v, V)]> A) /\
    pool_tail p' <= pool_tail p + 32 + V.
Proof.
  intros [Hf Hsz] [HA HS] Hi Hv Hcase. destruct (value_padded V v HV Hv) as (Hp & Hb & _).
  destruct (full_set h Hh (app_table contents) (is_key_of app_keys)) with (t := t) (p := p) (L := L)
    (A := A) (key := key_bytes i) (klen := 8) (value := v) (vlen := V) (expire := 0) (ow := ow)
    as (t' & p' & L' & Hset & Hf' & Hs' & Ht').
  - exact (keys_distinct h app_keys Hfit (app_table contents) eq_refl).
  - exact (keys_capacity h app_keys Hfit (app_table contents) eq_refl).
  - done.
  - rewrite app_key_padded. exists i. split; [by apply app_key_in|done].
  - apply app_lengths.
  - apply app_buf_key.
  - done.
  - rewrite app_key_padded, app_item_bytes, Hsz. destruct Hcase as [[Hn Ht]|[-> [w Hw]]].
    + left. split; [|done]. apply eq_None_not_Some. intros [X HX].
      apply HA in HX as (j & w & He & Hj & Hw & _). apply app_key_inj in He as <-; [|done..].
      congruence.
    + right. split; [done|]. exists (w, V). split; [|done]. apply HA. by exists i, w.
  - rewrite app_key_padded, Hp, app_item_bytes in *. exists t', p', L'. split; [done|].
    split; [split; [done|congruence]|]. split; [by apply app_cache_insert|].
    destruct HV. destruct (A !! app_key i); lia.
Qed.

(** [store_defaults] from key [i] on. *)
Lemma store_defaults_spec n : forall i t p L S A,
  app_full t p L A -> app_cache V S A -> 0 <= i -> i + Z.of_nat n = NUM_KEYS ->
  (forall j, is_Some (S !! j) <-> 0 <= j < i) ->
  (forall j v, S !! j = Some v -> v = default_value V) -> pool_tail p <= i * (32 + V) ->
  exists t' p' L' S' A', store_defaults n i V t = Some t' /\ app_full t' p' L' A' /\
    app_cache V S' A' /\ (forall j, 0 <= j < NUM_KEYS -> S' !! j = Some (default_value V)) /\
    (forall j v, S' !! j = Some v -> v = default_value V).
Proof.
  induction n as [|n IH]; intros i t p L S A Hf HS Hi Hn Hdom Hdef Ht; cbn [store_defaults].
  { exists t, p, L, S, A. do 3 (split; [done|]). split; [|done]. intros j Hj.
    destruct (proj2 (Hdom j) ltac:(lia)) as [v Hv]. by rewrite Hv, (Hdef _ _ Hv). }
  assert (0 <= i < NUM_KEYS) as Hir by lia. rewrite (Hkey i Hir). cbn [mbind option_bind].
  assert (Z.of_nat (length (default_value V)) = V) as Hlen.
  { unfold default_value. rewrite length_app, length_replicate. simpl. destruct HV. lia. }
  destruct (app_set t p L S A i (default_value V) false Hf HS Hir Hlen)
    as (t' & p' & L' & -> & Hf' & HS' & Ht').
  { left. split.
    - apply eq_None_not_Some. intros Hs%Hdom. lia.
    - destruct HV. unfold NUM_KEYS in *.
      assert ((i + 1) * (32 + V) <= 2000 * (32 + V)) by (apply Z.mul_le_mono_nonneg_r; lia). lia. }
  cbn [mbind option_bind].
  apply (IH (i + 1) t' p' L' _ _ Hf' HS'); [lia|lia| | |lia].
  - intros j. destruct (decide (j = i)) as [->|].
    + rewrite lookup_insert_eq. split; [lia|by eexists].
    + rewrite lookup_insert_ne, Hdom by done. lia.
  - intros j v. destruct (decide (j = i)) as [->|]; [rewrite lookup_insert_eq; by intros [= <-]|].
    rewrite lookup_insert_ne by done. apply Hdef.
Qed.
Lemma app_get t p L S A i v stack ro :
  app_full t p L A -> app_cache V S A -> 0 <= i < NUM_KEYS -> S !! i = Some v ->
  Z.of_nat (length stack) = V ->
  exists o, mehcached_get 0 t (h (app_key i)) (key_bytes i) 8 stack V ro = Some (o, t) /\
    found o = true /\ out_length o = V /\ out_value o = v.
Proof.
  intros [Hf _] [HA HS] Hi Hv Hst. pose proof (HS _ _ Hv) as Hlv.
  destruct (value_padded V v HV Hlv) as (_ & _ & HrV).
  destruct (full_get h (app_table contents) (is_key_of app_keys)
    (keys_distinct h app_keys Hfit (app_table contents) eq_refl)
    t p L A (key_bytes i) 8 stack V ro (v, V)) as (o & Hget & Hfo & Hl & Hov); [done| | | | | |].
  - unfold MEHCACHED_MAX_KEY_LENGTH. lia.
  - apply app_buf_key.
  - destruct HV. lia.
  - unfold buf_ok. rewrite HrV. lia.
  - rewrite app_key_padded. apply HA. by exists i, v.
  - rewrite app_key_padded in Hget. exists o. split; [done|]. split; [done|].
    cbn [fst snd] in *. rewrite Z.min_id in Hl. split; [done|]. rewrite Hov, Hl, HrV.
    rewrite take_ge, drop_ge by lia. by rewrite app_nil_r.
Qed.

(** ** Packets *)

(** The store of the application after packet number [n], and what the packet becomes: the
    even packets ask for a value, the odd ones bring one. *)
Definition kv_step (n : Z) (S : gmap Z (list Z)) (input : list Z) : gmap Z (list Z) * list Z :=
  let key := n mod NUM_KEYS in
  if Z.even n then (S, default [] (S !! key))
  else let v := <[Z.to_nat (V - 1) := 0]> input in (<[key := v]> S, v).

(** The state of the application after [n] packets. *)
Definition mica_inv (n : Z) (a : mica_app) (S : gmap Z (list Z)) : Prop :=
  exists t p L A, a = MicaApp t app_keys (n mod NUM_KEYS) (Z.odd n) V /\
    app_full t p L A /\ app_cache V S A /\
    (forall j, 0 <= j < NUM_KEYS -> is_Some (S !! j)) /\
    (forall j v, S !! j = Some v -> Forall (fun b => 0 <= b < 2 ^ 8) v).

(** A packet with room for a request, and the stack that the handler finds. *)
Definition request_ok (stack : list Z) (m : mem) (data udp : Z) : Prop :=
  udp_of m data = Some udp /\ mapped m udp (16 + V) /\ bytes_ok m /\
  Z.of_nat (length stack) = V.

Lemma app_keys_lookup k : 0 <= k < NUM_KEYS -> app_keys !! Z.to_nat k = Some k.
Proof. intros Hk. apply lookup_seqZ. lia. Qed.

Lemma bind_ret {A B} (x : A) (f : A -> option B) : Some x ≫= f = f x.
Proof. reflexivity. Qed.

(** The handler, its key and its hash at hand. *)
Lemma mica_packet_unfold ks t k fl stack m data length_ addr udp x y :
  ks !! Z.to_nat k = Some k -> 0 <= k < NUM_KEYS -> udp_of m data = Some udp -> load 2 m (udp_len udp) = Some x ->
  load 8 m (udp + 8) = Some y ->
  process_packet_mica stack m (MicaApp t ks k fl V) data length_ addr =
    if negb fl then
      '(o, t) ← mehcached_get 0 t (h (app_key k)) (key_bytes k) 8 stack V false;
      if found o && negb (out_length o =? V) then None else
      m ← store_bytes m (udp + 16) (out_value o);
      Some (m, MicaApp t ks ((k + 1) mod NUM_KEYS) true V)
    else
      value ← load_bytes (Z.to_nat V) m (udp + 16);
      let value := <[Z.to_nat (V - 1) := 0]> value in
      '(ok, t) ← mehcached_set 0 t (h (app_key k)) (key_bytes k) 8 value V 0 true;
      if negb ok then None else
      m ← store_bytes m (udp + 16) value;
      Some (m, MicaApp t ks ((k + 1) mod NUM_KEYS) false V).
Proof.
  intros Hks Hk Hudp Hx Hy. unfold process_packet_mica. rewrite Hudp, bind_ret. cbv zeta.
  rewrite Hx, bind_ret. change (udp + sizeof_udphdr) with (udp + 8). rewrite Hy, bind_ret.
  cbn [mica_table default_keys keys_index flag VALUE_SIZE].
  rewrite Hks, bind_ret, (Hkey k Hk), bind_ret, <- (Z.add_assoc udp 8 8). by destruct fl.
Qed.

Lemma mica_packet_spec n a S stack m data length_ addr udp :
  0 <= n -> mica_inv n a S -> request_ok stack m data udp ->
  exists input m' a', load_bytes (Z.to_nat V) m (udp + 16) = Some input /\
    process_packet_mica stack m a data length_ addr = Some (m', a') /\
    mica_inv (n + 1) a' (kv_step n S input).1 /\
    load_bytes (Z.to_nat V) m' (udp + 16) = Some (kv_step n S input).2 /\
    same_except m m' (udp + 16) V.
Proof.
  intros Hn (t & p & L & A & -> & Hf & HS & Hdom & Hbyte) (Hudp & Hmap & Hok & Hstack).
  pose proof (Z.mod_pos_bound n NUM_KEYS ltac:(done)) as Hi. set (i := n mod NUM_KEYS) in *.
  pose proof HV as [HV1 HV2].
  destruct (load_bytes_Some (Z.to_nat V) m (udp + 16)) as [input Hin];
    [eapply mapped_sub; [done|lia..]|].
  destruct (load_Some 2 m (udp_len udp)) as [x Hx];
    [eapply mapped_sub; [done|unfold udp_len; lia..]|].
  destruct (load_Some 8 m (udp + 8)) as [y Hy];
    [eapply mapped_sub; [done|lia..]|].
  pose proof (proj1 (load_bytes_lookup _ _ _ _) Hin) as [Hlin _].
  rewrite (mica_packet_unfold app_keys t i _ _ _ _ _ _ udp x y (app_keys_lookup i Hi) Hi Hudp Hx Hy).
  assert ((i + 1) mod NUM_KEYS = (n + 1) mod NUM_KEYS) as Hnext
    by (unfold i; by rewrite Zplus_mod_idemp_l).
  assert (negb (Z.odd n) = Z.odd (n + 1)) as Hflag by (rewrite Z.odd_add; by destruct (Z.odd n)).
  assert (Z.even n = Z.odd (n + 1)) as Heven by (by rewrite <- Z.negb_odd).
  unfold kv_step. fold i. rewrite Hflag, Hnext, Heven.
  destruct (Z.odd (n + 1)) eqn:Hodd.
  - destruct (Hdom i Hi) as [v Hv]. rewrite Hv. cbn [default fst snd].
    destruct (app_get t p L S A i v stack false Hf HS Hi Hv Hstack) as (o & -> & Hfo & Hlo & Hvo).
    cbn [mbind option_bind]. rewrite Hfo, Hlo, Z.eqb_refl. cbn [negb andb]. rewrite Hvo.
    pose proof (proj2 HS _ _ Hv) as Hlv.
    destruct (store_bytes_Some v m (udp + 16)) as [m' Hm'];
      [eapply mapped_sub; [done|lia..]|].
    rewrite Hm'. cbn [mbind option_bind]. exists input, m'. eexists. split; [done|].
    split; [done|]. split; [exists t, p, L, A; by rewrite Hodd|].
    replace (Z.to_nat V) with (length v) by lia. split; [by eapply load_store_bytes, Hbyte|].
    rewrite <- Hlv. by apply store_bytes_spec.
  - cbn [fst snd]. rewrite Hin. cbn [mbind option_bind].
    set (v := <[Z.to_nat (V - 1) := 0]> input).
    assert (Z.of_nat (length v) = V) as Hlv by (unfold v; rewrite length_insert; lia).
    assert (Forall (fun b => 0 <= b < 2 ^ 8) v) as Hbv.
    { apply Forall_insert; [by eapply load_bytes_range|lia]. }
    destruct (app_set t p L S A i v true Hf HS Hi Hlv) as (t' & p' & L' & -> & Hf' & HS' & _);
      [right; split; [done|by apply Hdom]|].
    cbn [mbind option_bind negb].
    destruct (store_bytes_Some v m (udp + 16)) as [m' Hm'];
      [eapply mapped_sub; [done|lia..]|].
    rewrite Hm'. cbn [mbind option_bind]. exists input, m'. eexists. split; [done|].
    split; [done|]. split.
    { exists t', p', L', (<[app_key i := (v, V)]> A). rewrite Hodd. split; [done|].
      split; [done|]. split; [done|]. split; intros j.
      - intros Hj. destruct (decide (j = i)) as [->|]; [rewrite lookup_insert_eq; by eexists|].
        rewrite lookup_insert_ne by done. by apply Hdom.
      - intros w. destruct (decide (j = i)) as [->|]; [rewrite lookup_insert_eq; by intros [= <-]|].
        rewrite lookup_insert_ne by done. apply Hbyte. }
    replace (Z.to_nat V) with (length v) by lia. split; [by eapply load_store_bytes|].
    rewrite <- Hlv. by apply store_bytes_spec.
Qed.

(** The empty table is full of nothing. *)
Lemma app_full_init t p :
  mica_table_init contents = Some t -> fresh h t p -> app_full t p [] ∅.
Proof.
  rewrite mica_table_init_eq. intros [= <-] [Hinv Hver Hlk Htl Hmth].
  pose proof (ti_alloc _ _ _ _ _ _ Hinv) as [= <-].
  split; [|done]. split; try done.
Qed.

(** The state that [main] sets up. *)
Lemma mica_setup_spec :
  exists a S, mica_setup contents V = Some a /\ mica_inv 0 a S /\
    forall j, 0 <= j < NUM_KEYS -> S !! j = Some (default_value V).
Proof.
  destruct (table_init_fresh h contents mica_buckets mica_pool_size false false false 1 1)
    as (t & p & Ht & Hfr & _); [done..|].
  destruct (store_defaults_spec (Z.to_nat NUM_KEYS) 0 t p [] ∅ ∅)
    as (t' & p' & L' & S' & A' & Hst & Hf & HS & Hdef & Hval).
  { by apply app_full_init. }
  { split; [|by intros i v; rewrite lookup_empty].
    intros K X. rewrite lookup_empty. split; [done|]. intros (i & v & _ & _ & Hi & _).
    by rewrite lookup_empty in Hi. }
  1-2: done.
  { intros j. rewrite lookup_empty. split; [by intros []|lia]. }
  { intros j v. by rewrite lookup_empty. }
  { by rewrite (fr_tail _ _ _ Hfr). }
  exists (MicaApp t' app_keys 0 false V), S'. unfold mica_setup, mica_table_init.
  rewrite Ht, bind_ret, Hst, bind_ret. split; [done|]. split; [|done].
  exists t', p', L', A'. split; [done|]. split; [done|]. split; [done|].
  split; [intros j Hj; rewrite Hdef by done; by eexists|].
  intros j v ->%Hval. unfold default_value. apply Forall_app. split; [|by repeat constructor].
  by apply Forall_replicate.
Qed.

(** ** Runs *)

(** A request: the stack garbage, the memory, the address of the packet and of its UDP
    header. *)
Record request := Request { rq_stack : list Z; rq_mem : mem; rq_data : Z; rq_udp : Z }.

(** The application serves requests one after the other; each leaves its memory. *)
Fixpoint mica_serve (a : mica_app) (rqs : list request) : option (list mem * mica_app) :=
  match rqs with
  | [] => Some ([], a)
  | rq :: rqs =>
      '(m, a) ← process_packet_mica (rq_stack rq) (rq_mem rq) a (rq_data rq) 0 0;
      '(ms, a) ← mica_serve a rqs;
      Some (m :: ms, a)
  end.

(** The same by a key-value store: request [n] reads or writes the value of key
    [n mod 2000], and its packet then holds the value. *)
Definition value_in (m : mem) (rq : request) : option (list Z) :=
  load_bytes (Z.to_nat V) m (rq_udp rq + 16).

Inductive kv_serve : Z -> gmap Z (list Z) -> list request -> list mem -> Prop :=
  | kv_done n S : kv_serve n S [] []
  | kv_next n S rq rqs input m ms :
      value_in (rq_mem rq) rq = Some input ->
      value_in m rq = Some (kv_step n S input).2 ->
      same_except (rq_mem rq) m (rq_udp rq + 16) V ->
      kv_serve (n + 1) (kv_step n S input).1 rqs ms -> kv_serve n S (rq :: rqs) (m :: ms).

Definition rq_ok (rq : request) : Prop := request_ok (rq_stack rq) (rq_mem rq) (rq_data rq) (rq_udp rq).

Lemma mica_serve_spec rqs : forall n a S,
  0 <= n -> mica_inv n a S -> Forall rq_ok rqs ->
  exists ms a', mica_serve a rqs = Some (ms, a') /\ kv_serve n S rqs ms.
Proof.
  induction rqs as [|rq rqs IH]; intros n a S Hn Hinv Hok.
  { exists [], a. split; [done|constructor]. }
  apply Forall_cons in Hok as [Hrq Hok]. cbn [mica_serve].
  destruct (mica_packet_spec n a S _ _ _ 0 0 _ Hn Hinv Hrq)
    as (input & m & a1 & Hin & Hp & Hinv1 & Hout & Hsame).
  destruct (IH (n + 1) a1 _ ltac:(lia) Hinv1 Hok) as (ms & a2 & Hr & Hkv).
  exists (m :: ms), a2. rewrite Hp, bind_ret, Hr, bind_ret. split; [done|]. by econstructor.
Qed.

End App.

Lemma app_keys_fit : keys_fit city_hash app_keys.
Proof. destruct (hashes_ok_keys _ app_hashes_ok). split; assumption. Qed.

(** C6: The MICA application never fails and never misses.  Whatever [VALUE_SIZE] (a
    multiple of 8 up to 1016) and whatever the pages of the log hold, [main] stores its
    2000 keys, and any sequence of packets with room for a request is served without a
    fault, a failed assertion or an endless loop: an even packet leaves with the value last
    stored under its key, an odd one stores its own value, cut by a final zero, and nothing
    but the value field of the packet is written. *)
Theorem mica_app_serves contents V rqs :
  value_size_ok V -> Forall (rq_ok V) rqs ->
  exists a S ms a', mica_setup contents V = Some a /\
    (forall j, 0 <= j < NUM_KEYS -> S !! j = Some (default_value V)) /\
    mica_serve a rqs = Some (ms, a') /\ kv_serve V 0 S rqs ms.
Proof.
  intros HV Hok.
  destruct (mica_setup_spec city_hash city_hash_range app_key_hash app_keys_fit contents V HV)
    as (a & S & Ha & Hinv & HS).
  destruct (mica_serve_spec city_hash city_hash_range app_key_hash app_keys_fit contents V HV rqs
    0 a S (Z.le_refl 0) Hinv Hok) as (ms & a' & Hr & Hkv).
  exists a, S, ms, a'. split; [exact Ha|]. split; [exact HS|]. split; [exact Hr|exact Hkv].
Qed.

(** A packet of 66 bytes with a header of five words. *)
Definition sample_packet : list Z := replicate 14 0 ++ [0x45] ++ replicate 51 7.
Definition sample_request : request := Request (replicate 8 0) (mem_of 0 sample_packet) 0 34.

Lemma sample_request_ok : rq_ok 8 sample_request.
Proof.
  split; [done|]. split; [|split; [|done]].
  - eapply mapped_sub; [apply (mem_of_mapped 0 sample_packet)|cbn; lia..].
  - apply mem_of_bytes_ok. apply (bool_decide_unpack (Forall _ sample_packet)). vm_compute. exact I.
Qed.

Lemma mica_app_serves_witness :
  exists a S ms a', mica_setup ∅ 8 = Some a /\
    (forall j, 0 <= j < NUM_KEYS -> S !! j = Some (default_value 8)) /\
    mica_serve a [sample_request; sample_request] = Some (ms, a') /\
    kv_serve 8 0 S [sample_request; sample_request] ms.
Proof.
  apply (mica_app_serves ∅ 8 [sample_request; sample_request]).
  - apply (bool_decide_unpack (value_size_ok 8)). vm_compute. exact I.
  - apply Forall_cons. split; [exact sample_request_ok|]. apply Forall_cons.
    split; [exact sample_request_ok|constructor].
Defined.
