(* ===== verification/Progress.v ===== *)
(** * Every batch is served

    The loops of the data path that wait for room never wait in the states that application
    and kernel can reach: there is one buffer for each entry, so the fill ring always has room
    for the buffers of a batch.  What is left is that the handler does not fault. *)
From S2P Require Import Prelude Mem Packet XskRing FillQueue HashMap LoadBalancer DataPath Buffers QueueSpec.
From S2P Require Import CityHash PoolAlloc MicaTable Apps AppTypes MicaApp.

Section progress.
Context {App : Type} `{!Handler App} (o : options) (frame : Z -> Z) (P : App -> Prop).
Implicit Types w : world App.

Hypothesis Hbatch : 0 < o.(opt_batch_size) < 2 ^ 31.
Hypothesis Htype : o.(opt_application_type) <> 6.
Hypothesis Hdebug : o.(opt_debug_addr) = false.

(** The handler takes the packet of the descriptor, in every state of the application. *)
Definition handles w (d : xdp_desc) : Prop :=
  let addr := xsk_umem__add_offset_to_addr d.(desc_addr) in
  forall a, P a -> exists a',
    process_packet o.(opt_application_type) a (xsk_umem__get_data w.(buffer) addr) d.(desc_len) addr = Some a' /\
    P a'.

Definition calm w w' : Prop := P w'.(app) /\ w'.(buffer) = w.(buffer).

Lemma receive_desc_total w w1 b d : handles w d -> calm w w1 ->
  exists w2 b2, receive_desc o w1 b d = Some (w2, b2) /\ calm w w2.
Proof.
  intros Hd [Hp Hb]. unfold receive_desc. rewrite Hdebug, Hb.
  destruct (nb_frags_rx w1 =? 0); cbn [mbind option_bind].
  - destruct (Hd _ Hp) as (a & -> & Ha). cbn. destruct (IS_EOP_DESC _); by eexists _, _.
  - destruct (IS_EOP_DESC _); by eexists _, _.
Qed.

Lemma forward_desc_total w w1 b d : handles w d -> calm w w1 ->
  exists w2 b2, forward_desc o w1 b d = Some (w2, b2) /\ calm w w2.
Proof.
  intros Hd [Hp Hb]. unfold forward_desc. rewrite Hb.
  destruct (nb_frags_fwd w1 =? 0); cbn [mbind option_bind].
  - destruct (Hd _ Hp) as (a & -> & Ha). cbn. destruct (IS_EOP_DESC _); by eexists _, _.
  - destruct (IS_EOP_DESC _); by eexists _, _.
Qed.

Lemma process_all_total f w ds : forall w1 b,
  (forall w1 b d, handles w d -> calm w w1 -> exists w2 b2, f w1 b d = Some (w2, b2) /\ calm w w2) ->
  Forall (handles w) ds -> calm w w1 ->
  exists w2 b2, process_all f ds w1 b = Some (w2, b2) /\ calm w w2.
Proof.
  induction ds as [|d ds IH]; intros w1 b Hf Hds Hw; cbn [process_all]; [by exists w1, b|].
  apply Forall_cons in Hds as [Hd Hds]. destruct (Hf w1 b d Hd Hw) as (w2 & b2 & -> & Hw2).
  by apply IH.
Qed.

(** A batch is a part of what is pending. *)
Lemma window_prefix {A} `{Inhabited A} (r : xsk_ring A) a n m (Q : A -> Prop) :
  0 <= m <= n -> Forall Q (window r a n) -> Forall Q (window r a m).
Proof. intros Hm. rewrite (window_split r a n m) by lia. by intros [? _]%Forall_app. Qed.

Definition pending_packets w : list xdp_desc := span w.(rx) w.(rx).(cached_cons) w.(rx).(producer).

Lemma packets_window w rc rcc rcp rp :
  cons_inv w.(rx) rc rcc rcp rp -> pending_packets w = window w.(rx) rcc (rp - rcc).
Proof.
  intros Hrx. pose proof Hrx as [Hwf _ Hcc _ Hp Ho]. pose proof (wf_size_bounds _ Hwf).
  unfold pending_packets. rewrite Hcc, Hp. apply span_window; [done|lia].
Qed.

Lemma receive_total all w h f :
  inv o frame all (Sys w h f) -> forwards o = false -> warm_ok o w = true -> P w.(app) ->
  Forall (handles w) (pending_packets w) ->
  exists w', receive o [] w = Some (w', []) /\ P w'.(app).
Proof.
  intros (fc0&fc&fp&tc0&tc&tp&tq&rc&rcc&rcp&rp&cc&cp&pc&Hsi) Hmode Hwarm Hp Hds.
  pose proof (sys_inv_sizes o frame _ _ _ _ _ _ _ _ _ _ _ _ _ _ _ _ Hsi) as (Hsize & Hord).
  destruct Hsi as [Hfq Htx Hrx Hcq Hfit Hsm Hfr Hout Htot]. rewrite Hmode in Hfr.
  cbn [s_world s_held s_inflight] in *. rewrite (packets_window w rc rcc rcp rp Hrx) in Hds.
  destruct (receive_lemma o [] w fc0 fc fp rc rcc rcp rp) as (rx1 & n & Hn & Hn' & _ & _ & H);
    [done|done|done|done|lia|by eapply warm_ok_spec|].
  cbv zeta in H. destruct (decide (n = 0)) as [->|Hn0].
  - destruct H as (rcp' & -> & _). eexists. split; [done|]. unfold count_rx_empty. by destruct (must_wake _ _).
  - destruct (process_all_total (receive_desc o) w (window w.(rx) rcc n) w (Batch 0 0))
      as (w1 & b & Hall & Hp1 & _); [apply receive_desc_total|by eapply window_prefix; [|exact Hds]; lia|done|].
    rewrite Hall in H. destruct H as (w' & c0' & rcp' & -> & H). exists w'. split; [done|].
    by destruct H as (_ & _ & _ & _ & _ & _ & _ & -> & _).
Qed.

Lemma forward_total all w h f :
  inv o frame all (Sys w h f) -> forwards o = true -> warm_ok o w = true -> tx_room o w = true ->
  P w.(app) -> Forall (handles w) (pending_packets w) ->
  exists w', forward o [] w = Some (w', []) /\ P w'.(app).
Proof.
  intros Hinv Hmode Hwarm Hroom Hp Hds.
  destruct (inv_complete_tx o frame Hbatch Htype all w h f Hinv Hwarm) as (w0 & Hc & Hinv0 & Htx0 & Hrx0 & Hap & Hbu & _).
  destruct Hinv0 as (fc0&fc&fp&tc0&tc&tp&tq&rc&rcc&rcp&rp&cc&cp&pc&Hsi).
  pose proof (sys_inv_sizes o frame _ _ _ _ _ _ _ _ _ _ _ _ _ _ _ _ Hsi) as (Hsize & Hord).
  destruct Hsi as [Hfq Htx Hrx Hcq Hfit Hsm Hfr Hout Htot]. rewrite Hmode in Hfr.
  cbn [s_world s_held s_inflight] in *.
  assert (tx_room o w0 = true) as Hroom0 by (unfold tx_room in *; by rewrite Htx0, Hrx0).
  assert (Forall (handles w0) (pending_packets w0)) as Hds0.
  { unfold pending_packets. rewrite Hrx0. eapply Forall_impl; [exact Hds|]. intros d. unfold handles. by rewrite Hbu. }
  rewrite (packets_window w0 rc rcc rcp rp Hrx) in Hds0.
  destruct (forward_lemma o [] w w0 tc0 tc tp tq rc rcc rcp rp) as (rx1 & n & Hn & Hn' & _ & _ & H);
    [done|done|done|done|lia|lia|by eapply tx_room_spec|lia|].
  cbv zeta in H. destruct (decide (n = 0)) as [->|Hn0].
  - destruct H as (rcp' & -> & _). eexists. split; [done|]. unfold count_rx_empty.
    destruct (must_wake _ _); cbn; by rewrite Hap.
  - destruct (process_all_total (forward_desc o) w0 (window w0.(rx) rcc n) w0 (Batch 0 0))
      as (w1 & b & Hall & Hp1 & _); [apply forward_desc_total|by eapply window_prefix; [|exact Hds0]; lia| |].
    { split; [by rewrite Hap|done]. }
    rewrite Hall in H. destruct H as (w' & c0' & rcp' & -> & H). exists w'. split; [done|].
    by destruct H as (_ & _ & _ & _ & _ & _ & _ & -> & _).
Qed.

Lemma serve_total all w h f :
  inv o frame all (Sys w h f) -> warm_ok o w = true -> tx_room o w = true ->
  P w.(app) -> Forall (handles w) (pending_packets w) ->
  exists w', serve o 0 [] w = Some (w', []) /\ P w'.(app).
Proof.
  intros Hinv Hwarm Hroom Hp Hds. unfold serve. fold (forwards o). destruct (forwards o) eqn:Hmode.
  - by eapply forward_total.
  - rewrite (proj2 (Z.eqb_neq _ 6)) by done. by eapply receive_total.
Qed.
End progress.

(** ** Runs in which the kernel delivers packets inside the UMEM *)

Section runs.
Context {App : Type} `{!Handler App} (o : options) (frame : Z -> Z) (P : App -> Prop).
Context (inside : world App -> xdp_desc -> Prop).

Hypothesis Hbatch : 0 < o.(opt_batch_size) < 2 ^ 31.
Hypothesis Htype : o.(opt_application_type) <> 6.
Hypothesis Hdebug : o.(opt_debug_addr) = false.
Hypothesis Hhandles : forall w d, inside w d -> handles o P w d.

Definition packets_inside (s : sys) : Prop := Forall (inside s.(s_world)) (pending_packets s.(s_world)).

(** [reachable], with what waits in the RX ring inside the UMEM all the way. *)
Definition reachable_inside : sys -> sys -> Prop :=
  rtc (fun s s' => step o frame s s' /\ packets_inside s').

Record good (all : gmultiset.gmultiset Z) (s : sys) : Prop := {
  gd_inv : inv o frame all s;
  gd_app : P s.(s_world).(app);
  gd_packets : packets_inside s }.

Lemma good_serve all s :
  good all s -> warm_ok o s.(s_world) = true -> tx_room o s.(s_world) = true ->
  exists w', serve o 0 [] s.(s_world) = Some (w', []) /\ P w'.(app).
Proof.
  destruct s as [w h f]. intros [Hinv Hp Hds] Hwarm Hroom. cbn [s_world] in *.
  eapply serve_total; try done. eapply Forall_impl; [exact Hds|]. apply Hhandles.
Qed.

Lemma good_step all s s' : good all s -> step o frame s s' -> packets_inside s' -> good all s'.
Proof.
  intros Hg Hs Hin. split; [by eapply inv_step; [..|apply Hg|]| |done].
  destruct Hs as [w w' h f ks Hw Ht Hse|w h f n Hn|w h1 a h2 f d Hd Hq|w h f n Hn|w h f1 a f2 Hq];
    try apply Hg. destruct (good_serve all _ Hg Hw Ht) as (w2 & H2 & Hp). cbn [s_world] in *.
  rewrite Hse in H2. by injection H2 as -> _.
Qed.

Lemma good_run all s s' : good all s -> reachable_inside s s' -> good all s'.
Proof.
  intros Hg Hr. revert Hg. induction Hr as [|s s1 s' [Hs Hin] _ IH]; [done|]. intros Hg.
  apply IH. by eapply good_step.
Qed.
End runs.

(** ** The applications on a mapped UMEM *)

Section mapped_umem.
Context (T lo n : Z) (contents : gmap Z Z) (V : Z).

(** The bytes that a handler looks at: the headers at their largest, a request of MICA. *)
Definition room : Z := if T =? 4 then 90 + V else 76.

(** The packet, and what the handler looks at, lie in the UMEM. *)
Definition inside_umem (w : world toasty_app) (d : xdp_desc) : Prop :=
  let pkt := xsk_umem__get_data w.(buffer) (xsk_umem__add_offset_to_addr d.(desc_addr)) in
  lo <= pkt /\ pkt + Z.max room d.(desc_len) <= lo + n /\ 0 <= d.(desc_len) < 2 ^ 32.

(** [load_services] and the set-up of MICA have been through; the UMEM is mapped. *)
Record started (a : toasty_app) : Prop := {
  st_umem : mapped (umem a) lo n;
  st_mica : T = 4 -> value_size_ok V /\ mica_setup contents V = Some (mica a) /\ bytes_ok (umem a) /\
    Z.of_nat (length (stack_garbage a)) = V;
  st_maglev : T = 5 -> exists nb sessions gs, 0 < nb < 2 ^ 31 /\ hm_rep_n sizeof_session_id sessions gs /\
    toasty_load_services nb sessions = Some (maglev_state a) }.

(** What holds from then on. *)
Record ready (a : toasty_app) : Prop := {
  rd_umem : mapped (umem a) lo n;
  rd_mica : T = 4 -> value_size_ok V /\ bytes_ok (umem a) /\ Z.of_nat (length (stack_garbage a)) = V /\
    exists k S, 0 <= k /\ mica_inv city_hash contents V k (mica a) S;
  rd_maglev : T = 5 -> services_have_tables (maglev_state a) }.

Lemma started_ready a : started a -> ready a.
Proof.
  intros [Hm H4 H5]. split; [done|..].
  - intros HT. destruct (H4 HT) as (HV & Hset & Hb & Hst). split; [done|]. split; [done|]. split; [done|].
    destruct (mica_setup_spec city_hash city_hash_range app_key_hash app_keys_fit contents V HV)
      as (a0 & S & Ha0 & Hinv & _). exists 0, S. split; [done|].
    rewrite Hset in Ha0. by injection Ha0 as ->.
  - intros HT. destruct (H5 HT) as (nb & sessions & gs & Hnb & Hs & Hl). by eapply loaded_have_tables.
Qed.

Definition app_fits : Prop := T = 0 \/ T = 1 \/ T = 3 \/ T = 4 \/ T = 5.

(** The handlers take every packet inside the UMEM. *)
Lemma mica_total a data length addr :
  T = 4 -> ready a -> mapped (umem a) data (90 + V) ->
  exists m c, process_packet_mica (stack_garbage a) (umem a) (mica a) data length addr = Some (m, c) /\
    exists k S, 0 <= k /\ mica_inv city_hash contents V k c S.
Proof.
  intros HT [_ H4 _] Hm. destruct (H4 HT) as (HV & Hb & Hst & k & S & Hk & Hinv).
  destruct HV as [HV1 HV2].
  destruct (Hm (ip_of data)) as [x Hx]; [unfold ip_of, sizeof_ether_header; lia|]. pose proof (nibble_range x).
  destruct (mica_packet_spec city_hash city_hash_range app_key_hash app_keys_fit contents V (conj HV1 HV2)
    k (mica a) S (stack_garbage a) (umem a) data length addr (data + 14 + (x &' 15) * 4) Hk Hinv)
    as (input & m & c & _ & Hp & Hinv' & _).
  { split; [by apply udp_of_Some|]. split; [eapply mapped_sub; [exact Hm|lia..]|done]. }
  exists m, c. split; [exact Hp|]. exists (k + 1), (kv_step V k S input).1. split; [lia|done].
Qed.

Lemma ready_handles w d : app_fits -> inside_umem w d -> forall o, o.(opt_application_type) = T -> handles o ready w d.
Proof.
  intros Happ (H1 & H2 & H3) o HTo a Hr. rewrite HTo. cbv zeta in *.
  set (pkt := xsk_umem__get_data _ _) in *. set (addr := xsk_umem__add_offset_to_addr _) in *.
  pose proof (rd_umem a Hr) as Hm. assert (76 <= room) as Hroom.
  { unfold room. destruct (Z.eqb_spec T 4) as [HT|]; [|done]. destruct (rd_mica a Hr HT) as [[? _] _]. lia. }
  assert (mapped (umem a) pkt 76) as Hm76 by (eapply mapped_sub; [exact Hm|lia..]).
  assert (forall a', toasty_process_packet T a pkt d.(desc_len) addr = Some a' ->
    (T = 4 -> exists k S, 0 <= k /\ mica_inv city_hash contents V k (mica a') S) ->
    (T = 5 -> services_have_tables (maglev_state a')) -> ready a') as Hready.
  { intros a' Ha' H4 H5. split; [|intros HT|done].
    - intros x Hx. apply (sl_cells _ _ (process_packet_layout _ _ _ _ _ _ Ha')). by apply Hm.
    - destruct (rd_mica a Hr HT) as (HV & Hb & Hst & _). split; [done|].
      destruct (process_packet_cells _ _ _ _ _ _ Ha') as [[_ Hk] Hg]. split; [by apply Hk|].
      split; [by rewrite Hg|by apply H4]. }
  change (process_packet T a pkt d.(desc_len) addr) with (toasty_process_packet T a pkt d.(desc_len) addr).
  assert (exists a', toasty_process_packet T a pkt d.(desc_len) addr = Some a' /\
    (T = 4 -> exists k S, 0 <= k /\ mica_inv city_hash contents V k (mica a') S) /\
    (T = 5 -> services_have_tables (maglev_state a'))) as (a' & Ha' & H4 & H5); [|exists a'; by split; [|apply Hready]].
  unfold toasty_process_packet. cbv zeta. destruct Happ as [HT|[HT|[HT|[HT|HT]]]]; rewrite HT; cbn [Z.eqb Pos.eqb].
  - destruct (nat_total (umem (count_packet a)) pkt d.(desc_len) addr) as [m ->]; [done|]. by eexists.
  - destruct (ids_total (umem (count_packet a)) pkt d.(desc_len) addr (dummy_count (count_packet a))) as [x ->];
      [lia|eapply mapped_sub; [exact Hm|lia..]|]. by eexists.
  - destruct (l2fwd_total (umem (count_packet a)) pkt d.(desc_len) addr) as [m ->];
      [eapply mapped_sub; [exact Hm76|lia..]|]. by eexists.
  - destruct (mica_total a pkt d.(desc_len) addr HT Hr) as (m & c & Hp & Hinv).
    { unfold room in H2. rewrite HT in H2. cbn [Z.eqb Pos.eqb] in H2. eapply mapped_sub; [exact Hm|lia..]. }
    exists (set_mica (count_packet a) m c). cbn [stack_garbage umem mica count_packet]. by rewrite Hp.
  - destruct (maglev_total (maglev_state a) (umem a) pkt d.(desc_len) addr) as (st & Hp & Hst);
      [by apply rd_maglev|done|].
    exists (set_maglev (count_packet a) st). cbn [maglev_state umem count_packet]. by rewrite Hp.
Qed.
End mapped_umem.

Lemma start_packets {App} `{!Handler App} inside fill comp rxs txs buf num mult (a : App) w1 :
  pow2 fill -> pow2 rxs -> 0 < num < 2 ^ 31 ->
  xsk_populate_fill_ring num mult (init_world fill comp rxs txs buf a) = Some w1 ->
  packets_inside inside (Sys w1 [] []) /\ w1.(app) = a.
Proof.
  intros Hf Hr Hnum Hpop.
  destruct (populate_spec fill comp rxs txs buf num mult a w1) as (_ & c0 & _ & _ & _ & ->); [done|lia|done|].
  split; [|done]. unfold packets_inside, pending_packets, span. cbn [s_world rx set_fq init_world].
  unfold create_rx_ring. cbn. constructor.
Qed.

(** C2: Every batch gets through.  For NAT, IDS, L2 forwarding, MICA and the load balancer
    (types 0, 1, 3, 4, 5), from the state that [main] sets up: powers of two as ring sizes,
    1 to 2^31 - 1 buffers, a batch size of 1 to 2^31 - 1, the address counting of
    [opt_debug_addr] off, a UMEM mapped at [lo, lo + n); for MICA a VALUE_SIZE that is a multiple
    of 8 from 8 to 1016 (with other values [mehcached_get] fails its assertion or the copies
    of 8 bytes overrun), a store that [mica_setup] filled and a request buffer of VALUE_SIZE
    bytes; for the load balancer a successful [load_services] of 1 to 2^31 - 1 backends.  In
    every state that program and kernel reach by steps of C1 in which every pending packet
    lies in the UMEM with room for the headers, or for a MICA request, if in warm mode the
    next exchange starts at a buffer still in the fill queue ([warm_ok]) and a forwarding
    round has room in the TX ring ([tx_room]), the next round of [receive_all] serves its
    batch without waiting for the kernel, without a fault and without a failed assertion,
    whatever the packets hold. *)
Theorem toasty_batch_is_served o frame fill comp rxs txs buf num mult (a : toasty_app) w1 s lo n contents V :
  pow2 fill -> pow2 comp -> pow2 rxs -> pow2 txs -> 0 < num < 2 ^ 31 ->
  0 < o.(opt_batch_size) < 2 ^ 31 -> o.(opt_debug_addr) = false ->
  app_fits o.(opt_application_type) -> started o.(opt_application_type) lo n contents V a ->
  xsk_populate_fill_ring num mult (init_world fill comp rxs txs buf a) = Some w1 ->
  reachable_inside o frame (inside_umem o.(opt_application_type) lo n V) (Sys w1 [] []) s ->
  warm_ok o s.(s_world) = true -> tx_room o s.(s_world) = true ->
  exists w', serve o 0 [] s.(s_world) = Some (w', []).
Proof.
  intros Hf Hc Hr Ht Hnum Hb Hdebug Happ Hst Hpop Hreach Hwarm Hroom.
  set (T := o.(opt_application_type)) in *.
  assert (o.(opt_application_type) <> 6) as Htype by (fold T; destruct Happ as [->|[->|[->|[->| ->]]]]; done).
  set (inside := inside_umem T lo n V) in *.
  destruct (start_packets inside fill comp rxs txs buf num mult a w1 Hf Hr Hnum Hpop) as [Hin Ha].
  pose proof (inv_init o frame fill comp rxs txs buf num mult a w1 Hf Hc Hr Ht Hnum Hpop) as Hinv.
  set (all := bag frame _) in Hinv.
  assert (good o frame (ready T lo n contents V) inside all (Sys w1 [] [])) as Hg.
  { split; [exact Hinv|cbn [s_world]; rewrite Ha; by apply started_ready|done]. }
  assert (forall w d, inside w d -> handles o (ready T lo n contents V) w d) as Hh
    by (intros w d Hd; by apply ready_handles).
  pose proof (good_run o frame _ inside Hb Htype Hdebug Hh _ _ _ Hg Hreach) as Hgs.
  destruct (good_serve o frame _ inside Hb Htype Hdebug Hh _ _ Hgs Hwarm Hroom) as (w' & Hs & _). by exists w'.
Qed.

(** ** An example: L2 forwarding of one packet *)

Definition l2_options : options := Options 2 true true 0 false 4096 3.

Definition l2_app : toasty_app := idle_app (replicate 512 0).

Definition l2_start : world toasty_app :=
  set_fq (init_world 4 4 4 4 0 l2_app) (XskRing 3 4 3 4 3 0 [0; 4096; 8192; 0] 0).

Definition l2_taken : world toasty_app := set_fq l2_start (kernel_consume l2_start.(fq) 1).

Definition l2_delivered : world toasty_app :=
  set_rx l2_taken (kernel_produce l2_taken.(rx) [XdpDesc 256 60 0]).

Lemma l2_reachable :
  reachable_inside l2_options (fun x => x / 4096) (inside_umem 3 0 512 8)
    (Sys l2_start [] []) (Sys l2_delivered [] []).
Proof.
  assert (0 <= 1 <= u32 (l2_start.(fq).(producer) - l2_start.(fq).(consumer))) as Hn
    by (vm_compute; split; discriminate).
  pose proof (step_take l2_options (fun x => x / 4096) l2_start [] [] 1 Hn) as H1.
  assert ([] ++ take (Z.to_nat 1) (pending l2_start.(fq)) = [0]) as Hp by (vm_compute; reflexivity).
  rewrite Hp in H1. eapply rtc_l; [split; [exact H1|constructor]|]. apply rtc_once. split.
  - apply (step_deliver l2_options (fun x => x / 4096) l2_taken [] 0 [] [] (XdpDesc 256 60 0)); vm_compute; reflexivity.
  - assert (pending_packets l2_delivered = [XdpDesc 256 60 0]) as Hd by (vm_compute; reflexivity).
    unfold packets_inside. cbn [s_world]. rewrite Hd. repeat constructor; vm_compute; discriminate.
Qed.

Lemma toasty_batch_is_served_witness : exists w', serve l2_options 0 [] l2_delivered = Some (w', []).
Proof.
  apply (toasty_batch_is_served l2_options (fun x => x / 4096) 4 4 4 4 0 3 4096 l2_app l2_start
    (Sys l2_delivered [] []) 0 512 ∅ 8).
  - apply pow2_4.
  - apply pow2_4.
  - apply pow2_4.
  - apply pow2_4.
  - lia.
  - by compute.
  - reflexivity.
  - right; right; left. reflexivity.
  - split; [apply (mem_of_mapped 0 (replicate 512 0))|discriminate|discriminate].
  - reflexivity.
  - apply l2_reachable.
  - reflexivity.
  - reflexivity.
Defined.
