(* ===== verification/Wire.v ===== *)
(** * Packets from wire to wire

    The transition system of [Buffers] with what travels in the buffers: the kernel writes a
    packet into a buffer that it took from the fill queue, and what it transmits is what it
    finds in the buffer then.  An application implements a server that works on packets alone
    (class [Implements]); the file shows that the socket adds nothing to it: whatever the
    order of the buffers, the addresses and the interleaving, the packets sent are the
    server's answers to the packets received. *)
From S2P Require Import Prelude Mem XskRing FillQueue DataPath Buffers QueueSpec Progress.

(** The bytes of a descriptor and its options. *)
Record packet := Packet { pk_bytes : list Z; pk_options : Z }.

(** The application keeps the memory that the UMEM is part of. *)
Class OnUmem (App : Type) := {
  app_umem : App -> mem;
  put_umem : App -> mem -> App }.

(** A server answers a packet with a packet of its length; it may need packets that are
    [whole]. *)
Record server := Server {
  sv_state : Type;
  sv_answer : sv_state -> list Z -> sv_state * list Z;
  sv_whole : list Z -> Prop }.

(** What the application promises to the data path: wherever the packet lies, it is replaced
    by the server's answer and nothing else of the memory changes. *)
Class Implements {App} `{!Handler App, !OnUmem App} (T : Z) (sv : server)
    (rel : App -> sv.(sv_state) -> Prop) : Prop := {
  im_umem a m : app_umem (put_umem a m) = m;
  im_put a s m : rel a s -> bytes_ok m -> rel (put_umem a m) s;
  im_serve a s pkt addr bs :
    rel a s -> load_bytes (length bs) (app_umem a) pkt = Some bs -> sv.(sv_whole) bs ->
    exists a', process_packet T a pkt (Z.of_nat (length bs)) addr = Some a' /\
      rel a' (sv.(sv_answer) s bs).1 /\
      load_bytes (length bs) (app_umem a') pkt = Some (sv.(sv_answer) s bs).2 /\
      forall x, ~ (pkt <= x < pkt + Z.of_nat (length bs)) -> app_umem a' !! x = app_umem a !! x }.

(** ** The server on packets of several descriptors

    Only the first descriptor of a packet goes to the application; the others pass. *)
Section server_runs.
Context (sv : server).
Implicit Types st : bool * sv.(sv_state).

Definition serve_one st (p : packet) : (bool * sv.(sv_state)) * packet :=
  let r := if st.1 : bool then sv.(sv_answer) st.2 (pk_bytes p) else (st.2, pk_bytes p) in
  let eop := IS_EOP_DESC (pk_options p) in
  ((eop, r.1), Packet r.2 (if eop : bool then 0 else XDP_PKT_CONTD)).

Fixpoint serve_packets st (ps : list packet) : (bool * sv.(sv_state)) * list packet :=
  match ps with
  | [] => (st, [])
  | p :: ps =>
      let '(st, q) := serve_one st p in
      let '(st, qs) := serve_packets st ps in (st, q :: qs)
  end.

Definition answers (s : sv.(sv_state)) (ps : list packet) : list packet :=
  (serve_packets (true, s) ps).2.

Fixpoint whole_packets (first : bool) (ps : list packet) : Prop :=
  match ps with
  | [] => True
  | p :: ps => (first = true -> sv.(sv_whole) (pk_bytes p)) /\
      whole_packets (IS_EOP_DESC (pk_options p)) ps
  end.

Lemma serve_packets_app ps : forall st qs,
  serve_packets st (ps ++ qs) =
    ((serve_packets (serve_packets st ps).1 qs).1,
     (serve_packets st ps).2 ++ (serve_packets (serve_packets st ps).1 qs).2).
Proof.
  induction ps as [|p ps IH]; intros st qs.
  { cbn. by destruct (serve_packets st qs). }
  change ((p :: ps) ++ qs) with (p :: (ps ++ qs)). cbn [serve_packets].
  destruct (serve_one st p) as [st1 q]. rewrite IH. destruct (serve_packets st1 ps) as [st2 qs2]. cbn. done.
Qed.

Lemma whole_app ps : forall first qs,
  whole_packets first (ps ++ qs) -> whole_packets first ps.
Proof. induction ps as [|p ps IH]; intros first qs; [done|]. intros [? ?]. split; [done|eauto]. Qed.

Lemma whole_app_r ps : forall st qs,
  whole_packets st.1 (ps ++ qs) -> whole_packets (serve_packets st ps).1.1 qs.
Proof.
  induction ps as [|p ps IH]; intros st qs; [done|]. cbn [app whole_packets serve_packets].
  intros [_ Hw]. destruct (serve_one st p) as [st1 q] eqn:E.
  assert (st1.1 = IS_EOP_DESC (pk_options p)) as He by (unfold serve_one in E; by injection E as <- _).
  rewrite <- He in Hw. apply IH in Hw. by destruct (serve_packets st1 ps).
Qed.

(** Of two runs of the server on one input the shorter one is part of the longer. *)
Lemma answers_prefix s ps qs : answers s ps `prefix_of` answers s (ps ++ qs).
Proof. unfold answers. rewrite serve_packets_app. by eexists. Qed.
End server_runs.

(** ** Packets in buffers *)
Section wire.
Context {App : Type} `{!Handler App, !OnUmem App} (o : options) (frame : Z -> Z).
Implicit Types w : world App.

Definition pkt_of w (d : xdp_desc) : Z :=
  xsk_umem__get_data w.(buffer) (xsk_umem__add_offset_to_addr d.(desc_addr)).

(** What the kernel reads where a descriptor points. *)
Definition read_packet w (d : xdp_desc) : option packet :=
  bs ← load_bytes (Z.to_nat d.(desc_len)) (app_umem w.(app)) (pkt_of w d);
  Some (Packet bs d.(desc_options)).

(** A descriptor of aligned mode (no offset in the address), within one buffer. *)
Definition placed (d : xdp_desc) : Prop :=
  0 <= d.(desc_addr) < 2 ^ 48 /\ 0 <= d.(desc_len) /\
  forall x, 0 <= x < d.(desc_len) -> frame (d.(desc_addr) + x) = frame d.(desc_addr).

(** Two memories that differ in one buffer at most. *)
Definition within (buf F : Z) (m m' : mem) : Prop :=
  forall x, frame (x - buf) <> F -> m' !! x = m !! x.

(** What waits in the TX ring; [pending_packets] is what waits in the RX ring. *)
Definition tx_waiting w : list xdp_desc := span w.(tx) w.(tx).(consumer) w.(tx).(cached_prod).

(** The socket, the kernel, and what came in and went out so far. *)
Record net := Net { n_sys : @sys App; n_in : list packet; n_out : list packet }.

Inductive net_step : net -> net -> Prop :=
  | net_serve w w' h f ks i u :
      warm_ok o w = true -> tx_room o w = true -> serve o 0 [] w = Some (w', ks) ->
      net_step (Net (Sys w h f) i u) (Net (Sys w' h f) i u)
  | net_take w h f n i u :
      0 <= n <= u32 (w.(fq).(producer) - w.(fq).(consumer)) ->
      net_step (Net (Sys w h f) i u)
        (Net (Sys (set_fq w (kernel_consume w.(fq) n)) (h ++ take (Z.to_nat n) (pending w.(fq))) f) i u)
  | net_deliver w h1 a h2 f d p m i u :
      let w' := set_app (set_rx w (kernel_produce w.(rx) [d])) (put_umem w.(app) m) in
      frame d.(desc_addr) = frame a -> placed d ->
      u32 (w.(rx).(producer) - w.(rx).(consumer)) < w.(rx).(ring_size) ->
      within w.(buffer) (frame a) (app_umem w.(app)) m -> bytes_ok m -> read_packet w' d = Some p ->
      net_step (Net (Sys w (h1 ++ a :: h2) f) i u) (Net (Sys w' (h1 ++ h2) f) (i ++ [p]) u)
  | net_transmit w h f n ps i u :
      0 <= n <= u32 (w.(tx).(producer) - w.(tx).(consumer)) ->
      mapM (read_packet w) (take (Z.to_nat n) (pending w.(tx))) = Some ps ->
      net_step (Net (Sys w h f) i u)
        (Net (Sys (set_tx w (kernel_consume w.(tx) n)) h
           (f ++ (desc_addr <$> take (Z.to_nat n) (pending w.(tx))))) i (u ++ ps))
  | net_complete w h f1 a f2 i u :
      u32 (w.(cq).(producer) - w.(cq).(consumer)) < w.(cq).(ring_size) ->
      net_step (Net (Sys w h (f1 ++ a :: f2)) i u)
        (Net (Sys (set_cq w (kernel_produce w.(cq) [a])) h (f1 ++ f2)) i u).

Definition net_reachable : net -> net -> Prop := rtc net_step.

(** The buffer of [d] holds the packet [p]. *)
Definition carries w (d : xdp_desc) (p : packet) : Prop := placed d /\ read_packet w d = Some p.

Lemma placed_addr d : placed d ->
  xsk_umem__extract_addr d.(desc_addr) = d.(desc_addr) /\
  xsk_umem__add_offset_to_addr d.(desc_addr) = d.(desc_addr).
Proof.
  intros [Hr _].
  assert (xsk_umem__extract_addr d.(desc_addr) = d.(desc_addr)) as He.
  { unfold xsk_umem__extract_addr, XSK_UNALIGNED_BUF_ADDR_MASK, XSK_UNALIGNED_BUF_OFFSET_SHIFT.
    change (Z.shiftl 1 48 - 1) with (Z.ones 48). rewrite Z.land_ones by lia. by apply Z.mod_small. }
  split; [done|]. unfold xsk_umem__add_offset_to_addr. rewrite He.
  unfold xsk_umem__extract_offset, XSK_UNALIGNED_BUF_OFFSET_SHIFT.
  rewrite Z.shiftr_div_pow2, Z.div_small, Z.add_0_r by lia. apply wrap_small. lia.
Qed.

Lemma placed_pkt w d : placed d -> pkt_of w d = w.(buffer) + d.(desc_addr).
Proof. intros Hd. unfold pkt_of, xsk_umem__get_data. by destruct (placed_addr d Hd) as [_ ->]. Qed.

Lemma placed_orig d : placed d -> orig_of d = d.(desc_addr).
Proof. intros Hd. apply (placed_addr d Hd). Qed.

Lemma read_packet_inv w d p : placed d -> read_packet w d = Some p ->
  load_bytes (length (pk_bytes p)) (app_umem w.(app)) (w.(buffer) + d.(desc_addr)) = Some (pk_bytes p) /\
  d.(desc_len) = Z.of_nat (length (pk_bytes p)) /\ d.(desc_options) = pk_options p.
Proof.
  intros Hd (bs & Hbs & [= <-])%bind_Some. rewrite placed_pkt in Hbs by done. cbn [pk_bytes pk_options].
  pose proof (proj1 (load_bytes_lookup _ _ _ _) Hbs) as [Hl _]. rewrite Hl. destruct Hd as (_ & ? & _).
  split; [done|]. split; [lia|done].
Qed.

(** A packet stays in its buffer while others change. *)
Lemma carries_keep w w' d p :
  carries w d p -> w'.(buffer) = w.(buffer) ->
  (forall x, frame (x - w.(buffer)) = frame d.(desc_addr) -> app_umem w'.(app) !! x = app_umem w.(app) !! x) ->
  carries w' d p.
Proof.
  intros [Hd Hp] Hb Hm. split; [done|]. revert Hp. unfold read_packet. rewrite !placed_pkt, Hb by done.
  intros (bs & Hbs & He)%bind_Some. apply bind_Some. exists bs. split; [|done].
  apply load_bytes_lookup in Hbs as [Hl Hbs]. apply load_bytes_lookup. split; [done|].
  intros i Hi. rewrite <- Hbs by done. apply Hm. destruct Hd as (_ & Hlen & Hf).
  rewrite <- Hf with (x := Z.of_nat i) by lia. f_equal. lia.
Qed.

(** As long as the buffers are distinct. *)
Lemma carries_others F w w' ds ps :
  Forall2 (carries w) ds ps -> w'.(buffer) = w.(buffer) ->
  within w.(buffer) F (app_umem w.(app)) (app_umem w'.(app)) ->
  F ∉ frame <$> (desc_addr <$> ds) -> Forall2 (carries w') ds ps.
Proof.
  intros Hc Hb Hm. induction Hc as [|d p ds ps Hd _ IH]; [by constructor|].
  intros [Hne Hin]%not_elem_of_cons. constructor; [|by apply IH].
  eapply carries_keep; [done..|]. intros x Hx. apply Hm. congruence.
Qed.

Lemma carries_same w w' ds ps :
  Forall2 (carries w) ds ps -> w'.(buffer) = w.(buffer) -> app_umem w'.(app) = app_umem w.(app) ->
  Forall2 (carries w') ds ps.
Proof.
  intros Hc Hb Hm. eapply Forall2_impl; [exact Hc|]. intros d p Hd.
  eapply carries_keep; [done..|]. intros x _. by rewrite Hm.
Qed.

Lemma carries_read w ds ps : Forall2 (carries w) ds ps -> mapM (read_packet w) ds = Some ps.
Proof. intros Hc. apply mapM_Some. eapply Forall2_impl; [exact Hc|]. by intros d p [_ ?]. Qed.

Lemma tx_of_placed d : placed d -> placed (tx_of d) /\ desc_addr (tx_of d) = desc_addr d.
Proof.
  intros Hd. unfold tx_of. cbn [desc_addr]. destruct (placed_addr d Hd) as [He _]. rewrite He.
  split; [|done]. exact Hd.
Qed.
End wire.

(** ** The loop of [forward] *)
Section flow.
Context {App : Type} `{!Handler App, !OnUmem App} (o : options) (frame : Z -> Z).
Context (sv : server) (rel : App -> sv.(sv_state) -> Prop).
Context `{!Implements o.(opt_application_type) sv rel}.
Implicit Types w : world App.

(** The answer of the server takes the place of the packet. *)
Lemma answer_flow w d p s :
  carries frame w d p -> rel w.(app) s -> sv.(sv_whole) (pk_bytes p) ->
  exists a', process_packet o.(opt_application_type) w.(app) (pkt_of w d) d.(desc_len)
      (xsk_umem__add_offset_to_addr d.(desc_addr)) = Some a' /\
    rel a' (sv.(sv_answer) s (pk_bytes p)).1 /\
    within frame w.(buffer) (frame d.(desc_addr)) (app_umem w.(app)) (app_umem a') /\
    load_bytes (Z.to_nat d.(desc_len)) (app_umem a') (pkt_of w d) = Some (sv.(sv_answer) s (pk_bytes p)).2.
Proof.
  intros [Hd Hp] Hr Hw. destruct (read_packet_inv frame w d p Hd Hp) as (Hl & Hlen & _).
  rewrite (placed_pkt frame) by done. rewrite Hlen, Nat2Z.id.
  destruct (im_serve w.(app) s (w.(buffer) + d.(desc_addr)) (xsk_umem__add_offset_to_addr d.(desc_addr))
    (pk_bytes p) Hr Hl Hw) as (a' & Ha & Hr' & Hl' & Hout).
  exists a'. split; [done|]. split; [done|]. split; [|done]. intros x Hx. apply Hout. intros Hin.
  apply Hx. destruct Hd as (_ & _ & Hf). rewrite <- (Hf (x - (w.(buffer) + d.(desc_addr)))) by lia.
  f_equal. lia.
Qed.

(** The descriptor is passed on, first or not. *)
Lemma desc_flow w b d p od op s :
  carries frame w d p -> Forall2 (carries frame w) od op ->
  frame d.(desc_addr) ∉ frame <$> (desc_addr <$> od) -> rel w.(app) s ->
  ((w.(nb_frags_fwd) =? 0) = true -> sv.(sv_whole) (pk_bytes p)) -> 0 <= w.(nb_frags_fwd) < 2 ^ 32 - 1 ->
  let r := serve_one sv (w.(nb_frags_fwd) =? 0, s) p in
  exists w' b', forward_desc o w b d = Some (w', b') /\ w'.(buffer) = w.(buffer) /\
    carries frame w' (tx_of d) r.2 /\ Forall2 (carries frame w') od op /\ rel w'.(app) r.1.2 /\
    r.1.1 = (w'.(nb_frags_fwd) =? 0) /\ 0 <= w'.(nb_frags_fwd) <= w.(nb_frags_fwd) + 1.
Proof.
  intros Hc Ho Hd Hr Hw Hnb r. pose proof Hc as [Hpl Hp].
  destruct (read_packet_inv frame w d p Hpl Hp) as (Hl & Hlen & Hopt).
  destruct (tx_of_placed frame d Hpl) as [Htp Hta].
  assert (exists a' bs, (if w.(nb_frags_fwd) =? 0
      then a ← process_packet o.(opt_application_type) w.(app) (pkt_of w d) d.(desc_len)
        (xsk_umem__add_offset_to_addr d.(desc_addr)); Some (set_app w a) else Some w) = Some (set_app w a') /\
    r = ((IS_EOP_DESC (pk_options p), r.1.2), Packet bs (if IS_EOP_DESC (pk_options p) then 0 else XDP_PKT_CONTD)) /\
    rel a' r.1.2 /\ within frame w.(buffer) (frame d.(desc_addr)) (app_umem w.(app)) (app_umem a') /\
    load_bytes (Z.to_nat d.(desc_len)) (app_umem a') (pkt_of w d) = Some bs) as (a' & bs & He & Hrr & Hr' & Hin & Hl').
  { subst r. unfold serve_one. cbn [fst snd]. destruct (nb_frags_fwd w =? 0).
    - destruct (answer_flow w d p s Hc Hr (Hw eq_refl)) as (a' & -> & Hr' & Hin & Hl').
      eexists a', _. split; [done|]. split; [done|]. split; [done|]. by split.
    - exists w.(app), (pk_bytes p). split; [by destruct w|]. split; [done|]. split; [done|]. split; [done|].
      rewrite (placed_pkt frame), Hlen, Nat2Z.id by done. exact Hl. }
  unfold forward_desc. fold (pkt_of w d). rewrite He. cbn [mbind option_bind].
  rewrite (wrap_small 32 (nb_frags_fwd (set_app w a') + 1)) by (cbn; lia).
  assert (forall w', buffer w' = buffer w -> app w' = a' ->
    carries frame w' (tx_of d) r.2 /\ Forall2 (carries frame w') od op) as Hcar.
  { intros w' Hb Ha. split.
    - split; [done|]. unfold read_packet. rewrite (placed_pkt frame), Hb, Hta, Ha by done.
      rewrite (placed_pkt frame) in Hl' by done. change (desc_len (tx_of d)) with (desc_len d).
      rewrite Hl', Hrr. cbn [mbind option_bind snd tx_of desc_options]. by rewrite Hopt.
    - eapply carries_others; [exact Ho|done| |exact Hd]. by rewrite Ha. }
  assert (r.1.1 = IS_EOP_DESC (pk_options p)) as -> by (by rewrite Hrr).
  rewrite Hopt. destruct (IS_EOP_DESC (pk_options p)).
  - eexists _, _. split; [done|]. split; [done|]. destruct (Hcar (set_nb_frags_fwd
      (set_nb_frags_fwd (set_app w a') (nb_frags_fwd (set_app w a') + 1)) 0)) as [H1 H2]; [done..|].
    split; [exact H1|]. split; [exact H2|]. split; [done|]. split; [done|]. cbn. lia.
  - eexists _, _. split; [done|]. split; [done|].
    destruct (Hcar (set_nb_frags_fwd (set_app w a') (nb_frags_fwd (set_app w a') + 1))) as [H1 H2]; [done..|].
    split; [exact H1|]. split; [exact H2|]. split; [done|]. cbn.
    split; [symmetry; apply Z.eqb_neq; lia|lia].
Qed.

(** The whole batch: answers in order, and the packets behind it as they were. *)
Lemma batch_flow ds : forall w b ps od op s,
  Forall2 (carries frame w) ds ps -> Forall2 (carries frame w) od op ->
  NoDup (frame <$> (desc_addr <$> ds ++ od)) -> rel w.(app) s ->
  whole_packets sv (w.(nb_frags_fwd) =? 0) ps ->
  0 <= w.(nb_frags_fwd) -> w.(nb_frags_fwd) + Z.of_nat (length ds) < 2 ^ 32 ->
  let r := serve_packets sv (w.(nb_frags_fwd) =? 0, s) ps in
  exists w' b', process_all (forward_desc o) ds w b = Some (w', b') /\ w'.(buffer) = w.(buffer) /\
    Forall2 (carries frame w') (tx_of <$> ds) r.2 /\ Forall2 (carries frame w') od op /\
    rel w'.(app) r.1.2 /\ r.1.1 = (w'.(nb_frags_fwd) =? 0).
Proof.
  induction ds as [|d ds IH]; intros w b ps od op s Hds Hod Hnd Hr Hw Hnb0 Hnb r.
  { apply Forall2_nil_inv_l in Hds as ->. subst r. exists w, b. by repeat (split; [done||constructor|]). }
  apply Forall2_cons_inv_l in Hds as (p & ps' & Hd & Hds & ->). subst r.
  change (NoDup (frame (desc_addr d) :: (frame <$> (desc_addr <$> ds ++ od)))) in Hnd.
  cbn [process_all serve_packets]. cbn [length whole_packets] in Hnb, Hw. destruct Hw as [Hw1 Hw2].
  apply NoDup_cons in Hnd as [Hnin Hnd].
  assert (Forall2 (carries frame w) (ds ++ od) (ps' ++ op)) as Hall by (by apply Forall2_app).
  destruct (desc_flow w b d p (ds ++ od) (ps' ++ op) s Hd Hall Hnin Hr Hw1) as
    (w1 & b1 & -> & Hb1 & Ht1 & Hall1 & Hr1 & Hf1 & Hn1); [lia|].
  cbn [mbind option_bind]. destruct (serve_one _ _ p) as [[f1 s1] q] eqn:Es. cbn [fst snd] in *.
  pose proof (Forall2_length _ _ _ Hds) as Hlen.
  apply Forall2_app_inv in Hall1 as [Hds1 Hod1]; [|done].
  destruct (IH w1 b1 ps' (tx_of d :: od) (q :: op) s1) as (w2 & b2 & -> & Hb2 & Hds2 & Hod2 & Hr2 & Hf2);
    [done|by constructor| |done| |lia|lia|].
  { assert (desc_addr (tx_of d) = desc_addr d) as Hta by (apply (tx_of_placed frame), Hd).
    rewrite !fmap_app in *. cbn [fmap list_fmap]. rewrite Hta. rewrite <- Permutation_middle.
    by apply NoDup_cons. }
  { rewrite <- Hf1. unfold serve_one in Es. by injection Es as <- _ _. }
  apply Forall2_cons in Hod2 as [Hd2 Hod2].
  destruct (serve_packets sv _ ps') as [st2 qs] eqn:Eq. rewrite <- Hf1, Eq in *. cbn [fst snd] in *.
  exists w2, b2. split; [done|]. split; [congruence|]. split; [by constructor|]. by repeat (split; [done|]).
Qed.
End flow.

(** ** The steps of the system, on what waits in the rings *)
Section steps.
Context {App : Type} `{!Handler App, !OnUmem App} (o : options) (frame : Z -> Z).
Implicit Types w : world App.

Hypothesis Hbatch : 0 < o.(opt_batch_size) < 2 ^ 31.
Hypothesis Hmode : forwards o = true.

Lemma forwards_type : o.(opt_application_type) <> 6.
Proof. intros H. revert Hmode. unfold forwards. by rewrite H. Qed.

Lemma tx_window w c0 c p q : prod_inv w.(tx) c0 c p q -> tx_waiting w = window w.(tx) c (q - c).
Proof.
  intros Htx. pose proof Htx as [Hwf _ Hc _ Hq Ho]. pose proof (wf_size_bounds _ Hwf).
  unfold tx_waiting. rewrite Hc, Hq. apply span_window; [done|lia].
Qed.

(** [forward] takes a batch off the RX ring and appends its answer to the TX ring. *)
Lemma forward_lists all w h f w' ks :
  inv o frame all (Sys w h f) -> warm_ok o w = true -> tx_room o w = true ->
  forward o [] w = Some (w', ks) ->
  exists w0 ds w1 b, w0.(app) = w.(app) /\ w0.(buffer) = w.(buffer) /\ w0.(nb_frags_fwd) = w.(nb_frags_fwd) /\
    pending_packets w = ds ++ pending_packets w' /\ tx_waiting w' = tx_waiting w ++ (tx_of <$> ds) /\
    process_all (forward_desc o) ds w0 (Batch 0 0) = Some (w1, b) /\
    w'.(app) = w1.(app) /\ w'.(buffer) = w.(buffer) /\ w'.(nb_frags_fwd) = w1.(nb_frags_fwd) /\
    0 <= w.(nb_frags_fwd) /\ w.(nb_frags_fwd) + Z.of_nat (length ds) < 2 ^ 32.
Proof.
  intros Hinv Hwarm Hroom Hfwd.
  destruct (inv_complete_tx o frame Hbatch forwards_type all w h f Hinv Hwarm)
    as (w0 & Hc & Hinv0 & Htx0 & Hrx0 & Hap & Hbu & Hnf).
  destruct Hinv0 as (fc0&fc&fp&tc0&tc&tp&tq&rc&rcc&rcp&rp&cc&cp&pc&Hsi).
  pose proof (sys_inv_sizes o frame _ _ _ _ _ _ _ _ _ _ _ _ _ _ _ _ Hsi) as (Hsize & Hord).
  destruct Hsi as [Hfq Htx Hrx Hcq Hfit Hsm Hfr Hout Htot]. rewrite Hmode in Hfr.
  cbn [s_world s_held s_inflight] in *.
  assert (tx_room o w0 = true) as Hroom0 by (unfold tx_room in *; by rewrite Htx0, Hrx0).
  assert (pending_packets w = window w0.(rx) rcc (rp - rcc)) as Hpp.
  { rewrite <- (packets_window w0 rc rcc rcp rp Hrx). unfold pending_packets. by rewrite Hrx0. }
  assert (tx_waiting w = window w0.(tx) tc (tq - tc)) as Htw.
  { rewrite <- (tx_window w0 tc0 tc tp tq Htx). unfold tx_waiting. by rewrite Htx0. }
  destruct (forward_lemma o [] w w0 tc0 tc tp tq rc rcc rcp rp) as (rx1 & n & Hn & Hn' & Hz & Hss & H);
    [done|done|done|done|lia|lia|by eapply tx_room_spec|lia|].
  cbv zeta in H. exists w0. destruct (decide (n = 0)) as [->|Hn0].
  - destruct H as (rcp' & H & Hrx1). rewrite H in Hfwd. injection Hfwd as <- _.
    destruct (count_rx_empty_stats o (set_rx w0 rx1)) as [st ->].
    exists [], w0, (Batch 0 0). split; [done|]. split; [done|]. split; [done|]. split.
    { change (pending_packets (set_stats _ st)) with (pending_packets (set_rx w0 rx1)).
      rewrite (packets_window (set_rx w0 rx1) rc rcc rcp' rp Hrx1), Hpp.
      symmetry. by apply same_slots_window. }
    split; [rewrite app_nil_r; unfold tx_waiting; cbn; by rewrite Htx0|].
    split; [done|]. split; [done|]. split; [done|]. split; [done|]. cbn. lia.
  - destruct (process_all _ _ w0 _) as [[w1 b]|] eqn:Hall; [|congruence].
    destruct H as (w2 & c0' & rcp' & H & Htx' & _ & Hw & Hss' & Hrx' & Hfd & Hnb & Ha & _ & _ & _ & _ & _ & Hb2).
    rewrite H in Hfwd. injection Hfwd as -> _.
    exists (window w0.(rx) rcc n), w1, b. split; [done|]. split; [done|]. split; [done|]. split.
    { rewrite Hpp, (packets_window _ _ _ _ _ Hrx'), (same_slots_window _ _ _ _ Hss').
      rewrite (window_split _ rcc (rp - rcc) n) by lia. do 2 f_equal. lia. }
    split; [by rewrite (tx_window _ _ _ _ _ Htx'), Hw, Htw|].
    pose proof (length_window w0.(rx) rcc n) as Hlw.
    pose proof Hall as Hcnt. apply forward_all_count in Hcnt as (Hcnt & _ & _); [|cbn [frags_done]; lia..].
    cbn [frags_done] in Hcnt. split; [done|]. split; [done|]. split; [congruence|]. split; [lia|]. lia.
Qed.

(** The kernel puts a descriptor into the RX ring. *)
Lemma deliver_lists all w h f d :
  inv o frame all (Sys w h f) -> u32 (w.(rx).(producer) - w.(rx).(consumer)) < w.(rx).(ring_size) ->
  pending_packets (set_rx w (kernel_produce w.(rx) [d])) = pending_packets w ++ [d].
Proof.
  intros (fc0&fc&fp&tc0&tc&tp&tq&rc&rcc&rcp&rp&cc&cp&pc&[_ _ Hrx _ _ _ _ _ _]) Hroom.
  cbn [s_world] in Hrx. rewrite (cons_inv_level _ _ _ _ _ Hrx) in Hroom.
  destruct (produce_window w.(rx) rc rcc rcp rp d Hrx) as [Hrx' Hw]; [lia|].
  rewrite (packets_window w rc rcc rcp rp Hrx), <- Hw. by apply (packets_window (set_rx w _) rc rcc rcp (rp + 1)).
Qed.

(** The kernel takes descriptors off the TX ring. *)
Lemma transmit_lists all w h f n :
  inv o frame all (Sys w h f) -> 0 <= n <= u32 (w.(tx).(producer) - w.(tx).(consumer)) ->
  tx_waiting w = take (Z.to_nat n) (pending w.(tx)) ++ tx_waiting (set_tx w (kernel_consume w.(tx) n)).
Proof.
  intros (fc0&fc&fp&tc0&tc&tp&tq&rc&rcc&rcp&rp&cc&cp&pc&[_ Htx _ _ _ _ _ _ _]) Hn.
  cbn [s_world] in Htx. rewrite (prod_inv_level _ _ _ _ _ Htx) in Hn.
  pose proof (pi_order _ _ _ _ _ Htx) as Ho.
  destruct (kernel_consume_inv w.(tx) tc0 tc tp tq n Htx) as [Htx' _]; [lia|].
  rewrite (tx_window w tc0 tc tp tq Htx), (prod_inv_pending _ _ _ _ _ Htx), take_window by lia.
  rewrite (tx_window (set_tx w _) tc0 (tc + n) tp tq Htx').
  rewrite (window_split _ tc (tq - tc) n) by lia. f_equal. cbn [tx set_tx]. rewrite consume_window. f_equal. lia.
Qed.

Lemma inv_set_app all w a h f : inv o frame all (Sys w h f) -> inv o frame all (Sys (set_app w a) h f).
Proof.
  intros (fc0&fc&fp&tc0&tc&tp&tq&rc&rcc&rcp&rp&cc&cp&pc&[]).
  exists fc0, fc, fp, tc0, tc, tp, tq, rc, rcc, rcp, rp, cc, cp, pc. by split.
Qed.

(** [net_step] refines the steps of [Buffers]. *)
Lemma net_inv all n n' : inv o frame all (n_sys n) -> net_step o frame n n' -> inv o frame all (n_sys n').
Proof.
  intros Hinv Hs. revert Hinv.
  destruct Hs as [w w' h f ks i u Hw Ht Hs|w h f n i u Hn|w h1 a h2 f d p m i u w' Hd Hpl Hr Hm Hb Hp
    |w h f n ps i u Hn Hps|w h f1 a f2 i u Hr]; cbn [n_sys]; intros Hinv.
  - by apply (inv_serve o frame Hbatch forwards_type all w h f w' ks).
  - by apply inv_take.
  - subst w'. apply inv_set_app. apply (inv_deliver o frame all w h1 a h2 f d); [done| |done].
    by rewrite (placed_orig frame).
  - by apply inv_transmit.
  - by apply inv_complete.
Qed.

(** No two descriptors share a buffer. *)
Lemma everything_distinct init (s : @sys App) :
  inv o frame (bag frame init) s -> NoDup (frame <$> init) -> NoDup (frame <$> everything s).
Proof. intros Hinv Hnd. rewrite (bag_inj frame _ init); [done|]. by apply (inv_everything o). Qed.
End steps.

Lemma NoDup_middle {A} (a b c d e : list A) : NoDup (a ++ b ++ c ++ d ++ e) -> NoDup (b ++ c ++ d).
Proof.
  intros (_ & _ & H)%NoDup_app. replace (b ++ c ++ d ++ e) with ((b ++ c ++ d) ++ e) in H
    by (by rewrite <- !app_assoc). by apply NoDup_app in H as [? _].
Qed.

(** ** The flow of packets *)
Section refinement.
Context {App : Type} `{!Handler App, !OnUmem App} (o : options) (frame : Z -> Z).
Context (sv : server) (rel : App -> sv.(sv_state) -> Prop).
Context `{!Implements o.(opt_application_type) sv rel}.
Context (init : list Z) (Hinit : NoDup (frame <$> init)) (s0 : sv.(sv_state)).
Implicit Types w : world App.

Hypothesis Hbatch : 0 < o.(opt_batch_size) < 2 ^ 31.
Hypothesis Hmode : forwards o = true.

(** The packets served, those that wait to be served and the answers that wait to be sent. *)
Record flow (n : @net App) (served waiting queued : list packet) (s : sv.(sv_state)) : Prop := {
  fl_inv : inv o frame (bag frame init) n.(n_sys);
  fl_in : n.(n_in) = served ++ waiting;
  fl_rx : Forall2 (carries frame n.(n_sys).(s_world)) (pending_packets n.(n_sys).(s_world)) waiting;
  fl_tx : Forall2 (carries frame n.(n_sys).(s_world)) (tx_waiting n.(n_sys).(s_world)) queued;
  fl_served : serve_packets sv (true, s0) served =
    ((n.(n_sys).(s_world).(nb_frags_fwd) =? 0, s), n.(n_out) ++ queued);
  fl_rel : rel n.(n_sys).(s_world).(app) s }.

Definition flows (n : @net App) : Prop := exists served waiting queued s, flow n served waiting queued s.

(** The descriptors in the RX and TX rings and the buffers that the kernel holds. *)
Lemma flow_distinct n served waiting queued s : flow n served waiting queued s ->
  NoDup (frame <$> n.(n_sys).(s_held) ++ (desc_addr <$> pending_packets n.(n_sys).(s_world) ++
    tx_waiting n.(n_sys).(s_world))).
Proof.
  intros [Hinv _ Hrx _ _ _]. pose proof (everything_distinct o frame init _ Hinv Hinit) as Hnd.
  unfold everything in Hnd. cbv zeta in Hnd. fold (pending_packets n.(n_sys).(s_world)) in Hnd.
  fold (tx_waiting n.(n_sys).(s_world)) in Hnd.
  assert (orig_of <$> pending_packets n.(n_sys).(s_world) = desc_addr <$> pending_packets n.(n_sys).(s_world)) as He.
  { clear -Hrx. induction Hrx as [|d p ds ps [Hd _] _ IH]; [done|]. cbn. by rewrite (placed_orig frame), IH. }
  rewrite He, !(fmap_app frame) in Hnd. rewrite !(fmap_app frame), (fmap_app desc_addr), (fmap_app frame).
  by eapply NoDup_middle.
Qed.

Lemma flow_serve w w' h f ks i u :
  flows (Net (Sys w h f) i u) -> warm_ok o w = true -> tx_room o w = true ->
  serve o 0 [] w = Some (w', ks) -> whole_packets sv true i -> flows (Net (Sys w' h f) i u).
Proof.
  intros (served & waiting & queued & s & Hfl) Hwarm Hroom Hs Hwhole.
  pose proof (flow_distinct _ _ _ _ _ Hfl) as Hnd. pose proof Hfl as [Hinv Hin Hrx Htx Hsv Hrel].
  cbn [n_sys n_in n_out s_world s_held] in *. rewrite fmap_app in Hnd. apply NoDup_app in Hnd as (_ & _ & Hnd).
  pose proof (net_inv o frame Hbatch Hmode _ (Net (Sys w h f) i u) _ Hinv (net_serve o frame w w' h f ks i u Hwarm Hroom Hs)) as Hinv'.
  unfold serve in Hs. fold (forwards o) in Hs. rewrite Hmode in Hs.
  destruct (forward_lists o frame Hbatch Hmode _ w h f w' ks Hinv Hwarm Hroom Hs) as
    (w0 & ds & w1 & b & Ha0 & Hb0 & Hn0 & Hp & Ht & Hall & Ha & Hb & Hnf & Hnb & Hlen).
  rewrite Hp in Hrx, Hnd. apply Forall2_app_inv_l in Hrx as (ps & rest & Hds & Hrest & ->).
  rewrite Hin in Hwhole. apply (whole_app_r sv served (true, s0)) in Hwhole. rewrite Hsv in Hwhole.
  cbn [fst] in Hwhole. apply whole_app in Hwhole. rewrite <- app_assoc in Hnd.
  assert (Forall2 (carries frame w) (pending_packets w' ++ tx_waiting w) (rest ++ queued)) as Hod by (by apply Forall2_app).
  destruct (batch_flow o frame sv rel ds w0 (Batch 0 0) ps (pending_packets w' ++ tx_waiting w) (rest ++ queued) s)
    as (w2 & b2 & Hall2 & Hb2 & Hds2 & Hod2 & Hrel2 & Hf2); rewrite ?Hn0, ?Ha0; try done.
  1-2: eapply carries_same; [done|done|by rewrite Ha0].
  rewrite Hall in Hall2. injection Hall2 as <- <-.
  apply (carries_same frame w1 w') in Hds2, Hod2; [|congruence..].
  apply Forall2_app_inv in Hod2 as [Hrest2 Htx2]; [|by apply Forall2_length in Hrest].
  rewrite Hn0 in *. set (r := serve_packets sv (nb_frags_fwd w =? 0, s) ps) in *.
  exists (served ++ ps), rest, (queued ++ r.2), r.1.2.
  split; cbn [n_sys n_in n_out s_world]; [done|by rewrite Hin, app_assoc|done| | |by rewrite Ha].
  - rewrite Ht. by apply Forall2_app.
  - rewrite serve_packets_app, Hsv. cbn [fst snd]. fold r. rewrite Hnf, <- Hf2, app_assoc.
    by destruct r as [[? ?] ?].
Qed.

Lemma flow_deliver w h1 a h2 f d p m i u :
  let w' := set_app (set_rx w (kernel_produce w.(rx) [d])) (put_umem w.(app) m) in
  flows (Net (Sys w (h1 ++ a :: h2) f) i u) -> frame d.(desc_addr) = frame a -> placed frame d ->
  u32 (w.(rx).(producer) - w.(rx).(consumer)) < w.(rx).(ring_size) ->
  within frame w.(buffer) (frame a) (app_umem w.(app)) m -> bytes_ok m -> read_packet w' d = Some p ->
  flows (Net (Sys w' (h1 ++ h2) f) (i ++ [p]) u).
Proof.
  intros w' (served & waiting & queued & s & Hfl) Hd Hpl Hroom Hm Hok Hp.
  pose proof (flow_distinct _ _ _ _ _ Hfl) as Hnd. pose proof Hfl as [Hinv Hin Hrx Htx Hsv Hrel].
  cbn [n_sys n_in n_out s_world s_held] in *.
  pose proof (net_inv o frame Hbatch Hmode _ (Net (Sys w (h1 ++ a :: h2) f) i u) _ Hinv
    (net_deliver o frame w h1 a h2 f d p m i u Hd Hpl Hroom Hm Hok Hp)) as Hinv'.
  assert (app_umem w'.(app) = m) as Hum by apply im_umem.
  assert (frame a ∉ frame <$> (desc_addr <$> pending_packets w ++ tx_waiting w)) as Hfree.
  { rewrite fmap_app in Hnd. apply NoDup_app in Hnd as (_ & Hnd & _). apply Hnd.
    rewrite fmap_app. apply elem_of_app. right. by left. }
  assert (Forall2 (carries frame w') (pending_packets w ++ tx_waiting w) (waiting ++ queued)) as Hall.
  { eapply carries_others; [by apply Forall2_app|done|by rewrite Hum|done]. }
  apply Forall2_app_inv in Hall as [Hrx' Htx']; [|by apply Forall2_length in Hrx].
  exists served, (waiting ++ [p]), queued, s. split; cbn [n_sys n_in n_out s_world].
  - done.
  - by rewrite Hin, app_assoc.
  - change (pending_packets w') with (pending_packets (set_rx w (kernel_produce w.(rx) [d]))).
    rewrite (deliver_lists o frame _ w _ f d Hinv Hroom). apply Forall2_app; [done|].
    constructor; [by split|constructor].
  - exact Htx'.
  - exact Hsv.
  - by apply im_put.
Qed.

Lemma flow_transmit w h f n ps i u :
  flows (Net (Sys w h f) i u) -> 0 <= n <= u32 (w.(tx).(producer) - w.(tx).(consumer)) ->
  mapM (read_packet w) (take (Z.to_nat n) (pending w.(tx))) = Some ps ->
  flows (Net (Sys (set_tx w (kernel_consume w.(tx) n)) h
    (f ++ (desc_addr <$> take (Z.to_nat n) (pending w.(tx))))) i (u ++ ps)).
Proof.
  intros (served & waiting & queued & s & [Hinv Hin Hrx Htx Hsv Hrel]) Hn Hps.
  cbn [n_sys n_in n_out s_world] in *.
  pose proof (net_inv o frame Hbatch Hmode _ (Net (Sys w h f) i u) _ Hinv (net_transmit o frame w h f n ps i u Hn Hps)) as Hinv'.
  rewrite (transmit_lists o frame _ w h f n Hinv Hn) in Htx.
  apply Forall2_app_inv_l in Htx as (q1 & q2 & Hq1 & Hq2 & ->).
  rewrite (carries_read frame w _ _ Hq1) in Hps. injection Hps as ->.
  exists served, waiting, q2, s. split; cbn [n_sys n_in n_out s_world]; try done.
  by rewrite <- app_assoc.
Qed.

Lemma flow_step n n' : net_step o frame n n' -> whole_packets sv true n'.(n_in) -> flows n -> flows n'.
Proof.
  intros Hs Hw Hfl. destruct Hs as [w w' h f ks i u Hwa Ht Hs|w h f n i u Hn|w h1 a h2 f d p m i u w' Hd Hpl Hr Hm Hb Hp
    |w h f n ps i u Hn Hps|w h f1 a f2 i u Hr].
  - by eapply flow_serve.
  - destruct Hfl as (served & waiting & queued & s & [Hinv ? ? ? ? ?]). exists served, waiting, queued, s.
    pose proof (net_inv o frame Hbatch Hmode _ (Net (Sys w h f) i u) _ Hinv (net_take o frame w h f n i u Hn)). by split.
  - by eapply flow_deliver.
  - by apply flow_transmit.
  - destruct Hfl as (served & waiting & queued & s & [Hinv ? ? ? ? ?]). exists served, waiting, queued, s.
    pose proof (net_inv o frame Hbatch Hmode _ (Net (Sys w h (f1 ++ a :: f2)) i u) _ Hinv (net_complete o frame w h f1 a f2 i u Hr)). by split.
Qed.

Lemma net_step_in n n' : net_step o frame n n' -> n.(n_in) `prefix_of` n'.(n_in).
Proof. intros []; cbn [n_in]; try done. by eexists. Qed.

Lemma flow_reachable n n' :
  flows n -> net_reachable o frame n n' -> whole_packets sv true n'.(n_in) -> flows n'.
Proof.
  intros Hfl Hr. revert n' Hr. apply (rtc_ind_r (fun n' => whole_packets sv true n'.(n_in) -> flows n')); [done|].
  intros n1 n2 _ Hs IH Hw. eapply flow_step; [done..|]. apply IH. destruct (net_step_in _ _ Hs) as [k Hk]. rewrite Hk in Hw.
  by apply whole_app in Hw.
Qed.

(** What has been sent is a part of the server's answers, and all of them when the rings are
    empty. *)
Lemma flows_answers n : flows n ->
  n.(n_out) `prefix_of` answers sv s0 n.(n_in) /\
  (pending_packets n.(n_sys).(s_world) = [] -> tx_waiting n.(n_sys).(s_world) = [] ->
   n.(n_out) = answers sv s0 n.(n_in)).
Proof.
  intros (served & waiting & queued & s & [Hinv Hin Hrx Htx Hsv Hrel]). rewrite Hin.
  assert (answers sv s0 served = n.(n_out) ++ queued) as Ha by (unfold answers; by rewrite Hsv). split.
  - etrans; [|apply answers_prefix]. rewrite Ha. by eexists.
  - intros Hp Ht. rewrite Hp in Hrx. rewrite Ht in Htx. apply Forall2_nil_inv_l in Hrx as ->, Htx as ->.
    by rewrite app_nil_r, Ha, app_nil_r.
Qed.

(** The start: all buffers in the fill queue, no packet yet. *)
Lemma flows_start fill comp rxs txs buf num mult (a : App) w1 :
  pow2 fill -> pow2 comp -> pow2 rxs -> pow2 txs -> 0 < num < 2 ^ 31 ->
  xsk_populate_fill_ring num mult (init_world fill comp rxs txs buf a) = Some w1 ->
  init = buffer_addr mult <$> seqZ 0 num -> rel a s0 -> flows (Net (Sys w1 [] []) [] []).
Proof.
  intros Hf Hc Hr Ht Hnum Hpop Hin Hrel.
  destruct (populate_spec fill comp rxs txs buf num mult a w1) as (_ & c0 & _ & _ & _ & Hw); [done|lia|done|].
  exists [], [], [], s0. split; cbn [n_sys n_in n_out s_world]; [|done| | |by rewrite Hw|by rewrite Hw].
  - rewrite Hin. by apply (inv_init o frame fill comp rxs txs buf num mult a).
  - rewrite Hw. unfold pending_packets, span. cbn. constructor.
  - rewrite Hw. unfold tx_waiting, span. cbn. constructor.
Qed.
End refinement.

(** ** Runs that can be executed *)
Section execution.
Context {App : Type} `{!Handler App, !OnUmem App} (o : options) (frame : Z -> Z).

(** What happens next: a batch is served, or the kernel takes [n] buffers, delivers a packet in
    the [i]-th buffer that it holds, transmits [n] packets, completes the [i]-th buffer. *)
Inductive event :=
  | EvServe
  | EvTake (n : Z)
  | EvDeliver (i : nat) (d : xdp_desc) (bs : list Z)
  | EvTransmit (n : Z)
  | EvComplete (i : nat).

Definition placed_b (d : xdp_desc) : bool :=
  (0 <=? d.(desc_addr)) && (d.(desc_addr) <? 2 ^ 48) && (0 <=? d.(desc_len)) &&
  forallb (fun x => frame (d.(desc_addr) + x) =? frame d.(desc_addr)) (seqZ 0 d.(desc_len)).

Lemma placed_b_spec d : placed_b d = true -> placed frame d.
Proof.
  intros [[[H1%Z.leb_le H2%Z.ltb_lt]%andb_prop H3%Z.leb_le]%andb_prop H4]%andb_prop.
  split; [lia|]. split; [done|]. intros x Hx. apply Z.eqb_eq. rewrite forallb_forall in H4.
  apply H4. apply list_elem_of_In, elem_of_seqZ. lia.
Qed.

Definition bytes_ok_b (m : mem) : bool :=
  forallb (fun xb => (0 <=? xb.2) && (xb.2 <? 2 ^ 8)) (map_to_list m).

Lemma bytes_ok_b_spec m : bytes_ok_b m = true -> bytes_ok m.
Proof.
  unfold bytes_ok_b. rewrite forallb_forall. intros H x b Hx.
  destruct (proj1 (andb_true_iff _ _) (H (x, b) ltac:(by apply list_elem_of_In, elem_of_map_to_list))) as [H1 H2].
  apply Z.leb_le in H1. apply Z.ltb_lt in H2. done.
Qed.

Definition net_event (e : event) (n : @net App) : option net :=
  let '(Net (Sys w h f) i u) := n in
  match e with
  | EvServe =>
      if warm_ok o w && tx_room o w then '(w', _) ← serve o 0 [] w; Some (Net (Sys w' h f) i u) else None
  | EvTake n =>
      if (0 <=? n) && (n <=? u32 (w.(fq).(producer) - w.(fq).(consumer)))
      then Some (Net (Sys (set_fq w (kernel_consume w.(fq) n)) (h ++ take (Z.to_nat n) (pending w.(fq))) f) i u)
      else None
  | EvDeliver k d bs =>
      a ← h !! k;
      m ← store_bytes (app_umem w.(app)) (w.(buffer) + d.(desc_addr)) bs;
      let w' := set_app (set_rx w (kernel_produce w.(rx) [d])) (put_umem w.(app) m) in
      p ← read_packet w' d;
      if (frame d.(desc_addr) =? frame a) && placed_b d && (d.(desc_len) =? Z.of_nat (length bs)) &&
        bytes_ok_b m && (u32 (w.(rx).(producer) - w.(rx).(consumer)) <? w.(rx).(ring_size))
      then Some (Net (Sys w' (take k h ++ drop (S k) h) f) (i ++ [p]) u) else None
  | EvTransmit n =>
      ps ← mapM (read_packet w) (take (Z.to_nat n) (pending w.(tx)));
      if (0 <=? n) && (n <=? u32 (w.(tx).(producer) - w.(tx).(consumer)))
      then Some (Net (Sys (set_tx w (kernel_consume w.(tx) n)) h
        (f ++ (desc_addr <$> take (Z.to_nat n) (pending w.(tx))))) i (u ++ ps))
      else None
  | EvComplete k =>
      a ← f !! k;
      if u32 (w.(cq).(producer) - w.(cq).(consumer)) <? w.(cq).(ring_size)
      then Some (Net (Sys (set_cq w (kernel_produce w.(cq) [a])) h (take k f ++ drop (S k) f)) i u)
      else None
  end.

Fixpoint net_run (es : list event) (n : net) : option net :=
  match es with [] => Some n | e :: es => n ← net_event e n; net_run es n end.

(** Every event is a step. *)
Lemma net_event_step e n n' : net_event e n = Some n' -> net_step o frame n n'.
Proof.
  destruct n as [[w h f] i u].
  destruct e as [|n|k d bs|n|k]; cbn [net_event].
  - destruct (warm_ok o w) eqn:Hw; [|done]. destruct (tx_room o w) eqn:Ht; [|done]. cbn [andb].
    intros ([w' ks] & Hs & [= <-])%bind_Some. by eapply net_serve.
  - destruct (_ && _) eqn:Hn; [|done]. apply andb_prop in Hn as [?%Z.leb_le ?%Z.leb_le]. intros [= <-].
    by apply net_take.
  - intros (a & Ha & (m & Hm & (p & Hp & H)%bind_Some)%bind_Some)%bind_Some.
    destruct (_ && _) eqn:Hc; [|done]. injection H as <-.
    apply andb_prop in Hc as [[[[Hd%Z.eqb_eq Hpl%placed_b_spec]%andb_prop Hl%Z.eqb_eq]%andb_prop
      Hok%bytes_ok_b_spec]%andb_prop Hr%Z.ltb_lt].
    destruct (store_bytes_spec _ _ _ _ Hm) as ([_ Hsame] & _ & _).
    rewrite <- (take_drop_middle h k a Ha) at 1.
    apply (net_deliver o frame); try done. intros x Hx. apply Hsame. intros Hin. apply Hx.
    rewrite <- Hd. destruct Hpl as (_ & _ & Hf). rewrite <- (Hf (x - (buffer w + desc_addr d))) by lia.
    f_equal. lia.
  - intros (ps & Hps & H)%bind_Some. destruct (_ && _) eqn:Hn; [|done]. injection H as <-.
    apply andb_prop in Hn as [?%Z.leb_le ?%Z.leb_le]. by apply net_transmit.
  - intros (a & Ha & H)%bind_Some. destruct (_ <? _) eqn:Hr; [|done]. injection H as <-.
    apply Z.ltb_lt in Hr. rewrite <- (take_drop_middle f k a Ha) at 1. by apply net_complete.
Qed.

Lemma net_run_reachable es : forall n n', net_run es n = Some n' -> net_reachable o frame n n'.
Proof.
  induction es as [|e es IH]; intros n n'; cbn [net_run]; [intros [= <-]; apply rtc_refl|].
  intros (n1 & He & Hr)%bind_Some. eapply rtc_l; [by eapply net_event_step|]. by apply IH.
Qed.
End execution.

(** ** Unaligned mode *)

(** C33: In unaligned mode the kernel gives the offset of the packet in its chunk in the upper
    bits of the address.  [forward] hands the packet to the application at that offset but
    drops the offset from the descriptor it sends: what goes out starts at the chunk, that
    many bytes before the packet. *)
Theorem forward_drops_offset {App} `{!Handler App} o ks (w w0 : world App) ts base off len a :
  let d := XdpDesc (base + off * 2 ^ 48) len 0 in
  0 <= base -> 0 < off < 2 ^ 16 -> base + off < 2 ^ 48 ->
  complete_tx_forward o ks w = Some (w0, ks) ->
  tx_holds w0.(tx) ts 0 -> rx_holds w0.(rx) [d] 0 -> w0.(nb_frags_fwd) = 0 ->
  0 < o.(opt_batch_size) < 2 ^ 31 -> 0 <= w0.(outstanding_tx) < 2 ^ 31 ->
  Z.of_nat (length ts) + 1 <= w0.(tx).(ring_size) ->
  process_packet o.(opt_application_type) w0.(app) (w0.(buffer) + base + off) len (base + off) = Some a ->
  exists w', forward o ks w = Some (w', ks) /\ w'.(app) = a /\
    tx_holds w'.(tx) (ts ++ [XdpDesc base len 0]) w'.(nb_frags_fwd) /\
    pkt_of w' (XdpDesc base len 0) = w0.(buffer) + base.
Proof.
  intros d Hb Ho Hs Hc Ht Hr Hn Hbatch Hout Hroom Hp.
  assert (xsk_umem__extract_addr (base + off * 2 ^ 48) = base) as He.
  { unfold xsk_umem__extract_addr, XSK_UNALIGNED_BUF_ADDR_MASK, XSK_UNALIGNED_BUF_OFFSET_SHIFT.
    change (Z.shiftl 1 48 - 1) with (Z.ones 48). rewrite Z.land_ones by lia. zlia. }
  assert (xsk_umem__add_offset_to_addr (base + off * 2 ^ 48) = base + off) as Ha.
  { unfold xsk_umem__add_offset_to_addr. rewrite He. unfold xsk_umem__extract_offset.
    rewrite Z.shiftr_div_pow2 by done. change XSK_UNALIGNED_BUF_OFFSET_SHIFT with 48. zlia. }
  destruct (forward_queue o ks w w0 ts [d]) as (n & Hn1 & Hn2 & Hn3 & H);
    [done|by rewrite Hn|by rewrite Hn|done|done|cbn [length]; lia|].
  cbn [length] in Hn2. destruct n as [|n]; [by specialize (Hn3 eq_refl)|]. assert (n = 0%nat) as -> by lia.
  cbn [take process_all] in H. unfold forward_desc in H. cbn [desc_addr desc_len desc_options d] in H.
  unfold xsk_umem__get_data in H. rewrite Hn, Ha, Z.add_assoc, Hp in H. cbn in H.
  destruct H as (w' & Hf & Htx & Hrx & Hap & _ & _ & _ & Hbu). exists w'. split; [exact Hf|]. split; [exact Hap|].
  split.
  - assert (tx_of d = XdpDesc base len 0) as Htd by (unfold tx_of; cbn [desc_addr desc_len desc_options d]; by rewrite He).
    by rewrite <- Htd.
  - unfold pkt_of, xsk_umem__get_data. rewrite Hbu. f_equal. cbn [desc_addr]. unfold xsk_umem__add_offset_to_addr.
    unfold xsk_umem__extract_offset, xsk_umem__extract_addr, XSK_UNALIGNED_BUF_ADDR_MASK, XSK_UNALIGNED_BUF_OFFSET_SHIFT.
    change (Z.shiftl 1 48 - 1) with (Z.ones 48). rewrite Z.land_ones, Z.shiftr_div_pow2 by lia. zlia.
Qed.

(** A packet 256 bytes into the first chunk. *)
Definition unaligned_delivered : world unit :=
  set_rx example_taken (kernel_produce example_taken.(rx) [XdpDesc (0 + 256 * 2 ^ 48) 60 0]).

Lemma unaligned_rx : rx_holds unaligned_delivered.(rx) [XdpDesc (0 + 256 * 2 ^ 48) 60 0] 0.
Proof. exists 0, 0, 0, 1. split; [ring4|split; reflexivity]. Qed.

Lemma unaligned_tx : tx_holds unaligned_delivered.(tx) [] 0.
Proof. exists 0, 0, 0, 0. split; [ring4|split; reflexivity]. Qed.

#[local] Existing Instance null_handler.

Lemma forward_drops_offset_witness :
  exists w', forward (example_options 3 true) [] unaligned_delivered = Some (w', []) /\ w'.(app) = tt /\
    tx_holds w'.(tx) ([] ++ [XdpDesc 0 60 0]) w'.(nb_frags_fwd) /\
    pkt_of w' (XdpDesc 0 60 0) = unaligned_delivered.(buffer) + 0.
Proof.
  apply (forward_drops_offset (example_options 3 true) [] unaligned_delivered unaligned_delivered [] 0 256 60 tt).
  - lia.
  - lia.
  - lia.
  - reflexivity.
  - apply unaligned_tx.
  - apply unaligned_rx.
  - reflexivity.
  - by compute.
  - by compute.
  - by compute.
  - reflexivity.
Defined.
