(* ===== verification/EndToEnd.v ===== *)
(** * The forwarding applications from wire to wire

    L2 forwarding and the key-value store implement servers on packets ([Wire.Implements]):
    what a client sees of the program is the server, whichever way the buffers are reused. *)
From S2P Require Import Prelude Mem Packet XskRing FillQueue DataPath Buffers QueueSpec.
From S2P Require Import CityHash PoolAlloc MicaTable Apps AppTypes MicaApp Progress Wire.

#[export] Instance toasty_umem : OnUmem toasty_app := { app_umem := umem; put_umem := set_umem }.

(** ** The servers *)

(** The two MAC addresses change places. *)
Definition l2_answer (bs : list Z) : list Z := take 6 (drop 6 bs) ++ take 6 bs ++ drop 12 bs.

(** Where the value of a request is: behind the Ethernet, IP and UDP headers and the key. *)
Definition value_at (bs : list Z) : nat := Z.to_nat (14 + (bs !!! 14%nat &' 15) * 4 + 16).

(** The key-value store: the number of the packet and what is stored. *)
Definition kv_answer (V : Z) (s : Z * gmap Z (list Z)) (bs : list Z) : (Z * gmap Z (list Z)) * list Z :=
  let at_ := value_at bs in
  let r := kv_step V s.1 s.2 (take (Z.to_nat V) (drop at_ bs)) in
  ((s.1 + 1, r.1), take at_ bs ++ r.2 ++ drop (at_ + Z.to_nat V) bs).

Definition kv_whole (V : Z) (bs : list Z) : Prop := (14 < length bs)%nat /\ (value_at bs + Z.to_nat V <= length bs)%nat.

(** The server of application [T]: 3 is L2 forwarding, 4 the key-value store. *)
Definition toasty_server (T V : Z) : server := {|
  sv_state := Z * gmap Z (list Z);
  sv_answer := fun s bs => if T =? 4 then kv_answer V s bs else (s, l2_answer bs);
  sv_whole := fun bs => if T =? 4 then kv_whole V bs else (12 <= length bs)%nat |}.

(** What [main] stores. *)
Definition default_store (V : Z) : gmap Z (list Z) :=
  list_to_map ((fun i => (i, default_value V)) <$> seqZ 0 NUM_KEYS).

Section servers.
Context (T V : Z) (contents : gmap Z Z).
Hypothesis HT : T = 3 \/ T = 4.
Hypothesis HV : T = 4 -> value_size_ok V.

(** The application is in the state of the server. *)
Definition app_serves (a : toasty_app) (s : Z * gmap Z (list Z)) : Prop :=
  bytes_ok (umem a) /\
  (T = 4 -> Z.of_nat (length (stack_garbage a)) = V /\ 0 <= s.1 /\
    mica_inv city_hash contents V s.1 (mica a) s.2).

Lemma load_bytes_sub m a bs k n :
  load_bytes (length bs) m a = Some bs -> (k + n <= length bs)%nat ->
  load_bytes n m (a + Z.of_nat k) = Some (take n (drop k bs)).
Proof.
  intros [_ Hl]%load_bytes_lookup Hk. apply load_bytes_lookup.
  split; [rewrite length_take, length_drop; lia|]. intros i Hi.
  rewrite lookup_take_lt, lookup_drop by lia. rewrite <- Hl by lia. f_equal. lia.
Qed.

(** A part of a packet is overwritten. *)
Lemma load_bytes_splice m m' a bs k n out :
  load_bytes (length bs) m a = Some bs -> load_bytes n m' (a + Z.of_nat k) = Some out ->
  same_except m m' (a + Z.of_nat k) (Z.of_nat n) -> (k + n <= length bs)%nat ->
  load_bytes (length bs) m' a = Some (take k bs ++ out ++ drop (k + n) bs).
Proof.
  intros Hbs Hout Hsame Hk.
  assert (forall b l, (b + l <= length bs)%nat -> (b + l <= k \/ k + n <= b)%nat ->
    load_bytes l m' (a + Z.of_nat b) = Some (take l (drop b bs))) as Hpart.
  { intros b l Hb Hd. rewrite <- (load_bytes_sub m a bs b l Hbs Hb).
    eapply load_bytes_frame; [exact Hsame|lia]. }
  pose proof (Hpart 0%nat k ltac:(lia) ltac:(lia)) as Hl. rewrite Z.add_0_r, drop_0 in Hl.
  pose proof (Hpart (k + n)%nat (length bs - (k + n))%nat ltac:(lia) ltac:(lia)) as Hr.
  rewrite take_ge in Hr by (rewrite length_drop; lia).
  replace (a + Z.of_nat (k + n)) with (a + Z.of_nat k + Z.of_nat n) in Hr by lia.
  pose proof (load_bytes_split _ _ _ _ _ _ Hl (load_bytes_split _ _ _ _ _ _ Hout Hr)) as Hall.
  by replace (k + (n + (length bs - (k + n))))%nat with (length bs) in Hall by lia.
Qed.

Lemma l2_serves a s pkt addr bs :
  bytes_ok (umem a) -> load_bytes (length bs) (umem a) pkt = Some bs -> (12 <= length bs)%nat ->
  exists m, process_packet_l2fwd (umem a) pkt s addr = Some m /\ bytes_ok m /\
    load_bytes (length bs) m pkt = Some (l2_answer bs) /\ same_except (umem a) m pkt 12.
Proof.
  intros Hok Hbs Hlen.
  pose proof (load_bytes_sub _ _ _ 0 6 Hbs ltac:(lia)) as Hd. rewrite Z.add_0_r, drop_0 in Hd.
  pose proof (load_bytes_sub _ _ _ 6 6 Hbs ltac:(lia)) as Hs. change (Z.of_nat 6) with 6 in Hs.
  destruct (swap_macs_spec _ _ _ _ Hok Hd Hs) as (m & Hm & Hd' & Hs' & Hsame & Hok').
  exists m. split; [done|]. split; [done|]. split; [|done].
  pose proof (load_bytes_split _ _ _ _ _ _ Hd' Hs') as H12.
  pose proof (load_bytes_splice (umem a) m pkt bs 0 12 (take 6 (drop 6 bs) ++ take 6 bs)) as Hsp.
  rewrite Z.add_0_r in Hsp. rewrite Hsp; [|done|exact H12|exact Hsame|lia].
  by rewrite take_0, <- app_assoc.
Qed.

Lemma kv_serves a s pkt len addr bs :
  T = 4 -> app_serves a s -> load_bytes (length bs) (umem a) pkt = Some bs -> kv_whole V bs ->
  exists m c, process_packet_mica (stack_garbage a) (umem a) (mica a) pkt len addr = Some (m, c) /\
    bytes_ok m /\ mica_inv city_hash contents V (s.1 + 1) c (kv_answer V s bs).1.2 /\
    load_bytes (length bs) m pkt = Some (kv_answer V s bs).2 /\
    same_except (umem a) m (pkt + Z.of_nat (value_at bs)) V.
Proof.
  intros H4 [Hok Hr] Hbs [H14 Hlen]. destruct (Hr H4) as (Hst & Hn & Hinv). pose proof (HV H4) as [HV1 HV2].
  pose proof (nibble_range (bs !!! 14%nat)) as Hnib. set (at_ := value_at bs) in *.
  pose proof (proj1 (load_bytes_lookup _ _ _ _) Hbs) as [_ Hcell].
  assert (udp_of (umem a) pkt = Some (pkt + Z.of_nat at_ - 16)) as Hudp.
  { destruct (lookup_lt_is_Some_2 bs 14 H14) as [x Hx].
    assert (umem a !! ip_of pkt = Some x) as Hip.
    { unfold ip_of, sizeof_ether_header. change (pkt + 14) with (pkt + Z.of_nat 14). by rewrite Hcell. }
    rewrite (udp_of_Some _ _ _ Hip). unfold at_, value_at.
    rewrite (list_lookup_total_correct _ _ _ Hx) in *. f_equal. lia. }
  assert (30 <= Z.of_nat at_) as Hat by (unfold at_, value_at; lia).
  assert (mapped (umem a) pkt (Z.of_nat (length bs))) as Hmap.
  { intros x Hx. replace x with (pkt + Z.of_nat (Z.to_nat (x - pkt))) by lia. rewrite Hcell by lia.
    apply lookup_lt_is_Some_2. lia. }
  destruct (mica_packet_spec city_hash city_hash_range app_key_hash app_keys_fit contents V (conj HV1 HV2)
    s.1 (mica a) s.2 (stack_garbage a) (umem a) pkt len addr (pkt + Z.of_nat at_ - 16) Hn Hinv)
    as (input & m & c & Hin & Hp & Hinv' & Hout & Hsame).
  { split; [exact Hudp|]. split; [eapply mapped_sub; [exact Hmap|lia..]|done]. }
  replace (pkt + Z.of_nat at_ - 16 + 16) with (pkt + Z.of_nat at_) in * by lia.
  rewrite (load_bytes_sub _ _ _ at_ (Z.to_nat V) Hbs Hlen) in Hin. injection Hin as <-.
  exists m, c. split; [exact Hp|]. split; [|split; [exact Hinv'|split; [|exact Hsame]]].
  - by apply mica_cells in Hp as ([_ Hk] & _); apply Hk.
  - apply (load_bytes_splice (umem a)); [done|exact Hout|by rewrite Z2Nat.id by lia|lia].
Qed.

Lemma app_serves_put a s m : app_serves a s -> bytes_ok m -> app_serves (set_umem a m) s.
Proof. intros [_ H4] Hm. by split. Qed.

#[export] Instance toasty_implements : Implements T (toasty_server T V) app_serves.
Proof.
  split; [done|by intros a s m; apply app_serves_put|]. intros a s pkt addr bs Hr Hbs Hw.
  cbn [app_umem toasty_umem sv_answer sv_whole toasty_server] in *.
  change (process_packet T a pkt ?l addr) with (toasty_process_packet T a pkt l addr).
  destruct HT as [H3|H4].
  - rewrite H3 in Hw |- *. cbn [Z.eqb Pos.eqb] in *.
    destruct (l2_serves (count_packet a) (Z.of_nat (length bs)) pkt addr bs (proj1 Hr) Hbs Hw)
      as (m & Hm & Hok & Hout & Hsame).
    exists (set_umem (count_packet a) m). unfold toasty_process_packet. cbn [Z.eqb Pos.eqb]. rewrite Hm.
    split; [done|]. split; [by split; [|intros; lia]|]. split; [exact Hout|].
    intros x Hx. apply Hsame. lia.
  - rewrite H4 in Hw |- *. cbn [Z.eqb Pos.eqb] in *.
    destruct (kv_serves (count_packet a) s pkt (Z.of_nat (length bs)) addr bs H4) as (m & c & Hp & Hok & Hinv & Hout & Hsame);
      [by destruct Hr|exact Hbs|exact Hw|].
    exists (set_mica (count_packet a) m c). unfold toasty_process_packet. cbn [Z.eqb Pos.eqb].
    rewrite Hp. split; [done|]. split; [|split; [exact Hout|]].
    + split; [exact Hok|]. intros _. destruct Hr as [_ Hr]. destruct (Hr H4) as (? & ? & _).
      split; [done|]. split; [cbn; lia|exact Hinv].
    + intros x Hx. apply Hsame. destruct Hw as [_ Hw], (HV H4). lia.
Qed.

(** The store counts only for the keys of the program. *)
Lemma mica_inv_agree n c S S' :
  mica_inv city_hash contents V n c S -> (forall j, 0 <= j < NUM_KEYS -> S' !! j = S !! j) ->
  (forall j, is_Some (S' !! j) -> 0 <= j < NUM_KEYS) -> mica_inv city_hash contents V n c S'.
Proof.
  intros (t & p & L & A & -> & Hf & [HA HS] & Hdom & Hby) Hag Hd.
  assert (forall j v, S' !! j = Some v -> S !! j = Some v) as Hsub.
  { intros j v Hj. rewrite <- Hag; [done|]. apply Hd. by eexists. }
  exists t, p, L, A. split; [done|]. split; [done|]. split; [split|split].
  - intros K X. rewrite HA. split; intros (i & v & HK & Hi & Hv & HX); exists i, v; (split; [done|]);
      (split; [done|]); (split; [|done]); [by rewrite Hag|by apply Hsub].
  - intros i v Hv. by eapply HS, Hsub.
  - intros j Hj. rewrite Hag by done. by apply Hdom.
  - intros j v Hv. by eapply Hby, Hsub.
Qed.

Lemma default_store_lookup j v :
  default_store V !! j = Some v <-> 0 <= j < NUM_KEYS /\ v = default_value V.
Proof.
  unfold default_store. rewrite <- elem_of_list_to_map.
  - rewrite list_elem_of_fmap. split.
    + intros (i & [= -> ->] & Hi%elem_of_seqZ). split; [lia|done].
    + intros [Hj ->]. exists j. split; [done|]. apply elem_of_seqZ. lia.
  - rewrite <- list_fmap_compose. apply (NoDup_fmap_2_strong _); [by intros|apply NoDup_seqZ].
Qed.

(** The application as [main] leaves it when it starts to receive. *)
Record serving (a : toasty_app) : Prop := {
  sg_bytes : bytes_ok (umem a);
  sg_mica : T = 4 -> Z.of_nat (length (stack_garbage a)) = V /\ mica_setup contents V = Some (mica a) }.

Lemma serving_serves a : serving a -> app_serves a (0, default_store V).
Proof.
  intros [Hb Hm]. split; [done|]. intros H4. destruct (Hm H4) as [Hst Hset]. split; [done|].
  split; [done|].
  destruct (mica_setup_spec city_hash city_hash_range app_key_hash app_keys_fit contents V (HV H4))
    as (c & S & Hc & Hinv & HS).
  rewrite Hset in Hc. injection Hc as <-. apply (mica_inv_agree 0 (mica a) S); [exact Hinv| |].
  - intros j Hj. rewrite HS by done. by apply default_store_lookup.
  - intros j [v Hv]. by apply default_store_lookup in Hv as [? _].
Qed.
End servers.

(** ** The program *)

(** A run of the program: its options, the buffers, the sizes of its rings, what [main] sets
    up and what is reached. *)
Record run := Run {
  r_options : options;
  r_frame : Z -> Z;
  r_fill : Z; r_comp : Z; r_rx : Z; r_tx : Z;
  r_umem : Z;
  r_num : Z; r_multiplier : Z;
  r_contents : gmap Z Z;
  r_app : toasty_app;
  r_start : world toasty_app;
  r_end : @net toasty_app }.

Definition r_world (r : run) : world toasty_app := s_world (n_sys (r_end r)).

(** The addresses that [xsk_populate_fill_ring] puts into the fill queue. *)
Definition r_buffers (r : run) : list Z := buffer_addr (r_multiplier r) <$> seqZ 0 (r_num r).

(** It forwards (application [T] is 3 or 4), its buffers are distinct, and every packet it got
    was whole. *)
Record runs (T V : Z) (r : run) : Prop := {
  rn_sizes : pow2 (r_fill r) /\ pow2 (r_comp r) /\ pow2 (r_rx r) /\ pow2 (r_tx r);
  rn_num : 0 < r_num r < 2 ^ 31;
  rn_batch : 0 < opt_batch_size (r_options r) < 2 ^ 31;
  rn_type : opt_application_type (r_options r) = T;
  rn_distinct : NoDup (r_frame r <$> r_buffers r);
  rn_app : serving T V (r_contents r) (r_app r);
  rn_start : xsk_populate_fill_ring (r_num r) (r_multiplier r)
    (init_world (r_fill r) (r_comp r) (r_rx r) (r_tx r) (r_umem r) (r_app r)) = Some (r_start r);
  rn_end : net_reachable (r_options r) (r_frame r) (Net (Sys (r_start r) [] []) [] []) (r_end r);
  rn_whole : whole_packets (toasty_server T V) true (n_in (r_end r)) }.

Definition drained (r : run) : Prop := pending_packets (r_world r) = [] /\ tx_waiting (r_world r) = [].

Lemma run_answers T V r :
  T = 3 \/ T = 4 -> (T = 4 -> value_size_ok V) -> runs T V r ->
  (n_out (r_end r) `prefix_of` answers (toasty_server T V) (0, default_store V) (n_in (r_end r))) /\
  (drained r -> n_out (r_end r) = answers (toasty_server T V) (0, default_store V) (n_in (r_end r))).
Proof.
  intros HT HV [(Hf & Hc & Hr & Ht) Hnum Hb Hty Hd Happ Hs He Hw].
  assert (forwards (r_options r) = true) as Hmode.
  { unfold forwards. rewrite Hty. by destruct HT as [-> | ->]. }
  assert (Implements (opt_application_type (r_options r)) (toasty_server T V) (app_serves T V (r_contents r)))
    as Him by (rewrite Hty; by apply toasty_implements).
  pose proof (flows_start (r_options r) (r_frame r) (toasty_server T V) (app_serves T V (r_contents r))
    (r_buffers r) (0, default_store V) _ _ _ _ _ _ _ _ _ Hf Hc Hr Ht Hnum Hs eq_refl
    (serving_serves T V (r_contents r) HV _ Happ)) as Hfl.
  pose proof (flow_reachable (r_options r) (r_frame r) (toasty_server T V) (app_serves T V (r_contents r))
    (r_buffers r) Hd (0, default_store V) Hb Hmode _ _ Hfl He Hw) as Hend.
  destruct (flows_answers _ _ _ _ _ _ _ Hend) as [Hp Hall]. split; [exact Hp|].
  intros [Hrx Htx]. by apply Hall.
Qed.

(** C3: From wire to wire, for L2 forwarding and the key-value store (with a VALUE_SIZE that
    is a multiple of 8 from 8 to 1016).  In every run ([runs]) with powers of two as ring
    sizes, 1 to 2^31 - 1 distinct buffers, any batch size up to 2^31 - 1, in which a round of the
    application is one atomic step, taken when the warm exchange does not start behind the
    fill queue ([warm_ok]) and the TX ring has room ([tx_room]), the kernel places each packet
    in one buffer it holds, by an aligned descriptor without offset ([placed]; unaligned mode
    loses the offset: C33) and changes no other buffer, and every packet has the bytes that
    the application reads ([whole_packets]): whatever the sizes, batches, the order of the
    buffers and the interleaving of those steps, what has been transmitted is a prefix of
    the answers of the server to what was received, and once the rings are empty it is all
    of them.  The server swaps the MAC addresses of a packet, or takes from or puts into a
    store of 2000 keys by turns; it knows nothing of buffers and rings. *)
Theorem toasty_answers_in_order T V r :
  T = 3 \/ T = 4 -> (T = 4 -> value_size_ok V) -> runs T V r ->
  (n_out (r_end r) `prefix_of` answers (toasty_server T V) (0, default_store V) (n_in (r_end r))) /\
  (drained r -> n_out (r_end r) = answers (toasty_server T V) (0, default_store V) (n_in (r_end r))).
Proof. apply run_answers. Qed.

(** C4: Warm buffers cannot be observed as long as they do not run out.  Two runs of L2
    forwarding or of the key-value store under the conditions of C3 (in particular each round
    of a warm run starts its exchange at a buffer still in the fill queue, [warm_ok]: a
    drained warm queue is observable, C34; TX room; aligned, whole packets; VALUE_SIZE a
    multiple of 8 up to 1016; atomic rounds) that get the same packets, one that hands its
    buffers back last in, first out and one that hands them back in order (or any two
    choices of options, sizes and schedules), send the same packets: of what they have sent
    one is a prefix of the other, and when both have emptied their rings they have sent the
    same. *)
Theorem warm_buffers_invisible T V r1 r2 :
  T = 3 \/ T = 4 -> (T = 4 -> value_size_ok V) -> runs T V r1 -> runs T V r2 ->
  n_in (r_end r1) = n_in (r_end r2) ->
  (n_out (r_end r1) `prefix_of` n_out (r_end r2) \/ n_out (r_end r2) `prefix_of` n_out (r_end r1)) /\
  (drained r1 -> drained r2 -> n_out (r_end r1) = n_out (r_end r2)).
Proof.
  intros HT HV H1 H2 Hin. destruct (run_answers T V r1 HT HV H1) as [Hp1 Ha1].
  destruct (run_answers T V r2 HT HV H2) as [Hp2 Ha2]. rewrite Hin in Hp1, Ha1. split.
  - by eapply prefix_weak_total.
  - intros Hd1 Hd2. by rewrite Ha1, Ha2.
Qed.

(** ** Two runs of L2 forwarding

    Three packets, each sent before the next one comes.  In warm mode the third one lies in
    the buffer of the first; otherwise in the buffer that has not been used yet. *)
Definition wire_memory : mem :=
  mem_of 256 (replicate 14 0) ∪ mem_of 4352 (replicate 14 0) ∪ mem_of 8448 (replicate 14 0).

Definition wire_app : toasty_app := set_umem (idle_app []) wire_memory.

Definition wire_start : world toasty_app :=
  set_fq (init_world 4 4 4 4 0 wire_app) (XskRing 3 4 3 4 3 0 [0; 4096; 8192; 0] 0).

Definition wire_frame (x : Z) : Z := x / 4096.

Definition wire_packet (k : Z) : list Z := Z.add k <$> seqZ 0 14.

Definition wire_events (third : Z) : list event :=
  [EvTake 2; EvDeliver 0 (XdpDesc 256 14 0) (wire_packet 0); EvServe; EvTransmit 1; EvComplete 0;
   EvDeliver 0 (XdpDesc 4352 14 0) (wire_packet 20); EvServe; EvTransmit 1; EvTake 1;
   EvDeliver 0 (XdpDesc third 14 0) (wire_packet 40); EvServe; EvTransmit 1].

Definition wire_options (wb : bool) : options := Options 2 wb true 0 false 4096 3.

Definition wire_end (wb : bool) (third : Z) : option net :=
  net_run (wire_options wb) wire_frame (wire_events third) (Net (Sys wire_start [] []) [] []).

Definition wire_run (wb : bool) (third : Z) : run :=
  Run (wire_options wb) wire_frame 4 4 4 4 0 3 4096 ∅ wire_app wire_start
    (default (Net (Sys wire_start [] []) [] []) (wire_end wb third)).

Definition wire_input : list packet := (fun k => Packet (wire_packet k) 0) <$> [0; 20; 40].

(** Where the third packet lies depends on the mode. *)
Example warm_reuses_first : is_Some (wire_end true 256) /\ wire_end true 8448 = None.
Proof. split; [eexists|]; vm_compute; reflexivity. Qed.

Example fifo_takes_unused : is_Some (wire_end false 8448) /\ wire_end false 256 = None.
Proof. split; [eexists|]; vm_compute; reflexivity. Qed.

Lemma wire_input_whole : whole_packets (toasty_server 3 0) true wire_input.
Proof. cbn. repeat split; intros _; vm_compute; lia. Qed.

Lemma wire_runs wb third :
  is_Some (wire_end wb third) -> n_in (r_end (wire_run wb third)) = wire_input -> runs 3 0 (wire_run wb third).
Proof.
  intros [n Hn] Hin. split; cbn [r_fill r_comp r_rx r_tx r_num r_options r_app r_contents r_start wire_run].
  - split_and!; apply pow2_4.
  - lia.
  - cbn. lia.
  - done.
  - unfold r_buffers. cbn [r_num r_multiplier wire_run r_frame].
    apply (bool_decide_unpack (NoDup _)). vm_compute. exact I.
  - split; [|done]. cbn [umem wire_app set_umem]. apply bytes_ok_b_spec. vm_compute. reflexivity.
  - reflexivity.
  - cbn [r_frame r_end wire_run]. rewrite Hn. cbn [default]. eapply net_run_reachable. exact Hn.
  - rewrite Hin. apply wire_input_whole.
Qed.

Lemma wire_runs_warm : runs 3 0 (wire_run true 256).
Proof. apply wire_runs; [apply warm_reuses_first|vm_compute; reflexivity]. Qed.

Lemma wire_runs_fifo : runs 3 0 (wire_run false 8448).
Proof. apply wire_runs; [apply fifo_takes_unused|vm_compute; reflexivity]. Qed.

Lemma toasty_answers_in_order_witness :
  n_out (r_end (wire_run true 256)) = answers (toasty_server 3 0) (0, default_store 0) wire_input.
Proof.
  destruct (toasty_answers_in_order 3 0 (wire_run true 256)) as [_ H].
  - by left.
  - discriminate.
  - apply wire_runs_warm.
  - apply H. split; vm_compute; reflexivity.
Defined.

Lemma warm_buffers_invisible_witness :
  n_out (r_end (wire_run true 256)) = n_out (r_end (wire_run false 8448)).
Proof.
  destruct (warm_buffers_invisible 3 0 (wire_run true 256) (wire_run false 8448)) as [_ H].
  - by left.
  - discriminate.
  - apply wire_runs_warm.
  - apply wire_runs_fifo.
  - vm_compute. reflexivity.
  - apply H; split; vm_compute; reflexivity.
Defined.
