(* ===== verification/IntMap.v ===== *)
(** * The integer map: [hashmap.c]

    Open addressing with linear probing over a table of fixed size.  As long as nothing is
    deleted the table is a finite map on the keys that are not negative; a deletion leaves a
    hole at which later searches stop. *)
From stdpp Require Import fin_maps fin_map_dom.
From S2P Require Import Prelude.

Definition TABLE_SIZE : Z := 10000.
Definition EMPTY_KEY : Z := -1.

Record Entry := MkEntry { key : Z; value : Z; occupied : bool }.

Abbreviation HashMap := (list Entry).

(** [%] on [int] truncates, so a negative key has a negative remainder. *)
Definition myhash (key : Z) : Z := u32 (Z.rem key TABLE_SIZE).

Definition clear_entry (e : Entry) : Entry := MkEntry EMPTY_KEY (value e) false.

Definition initHashMap (map : HashMap) : HashMap := clear_entry <$> map.

(** [while (occupied) { if (key found) ...; index = (index + 1) % TABLE_SIZE; }]: where the
    loop ends, and whether it found the key.  [None] is an index outside the table or, when
    the fuel of one round through the table runs out, an endless loop. *)
Fixpoint probe (fuel : nat) (map : HashMap) (k index : Z) : option (Z * bool) :=
  match fuel with
  | O => None
  | S fuel' =>
      e ← map !! Z.to_nat index;
      if occupied e then
        if key e =? k then Some (index, true)
        else probe fuel' map k (u32 (index + 1) mod TABLE_SIZE)
      else Some (index, false)
  end.

Definition probe_key (map : HashMap) (k : Z) : option (Z * bool) :=
  probe (Z.to_nat TABLE_SIZE) map k (myhash k).

Definition insert_key (map : HashMap) (k v : Z) : option HashMap :=
  '(index, found) ← probe_key map k;
  e ← map !! Z.to_nat index;
  Some (<[Z.to_nat index :=
          if found : bool then MkEntry (key e) v (occupied e) else MkEntry k v true]> map).

(** [*value] and the result 1, or the result 0. *)
Definition search_key (map : HashMap) (k : Z) : option (option Z) :=
  '(index, found) ← probe_key map k;
  if found : bool then e ← map !! Z.to_nat index; Some (Some (value e)) else Some None.

Definition delete_key (map : HashMap) (k : Z) : option HashMap :=
  '(index, found) ← probe_key map k;
  if found : bool then
    e ← map !! Z.to_nat index;
    Some (<[Z.to_nat index := MkEntry EMPTY_KEY (value e) false]> map)
  else Some map.

(** ** Probing *)

(** The slot after [d] steps from slot [h]. *)
Definition pos (h : Z) (d : nat) : Z := (h + Z.of_nat d) mod TABLE_SIZE.

Lemma pos_range h d : 0 <= pos h d < TABLE_SIZE.
Proof. apply Z.mod_pos_bound. unfold TABLE_SIZE. lia. Qed.

Lemma pos_next h d : u32 (pos h d + 1) mod TABLE_SIZE = pos h (S d).
Proof.
  pose proof (pos_range h d) as Hr. rewrite (wrap_small 32) by (unfold TABLE_SIZE in *; lia).
  unfold pos. rewrite Zplus_mod_idemp_l. f_equal. lia.
Qed.

(** Every slot is some number of steps away. *)
Lemma pos_reach h i : 0 <= i < TABLE_SIZE ->
  exists d, (d < Z.to_nat TABLE_SIZE)%nat /\ pos h d = i.
Proof.
  intros Hi. exists (Z.to_nat ((i - h) mod TABLE_SIZE)).
  pose proof (Z.mod_pos_bound (i - h) TABLE_SIZE ltac:(done)). split; [lia|].
  unfold pos. rewrite Z2Nat.id by lia. rewrite Zplus_mod_idemp_r.
  replace (h + (i - h)) with i by lia. by apply Z.mod_small.
Qed.

Definition at_slot (t : HashMap) (h : Z) (d : nat) : option Entry := t !! Z.to_nat (pos h d).

(** The slots before step [d] hold other keys. *)
Definition passed (t : HashMap) (k h : Z) (d : nat) : Prop :=
  forall d', (d' < d)%nat -> exists e, at_slot t h d' = Some e /\ occupied e = true /\ key e <> k.

Definition stops (k : Z) (e : Entry) : Prop := occupied e = false \/ key e = k.

#[export] Instance stops_dec k e : Decision (stops k e).
Proof. unfold stops. apply _. Defined.

Definition stop_at (t : HashMap) (k h : Z) (d : nat) : Prop :=
  match at_slot t h d with Some e => stops k e | None => False end.

#[export] Instance stop_at_dec t k h d : Decision (stop_at t k h d).
Proof. unfold stop_at. destruct (at_slot t h d); apply _. Defined.

Lemma probe_passed t k h n : forall d0 fuel e,
  (n < fuel)%nat ->
  (forall d', (d0 <= d' < d0 + n)%nat -> exists e, at_slot t h d' = Some e /\ occupied e = true /\ key e <> k) ->
  at_slot t h (d0 + n) = Some e -> stops k e ->
  probe fuel t k (pos h d0) = Some (pos h (d0 + n), occupied e).
Proof.
  induction n as [|n IH]; intros d0 [|fuel] e Hf Hp He Hs; try lia; cbn [probe].
  - rewrite Nat.add_0_r in *. unfold at_slot in He. rewrite He. cbn [mbind option_bind].
    destruct (occupied e) eqn:Ho; [|done]. destruct Hs as [?|<-]; [congruence|]. by rewrite Z.eqb_refl.
  - destruct (Hp d0) as (e0 & He0 & Ho0 & Hk0); [lia|]. unfold at_slot in He0. rewrite He0.
    cbn [mbind option_bind]. rewrite Ho0, (proj2 (Z.eqb_neq _ _) Hk0), pos_next.
    rewrite (IH (S d0) fuel e); [by rewrite Nat.add_succ_comm|lia| | |done].
    + intros d' Hd'. apply Hp. lia.
    + by rewrite Nat.add_succ_comm.
Qed.

(** A stopping slot within one round has a first one. *)
Lemma first_stop t k h D e :
  length t = Z.to_nat TABLE_SIZE -> at_slot t h D = Some e -> stops k e ->
  exists d e', (d <= D)%nat /\ passed t k h d /\ at_slot t h d = Some e' /\ stops k e'.
Proof.
  intros Hl. revert e. induction D as [D IH] using lt_wf_ind. intros e He Hs.
  destruct (decide (Exists (stop_at t k h) (seq 0 D))) as [Hx|Hx].
  { apply Exists_exists in Hx as (d & Hd%elem_of_seq & He').
    unfold stop_at in He'. destruct (at_slot t h d) as [e'|] eqn:Hat; [|done].
    destruct (IH d ltac:(lia) e' Hat He') as (d1 & e1 & ? & ? & ? & ?). exists d1, e1. split; [lia|done]. }
  exists D, e. split; [done|]. split; [|done]. intros d' Hd'.
  destruct (lookup_lt_is_Some_2 t (Z.to_nat (pos h d'))) as [e' He'].
  { rewrite Hl. pose proof (pos_range h d'). lia. }
  exists e'. split; [done|]. destruct (decide (stops k e')) as [Hs'|Hs'].
  - exfalso. apply Hx, Exists_exists. exists d'. split; [apply elem_of_seq; lia|].
    unfold stop_at, at_slot. by rewrite He'.
  - unfold stops in Hs'. destruct (occupied e'); split; [done|tauto|exfalso; tauto|tauto].
Qed.

(** ** The table as a map *)

Record rep (t : HashMap) (m : gmap Z Z) : Prop := {
  rp_len : length t = Z.to_nat TABLE_SIZE;
  rp_slot : forall i e, t !! i = Some e -> occupied e = true -> m !! key e = Some (value e);
  rp_uniq : forall i j e e', t !! i = Some e -> t !! j = Some e' ->
    occupied e = true -> occupied e' = true -> key e = key e' -> i = j;
  rp_chain : forall k v, m !! k = Some v -> exists d e, (d < Z.to_nat TABLE_SIZE)%nat /\
    at_slot t (myhash k) d = Some e /\ occupied e = true /\ key e = k /\ passed t k (myhash k) d }.

Lemma myhash_pos k : 0 <= k < 2 ^ 31 -> pos (myhash k) 0 = myhash k.
Proof.
  intros Hk. unfold pos, myhash. rewrite Z.add_0_r, Z.rem_mod_nonneg by (unfold TABLE_SIZE; lia).
  pose proof (Z.mod_pos_bound k TABLE_SIZE ltac:(done)) as Hr. rewrite (wrap_small 32).
  - by apply Z.mod_small.
  - unfold TABLE_SIZE in *. lia.
Qed.

Lemma probe_key_at t k d e :
  0 <= k < 2 ^ 31 -> (d < Z.to_nat TABLE_SIZE)%nat -> passed t k (myhash k) d ->
  at_slot t (myhash k) d = Some e -> stops k e ->
  probe_key t k = Some (pos (myhash k) d, occupied e).
Proof.
  intros Hk Hd Hp He Hs. unfold probe_key. rewrite <- (myhash_pos k Hk) at 1.
  apply (probe_passed t k (myhash k) d 0 _ e); try done. intros d' [_ Hd']. by apply Hp.
Qed.

Lemma rep_hit t m k v :
  rep t m -> 0 <= k < 2 ^ 31 -> m !! k = Some v ->
  exists i e, probe_key t k = Some (i, true) /\ t !! Z.to_nat i = Some e /\
    occupied e = true /\ key e = k /\ value e = v.
Proof.
  intros Hr Hk Hm. destruct (rp_chain _ _ Hr k v Hm) as (d & e & Hd & He & Ho & Hke & Hp).
  exists (pos (myhash k) d), e. rewrite (probe_key_at t k d e), Ho by (done || by right).
  split; [done|]. split; [done|]. split; [done|]. split; [done|].
  pose proof (rp_slot _ _ Hr _ _ He Ho) as Hv. congruence.
Qed.

(** A table with fewer keys than slots has a free slot. *)
Lemma rep_free t m : rep t m -> (size m < Z.to_nat TABLE_SIZE)%nat ->
  exists i e, t !! i = Some e /\ occupied e = false.
Proof.
  intros Hr Hsz. destruct (decide (Exists (fun e => occupied e = false) t)) as [Hx|Hx].
  { apply Exists_exists in Hx as (e & [i Hi]%list_elem_of_lookup & ?). by exists i, e. }
  exfalso. assert (forall i e, t !! i = Some e -> occupied e = true) as Hocc.
  { intros i e He. destruct (occupied e) eqn:Ho; [done|]. exfalso. apply Hx, Exists_exists.
    exists e. split; [by eapply list_elem_of_lookup_2|done]. }
  assert (NoDup (key <$> t)) as Hnd.
  { apply NoDup_alt. intros i j x. rewrite !list_lookup_fmap.
    intros (e & He & ->)%fmap_Some (e' & He' & Hk)%fmap_Some. eapply (rp_uniq _ _ Hr); eauto. }
  assert (list_to_set (C := gset Z) (key <$> t) ⊆ dom m) as Hsub.
  { intros x. rewrite elem_of_list_to_set, list_elem_of_fmap.
    intros (e & -> & [i Hi]%list_elem_of_lookup). apply elem_of_dom. exists (value e).
    eapply (rp_slot _ _ Hr); eauto. }
  apply subseteq_size in Hsub. rewrite size_list_to_set, length_fmap, (rp_len _ _ Hr), size_dom in Hsub by done.
  lia.
Qed.

Lemma rep_miss t m k :
  rep t m -> 0 <= k < 2 ^ 31 -> m !! k = None -> (size m < Z.to_nat TABLE_SIZE)%nat ->
  exists d e, (d < Z.to_nat TABLE_SIZE)%nat /\ probe_key t k = Some (pos (myhash k) d, false) /\
    at_slot t (myhash k) d = Some e /\ occupied e = false /\ passed t k (myhash k) d.
Proof.
  intros Hr Hk Hm Hsz. destruct (rep_free t m Hr Hsz) as (i & e0 & Hi & Ho0).
  pose proof (lookup_lt_Some _ _ _ Hi) as Hlt. rewrite (rp_len _ _ Hr) in Hlt.
  destruct (pos_reach (myhash k) (Z.of_nat i)) as (D & HD & Hpos); [lia|].
  destruct (first_stop t k (myhash k) D e0) as (d & e & Hd & Hp & He & Hs); [apply Hr| |by left|].
  { unfold at_slot. by rewrite Hpos, Nat2Z.id. }
  assert (occupied e = false) as Ho.
  { destruct Hs as [?|Hke]; [done|]. destruct (occupied e) eqn:Ho; [|done].
    pose proof (rp_slot _ _ Hr _ _ He Ho). congruence. }
  exists d, e. rewrite (probe_key_at t k d e), Ho by (done || lia || by left). split; [lia|]. done.
Qed.

Lemma search_rep t m k :
  rep t m -> 0 <= k < 2 ^ 31 -> (m !! k = None -> (size m < Z.to_nat TABLE_SIZE)%nat) ->
  search_key t k = Some (m !! k).
Proof.
  intros Hr Hk Hsz. unfold search_key. destruct (m !! k) as [v|] eqn:Hm.
  - destruct (rep_hit t m k v Hr Hk Hm) as (i & e & -> & He & _ & _ & <-).
    cbn [mbind option_bind]. by rewrite He.
  - by destruct (rep_miss t m k Hr Hk Hm (Hsz eq_refl)) as (d & e & _ & -> & _).
Qed.

(** Filling a slot with an entry of key [k] keeps what lies before it. *)
Lemma passed_fill t k k' h d i x :
  occupied x = true -> key x = k -> k <> k' -> passed t k' h d -> passed (<[i := x]> t) k' h d.
Proof.
  intros Ho Hx Hne Hp d' Hd'. destruct (Hp d' Hd') as (e & He & Hoe & Hke). unfold at_slot in *.
  destruct (decide (i = Z.to_nat (pos h d'))) as [->|Hi].
  - exists x. rewrite list_lookup_insert_eq by (by eapply lookup_lt_Some).
    split; [done|]. split; [done|congruence].
  - exists e. by rewrite list_lookup_insert_ne.
Qed.

(** The probe of a key can stop at one slot only. *)
Lemma stop_unique t k h d d' e e' :
  passed t k h d -> at_slot t h d = Some e -> stops k e ->
  passed t k h d' -> at_slot t h d' = Some e' -> stops k e' -> d = d'.
Proof.
  intros Hp He Hs Hp' He' Hs'. destruct (Nat.lt_trichotomy d d') as [Hlt|[?|Hlt]]; [exfalso|done|exfalso].
  - destruct (Hp' d Hlt) as (x & Hx & Ho & Hk). unfold stops in Hs. destruct Hs; congruence.
  - destruct (Hp d' Hlt) as (x & Hx & Ho & Hk). unfold stops in Hs'. destruct Hs'; congruence.
Qed.

Lemma fill_rep t m k v d e :
  rep t m -> (d < Z.to_nat TABLE_SIZE)%nat -> passed t k (myhash k) d ->
  at_slot t (myhash k) d = Some e -> stops k e ->
  rep (<[Z.to_nat (pos (myhash k) d) := MkEntry k v true]> t) (<[k := v]> m).
Proof.
  intros Hr Hd Hp He Hs. set (i := Z.to_nat (pos (myhash k) d)). set (x := MkEntry k v true).
  assert (forall j e', t !! j = Some e' -> occupied e' = true -> key e' = k -> j = i) as Hown.
  { intros j e' Hj Ho Hk. pose proof (rp_slot _ _ Hr _ _ Hj Ho) as Hm. rewrite Hk in Hm.
    destruct (rp_chain _ _ Hr _ _ Hm) as (d2 & e2 & _ & He2 & Ho2 & Hk2 & Hp2).
    assert (d = d2) as <- by (eapply (stop_unique t k (myhash k)); [..|right]; eassumption).
    eapply (rp_uniq _ _ Hr j i e' e2); [done|done|done|done|congruence]. }
  assert (i < length t)%nat as Hi by (by eapply lookup_lt_Some).
  assert (forall j e', <[i := x]> t !! j = Some e' -> j = i /\ e' = x \/ j <> i /\ t !! j = Some e') as Hat.
  { intros j e'. destruct (decide (i = j)) as [<-|]; [rewrite list_lookup_insert_eq by done; naive_solver|].
    rewrite list_lookup_insert_ne by done. naive_solver. }
  split.
  - rewrite length_insert. apply Hr.
  - intros j e' [[-> ->]|[Hj He']]%Hat Ho; [by rewrite lookup_insert_eq|].
    rewrite lookup_insert_ne; [by eapply (rp_slot _ _ Hr)|]. intros Hk. by eapply Hj, Hown.
  - intros j j' e1 e2 [[-> ->]|[Hj H1]]%Hat [[-> ->]|[Hj' H2]]%Hat Ho1 Ho2 Hk; [done|..].
    + symmetry. eapply Hown; [done|done|]. by rewrite <- Hk.
    + by eapply Hown.
    + by eapply (rp_uniq _ _ Hr).
  - intros k' v' Hm. destruct (decide (k = k')) as [<-|Hne].
    + exists d, x. split; [done|]. split; [by apply list_lookup_insert_eq|]. split; [done|].
      split; [done|]. intros d' Hd'. destruct (Hp d' Hd') as (e' & He' & Ho' & Hk'). exists e'.
      split; [|done]. unfold at_slot. rewrite list_lookup_insert_ne; [done|]. intros Heq.
      unfold at_slot in *. fold i in He. rewrite Heq, He' in He. injection He as ->.
      destruct Hs; congruence.
    + rewrite lookup_insert_ne in Hm by done.
      destruct (rp_chain _ _ Hr _ _ Hm) as (d' & e' & Hd' & He' & Ho' & Hk' & Hp').
      exists d', e'. split; [done|]. split; [|split; [done|split; [done|by eapply passed_fill]]].
      unfold at_slot in *. rewrite list_lookup_insert_ne; [done|]. intros Heq. fold i in He.
      rewrite Heq, He' in He. injection He as ->. destruct Hs; congruence.
Qed.

Lemma insert_key_rep t m k v :
  rep t m -> 0 <= k < 2 ^ 31 -> (m !! k = None -> (size m < Z.to_nat TABLE_SIZE)%nat) ->
  exists t', insert_key t k v = Some t' /\ rep t' (<[k := v]> m).
Proof.
  intros Hr Hk Hsz. unfold insert_key. destruct (m !! k) as [v0|] eqn:Hm.
  - destruct (rp_chain _ _ Hr k v0 Hm) as (d & e & Hd & He & Ho & Hke & Hp).
    rewrite (probe_key_at t k d e), Ho by (done || by right). cbn [mbind option_bind].
    pose proof He as He0. unfold at_slot in He0. rewrite He0. cbn [mbind option_bind]. eexists.
    split; [done|]. rewrite Hke, Ho. apply (fill_rep t m k v d e Hr Hd Hp He). by right.
  - destruct (rep_miss t m k Hr Hk Hm (Hsz eq_refl)) as (d & e & Hd & -> & He & Ho & Hp).
    cbn [mbind option_bind]. pose proof He as He0. unfold at_slot in He0. rewrite He0.
    cbn [mbind option_bind]. eexists. split; [done|].
    apply (fill_rep t m k v d e Hr Hd Hp He). by left.
Qed.

Lemma init_rep t : length t = Z.to_nat TABLE_SIZE -> rep (initHashMap t) ∅.
Proof.
  intros Hl. assert (forall i e, initHashMap t !! i = Some e -> occupied e = false) as Ho.
  { intros i e. unfold initHashMap. rewrite list_lookup_fmap. by intros (? & _ & ->)%fmap_Some. }
  split.
  - unfold initHashMap. by rewrite length_fmap.
  - intros i e He Hoc. apply Ho in He. congruence.
  - intros i j e e' He _ Hoc. apply Ho in He. congruence.
  - by intros k v Hk%lookup_empty_Some.
Qed.

(** ** Runs *)

Fixpoint insert_all (t : HashMap) (kvs : list (Z * Z)) : option HashMap :=
  match kvs with
  | [] => Some t
  | (k, v) :: kvs => t' ← insert_key t k v; insert_all t' kvs
  end.

Fixpoint map_all (m : gmap Z Z) (kvs : list (Z * Z)) : gmap Z Z :=
  match kvs with
  | [] => m
  | (k, v) :: kvs => map_all (<[k := v]> m) kvs
  end.

Lemma map_all_size kvs : forall m, (size (map_all m kvs) <= size m + length kvs)%nat.
Proof.
  induction kvs as [|[k v] kvs IH]; intros m; cbn [map_all length]; [lia|].
  specialize (IH (<[k := v]> m)). rewrite map_size_insert in IH. destruct (m !! k); simpl in *; lia.
Qed.

Lemma insert_all_rep kvs : forall t m,
  rep t m -> Forall (fun kv => 0 <= kv.1 < 2 ^ 31) kvs ->
  (size m + length kvs <= Z.to_nat TABLE_SIZE)%nat ->
  exists t', insert_all t kvs = Some t' /\ rep t' (map_all m kvs).
Proof.
  induction kvs as [|[k v] kvs IH]; intros t m Hr Hks Hsz; cbn [insert_all map_all length] in *.
  { by exists t. }
  apply Forall_cons in Hks as [Hk Hks]. simpl in Hk.
  destruct (insert_key_rep t m k v Hr Hk ltac:(lia)) as (t1 & -> & Hr1). cbn [mbind option_bind].
  apply IH; [done|done|]. rewrite map_size_insert. destruct (m !! k); simpl; lia.
Qed.

(** C28: A table that is only filled is a finite map: after fewer than 10000 insertions with
    keys that are not negative, a search returns the value inserted last for its key, or that
    there is none; insertions that find their key replace its value. *)
Theorem insertions_make_a_map t kvs k :
  length t = Z.to_nat TABLE_SIZE -> Forall (fun kv => 0 <= kv.1 < 2 ^ 31) kvs ->
  Z.of_nat (length kvs) < TABLE_SIZE -> 0 <= k < 2 ^ 31 ->
  exists t', insert_all (initHashMap t) kvs = Some t' /\ search_key t' k = Some (map_all ∅ kvs !! k).
Proof.
  intros Hl Hks Hn Hk.
  destruct (insert_all_rep kvs (initHashMap t) ∅ (init_rep t Hl) Hks) as (t' & Ht & Hr).
  { rewrite map_size_empty. lia. }
  exists t'. split; [done|]. apply search_rep; [done|done|]. intros _.
  pose proof (map_all_size kvs ∅) as Hsz. rewrite map_size_empty in Hsz. lia.
Qed.

(** Two keys of one hash, and one replaced. *)
Theorem insertions_make_a_map_witness :
  exists t', insert_all (initHashMap (replicate (Z.to_nat TABLE_SIZE) (MkEntry 0 7 true)))
      [(1, 10); (10001, 20); (1, 30)] = Some t' /\
    search_key t' 1 = Some (Some 30).
Proof.
  apply (insertions_make_a_map (replicate (Z.to_nat TABLE_SIZE) (MkEntry 0 7 true))
    [(1, 10); (10001, 20); (1, 30)] 1).
  - apply length_replicate.
  - apply (bool_decide_unpack (Forall (fun kv : Z * Z => 0 <= kv.1 < 2 ^ 31) _)). vm_compute. exact I.
  - apply (bool_decide_unpack (_ < TABLE_SIZE)). vm_compute. exact I.
  - lia.
Defined.

Lemma myhash_shift k : 0 <= k -> k + TABLE_SIZE < 2 ^ 31 -> myhash (k + TABLE_SIZE) = myhash k.
Proof.
  intros Hk Hs. unfold myhash. rewrite !Z.rem_mod_nonneg by (unfold TABLE_SIZE in *; lia).
  rewrite <- Z.add_mod_idemp_r, Z_mod_same_full, Z.add_0_r by done. done.
Qed.

Lemma pos_0_1 h : pos h 0 <> pos h 1.
Proof. unfold pos, TABLE_SIZE. Z.to_euclidean_division_equations. lia. Qed.

Lemma two_slots : (1 < Z.to_nat TABLE_SIZE)%nat.
Proof. unfold TABLE_SIZE. lia. Qed.

Lemma passed_0 t k h : passed t k h 0.
Proof. intros d Hd. lia. Qed.

(** C38: A deletion empties the slot of its key, at which the searches of the keys behind it
    then stop: of two keys with one hash, the second is lost when the first is deleted. *)
Theorem deletion_loses_keys k v w t :
  0 <= k -> k + TABLE_SIZE < 2 ^ 31 -> length t = Z.to_nat TABLE_SIZE ->
  exists t1 t2, insert_all (initHashMap t) [(k, v); (k + TABLE_SIZE, w)] = Some t1 /\
    search_key t1 (k + TABLE_SIZE) = Some (Some w) /\
    delete_key t1 k = Some t2 /\ search_key t2 (k + TABLE_SIZE) = Some None.
Proof.
  intros Hk Hk2 Hl. set (k2 := k + TABLE_SIZE). set (t0 := initHashMap t).
  assert (0 <= k < 2 ^ 31 /\ 0 <= k2 < 2 ^ 31 /\ k2 <> k) as (Hkr & Hkr2 & Hne)
    by (unfold k2, TABLE_SIZE in *; lia).
  pose proof (myhash_shift k Hk Hk2) as Hh. fold k2 in Hh. pose proof (pos_0_1 (myhash k)) as H01.
  pose proof (pos_range (myhash k) 0). pose proof (pos_range (myhash k) 1).
  set (i := Z.to_nat (pos (myhash k) 0)). set (j := Z.to_nat (pos (myhash k) 1)).
  assert (i <> j) as Hij by lia.
  assert (length t0 = Z.to_nat TABLE_SIZE) as Hl0 by (unfold t0, initHashMap; by rewrite length_fmap).
  assert (forall n, (n < Z.to_nat TABLE_SIZE)%nat -> exists e, t0 !! n = Some e /\ occupied e = false) as Hall.
  { intros n Hn. destruct (lookup_lt_is_Some_2 t n) as [e He]; [lia|]. exists (clear_entry e).
    split; [|done]. unfold t0, initHashMap. by rewrite list_lookup_fmap, He. }
  destruct (Hall i) as (e1 & He1 & Ho1); [lia|]. destruct (Hall j) as (e2 & He2 & Ho2); [lia|].
  pose proof two_slots as H2s. set (x1 := MkEntry k v true). set (x2 := MkEntry k2 w true).
  assert (insert_key t0 k v = Some (<[i := x1]> t0)) as Hins1.
  { unfold insert_key. rewrite (probe_key_at t0 k 0 e1), Ho1 by first [done|lia|apply passed_0|by left].
    cbn [mbind option_bind]. fold i. by rewrite He1. }
  set (t1 := <[i := x1]> t0) in *.
  assert (t1 !! i = Some x1) as Hi1 by (apply list_lookup_insert_eq; lia).
  assert (t1 !! j = Some e2) as Hj1 by (unfold t1; by rewrite list_lookup_insert_ne).
  assert (forall t' : HashMap, t' !! i = Some x1 -> passed t' k2 (myhash k) 1) as Hpass.
  { intros t' Ht' d Hd. replace d with 0%nat by lia. exists x1. split; [done|]. split; [done|].
    intros ?. by apply Hne. }
  assert (insert_key t1 k2 w = Some (<[j := x2]> t1)) as Hins2.
  { unfold insert_key. rewrite (probe_key_at t1 k2 1 e2), Ho2; try done;
      [|by rewrite Hh; apply Hpass|by rewrite Hh|by left].
    rewrite Hh. cbn [mbind option_bind]. fold j. by rewrite Hj1. }
  set (t2 := <[j := x2]> t1) in *.
  assert (t2 !! i = Some x1) as Hi2 by (unfold t2; by rewrite list_lookup_insert_ne).
  assert (t2 !! j = Some x2) as Hj2
    by (apply list_lookup_insert_eq; unfold t1; rewrite length_insert; lia).
  set (y := MkEntry EMPTY_KEY v false). exists t2, (<[i := y]> t2). split; [|split; [|split]].
  - cbn [insert_all]. rewrite Hins1. cbn [mbind option_bind]. by rewrite Hins2.
  - unfold search_key. rewrite (probe_key_at t2 k2 1 x2); try done;
      [|by rewrite Hh; apply Hpass|by rewrite Hh|by right].
    rewrite Hh. cbn [mbind option_bind occupied x2]. fold j. by rewrite Hj2.
  - unfold delete_key. rewrite (probe_key_at t2 k 0 x1) by first [done|lia|apply passed_0|by right].
    cbn [mbind option_bind occupied x1]. fold i. by rewrite Hi2.
  - unfold search_key. rewrite (probe_key_at _ k2 0 y); [done|done|lia|apply passed_0| |by left].
    rewrite Hh. unfold at_slot. fold i. apply list_lookup_insert_eq.
    unfold t2, t1. rewrite !length_insert. lia.
Qed.

Theorem deletion_loses_keys_witness :
  exists t1 t2, insert_all (initHashMap (replicate (Z.to_nat TABLE_SIZE) (MkEntry 0 7 true)))
      [(1, 10); (10001, 20)] = Some t1 /\
    search_key t1 10001 = Some (Some 20) /\
    delete_key t1 1 = Some t2 /\ search_key t2 10001 = Some None.
Proof.
  apply (deletion_loses_keys 1 10 20 (replicate (Z.to_nat TABLE_SIZE) (MkEntry 0 7 true))).
  - lia.
  - apply (bool_decide_unpack (1 + TABLE_SIZE < 2 ^ 31)). vm_compute. exact I.
  - apply length_replicate.
Defined.

(** A negative key indexes the table out of its bounds. *)
Example negative_key_out_of_bounds :
  search_key (replicate (Z.to_nat TABLE_SIZE) (MkEntry 0 7 true)) (-5) = None.
Proof. reflexivity. Qed.
