(* ===== verification/Config.v ===== *)
(** * Configuration of [toasty.c]

    The command line, the sizes that [main] derives from it, and the state in which the data
    path starts.  A command line is the list of options that [getopt_long] reports, each with
    its argument.  [None] is the end of the process: [usage], an error exit, or undefined
    behaviour. *)
From Stdlib Require Import Ascii String.
From S2P Require Import Prelude XskRing FillQueue DataPath Buffers QueueSpec.

#[local] Open Scope Z_scope.

(** ** Numbers and names in arguments *)

Definition is_space (c : ascii) : bool :=
  let n := nat_of_ascii c in Nat.eqb n 32 || (Nat.leb 9 n && Nat.leb n 13).

Definition is_digit (c : ascii) : bool :=
  let n := nat_of_ascii c in Nat.leb 48 n && Nat.leb n 57.

Fixpoint skip_space (s : string) : string :=
  match s with
  | String c s' => if is_space c then skip_space s' else s
  | EmptyString => s
  end.

Fixpoint digits (s : string) (n : Z) : Z :=
  match s with
  | String c s' =>
      if is_digit c then digits s' (10 * n + (Z.of_nat (nat_of_ascii c) - 48)) else n
  | EmptyString => n
  end.

(** The C library's [atoi]: undefined when the number does not fit. *)
Definition atoi (s : string) : option Z :=
  let s := skip_space s in
  let n := match s with
           | String "-" s' => - digits s' 0
           | String "+" s' => digits s' 0
           | _ => digits s 0
           end in
  if (- 2 ^ 31 <=? n) && (n <? 2 ^ 31) then Some n else None.

Definition to_upper (c : ascii) : ascii :=
  let n := nat_of_ascii c in
  if Nat.leb 97 n && Nat.leb n 122 then ascii_of_nat (n - 32) else c.

(** [strcasecmp(s, t) == 0] *)
Fixpoint same_name (s t : string) : bool :=
  match s, t with
  | EmptyString, EmptyString => true
  | String c s', String d t' => Ascii.eqb (to_upper c) (to_upper d) && same_name s' t'
  | _, _ => false
  end.

(** Constants of the Linux headers. *)
Definition CLOCK_REALTIME : Z := 0.
Definition CLOCK_MONOTONIC : Z := 1.
Definition CLOCK_BOOTTIME : Z := 7.
Definition CLOCK_TAI : Z := 11.
Definition XDP_ZEROCOPY : Z := 4.
Definition XDP_USE_NEED_WAKEUP : Z := 8.
Definition XDP_UMEM_UNALIGNED_CHUNK_FLAG : Z := 1.
Definition MAP_HUGETLB : Z := 0x40000.
Definition MAX_SOCKS : Z := 4.

Definition clockids_map : list (string * Z) :=
  [("REALTIME", CLOCK_REALTIME); ("TAI", CLOCK_TAI);
   ("BOOTTIME", CLOCK_BOOTTIME); ("MONOTONIC", CLOCK_MONOTONIC)]%string.

Fixpoint get_clockid_loop (clk : list (string * Z)) (name : string) : option Z :=
  match clk with
  | [] => None
  | (n, id) :: clk' => if same_name n name then Some id else get_clockid_loop clk' name
  end.

(** [None] is the result -1. *)
Definition get_clockid (name : string) : option Z := get_clockid_loop clockids_map name.

(** ** The variables *)

Inductive xdp_attach_mode := XDP_MODE_NATIVE | XDP_MODE_SKB.

(** The memory and the rings. *)
Record umem_opts := UmemOpts {
  opt_umem_flags : Z; opt_unaligned_chunks : bool; opt_mmap_flags : Z; multiplier : Z; umem_size :
  Z; fq_size : Z; cq_size : Z; rx_queue_size : Z; tx_queue_size : Z; num_fq_desc : Z;
  opt_packet_size : Z; opt_complete_umem : bool }.

(** The rest; [opts] of [config] is what the data path reads. *)
Record run_opts := RunOpts {
  opt_if : string; opt_queue : Z; opt_poll : bool; opt_attach_mode : xdp_attach_mode; opt_interval
  : Z; opt_retries : Z; opt_clock : Z; opt_need_wakeup : bool; opt_num_xsks : Z; opt_duration : Z;
  VALUE_SIZE : Z; opt_spf : bool; addr_file : string; opt_count_cold : bool }.

Record config := Config { opts : options; umem : umem_opts; run : run_opts }.

(** Assignments. *)
Definition set_opts (x : options) (c : config) : config := Config x c.(umem) c.(run).
Definition set_umem (x : umem_opts) (c : config) : config := Config c.(opts) x c.(run).
Definition set_run (x : run_opts) (c : config) : config := Config c.(opts) c.(umem) x.
Definition set_opt_batch_size (x : Z) (c : config) : config :=
  let r := c.(opts) in set_opts (Options x r.(opt_warm_buffers) r.(opt_busy_poll)
    r.(opt_xdp_bind_flags) r.(opt_debug_addr) r.(opt_xsk_frame_size) r.(opt_application_type)) c.
Definition set_opt_warm_buffers (x : bool) (c : config) : config :=
  let r := c.(opts) in set_opts (Options r.(opt_batch_size) x r.(opt_busy_poll)
    r.(opt_xdp_bind_flags) r.(opt_debug_addr) r.(opt_xsk_frame_size) r.(opt_application_type)) c.
Definition set_opt_busy_poll (x : bool) (c : config) : config :=
  let r := c.(opts) in set_opts (Options r.(opt_batch_size) r.(opt_warm_buffers) x
    r.(opt_xdp_bind_flags) r.(opt_debug_addr) r.(opt_xsk_frame_size) r.(opt_application_type)) c.
Definition set_opt_xdp_bind_flags (x : Z) (c : config) : config :=
  let r := c.(opts) in set_opts (Options r.(opt_batch_size) r.(opt_warm_buffers) r.(opt_busy_poll) x
    r.(opt_debug_addr) r.(opt_xsk_frame_size) r.(opt_application_type)) c.
Definition set_opt_debug_addr (x : bool) (c : config) : config :=
  let r := c.(opts) in set_opts (Options r.(opt_batch_size) r.(opt_warm_buffers) r.(opt_busy_poll)
    r.(opt_xdp_bind_flags) x r.(opt_xsk_frame_size) r.(opt_application_type)) c.
Definition set_opt_xsk_frame_size (x : Z) (c : config) : config :=
  let r := c.(opts) in set_opts (Options r.(opt_batch_size) r.(opt_warm_buffers) r.(opt_busy_poll)
    r.(opt_xdp_bind_flags) r.(opt_debug_addr) x r.(opt_application_type)) c.
Definition set_opt_application_type (x : Z) (c : config) : config :=
  let r := c.(opts) in set_opts (Options r.(opt_batch_size) r.(opt_warm_buffers) r.(opt_busy_poll)
    r.(opt_xdp_bind_flags) r.(opt_debug_addr) r.(opt_xsk_frame_size) x) c.
Definition set_opt_umem_flags (x : Z) (c : config) : config :=
  let r := c.(umem) in set_umem (UmemOpts x r.(opt_unaligned_chunks) r.(opt_mmap_flags)
    r.(multiplier) r.(umem_size) r.(fq_size) r.(cq_size) r.(rx_queue_size) r.(tx_queue_size)
    r.(num_fq_desc) r.(opt_packet_size) r.(opt_complete_umem)) c.
Definition set_opt_unaligned_chunks (x : bool) (c : config) : config :=
  let r := c.(umem) in set_umem (UmemOpts r.(opt_umem_flags) x r.(opt_mmap_flags) r.(multiplier)
    r.(umem_size) r.(fq_size) r.(cq_size) r.(rx_queue_size) r.(tx_queue_size) r.(num_fq_desc)
    r.(opt_packet_size) r.(opt_complete_umem)) c.
Definition set_opt_mmap_flags (x : Z) (c : config) : config :=
  let r := c.(umem) in set_umem (UmemOpts r.(opt_umem_flags) r.(opt_unaligned_chunks) x
    r.(multiplier) r.(umem_size) r.(fq_size) r.(cq_size) r.(rx_queue_size) r.(tx_queue_size)
    r.(num_fq_desc) r.(opt_packet_size) r.(opt_complete_umem)) c.
Definition set_multiplier (x : Z) (c : config) : config :=
  let r := c.(umem) in set_umem (UmemOpts r.(opt_umem_flags) r.(opt_unaligned_chunks)
    r.(opt_mmap_flags) x r.(umem_size) r.(fq_size) r.(cq_size) r.(rx_queue_size) r.(tx_queue_size)
    r.(num_fq_desc) r.(opt_packet_size) r.(opt_complete_umem)) c.
Definition set_umem_size (x : Z) (c : config) : config :=
  let r := c.(umem) in set_umem (UmemOpts r.(opt_umem_flags) r.(opt_unaligned_chunks)
    r.(opt_mmap_flags) r.(multiplier) x r.(fq_size) r.(cq_size) r.(rx_queue_size) r.(tx_queue_size)
    r.(num_fq_desc) r.(opt_packet_size) r.(opt_complete_umem)) c.
Definition set_fq_size (x : Z) (c : config) : config :=
  let r := c.(umem) in set_umem (UmemOpts r.(opt_umem_flags) r.(opt_unaligned_chunks)
    r.(opt_mmap_flags) r.(multiplier) r.(umem_size) x r.(cq_size) r.(rx_queue_size)
    r.(tx_queue_size) r.(num_fq_desc) r.(opt_packet_size) r.(opt_complete_umem)) c.
Definition set_cq_size (x : Z) (c : config) : config :=
  let r := c.(umem) in set_umem (UmemOpts r.(opt_umem_flags) r.(opt_unaligned_chunks)
    r.(opt_mmap_flags) r.(multiplier) r.(umem_size) r.(fq_size) x r.(rx_queue_size)
    r.(tx_queue_size) r.(num_fq_desc) r.(opt_packet_size) r.(opt_complete_umem)) c.
Definition set_rx_queue_size (x : Z) (c : config) : config :=
  let r := c.(umem) in set_umem (UmemOpts r.(opt_umem_flags) r.(opt_unaligned_chunks)
    r.(opt_mmap_flags) r.(multiplier) r.(umem_size) r.(fq_size) r.(cq_size) x r.(tx_queue_size)
    r.(num_fq_desc) r.(opt_packet_size) r.(opt_complete_umem)) c.
Definition set_tx_queue_size (x : Z) (c : config) : config :=
  let r := c.(umem) in set_umem (UmemOpts r.(opt_umem_flags) r.(opt_unaligned_chunks)
    r.(opt_mmap_flags) r.(multiplier) r.(umem_size) r.(fq_size) r.(cq_size) r.(rx_queue_size) x
    r.(num_fq_desc) r.(opt_packet_size) r.(opt_complete_umem)) c.
Definition set_num_fq_desc (x : Z) (c : config) : config :=
  let r := c.(umem) in set_umem (UmemOpts r.(opt_umem_flags) r.(opt_unaligned_chunks)
    r.(opt_mmap_flags) r.(multiplier) r.(umem_size) r.(fq_size) r.(cq_size) r.(rx_queue_size)
    r.(tx_queue_size) x r.(opt_packet_size) r.(opt_complete_umem)) c.
Definition set_opt_packet_size (x : Z) (c : config) : config :=
  let r := c.(umem) in set_umem (UmemOpts r.(opt_umem_flags) r.(opt_unaligned_chunks)
    r.(opt_mmap_flags) r.(multiplier) r.(umem_size) r.(fq_size) r.(cq_size) r.(rx_queue_size)
    r.(tx_queue_size) r.(num_fq_desc) x r.(opt_complete_umem)) c.
Definition set_opt_complete_umem (x : bool) (c : config) : config :=
  let r := c.(umem) in set_umem (UmemOpts r.(opt_umem_flags) r.(opt_unaligned_chunks)
    r.(opt_mmap_flags) r.(multiplier) r.(umem_size) r.(fq_size) r.(cq_size) r.(rx_queue_size)
    r.(tx_queue_size) r.(num_fq_desc) r.(opt_packet_size) x) c.
Definition set_opt_if (x : string) (c : config) : config :=
  let r := c.(run) in set_run (RunOpts x r.(opt_queue) r.(opt_poll) r.(opt_attach_mode)
    r.(opt_interval) r.(opt_retries) r.(opt_clock) r.(opt_need_wakeup) r.(opt_num_xsks)
    r.(opt_duration) r.(VALUE_SIZE) r.(opt_spf) r.(addr_file) r.(opt_count_cold)) c.
Definition set_opt_queue (x : Z) (c : config) : config :=
  let r := c.(run) in set_run (RunOpts r.(opt_if) x r.(opt_poll) r.(opt_attach_mode)
    r.(opt_interval) r.(opt_retries) r.(opt_clock) r.(opt_need_wakeup) r.(opt_num_xsks)
    r.(opt_duration) r.(VALUE_SIZE) r.(opt_spf) r.(addr_file) r.(opt_count_cold)) c.
Definition set_opt_poll (x : bool) (c : config) : config :=
  let r := c.(run) in set_run (RunOpts r.(opt_if) r.(opt_queue) x r.(opt_attach_mode)
    r.(opt_interval) r.(opt_retries) r.(opt_clock) r.(opt_need_wakeup) r.(opt_num_xsks)
    r.(opt_duration) r.(VALUE_SIZE) r.(opt_spf) r.(addr_file) r.(opt_count_cold)) c.
Definition set_opt_attach_mode (x : xdp_attach_mode) (c : config) : config :=
  let r := c.(run) in set_run (RunOpts r.(opt_if) r.(opt_queue) r.(opt_poll) x r.(opt_interval)
    r.(opt_retries) r.(opt_clock) r.(opt_need_wakeup) r.(opt_num_xsks) r.(opt_duration)
    r.(VALUE_SIZE) r.(opt_spf) r.(addr_file) r.(opt_count_cold)) c.
Definition set_opt_interval (x : Z) (c : config) : config :=
  let r := c.(run) in set_run (RunOpts r.(opt_if) r.(opt_queue) r.(opt_poll) r.(opt_attach_mode) x
    r.(opt_retries) r.(opt_clock) r.(opt_need_wakeup) r.(opt_num_xsks) r.(opt_duration)
    r.(VALUE_SIZE) r.(opt_spf) r.(addr_file) r.(opt_count_cold)) c.
Definition set_opt_retries (x : Z) (c : config) : config :=
  let r := c.(run) in set_run (RunOpts r.(opt_if) r.(opt_queue) r.(opt_poll) r.(opt_attach_mode)
    r.(opt_interval) x r.(opt_clock) r.(opt_need_wakeup) r.(opt_num_xsks) r.(opt_duration)
    r.(VALUE_SIZE) r.(opt_spf) r.(addr_file) r.(opt_count_cold)) c.
Definition set_opt_clock (x : Z) (c : config) : config :=
  let r := c.(run) in set_run (RunOpts r.(opt_if) r.(opt_queue) r.(opt_poll) r.(opt_attach_mode)
    r.(opt_interval) r.(opt_retries) x r.(opt_need_wakeup) r.(opt_num_xsks) r.(opt_duration)
    r.(VALUE_SIZE) r.(opt_spf) r.(addr_file) r.(opt_count_cold)) c.
Definition set_opt_need_wakeup (x : bool) (c : config) : config :=
  let r := c.(run) in set_run (RunOpts r.(opt_if) r.(opt_queue) r.(opt_poll) r.(opt_attach_mode)
    r.(opt_interval) r.(opt_retries) r.(opt_clock) x r.(opt_num_xsks) r.(opt_duration)
    r.(VALUE_SIZE) r.(opt_spf) r.(addr_file) r.(opt_count_cold)) c.
Definition set_opt_num_xsks (x : Z) (c : config) : config :=
  let r := c.(run) in set_run (RunOpts r.(opt_if) r.(opt_queue) r.(opt_poll) r.(opt_attach_mode)
    r.(opt_interval) r.(opt_retries) r.(opt_clock) r.(opt_need_wakeup) x r.(opt_duration)
    r.(VALUE_SIZE) r.(opt_spf) r.(addr_file) r.(opt_count_cold)) c.
Definition set_opt_duration (x : Z) (c : config) : config :=
  let r := c.(run) in set_run (RunOpts r.(opt_if) r.(opt_queue) r.(opt_poll) r.(opt_attach_mode)
    r.(opt_interval) r.(opt_retries) r.(opt_clock) r.(opt_need_wakeup) r.(opt_num_xsks) x
    r.(VALUE_SIZE) r.(opt_spf) r.(addr_file) r.(opt_count_cold)) c.
Definition set_VALUE_SIZE (x : Z) (c : config) : config :=
  let r := c.(run) in set_run (RunOpts r.(opt_if) r.(opt_queue) r.(opt_poll) r.(opt_attach_mode)
    r.(opt_interval) r.(opt_retries) r.(opt_clock) r.(opt_need_wakeup) r.(opt_num_xsks)
    r.(opt_duration) x r.(opt_spf) r.(addr_file) r.(opt_count_cold)) c.
Definition set_opt_spf (x : bool) (c : config) : config :=
  let r := c.(run) in set_run (RunOpts r.(opt_if) r.(opt_queue) r.(opt_poll) r.(opt_attach_mode)
    r.(opt_interval) r.(opt_retries) r.(opt_clock) r.(opt_need_wakeup) r.(opt_num_xsks)
    r.(opt_duration) r.(VALUE_SIZE) x r.(addr_file) r.(opt_count_cold)) c.
Definition set_addr_file (x : string) (c : config) : config :=
  let r := c.(run) in set_run (RunOpts r.(opt_if) r.(opt_queue) r.(opt_poll) r.(opt_attach_mode)
    r.(opt_interval) r.(opt_retries) r.(opt_clock) r.(opt_need_wakeup) r.(opt_num_xsks)
    r.(opt_duration) r.(VALUE_SIZE) r.(opt_spf) x r.(opt_count_cold)) c.
Definition set_opt_count_cold (x : bool) (c : config) : config :=
  let r := c.(run) in set_run (RunOpts r.(opt_if) r.(opt_queue) r.(opt_poll) r.(opt_attach_mode)
    r.(opt_interval) r.(opt_retries) r.(opt_clock) r.(opt_need_wakeup) r.(opt_num_xsks)
    r.(opt_duration) r.(VALUE_SIZE) r.(opt_spf) r.(addr_file) x) c.

(** The initial values. *)
Definition default_config : config :=
  Config (Options 512 false false XDP_USE_NEED_WAKEUP false 4096 0)
    (UmemOpts 0 false 0 4096 4096 4096 2048 2048 2048 4096 512 false)
    (RunOpts "" 0 false XDP_MODE_NATIVE 1 3 CLOCK_MONOTONIC true 1 0 256 false "" false).

(** ** The command line *)

(** One round of the [switch]; [-E] only records a file name, for variables that the file
    does not declare. *)
Definition parse_option (c : ascii) (optarg : string) (cfg : config) : option config :=
  match c with
  | "i"%char => Some (set_opt_if optarg cfg)
  | "q"%char => n ← atoi optarg; Some (set_opt_queue n cfg)
  | "p"%char => Some (set_opt_poll true cfg)
  | "S"%char =>
      let cfg := set_opt_attach_mode XDP_MODE_SKB cfg in
      Some (set_opt_xdp_bind_flags (cfg.(opts).(opt_xdp_bind_flags) |' XDP_COPY) cfg)
  | "N"%char => Some cfg
  | "n"%char => n ← atoi optarg; Some (set_opt_interval n cfg)
  | "w"%char => Some (set_opt_clock (default CLOCK_MONOTONIC (get_clockid optarg)) cfg)
  | "O"%char => n ← atoi optarg; Some (set_opt_retries n cfg)
  | "z"%char => Some (set_opt_xdp_bind_flags (cfg.(opts).(opt_xdp_bind_flags) |' XDP_ZEROCOPY) cfg)
  | "c"%char => Some (set_opt_xdp_bind_flags (cfg.(opts).(opt_xdp_bind_flags) |' XDP_COPY) cfg)
  | "u"%char =>
      let cfg := set_opt_umem_flags (cfg.(umem).(opt_umem_flags) |' XDP_UMEM_UNALIGNED_CHUNK_FLAG) cfg in
      let cfg := set_opt_unaligned_chunks true cfg in
      Some (set_opt_mmap_flags MAP_HUGETLB cfg)
  | "f"%char =>
      n ← atoi optarg;
      let cfg := set_opt_xsk_frame_size n cfg in
      Some (set_multiplier cfg.(opts).(opt_xsk_frame_size) cfg)
  | "m"%char =>
      let cfg := set_opt_need_wakeup false cfg in
      Some (set_opt_xdp_bind_flags
        (cfg.(opts).(opt_xdp_bind_flags) &' Z.lnot XDP_USE_NEED_WAKEUP) cfg)
  | "M"%char => Some (set_opt_num_xsks MAX_SOCKS cfg)
  | "d"%char => n ← atoi optarg; Some (set_opt_duration (u64 (u64 n * 1000000000)) cfg)
  | "b"%char => n ← atoi optarg; Some (set_opt_batch_size (u32 n) cfg)
  | "B"%char => Some (set_opt_busy_poll true cfg)
  | "U"%char =>
      n ← atoi optarg;
      let cfg := set_umem_size (u64 n) cfg in
      let cfg := set_fq_size (u32 cfg.(umem).(umem_size)) cfg in
      let cfg := set_cq_size (u32 (cfg.(umem).(umem_size) / 2)) cfg in
      let cfg := set_rx_queue_size (u32 (cfg.(umem).(umem_size) / 2)) cfg in
      let cfg := set_tx_queue_size (u32 (cfg.(umem).(umem_size) / 2)) cfg in
      Some (set_num_fq_desc (u32 cfg.(umem).(umem_size)) cfg)
  | "h"%char => Some (set_opt_mmap_flags MAP_HUGETLB cfg)
  | "W"%char => Some (set_opt_warm_buffers true cfg)
  | "s"%char =>
      n ← atoi optarg;
      let cfg := set_opt_packet_size n cfg in
      Some (set_VALUE_SIZE (Z.quot cfg.(umem).(opt_packet_size) 2) cfg)
  | "C"%char => Some (set_opt_complete_umem true cfg)
  | "P"%char => Some (set_opt_spf true cfg)
  | "D"%char => Some (set_addr_file optarg (set_opt_debug_addr true cfg))
  | "A"%char => n ← atoi optarg; Some (set_opt_application_type n cfg)
  | "X"%char => Some (set_opt_count_cold true cfg)
  | "E"%char => Some cfg
  | _ => None
  end.

Fixpoint parse_options (args : list (ascii * string)) (cfg : config) : option config :=
  match args with
  | [] => Some cfg
  | (c, optarg) :: args' => cfg' ← parse_option c optarg cfg; parse_options args' cfg'
  end.

(** [if_nametoindex] is the system's. *)
Definition parse_command_line (if_nametoindex : string -> Z) (args : list (ascii * string))
    (cfg : config) : option config :=
  cfg ← parse_options args cfg;
  if if_nametoindex cfg.(run).(opt_if) =? 0 then None else
  let frame := cfg.(opts).(opt_xsk_frame_size) in
  if negb (frame &' s32 (frame - 1) =? 0) && negb cfg.(umem).(opt_unaligned_chunks) then None
  else Some cfg.

Definition load_xdp_prog (cfg : config) : bool := cfg.(run).(opt_num_xsks) >? 1.

(** ** Sizes and start *)

(** [umem_size * opt_xsk_frame_size], in 64 bits. *)
Definition umem_bytes (cfg : config) : Z :=
  u64 (cfg.(umem).(umem_size) * u64 cfg.(opts).(opt_xsk_frame_size)).

Definition size_rings (cfg : config) : option config :=
  if cfg.(umem).(opt_unaligned_chunks) then
    let cfg := set_multiplier cfg.(umem).(opt_packet_size) cfg in
    if cfg.(umem).(opt_complete_umem) then
      if cfg.(umem).(opt_packet_size) =? 0 then None else
      let cfg := set_fq_size (u32 (umem_bytes cfg / u64 cfg.(umem).(opt_packet_size))) cfg in
      let cfg := set_rx_queue_size (cfg.(umem).(fq_size) / 2) cfg in
      Some (set_num_fq_desc cfg.(umem).(fq_size) cfg)
    else Some cfg
  else Some cfg.

(** The UMEM at [buffer] and its rings are created, the fill ring is populated, and the
    socket is created, for an application in state [a]. *)
Definition start {App} (buffer : Z) (a : App) (cfg : config) : option (world App) :=
  let u := cfg.(umem) in
  xsk_populate_fill_ring u.(num_fq_desc) u.(multiplier)
    (init_world u.(fq_size) u.(cq_size) u.(rx_queue_size) u.(tx_queue_size) buffer a).

(** ** Lemmas *)

(** What every command line leaves. *)
Record parsed (cfg : config) : Prop := {
  pa_multiplier : cfg.(umem).(multiplier) = cfg.(opts).(opt_xsk_frame_size);
  pa_umem : 0 <= cfg.(umem).(umem_size) < 2 ^ 64;
  pa_fq : cfg.(umem).(fq_size) = u32 cfg.(umem).(umem_size);
  pa_cq : cfg.(umem).(cq_size) = u32 (cfg.(umem).(umem_size) / 2);
  pa_rx : cfg.(umem).(rx_queue_size) = u32 (cfg.(umem).(umem_size) / 2);
  pa_tx : cfg.(umem).(tx_queue_size) = u32 (cfg.(umem).(umem_size) / 2);
  pa_num : cfg.(umem).(num_fq_desc) = u32 cfg.(umem).(umem_size) }.

Lemma default_parsed : parsed default_config.
Proof. by split. Qed.

Lemma parse_option_parsed c optarg cfg cfg' :
  parsed cfg -> parse_option c optarg cfg = Some cfg' -> parsed cfg'.
Proof.
  intros [? ? ? ? ? ? ?] H. unfold parse_option in H.
  repeat match type of H with
  | (match ?x with _ => _ end) = Some _ => destruct x; try discriminate H
  end;
  try (apply bind_Some in H as (n & _ & H)); injection H as <-; split; try done;
  cbn; apply wrap_range; lia.
Qed.

Lemma parse_options_parsed args : forall cfg cfg',
  parsed cfg -> parse_options args cfg = Some cfg' -> parsed cfg'.
Proof.
  induction args as [|[c s] args IH]; intros cfg cfg' Hp H; cbn [parse_options] in H.
  - by injection H as <-.
  - apply bind_Some in H as (cfg1 & H1 & H). eapply IH; [|done]. by eapply parse_option_parsed.
Qed.

(** What the kernel and the program need of the sizes: powers of two, a UMEM whose offsets
    fit in an [int], and in unaligned mode packets that fit in their chunks. *)
Record sizes_ok (cfg : config) : Prop := {
  sz_umem : pow2 cfg.(umem).(umem_size);
  sz_frame : 0 < cfg.(opts).(opt_xsk_frame_size);
  sz_bytes : cfg.(umem).(umem_size) * cfg.(opts).(opt_xsk_frame_size) <= 2 ^ 31;
  sz_packet : cfg.(umem).(opt_unaligned_chunks) = true ->
    0 < cfg.(umem).(opt_packet_size) <= cfg.(opts).(opt_xsk_frame_size);
  sz_fq : pow2 cfg.(umem).(fq_size) }.

Lemma pow2_bounds n : pow2 n -> 0 < n <= 2 ^ 30.
Proof. intros (k & Hk & ->). split; [lia|apply Z.pow_le_mono_r; lia]. Qed.

(** The buffers of the fill ring lie in the UMEM. *)
Lemma size_rings_fit cfg0 cfg :
  parsed cfg0 -> size_rings cfg0 = Some cfg -> sizes_ok cfg ->
  0 < cfg.(umem).(multiplier) /\ 0 < cfg.(umem).(num_fq_desc) <= cfg.(umem).(fq_size) /\
  cfg.(umem).(num_fq_desc) * cfg.(umem).(multiplier) <= umem_bytes cfg <= 2 ^ 31.
Proof.
  intros Hp Hs [Hum Hfr Hb Hpk Hfq]. apply pow2_bounds in Hum, Hfq. destruct Hp as [Hm _ Hf _ _ _ Hn].
  assert (umem_bytes cfg = cfg.(umem).(umem_size) * cfg.(opts).(opt_xsk_frame_size)) as Hbytes.
  { unfold umem_bytes. rewrite (wrap_small 64 (opt_xsk_frame_size _)) by nia. apply wrap_small. nia. }
  rewrite Hbytes. unfold size_rings in Hs. destruct (opt_unaligned_chunks (umem cfg0)) eqn:Hun.
  2:{ injection Hs as <-. rewrite Hm, Hn, Hf, wrap_small in * by lia. lia. }
  destruct (opt_complete_umem _) eqn:Hco.
  - destruct (_ =? 0); [done|].
    set (c1 := set_multiplier _ _) in Hs. set (bytes := umem_bytes c1) in Hs. injection Hs as <-.
    change (bytes = cfg0.(umem).(umem_size) * cfg0.(opts).(opt_xsk_frame_size)) in Hbytes.
    cbn in *. specialize (Hpk Hun). rewrite <- Hbytes in *.
    set (p := opt_packet_size (umem cfg0)) in *.
    assert (0 <= bytes / p <= 2 ^ 31) as Hq.
    { split; [apply Z.div_pos; nia|]. apply Z.div_le_upper_bound; nia. }
    rewrite (wrap_small 64 p), (wrap_small 32 (bytes / p)) in * by nia.
    pose proof (Z.mul_div_le bytes p). nia.
  - injection Hs as <-. cbn in *. specialize (Hpk Hun). rewrite Hn, Hf, wrap_small in * by lia. nia.
Qed.

(** C19: Whatever the command line, if the sizes are powers of two, the UMEM is at most 2 GB
    and, in unaligned mode, packets fit in their chunks, the program starts with a fill ring
    that holds [num_fq_desc] buffers of [multiplier] bytes, which lie in the UMEM and do not
    overlap. *)
Theorem start_fills_umem {App} if_nametoindex args cfg0 cfg buffer (a : App) :
  parse_command_line if_nametoindex args default_config = Some cfg0 ->
  size_rings cfg0 = Some cfg -> sizes_ok cfg ->
  exists w bufs, start buffer a cfg = Some w /\ fq_holds w.(fq) bufs /\
    Z.of_nat (length bufs) = cfg.(umem).(num_fq_desc) /\
    (forall i x, bufs !! i = Some x -> 0 <= x /\ x + cfg.(umem).(multiplier) <= umem_bytes cfg) /\
    (forall i j x y, bufs !! i = Some x -> bufs !! j = Some y -> (i < j)%nat ->
       x + cfg.(umem).(multiplier) <= y).
Proof.
  intros Hp Hs Hok. assert (parsed cfg0) as Hpa.
  { unfold parse_command_line in Hp. apply bind_Some in Hp as (c & Hc & Hp).
    destruct (_ =? 0); [done|]. destruct (_ && _); [done|]. injection Hp as <-.
    by eapply parse_options_parsed; [apply default_parsed|]. }
  destruct (size_rings_fit cfg0 cfg Hpa Hs Hok) as (Hm & Hn & Hb).
  set (m := cfg.(umem).(multiplier)) in *. set (n := cfg.(umem).(num_fq_desc)) in *.
  destruct (populate_fills cfg.(umem).(fq_size) cfg.(umem).(cq_size) cfg.(umem).(rx_queue_size)
    cfg.(umem).(tx_queue_size) buffer n m a) as (w & Hw & Hh); [apply Hok|lia|].
  exists w, (buffer_addr m <$> seqZ 0 n). split; [done|]. split; [done|].
  assert (forall i x, (buffer_addr m <$> seqZ 0 n) !! i = Some x -> Z.of_nat i < n /\ x = Z.of_nat i * m) as Hat.
  { intros i x. rewrite list_lookup_fmap. intros (y & [-> Hy]%lookup_seqZ & ->)%fmap_Some.
    split; [lia|]. unfold buffer_addr. rewrite Z.add_0_l, swrap_small, wrap_small by nia. done. }
  split; [rewrite length_fmap, length_seqZ; lia|]. split.
  - intros i x [? ->]%Hat. nia.
  - intros i j x y [? ->]%Hat [? ->]%Hat ?. nia.
Qed.

(** [-i eth0 -U 8 -f 2048], and [-u -C] with packets of 512 bytes. *)
Definition example_args : list (ascii * string) :=
  [("i"%char, "eth0"); ("U"%char, "8"); ("f"%char, "2048"); ("u"%char, ""); ("C"%char, "");
   ("s"%char, "512")]%string.

Theorem start_fills_umem_witness :
  exists cfg0 cfg w bufs,
    parse_command_line (fun _ => 2) example_args default_config = Some cfg0 /\ size_rings cfg0 = Some cfg /\
    start 0 tt cfg = Some w /\ fq_holds w.(fq) bufs /\ length bufs = 32%nat.
Proof.
  set (cfg0 := default default_config (parse_command_line (fun _ => 2) example_args default_config)).
  set (cfg := default default_config (size_rings cfg0)).
  destruct (start_fills_umem (fun _ => 2) example_args cfg0 cfg 0 tt) as (w & bufs & H1 & H2 & H3 & _).
  - vm_compute. reflexivity.
  - vm_compute. reflexivity.
  - split.
    + exists 3. split; [lia|vm_compute; reflexivity].
    + vm_compute. reflexivity.
    + vm_compute. discriminate.
    + intros _. split; [vm_compute; reflexivity|vm_compute; discriminate].
    + exists 5. split; [lia|vm_compute; reflexivity].
  - exists cfg0, cfg, w, bufs. split; [vm_compute; reflexivity|].
    split; [vm_compute; reflexivity|]. split; [exact H1|].
    split; [exact H2|]. apply Nat2Z.inj. rewrite H3. vm_compute. reflexivity.
Defined.
