(* ===== verification/Kern.v ===== *)
(** * The XDP program: [toasty_kern.c]

    Packets are redirected to the sockets of [xsks_map] in turn.  The map and the two
    variables are shared with [enter_xsks_into_map] of [toasty.c]. *)
From stdpp Require Import strings.
From S2P Require Import Prelude.

(** [num_socks] is initialised to 1, so it is in the section [.data] of the object; [rr] is
    alone in the section [.bss]. *)
Record kern := Kern { num_socks : Z; rr : Z; xsks_map : gmap Z Z }.

Definition kern_init : kern := Kern 1 0 ∅.

Inductive verdict := Redirect (fd : Z) | XDP_DROP.

Definition bpf_redirect_map (map : gmap Z Z) (key : Z) : verdict :=
  match map !! key with Some fd => Redirect fd | None => XDP_DROP end.

Definition xdp_sock_prog (k : kern) : verdict * kern :=
  let rr := u32 (k.(rr) + 1) &' u32 (k.(num_socks) - 1) in
  (bpf_redirect_map k.(xsks_map) rr, Kern k.(num_socks) rr k.(xsks_map)).

(** The packets that arrive one after the other. *)
Fixpoint xdp_packets (n : nat) (k : kern) : list verdict * kern :=
  match n with
  | O => ([], k)
  | S n' =>
      let '(v, k) := xdp_sock_prog k in
      let '(vs, k) := xdp_packets n' k in (v :: vs, k)
  end.

(** ** The maps of the program, seen from user space

    What the calls of libbpf and the kernel answer is an argument; an error code is not 0, a
    descriptor is not negative. *)

Record bpf_map_info := MapInfo { name : string; key_size : Z; value_size : Z }.

Definition ENOENT : Z := 2.
Definition ENOMEM : Z := 12.

(** [for (i = 0; i < prog_info.nr_map_ids; i++)]: what [bpf_map_get_fd_by_id] and
    [bpf_obj_get_info_by_fd] answer for each map.  The result is [xsks_map_fd] and the
    descriptors that were closed. *)
Fixpoint lookup_loop (maps : list (Z * option bpf_map_info)) : Z * list Z :=
  match maps with
  | [] => (- ENOENT, [])
  | (fd, info) :: maps' =>
      if fd <? 0 then lookup_loop maps' else
      match info with
      | None => let '(r, closed) := lookup_loop maps' in (r, fd :: closed)
      | Some m =>
          if bool_decide (name m = "xsks_map"%string) && (key_size m =? 4) && (value_size m =? 4)
          then (fd, [])
          else let '(r, closed) := lookup_loop maps' in (r, fd :: closed)
      end
  end.

Record map_answers := MapAnswers {
  count_err : Z;
  calloc_ok : bool;
  ids_err : Z;
  prog_maps : list (Z * option bpf_map_info) }.

Definition lookup_bpf_map (a : map_answers) : Z * list Z :=
  if negb (count_err a =? 0) then (count_err a, []) else
  if negb (calloc_ok a) then (- ENOMEM, []) else
  if negb (ids_err a =? 0) then (ids_err a, []) else
  lookup_loop (prog_maps a).

(** [for (i = 0; i < num_socks; i++)]: socket [i] has a descriptor, and the update of the
    map answers 0 or an error. *)
Fixpoint enter_loop (socks : list (Z * Z)) (i : Z) (map : gmap Z Z) : option (gmap Z Z) :=
  match socks with
  | [] => Some map
  | (fd, ret) :: socks' => if negb (ret =? 0) then None else enter_loop socks' (i + 1) (<[i := fd]> map)
  end.

(** The number of sockets is written to key 0 of the map of the section [.bss].  [None]: the
    process exits. *)
Definition enter_xsks_into_map (bss_found : bool) (bss_err : Z) (a : map_answers)
    (socks : list (Z * Z)) (k : kern) : option kern :=
  if negb bss_found then None else
  if negb (bss_err =? 0) then None else
  let k := Kern k.(num_socks) (u32 (Z.of_nat (length socks))) k.(xsks_map) in
  if fst (lookup_bpf_map a) <? 0 then None else
  map ← enter_loop socks 0 k.(xsks_map);
  Some (Kern k.(num_socks) k.(rr) map).

(** ** Lemmas *)

(** Every descriptor that the search opened, the maps up to the one it stops at, is closed
    again or is its result. *)
Lemma lookup_loop_closes maps :
  exists opened rest, maps = opened ++ rest /\
    ((lookup_loop maps).1 = - ENOENT /\ rest = [] /\
       (lookup_loop maps).2 = filter (fun fd => 0 <= fd) (fst <$> opened) \/
     0 <= (lookup_loop maps).1 /\
       (lookup_loop maps).2 ++ [(lookup_loop maps).1] = filter (fun fd => 0 <= fd) (fst <$> opened)).
Proof.
  induction maps as [|[fd info] maps (opened & rest & -> & IH)]; [exists [], []; split; [done|by left]|].
  cbn [lookup_loop]. destruct (Z.ltb_spec fd 0).
  - exists ((fd, info) :: opened), rest. split; [done|]. rewrite fmap_cons, filter_cons_False by (cbn; lia).
    exact IH.
  - assert (forall r closed, lookup_loop (opened ++ rest) = (r, closed) ->
      exists opened' rest', (fd, info) :: opened ++ rest = opened' ++ rest' /\
        (r = - ENOENT /\ rest' = [] /\ fd :: closed = filter (fun fd => 0 <= fd) (fst <$> opened') \/
         0 <= r /\ (fd :: closed) ++ [r] = filter (fun fd => 0 <= fd) (fst <$> opened'))) as Hmiss.
    { intros r closed Heq. rewrite Heq in IH. exists ((fd, info) :: opened), rest. split; [done|].
      rewrite fmap_cons, filter_cons_True by done. cbn [app fst snd] in *.
      destruct IH as [(? & ? & ->)|(? & ->)]; [by left|by right]. }
    destruct (lookup_loop (opened ++ rest)) as [r closed]. specialize (Hmiss r closed eq_refl).
    destruct info as [m|]; [|done]. destruct (_ && _ && _); [|done].
    exists [(fd, Some m)], (opened ++ rest). split; [done|]. right. cbn. split; [done|].
    by rewrite decide_True by done.
Qed.

Lemma enter_loop_other socks : forall i map map' j,
  enter_loop socks i map = Some map' -> j < i -> map' !! j = map !! j.
Proof.
  induction socks as [|[fd ret] socks IH]; intros i map map' j; cbn [enter_loop].
  - by intros [= ->].
  - destruct (negb (ret =? 0)); [done|]. intros He Hj. rewrite (IH _ _ _ j He) by lia.
    apply lookup_insert_ne. lia.
Qed.

Lemma enter_loop_lookup socks : forall i map map' j,
  enter_loop socks i map = Some map' -> 0 <= j < Z.of_nat (length socks) ->
  map' !! (i + j) = fst <$> socks !! Z.to_nat j.
Proof.
  induction socks as [|[fd ret] socks IH]; intros i map map' j; cbn [enter_loop length]; [lia|].
  destruct (negb (ret =? 0)); [done|]. intros He Hj. destruct (decide (j = 0)) as [->|Hne].
  - rewrite Z.add_0_r, (enter_loop_other _ _ _ _ i He) by lia. cbn. apply lookup_insert_eq.
  - replace (i + j) with (i + 1 + (j - 1)) by lia. rewrite (IH _ _ _ (j - 1) He) by lia.
    by replace (Z.to_nat j) with (S (Z.to_nat (j - 1))) by lia.
Qed.

Lemma land_pow2_pred x k : 0 <= k -> x &' (2 ^ k - 1) = x mod 2 ^ k.
Proof. intros Hk. replace (2 ^ k - 1) with (Z.ones k) by (rewrite Z.ones_equiv; lia). by apply Z.land_ones. Qed.

(** The rotation that the program is meant to do. *)
Lemma round_robin n : forall k j,
  0 <= j <= 31 -> k.(num_socks) = 2 ^ j -> 0 <= k.(rr) < 2 ^ j ->
  fst (xdp_packets n k) =
    (fun i => bpf_redirect_map k.(xsks_map) ((k.(rr) + i) mod 2 ^ j)) <$> seqZ 1 (Z.of_nat n).
Proof.
  induction n as [|n IH]; intros k j Hj Hn Hr; [done|].
  cbn [xdp_packets]. unfold xdp_sock_prog at 1. set (k1 := Kern _ _ _).
  assert (1 <= 2 ^ j <= 2 ^ 31) as Hp by (split; [lia|apply Z.pow_le_mono_r; lia]).
  assert (k1.(rr) = (k.(rr) + 1) mod 2 ^ j) as Hr1.
  { cbn. rewrite Hn, !(wrap_small 32) by lia. apply land_pow2_pred. lia. }
  specialize (IH k1 j Hj Hn). rewrite Hr1 in IH.
  specialize (IH (Z.mod_pos_bound (k.(rr) + 1) (2 ^ j) ltac:(lia))). destruct (xdp_packets n k1) as [vs k2].
  cbn [fst] in *. rewrite IH, (seqZ_cons 1 (Z.of_nat (S n))), fmap_cons by lia. f_equal; [by rewrite <- Hr1|].
  change (xsks_map k1) with (xsks_map k).
  replace (seqZ (Z.succ 1) (Z.pred (Z.of_nat (S n)))) with (Z.add 1 <$> seqZ 1 (Z.of_nat n)).
  2:{ rewrite fmap_add_seqZ. f_equal; lia. }
  rewrite <- list_fmap_compose. apply list_fmap_ext. intros ? i _. cbn. f_equal.
  rewrite Zplus_mod_idemp_l. f_equal. lia.
Qed.

(** C40: In the shared-UMEM mode the program never learns the number of sockets, which is written
    over [rr] instead: whenever [enter_xsks_into_map] gets through, every packet goes to
    socket 0, however many sockets there are. *)
Theorem shared_umem_one_socket bss_found bss_err a socks fd ret k n :
  socks !! 0%nat = Some (fd, ret) ->
  enter_xsks_into_map bss_found bss_err a socks kern_init = Some k ->
  fst (xdp_packets n k) = replicate n (Redirect fd).
Proof.
  intros Hfd Hk. assert (k.(xsks_map) !! 0 = Some fd /\ k.(num_socks) = 1) as [Hmap Hn].
  { unfold enter_xsks_into_map in Hk. destruct (negb bss_found); [done|].
    destruct (negb (bss_err =? 0)); [done|]. destruct (_ <? 0); [done|].
    destruct (enter_loop socks 0 _) as [map|] eqn:He; [|done]. injection Hk as <-. cbn [xsks_map num_socks].
    split; [|done]. pose proof (enter_loop_lookup _ _ _ _ 0 He) as Hl. rewrite Z.add_0_r in Hl.
    change (Z.to_nat 0) with 0%nat in Hl. rewrite Hfd in Hl. apply Hl. apply lookup_lt_Some in Hfd. lia. }
  clear Hk. revert k Hmap Hn. induction n as [|n IH]; intros k Hmap Hn; [done|].
  cbn [xdp_packets]. unfold xdp_sock_prog at 1.
  rewrite Hn. change (u32 (1 - 1)) with 0. rewrite Z.land_0_r. unfold bpf_redirect_map at 1. rewrite Hmap.
  specialize (IH (Kern 1 0 k.(xsks_map)) Hmap eq_refl). destruct (xdp_packets n _) as [vs k2].
  cbn [fst] in *. by rewrite IH.
Qed.

Definition four_answers : map_answers :=
  MapAnswers 0 true 0 [(3, Some (MapInfo ".bss" 4 8)); (5, Some (MapInfo "xsks_map" 4 4))].

Lemma shared_umem_one_socket_witness :
  exists k, enter_xsks_into_map true 0 four_answers [(7, 0); (8, 0); (9, 0); (10, 0)] kern_init = Some k /\
    fst (xdp_packets 3 k) = replicate 3 (Redirect 7).
Proof.
  eexists. split; [reflexivity|].
  apply (shared_umem_one_socket true 0 four_answers [(7, 0); (8, 0); (9, 0); (10, 0)] 7 0); reflexivity.
Defined.

(** With three sockets the mask would leave out two of them. *)
Example three_sockets :
  fst (xdp_packets 4 (Kern 3 0 (<[2 := 9]> (<[1 := 8]> {[0 := 7]})))) = replicate 4 (Redirect 7).
Proof. reflexivity. Qed.
