(* ===== verification/Shm.v ===== *)
(** * Shared memory of MICA: [ported-mica/shm.c]

    Huge pages are handed out to entries, and entries are mapped into the address space.
    [None] is undefined behaviour, a failed assertion or a lock that is never released.
    The answers of the operating system (what [mmap] and [malloc] yield, the NUMA node and
    physical address of a page) are arguments. *)
From S2P Require Import Prelude PoolAlloc.

(** ** State *)

(** The [path] of a page is the number of its file. *)
Record shm_page := ShmPage { path : Z; addr : Z; paddr : Z; numa_node : Z; in_use : Z }.

(** [pages] is [None] for the null pointer. *)
Record shm_entry := ShmEntry {
  refcount : Z; to_remove : Z; length_ : Z; num_pages : Z; pages : option (list Z) }.

Record shm_mapping := ShmMapping {
  entry_id : Z; map_addr : Z; map_length : Z; page_offset : Z; map_num_pages : Z }.

Definition MEHCACHED_SHM_MAX_PAGES : Z := 65536.
Definition MEHCACHED_SHM_MAX_ENTRIES : Z := 8192.
Definition MEHCACHED_SHM_MAX_MAPPINGS : Z := 16384.

Definition zero_page : shm_page := ShmPage 0 0 0 0 0.
Definition zero_entry : shm_entry := ShmEntry 0 0 0 0 None.
Definition zero_mapping : shm_mapping := ShmMapping 0 0 0 0 0.

(** The statics, and the address space: which file is mapped at which page address
    ([address_space]), and the ranges of bytes that show /dev/zero ([zero_space]). *)
Record shm := Shm {
  shm_page_size : Z;
  shm_state_lock : Z;
  shm_pages : list shm_page;
  shm_entries : list shm_entry;
  shm_mappings : list shm_mapping;
  shm_used_memory : Z;
  address_space : gmap Z Z;
  zero_space : list (Z * Z) }.

Definition set_state_lock (s : shm) (l : Z) : shm :=
  Shm (shm_page_size s) l (shm_pages s) (shm_entries s) (shm_mappings s) (shm_used_memory s)
    (address_space s) (zero_space s).
Definition set_pages (s : shm) (ps : list shm_page) : shm :=
  Shm (shm_page_size s) (shm_state_lock s) ps (shm_entries s) (shm_mappings s)
    (shm_used_memory s) (address_space s) (zero_space s).
Definition set_entries (s : shm) (es : list shm_entry) : shm :=
  Shm (shm_page_size s) (shm_state_lock s) (shm_pages s) es (shm_mappings s)
    (shm_used_memory s) (address_space s) (zero_space s).
Definition set_mappings (s : shm) (ms : list shm_mapping) : shm :=
  Shm (shm_page_size s) (shm_state_lock s) (shm_pages s) (shm_entries s) ms
    (shm_used_memory s) (address_space s) (zero_space s).
Definition set_used_memory (s : shm) (u : Z) : shm :=
  Shm (shm_page_size s) (shm_state_lock s) (shm_pages s) (shm_entries s) (shm_mappings s) u
    (address_space s) (zero_space s).
Definition set_space (s : shm) (m : gmap Z Z) (z : list (Z * Z)) : shm :=
  Shm (shm_page_size s) (shm_state_lock s) (shm_pages s) (shm_entries s) (shm_mappings s)
    (shm_used_memory s) m z.

Definition mehcached_shm_lock (s : shm) : option shm :=
  if shm_state_lock s =? 0 then Some (set_state_lock s 1) else None.
Definition mehcached_shm_unlock (s : shm) : shm := set_state_lock s 0.

(** An array access at an index of type [size_t]. *)
Definition at_ {A} (l : list A) (i : Z) : option A := if 0 <=? i then l !! Z.to_nat i else None.
Definition upd {A} (l : list A) (i : Z) (x : A) : list A := <[Z.to_nat i := x]> l.

(** The first index from [i] on whose element satisfies [f]: the [for] loops that search
    the tables; the length of the list if there is none. *)
Fixpoint index_of {A} (f : A -> bool) (l : list A) (i : Z) : Z :=
  match l with
  | [] => i
  | x :: l' => if f x then i else index_of f l' (i + 1)
  end.

(** ** Allocation *)

Definition set_in_use (p : shm_page) (u : Z) : shm_page :=
  ShmPage (path p) (addr p) (paddr p) (numa_node p) u.

(** The loop that collects free pages of the node, from page [page_id] on. *)
Fixpoint collect (ps : list shm_page) (page_id : Z) (node : Z) (wanted : Z) : list Z :=
  match ps with
  | [] => []
  | p :: ps' =>
      if wanted =? 0 then []
      else if addr p =? 0 then collect ps' (page_id + 1) node wanted
      else if negb (in_use p =? 0) || negb (numa_node p =? node)
      then collect ps' (page_id + 1) node wanted
      else page_id :: collect ps' (page_id + 1) node (wanted - 1)
  end.

(** [pages[id].in_use = u] for each [id] of the list. *)
Fixpoint mark (ps : list shm_page) (ids : list Z) (u : Z) : option (list shm_page) :=
  match ids with
  | [] => Some ps
  | id :: ids' => p ← at_ ps id; mark (upd ps id (set_in_use p u)) ids' u
  end.

Definition page_count (s : shm) (length : Z) : Z :=
  u64 (length + (shm_page_size s - 1)) / shm_page_size s.

(** [(size_t)-1] *)
Definition SIZE_MAX : Z := 2 ^ 64 - 1.

Definition free_entry (e : shm_entry) : bool := match pages e with None => true | Some _ => false end.

(** [malloc_ok]: [malloc] does not answer the null pointer; a page id written behind the null
    pointer is [None]. *)
Definition mehcached_shm_alloc (malloc_ok : bool) (s : shm) (length node : Z) : option (Z * shm) :=
  let node := if node =? SIZE_MAX then 0 else node in
  s ← mehcached_shm_lock s;
  let entry_id := index_of free_entry (shm_entries s) 0 in
  if entry_id =? MEHCACHED_SHM_MAX_ENTRIES then Some (SIZE_MAX, mehcached_shm_unlock s) else
  e ← at_ (shm_entries s) entry_id;
  let num_pages := page_count s length in
  let ids := collect (shm_pages s) 0 node num_pages in
  if negb malloc_ok && negb (Nat.eqb (List.length ids) 0) then None else
  if negb (num_pages =? Z.of_nat (List.length ids)) then
    let s := set_entries s (upd (shm_entries s) entry_id zero_entry) in
    Some (SIZE_MAX, mehcached_shm_unlock s)
  else
    let e := ShmEntry (refcount e) (to_remove e) length num_pages (if malloc_ok then Some ids else None) in
    let s := set_entries s (upd (shm_entries s) entry_id e) in
    ps ← mark (shm_pages s) ids 1;
    Some (entry_id, mehcached_shm_unlock (set_pages s ps)).

(** ** Removal *)

(** The entry is cleared before its [num_pages] is read for [used_memory]. *)
Definition mehcached_shm_check_remove (s : shm) (entry_id : Z) : option shm :=
  e ← at_ (shm_entries s) entry_id;
  if (refcount e =? 0) && negb (to_remove e =? 0) then
    ids ← pages e;
    ps ← mark (shm_pages s) (take (Z.to_nat (num_pages e)) ids) 0;
    let s := set_pages s ps in
    let s := set_entries s (upd (shm_entries s) entry_id zero_entry) in
    e ← at_ (shm_entries s) entry_id;
    Some (set_used_memory s (u64 (shm_used_memory s - num_pages e * shm_page_size s)))
  else Some s.

Definition set_to_remove (e : shm_entry) : shm_entry :=
  ShmEntry (refcount e) 1 (length_ e) (num_pages e) (pages e).

Definition mehcached_shm_schedule_remove (s : shm) (entry_id : Z) : option (bool * shm) :=
  s ← mehcached_shm_lock s;
  e ← at_ (shm_entries s) entry_id;
  match pages e with
  | None => Some (false, mehcached_shm_unlock s)
  | Some _ =>
      let s := set_entries s (upd (shm_entries s) entry_id (set_to_remove e)) in
      s ← mehcached_shm_check_remove s entry_id;
      Some (true, mehcached_shm_unlock s)
  end.

(** ** Mapping *)

(** [mmap_ok p]: the [mmap] of one page at [p] succeeds.  The loop over the pages of
    the entry, from page [idx] on, [n] to go: the address space, and the number of
    pages left when [mmap] failed. *)
Fixpoint map_pages (mmap_ok : Z -> bool) (s : shm) (ids : list Z) (n : nat) (idx p : Z)
    (m : gmap Z Z) : option (gmap Z Z * nat) :=
  match n with
  | O => Some (m, O)
  | S n' =>
      id ← at_ ids idx;
      pg ← at_ (shm_pages s) id;
      if mmap_ok p then
        map_pages mmap_ok s ids n' (idx + 1) (u64 (p + shm_page_size s)) (<[p := path pg]> m)
      else Some (m, n)
  end.

(** The ranges without the addresses from [lo] up to [hi]. *)
Definition cut (lo hi : Z) (z : list (Z * Z)) : list (Z * Z) :=
  '(a, b) ← z;
  (if a <? Z.min b lo then [(a, Z.min b lo)] else []) ++
  (if Z.max a hi <? b then [(Z.max a hi, b)] else []).

(** What [n] pages that are mapped or unmapped, from page address [p] on, leave of the
    ranges of zeros ([MAP_FIXED] replaces what was there). *)
Fixpoint cut_pages (n : nat) (page_size p : Z) (z : list (Z * Z)) : list (Z * Z) :=
  match n with
  | O => z
  | S n' => cut_pages n' page_size (u64 (p + page_size)) (cut p (p + page_size) z)
  end.

(** [n] times [munmap], from page address [p] on. *)
Fixpoint unmap_pages (n : nat) (page_size p : Z) (m : gmap Z Z) : gmap Z Z :=
  match n with
  | O => m
  | S n' => unmap_pages n' page_size (u64 (p + page_size)) (delete p m)
  end.

Definition aligned (s : shm) (x : Z) : bool := x &' Z.lnot (shm_page_size s - 1) =? x.

Definition incr_refcount (e : shm_entry) : shm_entry :=
  ShmEntry (u64 (refcount e + 1)) (to_remove e) (length_ e) (num_pages e) (pages e).

Definition mehcached_shm_map (mmap_ok : Z -> bool) (s : shm) (entry_id ptr offset length : Z)
    : option (bool * shm) :=
  if negb (aligned s ptr) then Some (false, s) else
  if negb (aligned s offset) then Some (false, s) else
  s ← mehcached_shm_lock s;
  e ← at_ (shm_entries s) entry_id;
  match pages e with
  | None => Some (false, mehcached_shm_unlock s)
  | Some ids =>
      if offset >? length_ e then Some (false, mehcached_shm_unlock s) else
      if u64 (offset + length) >? length_ e then Some (false, mehcached_shm_unlock s) else
      let mapping_id := index_of (fun m => map_addr m =? 0) (shm_mappings s) 0 in
      if mapping_id =? MEHCACHED_SHM_MAX_MAPPINGS then Some (false, mehcached_shm_unlock s) else
      let page_offset := offset / shm_page_size s in
      let n := page_count s length in
      '(m, rest) ← map_pages mmap_ok s ids (Z.to_nat n) page_offset ptr (address_space s);
      let z := cut_pages (Z.to_nat n - rest) (shm_page_size s) ptr (zero_space s) in
      if negb (Nat.eqb rest 0) then
        let m := unmap_pages (Z.to_nat n - rest) (shm_page_size s) ptr m in
        Some (false, mehcached_shm_unlock (set_space s m z))
      else
        let s := set_space s m z in
        let s := if refcount e =? 0
                 then set_used_memory s (u64 (shm_used_memory s + num_pages e * shm_page_size s))
                 else s in
        let s := set_entries s (upd (shm_entries s) entry_id (incr_refcount e)) in
        let s := set_mappings s (upd (shm_mappings s) mapping_id
                   (ShmMapping entry_id ptr length page_offset n)) in
        Some (true, mehcached_shm_unlock s)
  end.

Definition decr_refcount (e : shm_entry) : shm_entry :=
  ShmEntry (u64 (refcount e - 1)) (to_remove e) (length_ e) (num_pages e) (pages e).

Definition mehcached_shm_unmap (s : shm) (ptr : Z) : option (bool * shm) :=
  s ← mehcached_shm_lock s;
  let mapping_id := index_of (fun m => map_addr m =? ptr) (shm_mappings s) 0 in
  if mapping_id =? MEHCACHED_SHM_MAX_MAPPINGS then Some (false, mehcached_shm_unlock s) else
  mp ← at_ (shm_mappings s) mapping_id;
  let n := Z.to_nat (map_num_pages mp) in
  let s := set_space s (unmap_pages n (shm_page_size s) ptr (address_space s))
    (cut_pages n (shm_page_size s) ptr (zero_space s)) in
  e ← at_ (shm_entries s) (entry_id mp);
  let s := set_entries s (upd (shm_entries s) (entry_id mp) (decr_refcount e)) in
  s ← mehcached_shm_check_remove s (entry_id mp);
  let s := set_mappings s (upd (shm_mappings s) mapping_id zero_mapping) in
  Some (true, mehcached_shm_unlock s).

Definition mehcached_shm_get_page_size (s : shm) : Z := shm_page_size s.
Definition mehcached_shm_get_memuse (s : shm) : Z := shm_used_memory s.

(** ** Allocation of mapped memory *)

(** The end of the last page of [n] bytes, for [mmap] and [munmap] on ordinary pages. *)
Definition os_round_up (n : Z) : Z := (n + 4095) / 4096 * 4096.

(** [os] is where [mmap] put the probe of [size + alignment] bytes, [None] if it failed;
    the result 0 is the null pointer.  [munmap] releases the first [size] bytes of the probe
    only. *)
Definition mehcached_shm_find_free_address (s : shm) (os : option Z) (size : Z)
    : option (Z * shm) :=
  let alignment := shm_page_size s in
  let alignment := if alignment =? 0 then 1 else alignment in
  a ← mehcached_next_power_of_two alignment;
  if negb (a =? alignment) then Some (0, s) else
  Some (match os with
        | None => (0, s)
        | Some p =>
            let z := (p, p + os_round_up (u64 (size + alignment))) :: zero_space s in
            let z := cut p (p + os_round_up size) z in
            (u64 (p + (alignment - 1)) &' Z.lnot (alignment - 1), set_space s (address_space s) z)
        end).

(** What the system answers in one round: the probe, and the mappings. *)
Definition os_round : Type := option Z * (Z -> bool).

(** [while (true)]: one round of answers for each iteration. *)
Fixpoint contiguous_loop (os : list os_round) (s : shm) (entry_id size : Z) : option (Z * shm) :=
  match os with
  | [] => None
  | (probe, mmap_ok) :: os =>
      '(p, s) ← mehcached_shm_find_free_address s probe size;
      if p =? 0 then
        '(_, s) ← mehcached_shm_schedule_remove s entry_id; Some (0, s)
      else
        '(ok, s) ← mehcached_shm_map mmap_ok s entry_id p 0 size;
        if ok : bool then '(_, s) ← mehcached_shm_schedule_remove s entry_id; Some (p, s)
        else contiguous_loop os s entry_id size
  end.

Definition mehcached_shm_malloc_contiguous (malloc_ok : bool) (os : list os_round) (s : shm)
    (size lcore : Z) : option (Z * shm) :=
  let size := mehcached_shm_adjust_size size in
  '(entry_id, s) ← mehcached_shm_alloc malloc_ok s size 0;
  if entry_id =? SIZE_MAX then Some (0, s) else contiguous_loop os s entry_id size.

Definition mehcached_shm_malloc_contiguous_local (malloc_ok : bool) (os : list os_round) (s : shm)
    (size : Z) : option (Z * shm) :=
  mehcached_shm_malloc_contiguous malloc_ok os s size 0.

Definition mehcached_shm_malloc_contiguous_any (malloc_ok malloc_ok' : bool) (os os' : list os_round)
    (s : shm) (size : Z) : option (Z * shm) :=
  '(p, s) ← mehcached_shm_malloc_contiguous malloc_ok os s size 0;
  if p =? 0 then mehcached_shm_malloc_contiguous malloc_ok' os' s size (1 - 0) else Some (p, s).

Definition mehcached_shm_free_contiguous (s : shm) (ptr : Z) : option shm :=
  '(_, s) ← mehcached_shm_unmap s ptr; Some s.

(** The pages of the two entries, mapped in turn: the state, and the bytes mapped. *)
Fixpoint stripe_loop (n : nat) (mmap_ok : Z -> bool) (s : shm) (e0 e1 : Z) (numa offset p mapped : Z)
    : option (Z * shm) :=
  match n with
  | O => Some (mapped, s)
  | S n' =>
      '(ok, s) ← mehcached_shm_map mmap_ok s (if numa =? 0 then e0 else e1) p offset (shm_page_size s);
      if ok : bool then
        let numa := 1 - numa in
        let offset := if numa =? 0 then u64 (offset + shm_page_size s) else offset in
        stripe_loop n' mmap_ok s e0 e1 numa offset (u64 (p + shm_page_size s))
          (mapped + shm_page_size s)
      else Some (mapped, s)
  end.

(** [n] times [mehcached_shm_unmap], from page address [p] on. *)
Fixpoint unmap_each (n : nat) (s : shm) (p : Z) : option shm :=
  match n with
  | O => Some s
  | S n' => '(_, s) ← mehcached_shm_unmap s p; unmap_each n' s (u64 (p + shm_page_size s))
  end.

Definition pages_of (s : shm) (size : Z) : nat :=
  Z.to_nat ((size + shm_page_size s - 1) / shm_page_size s).

Fixpoint striped_loop (os : list os_round) (s : shm) (e0 e1 size : Z) : option (Z * shm) :=
  match os with
  | [] => None
  | (probe, mmap_ok) :: os =>
      '(base, s) ← mehcached_shm_find_free_address s probe size;
      if base =? 0 then
        '(_, s) ← mehcached_shm_schedule_remove s e0;
        '(_, s) ← mehcached_shm_schedule_remove s e1;
        Some (0, s)
      else
        '(mapped, s) ← stripe_loop (pages_of s size) mmap_ok s e0 e1 0 0 base 0;
        '(_, s) ← mehcached_shm_schedule_remove s e0;
        '(_, s) ← mehcached_shm_schedule_remove s e1;
        if mapped <? size then
          s ← unmap_each (pages_of s mapped) s base;
          striped_loop os s e0 e1 size
        else Some (base, s)
  end.

(** The size is kept in the first word of the block ([heap]: what these words hold). *)
Definition mehcached_shm_malloc_striped (malloc_ok malloc_ok' : bool) (os : list os_round)
    (heap : gmap Z Z) (s : shm) (size : Z) : option (Z * gmap Z Z * shm) :=
  let size := u64 (size + 2 * shm_page_size s) in
  let size_2 := mehcached_shm_adjust_size (u64 (size + 1) / 2) in
  '(e0, s) ← mehcached_shm_alloc malloc_ok s size_2 0;
  if e0 =? SIZE_MAX then Some (0, heap, s) else
  '(e1, s) ← mehcached_shm_alloc malloc_ok' s size_2 (1 - 0);
  if e1 =? SIZE_MAX then
    '(_, s) ← mehcached_shm_schedule_remove s e0; Some (0, heap, s)
  else
    '(base, s) ← striped_loop os s e0 e1 size;
    if base =? 0 then Some (0, heap, s)
    else Some (u64 (base + 2 * shm_page_size s), <[base := size]> heap, s).

Definition mehcached_shm_free_striped (heap : gmap Z Z) (s : shm) (ptr : Z) : option shm :=
  let base := u64 (ptr - 2 * shm_page_size s) in
  size ← heap !! base;
  unmap_each (pages_of s size) s base.

(** ** Set-up *)

(** [qsort] by a key without duplicates. *)
Fixpoint insert_by (key : shm_page -> Z) (p : shm_page) (l : list shm_page) : list shm_page :=
  match l with
  | [] => [p]
  | q :: l' => if key p <? key q then p :: l else q :: insert_by key p l'
  end.

Definition sort_by (key : shm_page -> Z) (l : list shm_page) : list shm_page :=
  foldr (insert_by key) [] l.

(** "throw away surplus pages on each numa node": the first [per_node] pages of each of
    the nodes are kept, the others are released, and their slots cleared. *)
Fixpoint reserve_pages (per_node : Z) (reserved : list Z) (ps : list shm_page)
    : option (list shm_page * list Z) :=
  match ps with
  | [] => Some ([], reserved)
  | p :: ps' =>
      r ← at_ reserved (numa_node p);
      if r <? per_node then
        '(ps', reserved) ← reserve_pages per_node (upd reserved (numa_node p) (r + 1)) ps';
        Some (p :: ps', reserved)
      else
        '(ps', reserved) ← reserve_pages per_node reserved ps';
        Some (zero_page :: ps', reserved)
  end.

(** The pages that are kept stay mapped where [mmap] put them. *)
Definition kept_space (ps : list shm_page) : gmap Z Z :=
  foldr (fun p m => if addr p =? 0 then m else <[addr p := path p]> m) ∅ ps.

(** [mapped]: the addresses that [mmap] gave to the files of pages 0, 1, ...; [numa_of] is
    [/proc/self/numa_maps], [paddr_of] is [/proc/self/pagemap]. *)
Definition mehcached_shm_init (page_size num_numa_nodes num_pages_to_try num_pages_to_reserve : Z)
    (mapped : list Z) (numa_of paddr_of : Z -> Z) : option shm :=
  a ← mehcached_next_power_of_two page_size;
  if negb (a =? page_size) then None else
  if negb (num_numa_nodes >=? 1) then None else
  if negb (num_pages_to_try <=? MEHCACHED_SHM_MAX_PAGES) then None else
  if negb (num_pages_to_reserve <=? num_pages_to_try) then None else
  let mapped := take (Z.to_nat num_pages_to_try) mapped in
  let ps := imap (fun i a => ShmPage (Z.of_nat i) a 0 0 0) mapped in
  let ps := sort_by addr ps in
  let ps := (fun p => ShmPage (path p) (addr p) (paddr_of (addr p)) (numa_of (addr p)) 0) <$> ps in
  let ps := sort_by paddr ps in
  '(ps, _) ← reserve_pages (num_pages_to_reserve / num_numa_nodes)
               (replicate (Z.to_nat num_numa_nodes) 0) ps;
  let rest := Z.to_nat (MEHCACHED_SHM_MAX_PAGES - Z.of_nat (length ps)) in
  Some (Shm page_size 0 (ps ++ replicate rest zero_page)
    (replicate (Z.to_nat MEHCACHED_SHM_MAX_ENTRIES) zero_entry)
    (replicate (Z.to_nat MEHCACHED_SHM_MAX_MAPPINGS) zero_mapping) 0 (kept_space ps) []).
