(* ===== verification/ShmSpec.v ===== *)
(** * Ownership of the shared pages

    Every page in use belongs to exactly one entry, and the reference count of an entry
    is the number of its mappings, whatever is allocated, mapped, unmapped and removed. *)
From S2P Require Import Prelude PoolAlloc Shm.

(** ** Array accesses *)

Lemma at_upd {A} (l : list A) i j (x : A) :
  0 <= i -> is_Some (at_ l i) -> at_ (upd l i x) j = if decide (j = i) then Some x else at_ l j.
Proof.
  unfold at_, upd. intros Hi [y Hy]. rewrite (proj2 (Z.leb_le _ _) Hi) in Hy.
  case_decide as Hj; [subst|].
  - rewrite (proj2 (Z.leb_le _ _) Hi). apply list_lookup_insert_eq. by eapply lookup_lt_Some.
  - destruct (Z.leb_spec 0 j); [|done]. apply list_lookup_insert_ne. lia.
Qed.

Lemma at_range {A} (l : list A) i (x : A) : at_ l i = Some x -> 0 <= i < Z.of_nat (length l).
Proof.
  unfold at_. destruct (Z.leb_spec 0 i); [|done]. intros Hl%lookup_lt_Some. lia.
Qed.

Lemma at_Some {A} (l : list A) i : 0 <= i < Z.of_nat (length l) -> is_Some (at_ l i).
Proof. intros Hi. unfold at_. rewrite (proj2 (Z.leb_le _ _)) by lia. apply lookup_lt_is_Some. lia. Qed.

Lemma upd_length {A} (l : list A) i (x : A) : length (upd l i x) = length l.
Proof. apply length_insert. Qed.

Lemma index_of_spec {A} (f : A -> bool) l : forall i,
  let j := index_of f l i in
  i <= j <= i + Z.of_nat (length l) /\
  (j < i + Z.of_nat (length l) -> exists x, at_ l (j - i) = Some x /\ f x = true).
Proof.
  induction l as [|x l IH]; intros i; cbn [index_of length]; [split; lia|].
  destruct (f x) eqn:Hf.
  - split; [lia|]. intros _. exists x. by rewrite Z.sub_diag.
  - destruct (IH (i + 1)) as [Hb Hs]. split; [lia|]. intros Hlt.
    destruct Hs as (y & Hy & ?); [lia|]. exists y. split; [|done].
    pose proof (at_range _ _ _ Hy). unfold at_ in *. rewrite (proj2 (Z.leb_le _ _)) by lia.
    rewrite (proj2 (Z.leb_le _ _)) in Hy by lia.
    by replace (Z.to_nat (index_of f l (i + 1) - i)) with (S (Z.to_nat (index_of f l (i + 1) - (i + 1)))) by lia.
Qed.

(** ** Collecting and marking pages *)

Definition usable (p : shm_page) (node : Z) : Prop :=
  addr p <> 0 /\ in_use p = 0 /\ numa_node p = node.

Lemma collect_spec ps : forall base node w,
  0 <= w ->
  let ids := collect ps base node w in
  NoDup ids /\ Z.of_nat (length ids) <= w /\
  forall x, x ∈ ids -> base <= x /\ exists p, at_ ps (x - base) = Some p /\ usable p node.
Proof.
  induction ps as [|p ps IH]; intros base node w Hw; cbn [collect].
  { split; [constructor|]. split; [done|]. by intros x Hx%not_elem_of_nil. }
  assert (forall w', 0 <= w' -> w' <= w -> let ids := collect ps (base + 1) node w' in
    NoDup ids /\ Z.of_nat (length ids) <= w' /\
    forall x, x ∈ ids -> base < x /\ exists q, at_ (p :: ps) (x - base) = Some q /\ usable q node)
    as Hskip.
  { intros w' Hw' _. destruct (IH (base + 1) node w' Hw') as (Hnd & Hl & Hx).
    split; [done|]. split; [done|]. intros x Hin. destruct (Hx x Hin) as (? & q & Hq & ?).
    split; [lia|]. exists q. split; [|done]. unfold at_ in *.
    rewrite (proj2 (Z.leb_le _ _)) in Hq by lia. rewrite (proj2 (Z.leb_le _ _)) by lia.
    by replace (Z.to_nat (x - base)) with (S (Z.to_nat (x - (base + 1)))) by lia. }
  assert (let ids := collect ps (base + 1) node w in
    NoDup ids /\ Z.of_nat (length ids) <= w /\
    forall x, x ∈ ids -> base <= x /\ exists q, at_ (p :: ps) (x - base) = Some q /\ usable q node)
    as Hnext.
  { destruct (Hskip w Hw (Z.le_refl w)) as (? & ? & Hx). split; [done|]. split; [done|].
    intros x [? ?]%Hx. split; [lia|done]. }
  destruct (Z.eqb_spec w 0) as [->|].
  { split; [constructor|]. split; [done|]. by intros x Hx%not_elem_of_nil. }
  destruct (Z.eqb_spec (addr p) 0); [done|].
  destruct (Z.eqb_spec (in_use p) 0); [|done]. destruct (Z.eqb_spec (numa_node p) node); [|done].
  cbn [negb orb]. destruct (Hskip (w - 1)) as (Hnd & Hl & Hx); [lia|lia|].
  split; [|split; [cbn [length]; lia|]].
  - constructor; [|done]. intros [? _]%Hx. lia.
  - intros x [->|Hin]%elem_of_cons.
    + split; [lia|]. exists p. by rewrite Z.sub_diag.
    + destruct (Hx x Hin). split; [lia|done].
Qed.

Lemma mark_spec u ids : forall ps,
  (forall x, x ∈ ids -> is_Some (at_ ps x)) ->
  exists ps', mark ps ids u = Some ps' /\ length ps' = length ps /\
    forall x, at_ ps' x = if decide (x ∈ ids) then (fun p => set_in_use p u) <$> at_ ps x else at_ ps x.
Proof.
  induction ids as [|id ids IH]; intros ps Hin; cbn [mark].
  { exists ps. split; [done|]. split; [done|]. intros x. rewrite decide_False; [done|].
    apply not_elem_of_nil. }
  destruct (Hin id) as [p Hp]; [by left|]. rewrite Hp. cbn [mbind option_bind].
  pose proof (at_range _ _ _ Hp) as Hr.
  assert (forall x, at_ (upd ps id (set_in_use p u)) x =
    if decide (x = id) then Some (set_in_use p u) else at_ ps x) as Hat
    by (intros x; apply at_upd; [lia|by eexists]).
  destruct (IH (upd ps id (set_in_use p u))) as (ps' & -> & Hl & Hx).
  { intros x Hx. rewrite Hat. case_decide; [by eexists|]. apply Hin. by right. }
  exists ps'. split; [done|]. split; [by rewrite Hl, upd_length|]. intros x.
  rewrite Hx, Hat. destruct (decide (x = id)) as [->|Hne].
  - rewrite (decide_True (P := id ∈ id :: ids)) by (by left). rewrite Hp. csimpl.
    by destruct (decide (id ∈ ids)).
  - destruct (decide (x ∈ ids)) as [Hi|Hi].
    + rewrite decide_True by (by right). done.
    + rewrite decide_False; [done|]. by intros [|]%elem_of_cons.
Qed.

(** ** The invariant *)

Definition owns (s : shm) (i x : Z) : Prop :=
  exists e ids, at_ (shm_entries s) i = Some e /\ pages e = Some ids /\ x ∈ ids.

(** The mappings of entry [i]. *)
Definition refers (i : Z) (m : shm_mapping) : Prop := map_addr m <> 0 /\ entry_id m = i.

#[global] Instance refers_dec i m : Decision (refers i m).
Proof. unfold refers. apply _. Defined.

Definition refs (ms : list shm_mapping) (i : Z) : Z := Z.of_nat (length (filter (refers i) ms)).

Record shm_inv (s : shm) : Prop := {
  so_page_size : exists k, 0 <= k < 63 /\ shm_page_size s = 2 ^ k;
  so_entries : Z.of_nat (length (shm_entries s)) = MEHCACHED_SHM_MAX_ENTRIES;
  so_mappings : Z.of_nat (length (shm_mappings s)) = MEHCACHED_SHM_MAX_MAPPINGS;
  so_free : forall i e, at_ (shm_entries s) i = Some e -> pages e = None -> e = zero_entry;
  so_pages : forall i e ids, at_ (shm_entries s) i = Some e -> pages e = Some ids ->
    NoDup ids /\ num_pages e = Z.of_nat (length ids) /\ 0 <= length_ e < 2 ^ 63 /\
    num_pages e = (length_ e + (shm_page_size s - 1)) / shm_page_size s;
  so_disjoint : forall i j x, owns s i x -> owns s j x -> i = j;
  so_mapped : forall i x, owns s i x -> exists p, at_ (shm_pages s) x = Some p /\ addr p <> 0;
  so_in_use : forall x p, at_ (shm_pages s) x = Some p ->
    (exists i, owns s i x) <-> in_use p <> 0;
  so_refs : forall i e, at_ (shm_entries s) i = Some e -> refcount e = refs (shm_mappings s) i;
  so_live : forall k m, at_ (shm_mappings s) k = Some m -> map_addr m <> 0 ->
    exists e ids, at_ (shm_entries s) (entry_id m) = Some e /\ pages e = Some ids /\
      0 <= page_offset m /\ 0 <= map_num_pages m /\
      page_offset m + map_num_pages m <= num_pages e }.

(** The invariant does not mention the lock, the counter and the address space. *)
Lemma shm_inv_ext s s' :
  shm_page_size s' = shm_page_size s -> shm_pages s' = shm_pages s ->
  shm_entries s' = shm_entries s -> shm_mappings s' = shm_mappings s ->
  shm_inv s -> shm_inv s'.
Proof.
  destruct s, s'; simpl. intros -> -> -> -> [? ? ? ? ? Hd Hm Hu ? ?]. split; try done.
Qed.

Lemma owns_upd s i e' j x :
  is_Some (at_ (shm_entries s) i) ->
  owns (set_entries s (upd (shm_entries s) i e')) j x <->
  if decide (j = i) then exists ids, pages e' = Some ids /\ x ∈ ids else owns s j x.
Proof.
  intros Hi. unfold owns. cbn [shm_entries set_entries].
  rewrite at_upd by (done || (destruct Hi as [? Hi]; pose proof (at_range _ _ _ Hi); lia)).
  case_decide as Hj; [|done]. split.
  - intros (e & ids & [= <-] & ? & ?). by exists ids.
  - intros (ids & ? & ?). by exists e', ids.
Qed.

Lemma refs_upd ms k m m' i :
  at_ ms k = Some m ->
  refs (upd ms k m') i =
    refs ms i - (if decide (refers i m) then 1 else 0) + (if decide (refers i m') then 1 else 0).
Proof.
  unfold at_, upd, refs. destruct (0 <=? k); [|done]. intros Hk.
  rewrite <- (take_drop_middle ms (Z.to_nat k) m Hk) at 2.
  rewrite insert_take_drop by (by eapply lookup_lt_Some).
  rewrite !filter_app, !filter_cons, !length_app.
  destruct (decide (refers i m)), (decide (refers i m')); cbn [length]; lia.
Qed.

(** An entry with a reference has a mapping. *)
Lemma refs_live ms i m k : at_ ms k = Some m -> refers i m -> 1 <= refs ms i.
Proof.
  unfold at_, refs. destruct (0 <=? k); [|done]. intros Hk%list_elem_of_lookup_2 Hr.
  assert (m ∈ filter (refers i) ms) as Hin by (by apply list_elem_of_filter).
  destruct (filter (refers i) ms); [by apply not_elem_of_nil in Hin|]. cbn [length]. lia.
Qed.

Lemma refs_bound ms i : 0 <= refs ms i <= Z.of_nat (length ms).
Proof. unfold refs. pose proof (length_filter (refers i) ms). lia. Qed.

(** Entry [i], without a mapping, is given up: its pages are free again. *)
Lemma release_entry s i e ids ps :
  shm_inv s -> at_ (shm_entries s) i = Some e -> pages e = Some ids ->
  refs (shm_mappings s) i = 0 -> mark (shm_pages s) ids 0 = Some ps ->
  shm_inv (set_entries (set_pages s ps) (upd (shm_entries s) i zero_entry)).
Proof.
  intros [Hps Hne Hnm Hfree Hpg Hdis Hmap Huse Hrefs Hlive] Hi Hids Hr Hmark.
  pose proof (at_range _ _ _ Hi) as Hri.
  assert (forall x, x ∈ ids -> owns s i x) as Hown by (intros x Hx; by exists e, ids).
  destruct (mark_spec 0 ids (shm_pages s)) as (ps' & Hm' & _ & Hat).
  { intros x Hx. destruct (Hmap i x (Hown x Hx)) as (p & Hp & _). by exists p. }
  rewrite Hmark in Hm'. injection Hm' as <-.
  set (s' := set_entries (set_pages s ps) (upd (shm_entries s) i zero_entry)).
  assert (forall j, at_ (shm_entries s') j =
    if decide (j = i) then Some zero_entry else at_ (shm_entries s) j) as Hent
    by (intros j; apply at_upd; [lia|by eexists]).
  assert (forall j x, owns s' j x <-> j <> i /\ owns s j x) as Hown'.
  { intros j x. unfold owns. rewrite Hent. case_decide as Hj.
    - split; [by intros (? & ? & [= <-] & ? & _)|by intros []].
    - split; [by intros|by intros []]. }
  split.
  - done.
  - unfold s'. simpl. by rewrite upd_length.
  - done.
  - intros j e'. rewrite Hent. case_decide; [by intros [= <-]|apply Hfree].
  - intros j e' ids'. rewrite Hent. case_decide; [by intros [= <-]|apply Hpg].
  - intros j k x [_ Hj]%Hown' [_ Hk]%Hown'. by eapply Hdis.
  - intros j x [Hj Hx]%Hown'. destruct (Hmap j x Hx) as (p & Hp & ?). exists p.
    split; [|done]. unfold s'. simpl. rewrite Hat. rewrite decide_False; [done|].
    intros Hin%Hown. apply Hj. by eapply Hdis.
  - intros x p. unfold s'. simpl. rewrite Hat. case_decide as Hx.
    + intros (q & Hq & ->)%fmap_Some. split; [|done]. intros (j & [Hj Hjx]%Hown').
      exfalso. apply Hj. eapply Hdis; [done|by apply Hown].
    + intros Hp. rewrite <- (Huse x p Hp). split.
      * intros (j & [_ ?]%Hown'). by exists j.
      * intros (j & Hjx). exists j. apply Hown'. split; [|done]. intros ->. apply Hx.
        destruct Hjx as (e' & ids' & He' & Hids' & ?). congruence.
  - intros j e'. rewrite Hent. unfold s'. simpl. case_decide as Hj; [|apply Hrefs].
    intros [= <-]. subst j. done.
  - intros k m Hk Hm. destruct (Hlive k m Hk Hm) as (e' & ids' & He' & ? & ?).
    exists e', ids'. split; [|done]. rewrite Hent. rewrite decide_False; [done|].
    intros Hent_i. pose proof (refs_live (shm_mappings s) i m k Hk ltac:(by split)). lia.
Qed.

(** The entry that [mehcached_shm_alloc] fills. *)
Lemma grant_inv s i node len n ids ps :
  shm_inv s -> at_ (shm_entries s) i = Some zero_entry -> 0 <= len < 2 ^ 63 ->
  n = (len + (shm_page_size s - 1)) / shm_page_size s -> 0 <= n ->
  ids = collect (shm_pages s) 0 node n -> n = Z.of_nat (length ids) ->
  mark (shm_pages s) ids 1 = Some ps ->
  shm_inv (set_pages (set_entries s (upd (shm_entries s) i (ShmEntry 0 0 len n (Some ids)))) ps).
Proof.
  intros [Hps Hne Hnm Hfree Hpg Hdis Hmap Huse Hrefs Hlive] Hi Hlen Hn Hn0 -> Hnl Hmark.
  pose proof (at_range _ _ _ Hi) as Hri.
  destruct (collect_spec (shm_pages s) 0 node n Hn0) as (Hnd & _ & Hcol).
  set (ids := collect (shm_pages s) 0 node n) in *. cbv zeta in Hcol.
  assert (forall x, x ∈ ids -> exists p, at_ (shm_pages s) x = Some p /\ usable p node) as Hids.
  { intros x [? Hx]%Hcol. by rewrite Z.sub_0_r in Hx. }
  assert (forall x j, x ∈ ids -> ~ owns s j x) as Hfresh.
  { intros x j (p & Hp & _ & Hu & _)%Hids Ho. apply (proj1 (Huse x p Hp)); [by exists j|done]. }
  destruct (mark_spec 1 ids (shm_pages s)) as (ps' & Hm' & _ & Hat).
  { intros x (p & Hp & _)%Hids. by exists p. }
  rewrite Hmark in Hm'. injection Hm' as <-.
  set (e' := ShmEntry 0 0 len n (Some ids)).
  set (s' := set_pages (set_entries s (upd (shm_entries s) i e')) ps).
  assert (forall j, at_ (shm_entries s') j = if decide (j = i) then Some e' else at_ (shm_entries s) j)
    as Hent by (intros j; apply at_upd; [lia|by eexists]).
  assert (forall j x, owns s' j x <-> if decide (j = i) then x ∈ ids else owns s j x) as Hown'.
  { intros j x. unfold owns. rewrite Hent. case_decide as Hj; [|done]. split.
    - by intros (? & ? & [= <-] & [= <-] & ?).
    - intros Hx. by exists e', ids. }
  assert (refs (shm_mappings s) i = 0) as Hr0 by (by rewrite <- (Hrefs i _ Hi)).
  split.
  - done.
  - unfold s'. simpl. by rewrite upd_length.
  - done.
  - intros j e. rewrite Hent. case_decide; [by intros [= <-]|apply Hfree].
  - intros j e ids'. rewrite Hent. case_decide; [|apply Hpg]. intros [= <-] [= <-].
    split; [done|]. split; [done|]. split; [done|]. done.
  - intros j k x Hj%Hown' Hk%Hown'. destruct (decide (j = i)), (decide (k = i)).
    + congruence.
    + exfalso. by eapply Hfresh.
    + exfalso. by eapply Hfresh.
    + by eapply Hdis.
  - intros j x Hj%Hown'. unfold s'. simpl. rewrite Hat. case_decide as Hji; [subst|].
    + destruct (Hids x Hj) as (p & Hp & ? & _). rewrite decide_True by done.
      rewrite Hp. exists (set_in_use p 1). by split.
    + destruct (Hmap j x Hj) as (p & Hp & ?). exists p. split; [|done].
      rewrite decide_False; [done|]. intros Hx. by destruct (Hfresh x j).
  - intros x p. unfold s'. simpl. rewrite Hat. case_decide as Hx.
    + intros (q & Hq & ->)%fmap_Some. split; [done|]. intros _. exists i. apply Hown'.
      by rewrite decide_True.
    + intros Hp. rewrite <- (Huse x p Hp). split; intros (j & Hj).
      * apply Hown' in Hj. case_decide; [done|by exists j].
      * exists j. apply Hown'. rewrite decide_False; [done|]. intros ->.
        destruct Hj as (e & ids' & He & Hpe & _). rewrite Hi in He. by injection He as <-.
  - intros j e. rewrite Hent. unfold s'. simpl. case_decide; [|apply Hrefs]. intros [= <-]. by subst j.
  - intros k m Hk Hm. destruct (Hlive k m Hk Hm) as (e & ids' & He & Hpe & ?).
    exists e, ids'. split; [|done]. rewrite Hent. rewrite decide_False; [done|].
    intros Hent_i. rewrite Hent_i, Hi in He. by injection He as <-.
Qed.

(** ** The operations *)

Definition shm_ok (s : shm) : Prop := shm_state_lock s = 0 /\ shm_inv s.

Lemma unlocked s : shm_inv s -> shm_ok (mehcached_shm_unlock s).
Proof. intros Hs. split; [done|]. by eapply shm_inv_ext; [| | | |exact Hs]. Qed.

Lemma locked s : shm_ok s ->
  mehcached_shm_lock s = Some (set_state_lock s 1) /\ shm_inv (set_state_lock s 1).
Proof.
  intros [Hl Hs]. split; [unfold mehcached_shm_lock; by rewrite Hl|].
  by eapply shm_inv_ext; [| | | |exact Hs].
Qed.

Lemma page_size_pos s : shm_inv s -> 0 < shm_page_size s < 2 ^ 63.
Proof.
  intros [(k & Hk & ->) _ _ _ _ _ _ _ _ _]. split; [lia|]. apply Z.pow_lt_mono_r; lia.
Qed.

Lemma page_count_spec s len :
  shm_inv s -> 0 <= len < 2 ^ 63 ->
  page_count s len = (len + (shm_page_size s - 1)) / shm_page_size s /\ 0 <= page_count s len.
Proof.
  intros Hs Hl. pose proof (page_size_pos s Hs). unfold page_count.
  rewrite (wrap_small 64) by lia. split; [done|]. apply Z.div_pos; lia.
Qed.

Lemma alloc_ok s len node :
  shm_ok s -> 0 <= len < 2 ^ 63 ->
  exists r s', mehcached_shm_alloc true s len node = Some (r, s') /\ shm_ok s' /\
    (r <> SIZE_MAX -> exists e ids, at_ (shm_entries s') r = Some e /\ pages e = Some ids /\
       length_ e = len /\ refcount e = 0 /\ to_remove e = 0 /\
       forall x, x ∈ ids -> exists p, at_ (shm_pages s) x = Some p /\
         usable p (if node =? SIZE_MAX then 0 else node)).
Proof.
  intros Hok Hlen. destruct (locked s Hok) as [Hl Hinv]. unfold mehcached_shm_alloc.
  rewrite Hl. cbn [mbind option_bind]. set (s1 := set_state_lock s 1) in *.
  set (node' := if node =? SIZE_MAX then 0 else node). set (i := index_of _ _ _).
  destruct (index_of_spec free_entry (shm_entries s1) 0) as [Hb Hfind]. fold i in Hb, Hfind.
  rewrite (so_entries _ Hinv) in *.
  destruct (Z.eqb_spec i MEHCACHED_SHM_MAX_ENTRIES) as [|Hi].
  { eexists _, _. split; [done|]. split; [by apply unlocked|done]. }
  destruct Hfind as (e & He & Hfree); [lia|]. rewrite Z.sub_0_r in He. rewrite He.
  cbn [mbind option_bind].
  assert (e = zero_entry) as ->.
  { apply (so_free _ Hinv i); [done|]. unfold free_entry in Hfree. by destruct (pages e). }
  destruct (page_count_spec s1 len Hinv Hlen) as [Hn Hn0].
  set (n := page_count s1 len) in *. set (ids := collect (shm_pages s1) 0 node' n).
  destruct (collect_spec (shm_pages s1) 0 node' n Hn0) as (_ & _ & Hcol). fold ids in Hcol.
  assert (forall x, x ∈ ids -> exists p, at_ (shm_pages s1) x = Some p /\ usable p node') as Hids.
  { intros x [? Hx]%Hcol. by rewrite Z.sub_0_r in Hx. }
  cbn [negb andb]. destruct (Z.eqb_spec n (Z.of_nat (length ids))) as [Hnl|]; cbn [negb].
  2:{ eexists _, _. split; [done|]. split; [|done]. apply unlocked.
      apply (shm_inv_ext s1); try done. simpl. unfold upd. apply list_insert_id.
      unfold at_ in He. by rewrite (proj2 (Z.leb_le _ _)) in He by lia. }
  destruct (mark_spec 1 ids (shm_pages s1)) as (ps & Hm & _ & _).
  { intros x (p & Hp & _)%Hids. by exists p. }
  cbn [shm_pages set_entries]. rewrite Hm. cbn [mbind option_bind]. eexists _, _.
  split; [done|]. split.
  - apply unlocked. by eapply grant_inv.
  - intros _. cbn [shm_entries mehcached_shm_unlock set_state_lock set_pages set_entries].
    rewrite at_upd by (lia || by eexists). rewrite decide_True by done.
    eexists _, ids. by repeat (split; [done|]).
Qed.

(** [check_remove] on an entry that is in use. *)
Lemma check_remove_ok s i e ids :
  shm_inv s -> at_ (shm_entries s) i = Some e -> pages e = Some ids ->
  exists s', mehcached_shm_check_remove s i = Some s' /\ shm_inv s' /\
    shm_mappings s' = shm_mappings s /\ shm_page_size s' = shm_page_size s /\
    s' = if (refcount e =? 0) && negb (to_remove e =? 0) then
           set_used_memory (set_entries (set_pages s (shm_pages s')) (upd (shm_entries s) i zero_entry))
             (u64 (shm_used_memory s))
         else s.
Proof.
  intros Hinv He Hids. unfold mehcached_shm_check_remove. rewrite He. cbn [mbind option_bind].
  destruct (_ && _) eqn:Hc; [|by exists s].
  apply andb_true_iff in Hc as [Hr%Z.eqb_eq _]. rewrite Hids. cbn [mbind option_bind].
  destruct (so_pages _ Hinv i e ids He Hids) as (_ & Hn & _).
  rewrite take_ge by lia.
  destruct (mark_spec 0 ids (shm_pages s)) as (ps & Hm & _ & _).
  { intros x Hx. destruct (so_mapped _ Hinv i x) as (p & Hp & _); [by exists e, ids|by exists p]. }
  rewrite Hm. cbn [mbind option_bind shm_entries set_pages set_entries].
  pose proof (at_range _ _ _ He). rewrite at_upd by (lia || by eexists).
  rewrite decide_True by done. cbn [mbind option_bind]. eexists. split; [done|].
  split; [|split; [done|split; [done|]]].
  - assert (shm_inv (set_entries (set_pages s ps) (upd (shm_entries s) i zero_entry))) as Hinv'.
    { apply (release_entry s i e ids); try done. by rewrite <- (so_refs _ Hinv i e). }
    by eapply shm_inv_ext; [| | | |exact Hinv'].
  - simpl. by rewrite Z.mul_0_l, Z.sub_0_r.
Qed.

(** Entry [i] keeps its pages; its counter follows the mappings. *)
Lemma recount_inv s i e e' ids ms :
  shm_inv s -> at_ (shm_entries s) i = Some e -> pages e = Some ids ->
  pages e' = Some ids -> num_pages e' = num_pages e -> length_ e' = length_ e ->
  length ms = length (shm_mappings s) -> refcount e' = refs ms i ->
  (forall j, j <> i -> refs ms j = refs (shm_mappings s) j) ->
  (forall k m, at_ ms k = Some m -> map_addr m <> 0 ->
     exists e ids, at_ (shm_entries s) (entry_id m) = Some e /\ pages e = Some ids /\
      0 <= page_offset m /\ 0 <= map_num_pages m /\
      page_offset m + map_num_pages m <= num_pages e) ->
  shm_inv (set_mappings (set_entries s (upd (shm_entries s) i e')) ms).
Proof.
  intros [Hps Hne Hnm Hfree Hpg Hdis Hmap Huse Hrefs Hlive] Hi Hids Hids' Hn' Hl' Hlen Hr Hrj Hlive'.
  pose proof (at_range _ _ _ Hi) as Hri. set (s' := set_mappings _ _).
  assert (forall j, at_ (shm_entries s') j = if decide (j = i) then Some e' else at_ (shm_entries s) j)
    as Hent by (intros j; apply at_upd; [lia|by eexists]).
  assert (forall j x, owns s' j x <-> owns s j x) as Hown.
  { intros j x. unfold owns. rewrite Hent. case_decide as Hj; [subst j|done]. split.
    - intros (? & ? & [= <-] & ? & ?). exists e, ids. split; [done|]. split; [done|congruence].
    - intros (? & ? & ? & ? & ?). exists e', ids. split; [done|]. split; [done|congruence]. }
  split; try done.
  - unfold s'. simpl. by rewrite upd_length.
  - unfold s'. simpl. by rewrite Hlen.
  - intros j e0. rewrite Hent. case_decide; [intros [= <-]; congruence|apply Hfree].
  - intros j e0 ids0. rewrite Hent. case_decide; [|apply Hpg]. intros [= <-] Hp.
    rewrite Hn', Hl'. apply (Hpg i); congruence.
  - intros j k x Hj%Hown Hk%Hown. by eapply Hdis.
  - intros j x Hj%Hown. by eapply Hmap.
  - intros x p Hp. rewrite <- (Huse x p Hp). split; intros (j & Hj); exists j; by apply Hown.
  - intros j e0. rewrite Hent. unfold s'. simpl. case_decide; [intros [= <-]; congruence|].
    intros Hj. rewrite Hrj by done. by apply Hrefs.
  - intros k m Hk Hm. destruct (Hlive' k m Hk Hm) as (e0 & ids0 & He0 & Hids0 & H1 & H2 & H3).
    rewrite Hent. case_decide as Hj; [|by exists e0, ids0].
    exists e', ids. rewrite Hj, Hi in He0. injection He0 as <-. rewrite Hn'. done.
Qed.

Lemma schedule_remove_ok s i :
  shm_ok s -> 0 <= i < MEHCACHED_SHM_MAX_ENTRIES ->
  exists ok s', mehcached_shm_schedule_remove s i = Some (ok, s') /\ shm_ok s' /\
    shm_mappings s' = shm_mappings s.
Proof.
  intros Hok Hi. destruct (locked s Hok) as [Hl Hinv]. unfold mehcached_shm_schedule_remove.
  rewrite Hl. cbn [mbind option_bind]. set (s1 := set_state_lock s 1) in *.
  destruct (at_Some (shm_entries s1) i) as [e He]; [by rewrite (so_entries _ Hinv)|].
  rewrite He. cbn [mbind option_bind]. destruct (pages e) as [ids|] eqn:Hids.
  2:{ eexists _, _. split; [done|]. split; [by apply unlocked|done]. }
  set (s2 := set_entries s1 _).
  assert (shm_inv s2) as Hinv2.
  { assert (shm_inv (set_mappings s2 (shm_mappings s1))) as Hinv2.
    { apply (recount_inv s1 i e (set_to_remove e) ids (shm_mappings s1)); try done.
      - exact (so_refs _ Hinv i e He).
      - apply (so_live _ Hinv). }
    by eapply shm_inv_ext; [| | | |exact Hinv2]. }
  pose proof (at_range _ _ _ He).
  destruct (check_remove_ok s2 i (set_to_remove e) ids Hinv2) as (s3 & -> & Hinv3 & Hm3 & _); [|done|].
  { unfold s2. simpl. rewrite at_upd by (lia || by eexists). by rewrite decide_True. }
  cbn [mbind option_bind]. eexists _, _. split; [done|]. split; [by apply unlocked|done].
Qed.

(** [mehcached_shm_check_remove] does not look at the mappings. *)
Lemma check_remove_mappings s i ms :
  mehcached_shm_check_remove (set_mappings s ms) i =
    (fun s' => set_mappings s' ms) <$> mehcached_shm_check_remove s i.
Proof.
  unfold mehcached_shm_check_remove. cbn [shm_entries set_mappings].
  destruct (at_ (shm_entries s) i) as [e|]; [|done]. cbn [mbind option_bind].
  destruct (_ && _); [|done]. destruct (pages e) as [ids|]; [|done]. cbn [mbind option_bind].
  cbn [shm_pages set_mappings]. destruct (mark _ _ _) as [ps|]; [|done]. cbn [mbind option_bind].
  cbn [shm_entries set_entries set_pages set_mappings]. by destruct (at_ _ i).
Qed.

Lemma check_remove_keeps s i s' :
  mehcached_shm_check_remove s i = Some s' -> shm_mappings s' = shm_mappings s.
Proof.
  unfold mehcached_shm_check_remove. destruct (at_ _ i) as [e|]; [|done]. cbn [mbind option_bind].
  destruct (_ && _); [|by intros [= <-]]. destruct (pages e) as [ids|]; [|done].
  cbn [mbind option_bind]. destruct (mark _ _ _) as [ps|]; [|done]. cbn [mbind option_bind].
  destruct (at_ _ i); [|done]. by intros [= <-].
Qed.

Lemma unmap_ok s ptr :
  shm_ok s -> ptr <> 0 ->
  exists ok s', mehcached_shm_unmap s ptr = Some (ok, s') /\ shm_ok s'.
Proof.
  intros Hok Hptr. destruct (locked s Hok) as [Hl Hinv]. unfold mehcached_shm_unmap.
  rewrite Hl. cbn [mbind option_bind]. set (s1 := set_state_lock s 1) in *.
  set (k := index_of _ _ _).
  destruct (index_of_spec (fun m => map_addr m =? ptr) (shm_mappings s1) 0) as [Hb Hfind].
  fold k in Hb, Hfind. rewrite (so_mappings _ Hinv) in *.
  destruct (Z.eqb_spec k MEHCACHED_SHM_MAX_MAPPINGS) as [|Hk].
  { eexists _, _. split; [done|]. by apply unlocked. }
  destruct Hfind as (mp & Hmp & Haddr%Z.eqb_eq); [lia|]. rewrite Z.sub_0_r in Hmp. rewrite Hmp.
  cbn [mbind option_bind]. set (m := unmap_pages _ _ _ _). set (z := cut_pages _ _ _ _). set (s2 := set_space s1 m z).
  destruct (so_live _ Hinv k mp Hmp) as (e & ids & He & Hids & _); [congruence|].
  change (shm_entries s2) with (shm_entries s1). rewrite He. cbn [mbind option_bind].
  set (i := entry_id mp) in *. set (s3 := set_entries s2 _).
  set (ms := upd (shm_mappings s1) k zero_mapping).
  assert (refers i mp) as Href by (split; [congruence|done]).
  assert (forall j, refs ms j = refs (shm_mappings s1) j - if decide (refers j mp) then 1 else 0) as Hms.
  { intros j. unfold ms. rewrite (refs_upd _ _ _ _ _ Hmp).
    rewrite (decide_False (P := refers j zero_mapping)) by (by intros [[]]). lia. }
  pose proof (refs_live _ i mp k Hmp Href) as Hr1. pose proof (refs_bound (shm_mappings s1) i) as Hr2.
  rewrite (so_mappings _ Hinv) in Hr2. unfold MEHCACHED_SHM_MAX_MAPPINGS in *.
  assert (shm_inv (set_mappings s3 ms)) as Hinv3.
  { assert (shm_inv s2) as Hinv2 by (by eapply shm_inv_ext; [| | | |exact Hinv]).
    apply (recount_inv s2 i e (decr_refcount e) ids ms); try done.
    - apply upd_length.
    - cbn [refcount decr_refcount]. rewrite (so_refs _ Hinv i e He), Hms, decide_True by done.
      apply wrap_small. lia.
    - intros j Hj. rewrite Hms, decide_False; [by rewrite Z.sub_0_r|]. intros [_ ?]. by subst j.
    - intros k' m'. unfold ms. rewrite at_upd by (lia || by eexists).
      case_decide; [by intros [= <-]|]. apply (so_live _ Hinv). }
  pose proof (at_range _ _ _ He).
  destruct (check_remove_ok (set_mappings s3 ms) i (decr_refcount e) ids Hinv3)
    as (s4 & Hs4 & Hinv4 & _); [|done|].
  { unfold s3. simpl. rewrite at_upd by (lia || by eexists). by rewrite decide_True. }
  rewrite check_remove_mappings in Hs4. apply fmap_Some in Hs4 as (s5 & Hs5 & ->). rewrite Hs5.
  cbn [mbind option_bind]. eexists _, _. split; [done|].
  rewrite (check_remove_keeps _ _ _ Hs5). by apply unlocked.
Qed.

(** ** Mapping *)

Lemma aligned_divide s x :
  shm_inv s -> 0 <= x -> aligned s x = true -> exists q, 0 <= q /\ x = shm_page_size s * q.
Proof.
  intros [(k & Hk & Hps) _ _ _ _ _ _ _ _ _] Hx Ha%Z.eqb_eq. rewrite Hps in *.
  replace (2 ^ k - 1) with (Z.ones k) in Ha by (rewrite Z.ones_equiv; lia).
  rewrite <- Z.ldiff_land, Z.ldiff_ones_r, Z.shiftl_mul_pow2, Z.shiftr_div_pow2 in Ha by lia.
  exists (x / 2 ^ k). split; [apply Z.div_pos; lia|lia].
Qed.

(** The loop of [mehcached_shm_map] succeeds or stops at a failed [mmap]; the pages
    before are mapped, and no other address is touched. *)
Lemma map_pages_spec mmap_ok s ids n : forall idx p m,
  0 <= idx -> idx + Z.of_nat n <= Z.of_nat (length ids) ->
  (forall x, x ∈ ids -> is_Some (at_ (shm_pages s) x)) ->
  exists m' rest, map_pages mmap_ok s ids n idx p m = Some (m', rest) /\ (rest <= n)%nat.
Proof.
  induction n as [|n IH]; intros idx p m Hidx Hn Hids; cbn [map_pages].
  { by exists m, 0%nat. }
  destruct (at_Some ids idx) as [x Hx]; [lia|]. rewrite Hx. cbn [mbind option_bind].
  destruct (Hids x) as [pg ->].
  { unfold at_ in Hx. destruct (0 <=? idx); [|done]. by eapply list_elem_of_lookup_2. }
  cbn [mbind option_bind]. destruct (mmap_ok p); [|by eexists _, _].
  destruct (IH (idx + 1) (u64 (p + shm_page_size s)) (<[p := path pg]> m)) as (m' & rest & -> & ?);
    [lia|lia|done|].
  exists m', rest. split; [done|lia].
Qed.

Lemma map_pages_frame mmap_ok s ids n a : forall idx p m m' rest,
  map_pages mmap_ok s ids n idx p m = Some (m', rest) ->
  0 < shm_page_size s -> 0 <= p -> p + Z.of_nat n * shm_page_size s <= 2 ^ 64 ->
  (a < p \/ p + Z.of_nat n * shm_page_size s <= a) -> m' !! a = m !! a.
Proof.
  induction n as [|n IH]; intros idx p m m' rest; cbn [map_pages]; [by intros [= <- _]|].
  destruct (at_ ids idx) as [x|]; [|done]. cbn [mbind option_bind].
  destruct (at_ (shm_pages s) x) as [pg|]; [|done]. cbn [mbind option_bind].
  destruct (mmap_ok p); [|by intros [= <- _]]. intros Hm Hps Hp Hn Ha.
  destruct (decide (n = 0%nat)) as [->|Hn0].
  { cbn [map_pages] in Hm. injection Hm as <- _. apply lookup_insert_ne. lia. }
  rewrite (wrap_small 64) in Hm by nia.
  rewrite (IH _ _ _ _ _ Hm) by nia. apply lookup_insert_ne. nia.
Qed.

(** After a success, the [j]-th page address of the range shows page [idx + j] of the entry. *)
Lemma map_pages_shows mmap_ok s ids n : forall idx p m m' j x pg,
  map_pages mmap_ok s ids n idx p m = Some (m', 0%nat) ->
  0 < shm_page_size s -> 0 <= p -> p + Z.of_nat n * shm_page_size s <= 2 ^ 64 -> 0 <= idx ->
  0 <= j < Z.of_nat n -> at_ ids (idx + j) = Some x -> at_ (shm_pages s) x = Some pg ->
  m' !! (p + j * shm_page_size s) = Some (path pg).
Proof.
  induction n as [|n IH]; intros idx p m m' j x pg; [lia|]. cbn [map_pages].
  destruct (at_ ids idx) as [x0|] eqn:Hx0; [|done]. cbn [mbind option_bind].
  destruct (at_ (shm_pages s) x0) as [pg0|] eqn:Hpg0; [|done]. cbn [mbind option_bind].
  destruct (mmap_ok p); [|done]. intros Hm Hps Hp Hn Hidx Hj Hx Hpg.
  destruct (decide (n = 0%nat)) as [->|Hn0].
  { cbn [map_pages] in Hm. injection Hm as <-. replace j with 0 in * by lia.
    rewrite !Z.add_0_r in *. assert (pg0 = pg) as -> by congruence. apply lookup_insert_eq. }
  rewrite (wrap_small 64) in Hm by nia. destruct (decide (j = 0)) as [->|].
  - rewrite (map_pages_frame _ _ _ _ _ _ _ _ _ _ Hm) by nia.
    rewrite !Z.add_0_r in *. assert (pg0 = pg) as -> by congruence. apply lookup_insert_eq.
  - replace (p + j * shm_page_size s) with (p + shm_page_size s + (j - 1) * shm_page_size s) by lia.
    apply (IH (idx + 1) _ _ _ (j - 1) x pg Hm); try done; try nia.
    by replace (idx + 1 + (j - 1)) with (idx + j) by lia.
Qed.

(** A mapping of entry [i] is recorded. *)
Lemma record_inv s i e ids k mp :
  shm_inv s -> at_ (shm_entries s) i = Some e -> pages e = Some ids ->
  at_ (shm_mappings s) k = Some mp -> map_addr mp = 0 ->
  forall ptr len po n, ptr <> 0 -> 0 <= po -> 0 <= n -> po + n <= num_pages e ->
  shm_inv (set_mappings (set_entries s (upd (shm_entries s) i (incr_refcount e)))
    (upd (shm_mappings s) k (ShmMapping i ptr len po n))).
Proof.
  intros Hinv He Hids Hk Hfree ptr len po n Hptr Hpo Hn Hin.
  pose proof (at_range _ _ _ Hk). set (mp' := ShmMapping i ptr len po n).
  set (ms := upd (shm_mappings s) k mp').
  assert (forall j, refs ms j = refs (shm_mappings s) j + if decide (j = i) then 1 else 0) as Hms.
  { intros j. unfold ms. rewrite (refs_upd _ _ _ _ _ Hk).
    rewrite (decide_False (P := refers j mp)) by (by intros []).
    destruct (decide (j = i)) as [->|Hj]; [rewrite decide_True by done; lia|].
    rewrite decide_False; [lia|]. intros [_ ?]. by apply Hj. }
  pose proof (refs_bound (shm_mappings s) i) as Hb. rewrite (so_mappings _ Hinv) in Hb.
  unfold MEHCACHED_SHM_MAX_MAPPINGS in *.
  apply (recount_inv s i e (incr_refcount e) ids ms); try done.
  - apply upd_length.
  - cbn [refcount incr_refcount]. rewrite (so_refs _ Hinv i e He), Hms, decide_True by done.
    apply wrap_small. lia.
  - intros j Hj. by rewrite Hms, decide_False, Z.add_0_r.
  - intros k' m'. unfold ms. rewrite at_upd by (lia || by eexists). case_decide.
    + intros [= <-] _. exists e, ids. split; [done|]. split; [done|]. split; [done|]. done.
    + apply (so_live _ Hinv).
Qed.

(** What a successful call of [mehcached_shm_map] leaves. *)
Definition mapped_at (s : shm) (m : gmap Z Z) (i ptr offset length : Z) : Prop :=
  exists e ids, at_ (shm_entries s) i = Some e /\ pages e = Some ids /\
    offset + length <= length_ e /\
    forall j, 0 <= j < page_count s length ->
      exists x pg, at_ ids (offset / shm_page_size s + j) = Some x /\
        at_ (shm_pages s) x = Some pg /\ m !! (ptr + j * shm_page_size s) = Some (path pg).

Lemma map_ok mmap_ok s i ptr offset length :
  shm_ok s -> 0 <= i < MEHCACHED_SHM_MAX_ENTRIES -> 0 < ptr < 2 ^ 64 ->
  0 <= offset -> 0 <= length -> offset + length < 2 ^ 63 ->
  exists ok s', mehcached_shm_map mmap_ok s i ptr offset length = Some (ok, s') /\ shm_ok s' /\
    (ok = true -> ptr + page_count s length * shm_page_size s <= 2 ^ 64 ->
     mapped_at s (address_space s') i ptr offset length).
Proof.
  intros Hok Hi Hptr Hoff Hlen Hsum. destruct (locked s Hok) as [Hl Hinv].
  unfold mehcached_shm_map. destruct (aligned s ptr); [|by exists false, s].
  destruct (aligned s offset) eqn:Ha; [|by exists false, s]. cbn [negb].
  destruct (aligned_divide s offset (proj2 Hok) Hoff Ha) as (q & Hq & Hqo).
  pose proof (page_size_pos s (proj2 Hok)) as Hps.
  rewrite Hl. cbn [mbind option_bind]. set (s1 := set_state_lock s 1) in *.
  destruct (at_Some (shm_entries s1) i) as [e He]; [by rewrite (so_entries _ Hinv)|].
  rewrite He. cbn [mbind option_bind].
  assert (shm_ok (mehcached_shm_unlock s1)) as Hok1 by (by apply unlocked).
  destruct (pages e) as [ids|] eqn:Hids; [|by exists false, (mehcached_shm_unlock s1)].
  destruct (Z.gtb_spec offset (length_ e)); [by exists false, (mehcached_shm_unlock s1)|].
  rewrite (wrap_small 64 (offset + length)) by lia.
  destruct (Z.gtb_spec (offset + length) (length_ e)); [by exists false, (mehcached_shm_unlock s1)|].
  set (k := index_of _ _ _).
  destruct (index_of_spec (fun m => map_addr m =? 0) (shm_mappings s1) 0) as [Hb Hfind].
  fold k in Hb, Hfind. rewrite (so_mappings _ Hinv) in *.
  destruct (Z.eqb_spec k MEHCACHED_SHM_MAX_MAPPINGS) as [|Hk]; [by exists false, (mehcached_shm_unlock s1)|].
  destruct Hfind as (mp & Hmp & Hfree%Z.eqb_eq); [lia|]. rewrite Z.sub_0_r in Hmp.
  destruct (page_count_spec s1 length Hinv) as [Hn Hn0]; [lia|].
  destruct (so_pages _ Hinv i e ids He Hids) as (_ & Hcnt & _ & Hne).
  change (shm_page_size s1) with (shm_page_size s) in *. set (n := page_count s1 length) in *.
  assert (offset / shm_page_size s = q) as Hpo by (rewrite Hqo, Z.mul_comm; apply Z.div_mul; lia).
  assert (q + n <= num_pages e) as Hin.
  { rewrite Hn, Hne, <- Z.div_add_l by lia. apply Z.div_le_mono; lia. }
  assert (forall x, x ∈ ids -> is_Some (at_ (shm_pages s1) x)) as Hpg.
  { intros x Hx. destruct (so_mapped _ Hinv i x) as (p & Hp & _); [by exists e, ids|by exists p]. }
  destruct (map_pages_spec mmap_ok s1 ids (Z.to_nat n) q ptr (address_space s1)) as (m & rest & Hm & _);
    [lia|lia|done|].
  rewrite Hpo, Hm. cbn [mbind option_bind]. destruct (Nat.eqb_spec rest 0) as [->|Hrest]; cbn [negb].
  2:{ eexists false, _. split; [done|]. split; [|done]. apply unlocked.
      by eapply shm_inv_ext; [| | | |exact Hinv]. }
  set (z := cut_pages _ _ _ _). set (s2 := set_space s1 m z). set (s3 := if _ =? _ then _ else _).
  assert (exists u, s3 = set_used_memory s2 u) as [u Hs3].
  { unfold s3. destruct (_ =? _); [by eexists|]. by exists (shm_used_memory s2). }
  clearbody s3. subst s3. set (s3 := set_used_memory s2 u).
  assert (shm_inv (set_mappings (set_entries s3 (upd (shm_entries s3) i (incr_refcount e)))
    (upd (shm_mappings s3) k (ShmMapping i ptr length q n)))) as Hinv3.
  { assert (shm_inv s3) as Hs3 by (by eapply shm_inv_ext; [| | | |exact Hinv]).
    apply (record_inv s3 i e ids k mp); done || lia. }
  eexists true, _. split; [done|]. split; [by apply unlocked|]. intros _ Hend.
  exists e, ids. split; [done|]. split; [done|]. split; [done|]. intros j Hj.
  change (page_count s length) with n in *.
  destruct (at_Some ids (q + j)) as [x Hx]; [lia|]. destruct (Hpg x) as [pg Hxp].
  { unfold at_ in Hx. destruct (0 <=? q + j); [|done]. by eapply list_elem_of_lookup_2. }
  exists x, pg. rewrite Hpo. split; [done|]. split; [done|].
  apply (map_pages_shows mmap_ok s1 ids (Z.to_nat n) q ptr (address_space s1) m j x pg Hm);
    try done; simpl; lia.
Qed.

(** ** Set-up *)

Lemma insert_by_perm key p l : insert_by key p l ≡ₚ p :: l.
Proof.
  induction l as [|q l IH]; [done|]. cbn [insert_by]. destruct (_ <? _); [done|].
  rewrite IH. apply perm_swap.
Qed.

Lemma sort_by_perm key l : sort_by key l ≡ₚ l.
Proof.
  induction l as [|p l IH]; [done|]. cbn [sort_by foldr]. rewrite insert_by_perm.
  by apply perm_skip.
Qed.

Lemma reserve_pages_spec per_node ps : forall reserved,
  (forall p, p ∈ ps -> 0 <= numa_node p < Z.of_nat (length reserved) /\ in_use p = 0) ->
  exists ps' reserved', reserve_pages per_node reserved ps = Some (ps', reserved') /\
    length ps' = length ps /\ forall p, p ∈ ps' -> in_use p = 0.
Proof.
  induction ps as [|p ps IH]; intros reserved Hps; cbn [reserve_pages].
  { exists [], reserved. split; [done|]. split; [done|]. by intros p Hp%not_elem_of_nil. }
  destruct (Hps p) as [Hn Hu]; [by left|]. destruct (at_Some reserved (numa_node p) Hn) as [r ->].
  cbn [mbind option_bind].
  assert (forall x, x ∈ ps -> 0 <= numa_node x < Z.of_nat (length reserved) /\ in_use x = 0) as Hps'
    by (intros x Hx; apply Hps; by right).
  destruct (r <? per_node).
  - destruct (IH (upd reserved (numa_node p) (r + 1))) as (ps' & rs & -> & Hl & Hz);
      [by rewrite upd_length|].
    exists (p :: ps'), rs. split; [done|]. split; [cbn [length]; lia|].
    intros x [->|Hx]%elem_of_cons; [done|by apply Hz].
  - destruct (IH reserved Hps') as (ps' & rs & -> & Hl & Hz).
    exists (zero_page :: ps'), rs. split; [done|]. split; [cbn [length]; lia|].
    intros x [->|Hx]%elem_of_cons; [done|by apply Hz].
Qed.

Lemma at_elem {A} (l : list A) i (x : A) : at_ l i = Some x -> x ∈ l.
Proof. unfold at_. destruct (0 <=? i); [|done]. apply list_elem_of_lookup_2. Qed.

Lemma at_replicate {A} n i (x y : A) : at_ (replicate n x) i = Some y -> y = x.
Proof. by intros [? _]%at_elem%elem_of_replicate. Qed.

(** Tables without an entry and without a mapping. *)
Lemma empty_inv k ps space :
  0 <= k < 63 -> (forall p, p ∈ ps -> in_use p = 0) ->
  shm_inv (Shm (2 ^ k) 0 ps (replicate (Z.to_nat MEHCACHED_SHM_MAX_ENTRIES) zero_entry)
    (replicate (Z.to_nat MEHCACHED_SHM_MAX_MAPPINGS) zero_mapping) 0 space []).
Proof.
  intros Hk Hps. set (es := replicate _ zero_entry). set (ms := replicate _ zero_mapping).
  set (s := Shm _ _ _ _ _ _ _ _).
  assert (length es = Z.to_nat MEHCACHED_SHM_MAX_ENTRIES) as Hes by apply length_replicate.
  assert (length ms = Z.to_nat MEHCACHED_SHM_MAX_MAPPINGS) as Hms by apply length_replicate.
  assert (forall i e, at_ es i = Some e -> e = zero_entry) as He by (intros i e; apply at_replicate).
  assert (forall i m, at_ ms i = Some m -> m = zero_mapping) as Hm by (intros i m; apply at_replicate).
  assert (forall i x, ~ owns s i x) as Hown by (by intros i x (e & ids & ->%He & ? & _)).
  assert (forall i, refs ms i = 0) as Hrefs.
  { intros i. unfold refs. assert (filter (refers i) ms = []) as ->; [|done].
    apply elem_of_nil_inv. intros m [[Hr _] Hin]%list_elem_of_filter.
    apply elem_of_replicate, proj1 in Hin. subst m. by destruct Hr. }
  clearbody es ms. split.
  - by exists k.
  - cbn [shm_entries s]. by rewrite Hes, Z2Nat.id.
  - cbn [shm_mappings s]. by rewrite Hms, Z2Nat.id.
  - by intros i e ->%He.
  - by intros i e ids ->%He.
  - by intros i j x []%Hown.
  - by intros i x []%Hown.
  - intros x p Hp%at_elem%Hps. rewrite Hp. split; [by intros (i & []%Hown)|done].
  - intros i e ->%He. symmetry. apply Hrefs.
  - by intros i m ->%Hm.
Qed.

(** The machine as [mehcached_shm_init] expects it. *)
Record shm_config (page_size nodes try reserve : Z) (mapped : list Z) (numa_of : Z -> Z) : Prop := {
  sc_page_size : exists k, 0 <= k < 63 /\ page_size = 2 ^ k;
  sc_nodes : 1 <= nodes;
  sc_try : 0 <= try <= MEHCACHED_SHM_MAX_PAGES;
  sc_reserve : reserve <= try;
  sc_numa : forall a, a ∈ mapped -> 0 <= numa_of a < nodes }.

Lemma init_ok page_size nodes try reserve mapped numa_of paddr_of :
  shm_config page_size nodes try reserve mapped numa_of ->
  exists s, mehcached_shm_init page_size nodes try reserve mapped numa_of paddr_of = Some s /\
    shm_ok s /\ shm_used_memory s = 0.
Proof.
  intros [(k & Hk & ->) Hn Ht Hr Hnuma]. unfold mehcached_shm_init.
  assert (1 <= 2 ^ k <= 2 ^ 62) as Hp by (split; [lia|apply Z.pow_le_mono_r; lia]).
  destruct (next_pow2_spec (2 ^ k)) as (a & -> & Ha & Hle & Hlt); [lia|].
  cbn [mbind option_bind].
  assert (a = k) as ->.
  { apply Z.pow_le_mono_r_iff in Hle; [|lia|lia]. destruct Hlt as [->|Hlt]; [lia|].
    apply Z.pow_lt_mono_r_iff in Hlt; lia. }
  rewrite Z.eqb_refl. cbn [negb].
  rewrite (proj2 (Z.geb_le _ _) Hn), (proj2 (Z.leb_le _ _) (proj2 Ht)), (proj2 (Z.leb_le _ _) Hr).
  cbn [negb].
  set (ps0 := sort_by paddr _). set (reserved := replicate _ 0).
  destruct (reserve_pages_spec (reserve / nodes) ps0 reserved) as (ps & rs & -> & Hl & Hu).
  { intros p Hin. unfold ps0, reserved in *. rewrite length_replicate.
    rewrite sort_by_perm in Hin. apply list_elem_of_fmap in Hin as (q & -> & Hin).
    rewrite sort_by_perm in Hin. apply elem_of_lookup_imap in Hin as (i & b & -> & Hb).
    split; [|done]. cbn [numa_node addr]. rewrite Z2Nat.id by lia. apply Hnuma.
    apply lookup_take_Some in Hb as [Hb _]. by eapply list_elem_of_lookup_2. }
  cbn [mbind option_bind]. eexists. split; [done|]. split; [|done]. split; [done|].
  apply empty_inv; [done|]. intros p [Hin|Hin]%elem_of_app; [by apply Hu|].
  by apply elem_of_replicate in Hin as [-> _].
Qed.

(** ** Runs *)

Inductive shm_op :=
  | OpAlloc (malloc_ok : bool) (length node : Z)
  | OpMap (mmap_ok : Z -> bool) (entry_id ptr offset length : Z)
  | OpUnmap (ptr : Z)
  | OpRemove (entry_id : Z).

Definition shm_step (s : shm) (op : shm_op) : option shm :=
  match op with
  | OpAlloc malloc_ok length node => snd <$> mehcached_shm_alloc malloc_ok s length node
  | OpMap mmap_ok i ptr offset length => snd <$> mehcached_shm_map mmap_ok s i ptr offset length
  | OpUnmap ptr => snd <$> mehcached_shm_unmap s ptr
  | OpRemove i => snd <$> mehcached_shm_schedule_remove s i
  end.

Fixpoint shm_run (s : shm) (ops : list shm_op) : option shm :=
  match ops with
  | [] => Some s
  | op :: ops => s' ← shm_step s op; shm_run s' ops
  end.

(** What the callers have to respect: sizes that no object of the program exceeds, no null
    pointer, and entry numbers inside the table; and [malloc] has memory. *)
Definition shm_pre (op : shm_op) : Prop :=
  match op with
  | OpAlloc malloc_ok length _ => malloc_ok = true /\ 0 <= length < 2 ^ 63
  | OpMap _ i ptr offset length =>
      0 <= i < MEHCACHED_SHM_MAX_ENTRIES /\ 0 < ptr < 2 ^ 64 /\
      0 <= offset /\ 0 <= length /\ offset + length < 2 ^ 63
  | OpUnmap ptr => ptr <> 0
  | OpRemove i => 0 <= i < MEHCACHED_SHM_MAX_ENTRIES
  end.

Lemma step_ok s op : shm_ok s -> shm_pre op -> exists s', shm_step s op = Some s' /\ shm_ok s'.
Proof.
  intros Hok. destruct op as [malloc_ok len node|mmap_ok i ptr off len|ptr|i]; cbn [shm_step shm_pre].
  - intros [-> Hl]. destruct (alloc_ok s len node Hok Hl) as (r & s' & -> & ? & _). by exists s'.
  - intros (Hi & Hp & Ho & Hl & Hs).
    destruct (map_ok mmap_ok s i ptr off len Hok Hi Hp Ho Hl Hs) as (r & s' & -> & ? & _). by exists s'.
  - intros Hp. destruct (unmap_ok s ptr Hok Hp) as (r & s' & -> & ?). by exists s'.
  - intros Hi. destruct (schedule_remove_ok s i Hok Hi) as (r & s' & -> & ? & _). by exists s'.
Qed.

Lemma run_ok ops : forall s, shm_ok s -> Forall shm_pre ops ->
  exists s', shm_run s ops = Some s' /\ shm_ok s'.
Proof.
  induction ops as [|op ops IH]; intros s Hok Hpre; cbn [shm_run]; [by exists s|].
  apply Forall_cons in Hpre as [Hop Hops]. destruct (step_ok s op Hok Hop) as (s1 & -> & Hok1).
  by apply IH.
Qed.

(** C16: From the state that [mehcached_shm_init] leaves (a page size 2^k with k < 63, at least
    one NUMA node, at most 65536 pages tried and no more reserved than tried, every page on
    one of the nodes), every sequence
    of allocations of less than 2^63 bytes whose [malloc] succeeds, mappings at non-null
    64-bit addresses of entry numbers below 8192 with [offset + length < 2^63], unmappings of
    non-null addresses and removals of entry numbers below 8192 ([shm_pre]; outside these
    bounds the functions index out of their tables or overflow, see the findings) runs
    without a failed assertion, an access out of a table or a lock that is never released,
    and keeps the tables consistent: a page in use belongs to exactly one entry, the
    reference count of an entry is the number of its mappings, and a mapping stays within
    the pages of an entry that is still there. *)
Theorem shm_tables_consistent page_size nodes try reserve mapped numa_of paddr_of ops :
  shm_config page_size nodes try reserve mapped numa_of -> Forall shm_pre ops ->
  exists s0 s, mehcached_shm_init page_size nodes try reserve mapped numa_of paddr_of = Some s0 /\
    shm_run s0 ops = Some s /\ shm_ok s.
Proof.
  intros Hc Hops. destruct (init_ok _ _ _ _ _ _ paddr_of Hc) as (s0 & Hs0 & Hok & _).
  destruct (run_ok ops s0 Hok Hops) as (s & Hs & ?). by exists s0, s.
Qed.

(** Four huge pages on one node. *)
Definition four_pages : list Z := [0x7f0000000000; 0x7f0000200000; 0x7f0000400000; 0x7f0000600000].

Lemma four_pages_config : shm_config 2097152 1 4 4 four_pages (fun _ => 0).
Proof. split; [by exists 21|done|done|done|]. intros; lia. Qed.

Theorem shm_tables_consistent_witness :
  exists s0 s, mehcached_shm_init 2097152 1 4 4 four_pages (fun _ => 0) (fun a => a) = Some s0 /\
    shm_run s0 [OpAlloc true 3000000 0; OpMap (fun _ => true) 0 0x600000000000 0 3000000; OpRemove 0;
                OpUnmap 0x600000000000] = Some s /\ shm_ok s.
Proof.
  apply (shm_tables_consistent 2097152 1 4 4 four_pages (fun _ => 0) (fun a => a)).
  - exact four_pages_config.
  - repeat apply Forall_cons_2; try apply Forall_nil_2; cbn; unfold MEHCACHED_SHM_MAX_ENTRIES; lia.
Defined.

(** A mapping that [mehcached_shm_map] reports as made lies within its entry, and every
    page address of it shows the page of the entry at the same offset. *)
Theorem shm_map_shows_pages page_size nodes try reserve mapped numa_of paddr_of ops s0 s
    mmap_ok i ptr offset length s' :
  shm_config page_size nodes try reserve mapped numa_of -> Forall shm_pre ops ->
  mehcached_shm_init page_size nodes try reserve mapped numa_of paddr_of = Some s0 ->
  shm_run s0 ops = Some s ->
  shm_pre (OpMap mmap_ok i ptr offset length) ->
  ptr + page_count s length * shm_page_size s <= 2 ^ 64 ->
  mehcached_shm_map mmap_ok s i ptr offset length = Some (true, s') ->
  mapped_at s (address_space s') i ptr offset length.
Proof.
  intros Hc Hops Hs0 Hs (Hi & Hp & Ho & Hl & Hsum) Hend Hm.
  destruct (init_ok _ _ _ _ _ _ paddr_of Hc) as (? & Hs0' & Hok & _).
  rewrite Hs0 in Hs0'. injection Hs0' as <-. destruct (run_ok ops s0 Hok Hops) as (? & Hs' & Hok').
  rewrite Hs in Hs'. injection Hs' as <-.
  destruct (map_ok mmap_ok s i ptr offset length Hok' Hi Hp Ho Hl Hsum) as (ok & ? & Hm' & _ & Hat).
  rewrite Hm in Hm'. injection Hm' as <- <-. by apply Hat.
Qed.

(** A run evaluated on the four pages. *)
Definition no_shm : shm := Shm 0 0 [] [] [] 0 ∅ [].
Definition four_init : option shm :=
  mehcached_shm_init 2097152 1 4 4 four_pages (fun _ => 0) (fun a => a).
Definition four_run (ops : list shm_op) : shm := default no_shm (s ← four_init; shm_run s ops).

Lemma default_Some {A} (o : option A) d : is_Some o -> o = Some (default d o).
Proof. by intros [x ->]. Qed.

Lemma default_pair {A B} (o : option (A * B)) (d : A * B) x :
  (fst <$> o) = Some x -> o = Some (x, snd (default d o)).
Proof. destruct o as [[y z]|]; [|done]. by intros [= ->]. Qed.

Lemma four_run_Some s0 ops :
  four_init = Some s0 -> is_Some (shm_run s0 ops) -> shm_run s0 ops = Some (four_run ops).
Proof. unfold four_run. intros ->. by apply default_Some. Qed.

(** Entry 0 with two pages is mapped. *)
Theorem shm_map_shows_pages_witness :
  exists s0 s s', four_init = Some s0 /\ shm_run s0 [OpAlloc true 3000000 0] = Some s /\
    mehcached_shm_map (fun _ => true) s 0 0x600000000000 0 3000000 = Some (true, s') /\
    mapped_at s (address_space s') 0 0x600000000000 0 3000000.
Proof.
  destruct (init_ok 2097152 1 4 4 four_pages (fun _ => 0) (fun a => a) four_pages_config)
    as (s0 & Hs0 & Hok & _).
  assert (Forall shm_pre [OpAlloc true 3000000 0]) as Hops
    by (repeat apply Forall_cons_2; try apply Forall_nil_2; cbn; lia).
  assert (shm_run s0 [OpAlloc true 3000000 0] = Some (four_run [OpAlloc true 3000000 0])) as Hs
    by (apply (four_run_Some s0); [exact Hs0|];
        destruct (run_ok [OpAlloc true 3000000 0] s0 Hok Hops) as (s & ? & _); exists s; assumption).
  set (s := four_run [OpAlloc true 3000000 0]) in *.
  set (o := mehcached_shm_map (fun _ => true) s 0 0x600000000000 0 3000000).
  assert (o = Some (true, snd (default (true, no_shm) o))) as Hr
    by (apply default_pair; vm_compute; reflexivity).
  exists s0, s, (snd (default (true, no_shm) o)).
  split; [exact Hs0|]. split; [exact Hs|]. split; [exact Hr|].
  apply (shm_map_shows_pages 2097152 1 4 4 four_pages (fun _ => 0) (fun a => a)
    [OpAlloc true 3000000 0] s0 s (fun _ => true) 0 0x600000000000 0 3000000).
  - exact four_pages_config.
  - exact Hops.
  - exact Hs0.
  - exact Hs.
  - cbn. unfold MEHCACHED_SHM_MAX_ENTRIES. lia.
  - apply (bool_decide_unpack (_ <= 2 ^ 64)). vm_compute. exact I.
  - exact Hr.
Defined.

Lemma check_remove_memuse s i s' :
  mehcached_shm_check_remove s i = Some s' ->
  u64 (shm_used_memory s') = u64 (shm_used_memory s).
Proof.
  unfold mehcached_shm_check_remove. destruct (at_ _ i) as [e|] eqn:He; [|done].
  cbn [mbind option_bind]. destruct (_ && _); [|by intros [= <-]].
  destruct (pages e) as [ids|]; [|done]. cbn [mbind option_bind].
  destruct (mark _ _ _) as [ps|]; [|done]. cbn [mbind option_bind shm_entries set_pages set_entries].
  pose proof (at_range _ _ _ He). rewrite at_upd by (lia || by eexists).
  rewrite decide_True by done. cbn [mbind option_bind]. intros [= <-]. simpl.
  by rewrite Z.mul_0_l, Z.sub_0_r, wrap_wrap.
Qed.

Lemma lock_memuse s s' : mehcached_shm_lock s = Some s' -> shm_used_memory s' = shm_used_memory s.
Proof. unfold mehcached_shm_lock. destruct (_ =? 0); [|done]. by intros [= <-]. Qed.

(** [mehcached_shm_used_memory] counts up when an entry is first mapped and is meant to
    count down when the entry is removed; it never does, because the entry is cleared before
    its number of pages is read. *)
Theorem shm_memuse_never_falls s s' r :
  (exists ptr, mehcached_shm_unmap s ptr = Some (r, s')) \/
  (exists i, mehcached_shm_schedule_remove s i = Some (r, s')) ->
  u64 (mehcached_shm_get_memuse s') = u64 (mehcached_shm_get_memuse s).
Proof.
  unfold mehcached_shm_unmap, mehcached_shm_schedule_remove.
  intros [(ptr & H)|(i & H)]; apply bind_Some in H as (s1 & Hl%lock_memuse & H).
  - unfold mehcached_shm_get_memuse. rewrite <- Hl. destruct (_ =? _); [by injection H as _ <-|].
    apply bind_Some in H as (mp & _ & H). apply bind_Some in H as (e & _ & H).
    apply bind_Some in H as (s2 & Hc%check_remove_memuse & H). injection H as _ <-. exact Hc.
  - unfold mehcached_shm_get_memuse. rewrite <- Hl. apply bind_Some in H as (e & _ & H).
    destruct (pages e); [|by injection H as _ <-].
    apply bind_Some in H as (s2 & Hc%check_remove_memuse & H). injection H as _ <-. exact Hc.
Qed.

(** Two pages are mapped and removed: the counter keeps their 4 MB. *)
Theorem shm_memuse_never_falls_witness :
  exists s s', mehcached_shm_unmap s 0x600000000000 = Some (true, s') /\
    mehcached_shm_get_memuse s = 4194304 /\ free_entry <$> at_ (shm_entries s') 0 = Some true /\
    u64 (mehcached_shm_get_memuse s') = u64 (mehcached_shm_get_memuse s).
Proof.
  set (s := four_run [OpAlloc true 3000000 0; OpMap (fun _ => true) 0 0x600000000000 0 3000000; OpRemove 0]).
  set (o := mehcached_shm_unmap s 0x600000000000).
  assert (o = Some (true, snd (default (true, no_shm) o))) as Hr
    by (apply default_pair; vm_compute; reflexivity).
  exists s, (snd (default (true, no_shm) o)).
  split; [exact Hr|]. split; [vm_compute; reflexivity|]. split; [vm_compute; reflexivity|].
  apply (shm_memuse_never_falls s (snd (default (true, no_shm) o)) true). left.
  exists 0x600000000000. exact Hr.
Defined.
