(* ===== verification/ShmSpace.v ===== *)
(** * The address space of the shared pages

    What the calls of [shm.c] do to the address space: the pages of files that
    [mehcached_shm_map] puts there and [mehcached_shm_unmap] takes away, and the ranges of
    zeros that the probes of [mehcached_shm_find_free_address] leave behind. *)
From S2P Require Import Prelude PoolAlloc Shm ShmSpec.

(** ** Ranges of zeros *)

Definition zero_at (z : list (Z * Z)) (x : Z) : Prop := exists a b, (a, b) ∈ z /\ a <= x < b.

Lemma zero_at_cons a b z x : zero_at ((a, b) :: z) x <-> a <= x < b \/ zero_at z x.
Proof.
  unfold zero_at. split.
  - intros (c & d & [[= -> ->]|Hin]%elem_of_cons & Hx); [by left|right]. by exists c, d.
  - intros [Hx|(c & d & Hin & Hx)]; [exists a, b|exists c, d]; (split; [|done]); [by left|by right].
Qed.

Lemma zero_at_nil x : ~ zero_at [] x.
Proof. by intros (a & b & Hin%not_elem_of_nil & _). Qed.

Lemma zero_at_app z z' x : zero_at (z ++ z') x <-> zero_at z x \/ zero_at z' x.
Proof.
  induction z as [|[a b] z IH]; cbn [app].
  - split; [by right|]. intros [[]%zero_at_nil|]; done.
  - rewrite !zero_at_cons, IH. tauto.
Qed.

(** A condition on both ends of a range that is empty if it fails. *)
Lemma zero_at_range a b x : zero_at (if a <? b then [(a, b)] else []) x <-> a <= x < b.
Proof.
  destruct (Z.ltb_spec a b).
  - rewrite zero_at_cons. split; [intros [|[]%zero_at_nil]; done|by left].
  - split; [intros []%zero_at_nil|lia].
Qed.

Lemma zero_at_cut lo hi z x : lo <= hi -> zero_at (cut lo hi z) x <-> zero_at z x /\ ~ (lo <= x < hi).
Proof.
  intros Hle. unfold cut. induction z as [|[a b] z IH].
  - split; [intros []%zero_at_nil|intros [[]%zero_at_nil _]].
  - cbn [mbind list_bind] in *. rewrite !zero_at_app, IH, !zero_at_range, zero_at_cons.
    split.
    + intros [[Hx|Hx]|[Hx Hn]]; (split; [|lia]); [left; lia|left; lia|by right].
    + intros [[Hx|Hx] Hn]; [|by right]. left. destruct (decide (x < lo)); [left; lia|right; lia].
Qed.

Lemma zero_at_cut_pages n ps x : 0 < ps -> forall p z,
  0 <= p -> p + Z.of_nat n * ps <= 2 ^ 64 ->
  zero_at (cut_pages n ps p z) x <-> zero_at z x /\ ~ (p <= x < p + Z.of_nat n * ps).
Proof.
  intros Hps. induction n as [|n IH]; intros p z Hp Hn; cbn [cut_pages].
  { split; [intros ?; split; [done|lia]|tauto]. }
  destruct (decide (n = 0%nat)) as [->|].
  { cbn [cut_pages]. rewrite zero_at_cut by lia. replace (Z.of_nat 1 * ps) with ps by lia. done. }
  rewrite (wrap_small 64) by nia. rewrite IH by nia. rewrite zero_at_cut by lia.
  replace (Z.of_nat (S n) * ps) with (ps + Z.of_nat n * ps) by lia.
  assert (0 <= Z.of_nat n * ps) by nia. split; [intros [[? ?] ?]|intros [? ?]]; (split; [|lia]); [done|].
  split; [done|lia].
Qed.

(** ** Pages of files *)

(** [a] is one of the [n] page addresses from [p] on. *)
Definition page_in (ps p : Z) (n : Z) (a : Z) : Prop := exists j, 0 <= j < n /\ a = p + j * ps.

Lemma page_in_range ps p n a : 0 < ps -> page_in ps p n a -> p <= a < p + n * ps.
Proof. intros Hps (j & Hj & ->). nia. Qed.

Lemma page_in_succ ps p n a : page_in ps (p + ps) (Z.of_nat n) a -> page_in ps p (Z.of_nat (S n)) a.
Proof. intros (j & Hj & ->). exists (j + 1). split; [lia|ring]. Qed.

Lemma map_pages_space mmap_ok s ids n : 0 < shm_page_size s -> forall idx p m m' rest,
  0 <= p -> p + Z.of_nat n * shm_page_size s <= 2 ^ 64 ->
  map_pages mmap_ok s ids n idx p m = Some (m', rest) ->
  (rest <= n)%nat /\
  forall a, ~ page_in (shm_page_size s) p (Z.of_nat (n - rest)) a -> m' !! a = m !! a.
Proof.
  intros Hps. induction n as [|n IH]; intros idx p m m' rest Hp Hn; cbn [map_pages]; [by intros [= <- <-]|].
  destruct (at_ ids idx) as [x|]; [|done]. cbn [mbind option_bind].
  destruct (at_ (shm_pages s) x) as [pg|]; [|done]. cbn [mbind option_bind].
  destruct (mmap_ok p); [|by intros [= <- <-]]. intros Hm.
  assert (forall r, (r <= n)%nat -> page_in (shm_page_size s) p (Z.of_nat (S n - r)) p) as Hfirst.
  { intros r Hr. exists 0. split; [lia|ring]. }
  destruct (decide (n = 0%nat)) as [->|Hn0].
  { cbn [map_pages] in Hm. injection Hm as <- <-. split; [lia|]. intros a Ha.
    apply lookup_insert_ne. intros ->. by apply Ha, (Hfirst 0%nat). }
  rewrite (wrap_small 64) in Hm by nia. eapply IH in Hm as [Hr Hat]; [|lia|nia].
  split; [lia|]. intros a Ha. rewrite Hat.
  - apply lookup_insert_ne. intros ->. by apply Ha, Hfirst.
  - intros Hin. apply Ha. replace (S n - rest)%nat with (S (n - rest)) by lia. by apply page_in_succ.
Qed.

Lemma unmap_pages_frame ps n a : forall p m,
  0 <= p -> 0 < ps -> p + Z.of_nat n * ps <= 2 ^ 64 ->
  ~ page_in ps p (Z.of_nat n) a -> unmap_pages n ps p m !! a = m !! a.
Proof.
  induction n as [|n IH]; intros p m Hp Hps Hend Ha; cbn [unmap_pages]; [done|].
  assert (delete p m !! a = m !! a) as Hd.
  { apply lookup_delete_ne. intros ->. apply Ha. exists 0. split; [lia|ring]. }
  destruct (decide (n = 0%nat)) as [->|]; [done|].
  rewrite (wrap_small 64) by nia. rewrite IH; [done|lia|done|nia|].
  intros Hin. by apply Ha, page_in_succ.
Qed.

Lemma unmap_pages_gone ps n a : forall p m,
  0 <= p -> 0 < ps -> p + Z.of_nat n * ps <= 2 ^ 64 ->
  page_in ps p (Z.of_nat n) a -> unmap_pages n ps p m !! a = None.
Proof.
  induction n as [|n IH]; intros p m Hp Hps Hend (j & Hj & ->); cbn [unmap_pages]; [lia|].
  destruct (decide (n = 0%nat)) as [->|].
  { cbn [unmap_pages]. replace j with 0 by lia. rewrite Z.add_0_r. apply lookup_delete_eq. }
  rewrite (wrap_small 64) by nia. destruct (decide (j = 0)) as [->|].
  - rewrite unmap_pages_frame; [|lia|done|nia|intros Hin%page_in_range; lia].
    rewrite Z.add_0_r. apply lookup_delete_eq.
  - apply IH; [lia|done|nia|]. exists (j - 1). split; [lia|ring].
Qed.

Lemma page_in_dec ps p n a : 0 < ps -> page_in ps p n a \/ ~ page_in ps p n a.
Proof.
  intros Hps. destruct (decide ((a - p) mod ps = 0 /\ 0 <= (a - p) / ps < n)) as [[Hm Hd]|Hnot].
  - left. exists ((a - p) / ps). split; [done|]. pose proof (Z.div_mod (a - p) ps). lia.
  - right. intros (j & Hj & ->). apply Hnot. replace (p + j * ps - p) with (j * ps) by ring.
    rewrite Z.mod_mul, Z.div_mul by lia. done.
Qed.

(** Unmapping fresh pages brings the address space back. *)
Lemma unmap_pages_restores ps m n : forall p m',
  0 <= p -> 0 < ps -> p + Z.of_nat n * ps <= 2 ^ 64 ->
  (forall a, ~ page_in ps p (Z.of_nat n) a -> m' !! a = m !! a) ->
  (forall a, page_in ps p (Z.of_nat n) a -> m !! a = None) ->
  unmap_pages n ps p m' = m.
Proof.
  induction n as [|n IH]; intros p m' Hp Hps Hend Hout Hin; cbn [unmap_pages].
  { apply map_eq. intros a. apply Hout. intros (j & Hj & _). lia. }
  assert (m !! p = None) as Hmp by (apply Hin; exists 0; split; [lia|ring]).
  assert (forall a, ~ page_in ps (p + ps) (Z.of_nat n) a -> delete p m' !! a = m !! a) as Hdel.
  { intros a Ha. destruct (decide (p = a)) as [<-|Hne]; [by rewrite lookup_delete_eq|].
    rewrite lookup_delete_ne by done. apply Hout. intros (j & Hj & ->). apply Ha.
    assert (j <> 0) by (intros ->; lia). exists (j - 1). split; [lia|ring]. }
  destruct (decide (n = 0%nat)) as [->|].
  { cbn [unmap_pages]. apply map_eq. intros a. apply Hdel. intros (j & Hj & _). lia. }
  rewrite (wrap_small 64) by nia. apply IH; [lia|done|nia|done|].
  intros a Ha. apply Hin. by apply page_in_succ.
Qed.

(** ** The operations *)

(** Mapping touches its own addresses only; a refused mapping puts the files back where they
    were, and has replaced the zeros of at most all pages but the last. *)
Lemma map_space mmap_ok s i ptr off len ok s' :
  shm_inv s -> 0 <= ptr -> 0 <= page_count s len -> ptr + page_count s len * shm_page_size s <= 2 ^ 64 ->
  mehcached_shm_map mmap_ok s i ptr off len = Some (ok, s') ->
  (forall a, ~ page_in (shm_page_size s) ptr (page_count s len) a ->
     address_space s' !! a = address_space s !! a) /\
  (ok = false -> (forall a, page_in (shm_page_size s) ptr (page_count s len) a -> address_space s !! a = None) ->
     address_space s' = address_space s) /\
  exists k, 0 <= k /\ (if ok then k = page_count s len else k = 0 \/ k < page_count s len) /\
    forall x, zero_at (zero_space s') x <->
      zero_at (zero_space s) x /\ ~ (ptr <= x < ptr + k * shm_page_size s).
Proof.
  intros Hinv Hp Hn0 Hend H. pose proof (page_size_pos s Hinv) as Hps. set (n := page_count s len) in *.
  assert (forall s1 : shm, address_space s1 = address_space s -> zero_space s1 = zero_space s ->
    Some (false, s1) = Some (ok, s') -> ok = false /\ address_space s' = address_space s /\
    zero_space s' = zero_space s) as Hnone by (by intros s1 H1 H2 [= <- <-]).
  unfold mehcached_shm_map in H. fold n in H.
  assert (ok = false /\ address_space s' = address_space s /\ zero_space s' = zero_space s \/
    exists s1 ids m rest, shm_page_size s1 = shm_page_size s /\
      map_pages mmap_ok s1 ids (Z.to_nat n) (off / shm_page_size s) ptr (address_space s) = Some (m, rest) /\
      ok = Nat.eqb rest 0 /\ zero_space s' = cut_pages (Z.to_nat n - rest) (shm_page_size s) ptr (zero_space s) /\
      address_space s' = if Nat.eqb rest 0 then m else
        unmap_pages (Z.to_nat n - rest) (shm_page_size s) ptr m) as [(-> & Ha & Hz)|Hrun].
  { destruct (aligned s ptr); [|left; by refine (Hnone _ _ _ H)]. destruct (aligned s off); [|left; by refine (Hnone _ _ _ H)].
    cbn [negb] in H. apply bind_Some in H as (s1 & Hl & H). unfold mehcached_shm_lock in Hl.
    destruct (shm_state_lock s =? 0); [|done]. injection Hl as <-.
    apply bind_Some in H as (e & _ & H). destruct (pages e) as [ids|]; [|left; by refine (Hnone _ _ _ H)].
    destruct (off >? _); [left; by refine (Hnone _ _ _ H)|]. destruct (u64 _ >? _); [left; by refine (Hnone _ _ _ H)|].
    destruct (index_of _ _ _ =? _); [left; by refine (Hnone _ _ _ H)|].
    apply bind_Some in H as ([m rest] & Hm & H). right. exists (set_state_lock s 1), ids, m, rest.
    split; [done|]. split; [exact Hm|]. change (page_count (set_state_lock s 1) len) with n in H.
    destruct (Nat.eqb rest 0); cbn [negb] in H; injection H as <- <-; [|done].
    by destruct (refcount e =? 0). }
  - rewrite Ha, Hz. split; [done|]. split; [done|]. exists 0. split; [done|]. split; [by left|].
    intros x. split; [intros Hx; split; [done|lia]|tauto].
  - destruct Hrun as (s1 & ids & m & rest & Hs1 & Hm & Hok & Hz & Ha).
    apply map_pages_space in Hm as [Hr Hat]; rewrite ?Hs1 in *; [|lia|lia|rewrite Z2Nat.id by lia; lia].
    assert (forall a, page_in (shm_page_size s) ptr (Z.of_nat (Z.to_nat n - rest)) a ->
      page_in (shm_page_size s) ptr n a) as Hsub by (intros a (j & Hj & ->); exists j; split; [lia|done]).
    assert (Z.of_nat (Z.to_nat n - rest) * shm_page_size s <= n * shm_page_size s) as Hk by nia.
    assert (rest <> 0%nat -> (forall a, page_in (shm_page_size s) ptr n a -> address_space s !! a = None) ->
      unmap_pages (Z.to_nat n - rest) (shm_page_size s) ptr m = address_space s) as Hback.
    { intros _ Hfresh. apply unmap_pages_restores; try done; [lia|lia|]. intros a Ha'. by apply Hfresh, Hsub. }
    split; [|split].
    + intros a Hna. rewrite Ha. destruct (Nat.eqb_spec rest 0) as [->|].
      * apply Hat. intros Hin. by apply Hna, Hsub.
      * rewrite unmap_pages_frame; [apply Hat; intros Hin; by apply Hna, Hsub|lia|lia|lia|].
        intros Hin. by apply Hna, Hsub.
    + intros -> Hfresh. rewrite Ha, <- Hok. apply Hback; [|done]. by intros ->.
    + exists (Z.of_nat (Z.to_nat n - rest)). split; [lia|]. split.
      * rewrite Hok. destruct (Nat.eqb_spec rest 0) as [->|]; [lia|]. destruct (decide (n = 0)); [left; lia|right; lia].
      * intros x. rewrite Hz. apply zero_at_cut_pages; lia.
Qed.

(** What unmapping [n] pages at [p] leaves. *)
Definition space_unmapped (s s' : shm) (p n : Z) : Prop :=
  address_space s' = unmap_pages (Z.to_nat n) (shm_page_size s) p (address_space s) /\
  zero_space s' = cut_pages (Z.to_nat n) (shm_page_size s) p (zero_space s).

Lemma check_remove_space s i s' :
  mehcached_shm_check_remove s i = Some s' ->
  address_space s' = address_space s /\ zero_space s' = zero_space s.
Proof.
  unfold mehcached_shm_check_remove. intros Hc. apply bind_Some in Hc as (e & _ & Hc).
  destruct (_ && _); [|by injection Hc as <-].
  apply bind_Some in Hc as (ids & _ & Hc). apply bind_Some in Hc as (ps & _ & Hc).
  apply bind_Some in Hc as (e2 & _ & Hc). by injection Hc as <-.
Qed.

Lemma schedule_remove_space s i ok s' :
  mehcached_shm_schedule_remove s i = Some (ok, s') ->
  address_space s' = address_space s /\ zero_space s' = zero_space s.
Proof.
  unfold mehcached_shm_schedule_remove. intros H. apply bind_Some in H as (s1 & Hl & H).
  unfold mehcached_shm_lock in Hl. destruct (shm_state_lock s =? 0); [|done]. injection Hl as <-.
  apply bind_Some in H as (e & _ & H). destruct (pages e); [|by injection H as _ <-].
  apply bind_Some in H as (s2 & Hc%check_remove_space & H). by injection H as _ <-.
Qed.

Lemma alloc_space malloc_ok s len node r s' :
  mehcached_shm_alloc malloc_ok s len node = Some (r, s') ->
  shm_page_size s' = shm_page_size s /\ address_space s' = address_space s /\ zero_space s' = zero_space s.
Proof.
  unfold mehcached_shm_alloc, mehcached_shm_lock. destruct (shm_state_lock s =? 0); [|done].
  cbn [mbind option_bind]. destruct (_ =? MEHCACHED_SHM_MAX_ENTRIES); [by intros [= _ <-]|].
  destruct (at_ _ _); [|done]. cbn [mbind option_bind]. destruct (_ && _); [done|].
  destruct (negb _); [by intros [= _ <-]|].
  destruct (mark _ _ _); [|done]. cbn [mbind option_bind]. by intros [= _ <-].
Qed.

(** ** The probes *)

Lemma round_down k x : 0 <= k -> Z.land x (Z.lnot (2 ^ k - 1)) = x / 2 ^ k * 2 ^ k.
Proof.
  intros Hk. replace (2 ^ k - 1) with (Z.ones k) by (rewrite Z.ones_equiv; lia).
  by rewrite <- Z.ldiff_land, Z.ldiff_ones_r, Z.shiftl_mul_pow2, Z.shiftr_div_pow2 by lia.
Qed.

Lemma pow2_divides j k : 0 <= j <= k -> (2 ^ j | 2 ^ k).
Proof. intros H. exists (2 ^ (k - j)). rewrite <- Z.pow_add_r by lia. f_equal. lia. Qed.

Lemma os_round_up_id n : (4096 | n) -> os_round_up n = n.
Proof. intros [q ->]. unfold os_round_up. rewrite Z.div_add_l by lia. by rewrite Z.add_0_r. Qed.

(** A page of a file of the store covers byte [x]. *)
Definition file_at (s : shm) (x : Z) : Prop :=
  exists a, a <= x < a + shm_page_size s /\ is_Some (address_space s !! a).

(** What probes of [n] bytes at the addresses [used] leave behind for ever. *)
Definition leaked (s : shm) (n : Z) (used : list Z) (x : Z) : Prop :=
  exists q, q ∈ used /\ q + n <= x < q + n + shm_page_size s.

(** The system answers a probe of [n] bytes with [q], after the probes [used]: nothing is
    there, neither a page of a file, nor zeros, nor an address of the table. *)
Record finds_free (s : shm) (n : Z) (used : list Z) (q : Z) : Prop := {
  ff_range : 0 < q /\ q + n + shm_page_size s <= 2 ^ 63;
  ff_free : forall x, q <= x < q + n + shm_page_size s ->
    ~ file_at s x /\ ~ zero_at (zero_space s) x /\ ~ leaked s n used x /\
    x ∉ map_addr <$> shm_mappings s }.

Definition honest (s : shm) (n : Z) (probes : list Z) : Prop :=
  forall used q rest, probes = used ++ q :: rest -> finds_free s n used q.

(** The same tables, up to what the free mapping slots hold. *)
Definition same_addrs (s s' : shm) : Prop :=
  shm_page_size s' = shm_page_size s /\ shm_pages s' = shm_pages s /\
  shm_entries s' = shm_entries s /\ map_addr <$> shm_mappings s' = map_addr <$> shm_mappings s.

(** Rounds that the system refused: only the leftovers of their probes are new. *)
Record refused (s s' : shm) (n : Z) (used : list Z) : Prop := {
  rf_tables : same_addrs s s';
  rf_files : address_space s' = address_space s;
  rf_zeros : forall x, zero_at (zero_space s') x <-> zero_at (zero_space s) x \/ leaked s n used x }.

Lemma leaked_nil s n x : ~ leaked s n [] x.
Proof. by intros (q & Hq%not_elem_of_nil & _). Qed.

Lemma leaked_app s n u v x : leaked s n (u ++ v) x <-> leaked s n u x \/ leaked s n v x.
Proof.
  unfold leaked. setoid_rewrite elem_of_app. split.
  - intros (q & [?|?] & ?); [left|right]; by exists q.
  - intros [(q & ? & ?)|(q & ? & ?)]; exists q; (split; [|done]); [by left|by right].
Qed.

Lemma leaked_one s n q x : leaked s n [q] x <-> q + n <= x < q + n + shm_page_size s.
Proof. unfold leaked. setoid_rewrite list_elem_of_singleton. split; [by intros (? & -> & ?)|by exists q]. Qed.

Lemma refused_nil s n : refused s s n [].
Proof.
  split; [by repeat split|done|]. intros x. split; [by left|]. intros [|[]%leaked_nil]; done.
Qed.

Lemma refused_app s s1 s2 n u v : refused s s1 n u -> refused s1 s2 n v -> refused s s2 n (u ++ v).
Proof.
  intros [(H1 & H2 & H3 & H4) Hf Hz] [(G1 & G2 & G3 & G4) Gf Gz]. split.
  - repeat split; congruence.
  - congruence.
  - intros x. rewrite Gz, Hz, leaked_app.
    assert (leaked s1 n v x <-> leaked s n v x) as -> by (unfold leaked; by rewrite H1). tauto.
Qed.

Lemma honest_head s n q rest : honest s n (q :: rest) -> finds_free s n [] q.
Proof. intros H. by apply (H [] q rest). Qed.

(** The promise carries over to what a refused round leaves. *)
Lemma honest_next s s1 n q rest : honest s n (q :: rest) -> refused s s1 n [q] -> honest s1 n rest.
Proof.
  intros H [(H1 & _ & _ & H4) Hf Hz] used p rest' ->.
  destruct (H (q :: used) p rest' eq_refl) as [Hr Hfree]. split; [by rewrite H1|].
  intros x Hx. rewrite H1 in Hx. destruct (Hfree x Hx) as (F1 & F2 & F3 & F4).
  rewrite (leaked_app s n [q] used) in F3. rewrite Hz, H4. unfold file_at, leaked in *.
  rewrite Hf, H1. tauto.
Qed.

Lemma finds_free_key s n used q a :
  0 < shm_page_size s -> finds_free s n used q -> q <= a < q + n + shm_page_size s -> address_space s !! a = None.
Proof.
  intros Hps [_ Hf] Ha. destruct (Hf a Ha) as [Hn _]. apply eq_None_not_Some. intros Hs. apply Hn.
  exists a. split; [lia|done].
Qed.

Lemma find_free_spec s n used q :
  shm_inv s -> 4096 <= shm_page_size s -> 0 <= n -> (4096 | n) -> finds_free s n used q ->
  exists a s1, mehcached_shm_find_free_address s (Some q) n = Some (a, s1) /\
    s1 = set_space s (address_space s) (zero_space s1) /\
    q <= a < q + shm_page_size s /\ (shm_page_size s | a) /\ refused s s1 n [q].
Proof.
  intros [(k & Hk & Hps) _ _ _ _ _ _ _ _ _] H4 Hn0 Hn [[Hq Hend] Hfree].
  unfold mehcached_shm_find_free_address. rewrite Hps in *.
  assert (1 <= 2 ^ k <= 2 ^ 62) as Hp by (split; [lia|apply Z.pow_le_mono_r; lia]).
  rewrite (proj2 (Z.eqb_neq _ _)) by lia.
  destruct (next_pow2_spec (2 ^ k)) as (a & -> & Ha & Hle & Hlt); [lia|]. cbn [mbind option_bind].
  assert (a = k) as ->.
  { apply Z.pow_le_mono_r_iff in Hle; [|lia|lia]. destruct Hlt as [->|Hlt]; [lia|].
    apply Z.pow_lt_mono_r_iff in Hlt; lia. }
  rewrite Z.eqb_refl. cbn [negb]. rewrite !(wrap_small 64) by lia. rewrite round_down by lia.
  assert (4096 | 2 ^ k) as Hal.
  { change 4096 with (2 ^ 12) in *. apply pow2_divides. apply Z.pow_le_mono_r_iff in H4; lia. }
  rewrite !os_round_up_id by (done || by apply Z.divide_add_r).
  eexists _, _. split; [done|]. split; [done|]. cbn [zero_space set_space].
  pose proof (Z.div_mod (q + (2 ^ k - 1)) (2 ^ k) ltac:(lia)).
  pose proof (Z.mod_pos_bound (q + (2 ^ k - 1)) (2 ^ k) ltac:(lia)).
  split; [lia|]. split; [apply Z.divide_factor_r|]. split; [by repeat split|done|].
  intros x. cbn [zero_space set_space]. rewrite zero_at_cut, zero_at_cons, leaked_one, Hps by lia.
  split.
  - intros [[?|?] ?]; [right; lia|by left].
  - intros [Hz|Hz]; [|split; [left; lia|lia]]. split; [by right|]. intros Hx.
    by destruct (Hfree x ltac:(lia)) as (_ & ? & _).
Qed.

Lemma page_count_exact s n : 0 < shm_page_size s -> 0 <= n -> n + shm_page_size s < 2 ^ 64 ->
  (shm_page_size s | n) -> page_count s n * shm_page_size s = n.
Proof.
  intros Hp Hn Hb [q ->]. unfold page_count. rewrite (wrap_small 64) by lia.
  rewrite Z.div_add_l by lia. rewrite (Z.div_small (shm_page_size s - 1)); lia.
Qed.
