(* ===== verification/ShmAlloc.v ===== *)
(** * Memory blocks on the shared pages

    [mehcached_shm_malloc_contiguous] schedules its entry for removal as soon as the block
    is mapped, so that the unmapping in [mehcached_shm_free_contiguous] gives every page
    back. *)
From S2P Require Import Prelude PoolAlloc Shm ShmSpec ShmSpace.

(** What an allocation that succeeds leaves behind. *)
Lemma alloc_result s len node r s' :
  shm_ok s -> 0 <= len < 2 ^ 63 -> mehcached_shm_alloc true s len node = Some (r, s') -> r <> SIZE_MAX ->
  exists ids, at_ (shm_entries s) r = Some zero_entry /\
    (forall x, x ∈ ids -> exists p, at_ (shm_pages s) x = Some p /\ in_use p = 0) /\
    mark (shm_pages s) ids 1 = Some (shm_pages s') /\
    shm_entries s' = upd (shm_entries s) r (ShmEntry 0 0 len (Z.of_nat (length ids)) (Some ids)) /\
    shm_mappings s' = shm_mappings s.
Proof.
  intros Hok Hlen H Hr. destruct (locked s Hok) as [Hl Hinv]. unfold mehcached_shm_alloc in H.
  rewrite Hl in H. cbn [mbind option_bind] in H. set (s1 := set_state_lock s 1) in *.
  set (node' := if node =? SIZE_MAX then 0 else node) in *.
  destruct (index_of_spec free_entry (shm_entries s1) 0) as [Hb Hfind].
  set (i := index_of free_entry (shm_entries s1) 0) in *. rewrite (so_entries _ Hinv) in *.
  destruct (Z.eqb_spec i MEHCACHED_SHM_MAX_ENTRIES) as [|Hi]; [by injection H as <- _|].
  destruct Hfind as (e & He & Hfree); [lia|]. rewrite Z.sub_0_r in He. rewrite He in H.
  cbn [mbind option_bind] in H. assert (e = zero_entry) as ->.
  { apply (so_free _ Hinv i); [done|]. unfold free_entry in Hfree. by destruct (pages e). }
  destruct (page_count_spec s1 len Hinv Hlen) as [_ Hn0].
  destruct (collect_spec (shm_pages s1) 0 node' _ Hn0) as (_ & _ & Hcol). cbv zeta in Hcol.
  set (n := page_count s1 len) in *. set (ids := collect (shm_pages s1) 0 node' n) in *.
  cbn [negb andb] in H. destruct (Z.eqb_spec n (Z.of_nat (length ids))) as [Hnl|]; cbn [negb] in H; [|by injection H as <- _].
  apply bind_Some in H as (ps & Hm & H). injection H as <- <-. exists ids.
  split; [exact He|]. split; [|split; [exact Hm|]].
  - intros x [_ (p & Hp & _ & Hu & _)]%Hcol. rewrite Z.sub_0_r in Hp. by exists p.
  - cbn [shm_entries shm_mappings mehcached_shm_unlock set_state_lock set_pages set_entries refcount
      to_remove zero_entry s1]. by rewrite <- Hnl.
Qed.

(** A refused mapping changes nothing but the address space. *)
Definition same_tables (s s' : shm) : Prop :=
  shm_page_size s' = shm_page_size s /\ shm_pages s' = shm_pages s /\
  shm_entries s' = shm_entries s /\ shm_mappings s' = shm_mappings s.

Lemma map_result mmap_ok s i ptr off len ok s' :
  shm_ok s -> mehcached_shm_map mmap_ok s i ptr off len = Some (ok, s') ->
  if ok : bool then
    exists e k mp po, at_ (shm_entries s) i = Some e /\ at_ (shm_mappings s) k = Some mp /\
      map_addr mp = 0 /\ shm_page_size s' = shm_page_size s /\ shm_pages s' = shm_pages s /\
      shm_entries s' = upd (shm_entries s) i (incr_refcount e) /\
      shm_mappings s' = upd (shm_mappings s) k (ShmMapping i ptr len po (page_count s len))
  else same_tables s s'.
Proof.
  intros Hok H. destruct (locked s Hok) as [Hl Hinv]. unfold mehcached_shm_map in H.
  destruct (aligned s ptr); [|by injection H as <- <-].
  destruct (aligned s off); [|by injection H as <- <-]. cbn [negb] in H.
  rewrite Hl in H. cbn [mbind option_bind] in H. apply bind_Some in H as (e & He & H).
  destruct (pages e) as [ids|]; [|by injection H as <- <-].
  destruct (off >? _); [by injection H as <- <-|]. destruct (u64 _ >? _); [by injection H as <- <-|].
  destruct (index_of_spec (fun m => map_addr m =? 0) (shm_mappings (set_state_lock s 1)) 0) as [Hb Hfind].
  set (k := index_of _ _ _) in *. rewrite (so_mappings _ Hinv) in *.
  destruct (Z.eqb_spec k MEHCACHED_SHM_MAX_MAPPINGS) as [|Hk]; [by injection H as <- <-|].
  destruct Hfind as (mp & Hmp & Hfree%Z.eqb_eq); [lia|]. rewrite Z.sub_0_r in Hmp.
  apply bind_Some in H as ([m rest] & _ & H). destruct (Nat.eqb rest 0); [|by injection H as <- <-].
  cbn [negb] in H. injection H as <- <-. exists e, k, mp, (off / shm_page_size s).
  split; [done|]. split; [done|]. split; [done|].
  by destruct (refcount e =? 0).
Qed.

(** An entry that is still mapped is only marked for removal. *)
Lemma schedule_remove_mapped s i e ok s' :
  shm_ok s -> at_ (shm_entries s) i = Some e -> is_Some (pages e) -> refcount e <> 0 ->
  mehcached_shm_schedule_remove s i = Some (ok, s') ->
  ok = true /\ shm_page_size s' = shm_page_size s /\ shm_pages s' = shm_pages s /\
  shm_entries s' = upd (shm_entries s) i (set_to_remove e) /\ shm_mappings s' = shm_mappings s.
Proof.
  intros Hok He [ids Hids] Hr H. destruct (locked s Hok) as [Hl Hinv].
  unfold mehcached_shm_schedule_remove in H. rewrite Hl in H. cbn [mbind option_bind] in H.
  change (shm_entries (set_state_lock s 1)) with (shm_entries s) in H.
  rewrite He in H. cbn [mbind option_bind] in H. rewrite Hids in H.
  unfold mehcached_shm_check_remove in H. cbn [shm_entries set_entries] in H.
  pose proof (at_range _ _ _ He). rewrite at_upd in H by (lia || by eexists).
  rewrite decide_True in H by done. cbn [mbind option_bind refcount set_to_remove] in H.
  rewrite (proj2 (Z.eqb_neq _ _) Hr) in H. cbn [andb mbind option_bind] in H. by injection H as <- <-.
Qed.

(** ** The two operations *)

(** The entry [e] has become a block of [len] bytes: mapped once, at [p], and scheduled for
    removal. *)
Record block (s s' : shm) (i p len : Z) (e : shm_entry) : Prop := {
  bl_mapping : exists k mp po, at_ (shm_mappings s) k = Some mp /\ map_addr mp = 0 /\
    shm_mappings s' = upd (shm_mappings s) k (ShmMapping i p len po (page_count s len));
  bl_page_size : shm_page_size s' = shm_page_size s;
  bl_pages : shm_pages s' = shm_pages s;
  bl_entries : shm_entries s' = upd (shm_entries s) i (set_to_remove (incr_refcount e));
  bl_files : forall a, ~ page_in (shm_page_size s) p (page_count s len) a ->
    address_space s' !! a = address_space s !! a;
  bl_zeros : forall x, zero_at (zero_space s') x <->
    zero_at (zero_space s) x /\ ~ (p <= x < p + page_count s len * shm_page_size s) }.

Lemma upd_upd {A} (l : list A) i (x y : A) : upd (upd l i x) i y = upd l i y.
Proof. apply list_insert_insert_eq. Qed.

Lemma upd_at {A} (l : list A) i x y : at_ l i = Some x -> at_ (upd l i y) i = Some y.
Proof.
  intros Hi. pose proof (at_range _ _ _ Hi). rewrite at_upd by (lia || by eexists).
  by rewrite decide_True.
Qed.

(** A mapping that is accepted, and the removal of its entry. *)
Lemma map_remove_block mmap_ok s i p len e s1 okr s2 :
  shm_ok s -> shm_ok s1 -> at_ (shm_entries s) i = Some e -> is_Some (pages e) -> refcount e = 0 ->
  0 <= p -> 0 <= page_count s len -> p + page_count s len * shm_page_size s <= 2 ^ 64 ->
  mehcached_shm_map mmap_ok s i p 0 len = Some (true, s1) ->
  mehcached_shm_schedule_remove s1 i = Some (okr, s2) -> block s s2 i p len e.
Proof.
  intros Hok Hok1 He Hids Hr Hp Hn Hend Hm Hrem.
  destruct (map_result _ _ _ _ _ _ _ _ Hok Hm) as (e0 & k & mp & po & He0 & Hk & Hmp & Hs1 & Hs2 & Hs3 & Hs4).
  rewrite He in He0. injection He0 as <-.
  destruct (map_space _ _ _ _ _ _ _ _ (proj2 Hok) Hp Hn Hend Hm) as (Hf & _ & n & _ & -> & Hz).
  destruct (schedule_remove_space _ _ _ _ Hrem) as [Hf2 Hz2].
  destruct (schedule_remove_mapped s1 i (incr_refcount e) okr s2 Hok1) as (_ & Ht1 & Ht2 & Ht3 & Ht4);
    [by rewrite Hs3; eapply upd_at|done|cbn; by rewrite Hr|done|].
  split; rewrite ?Hf2, ?Hz2; try done; try congruence.
  - exists k, mp, po. split; [done|]. split; [done|congruence].
  - by rewrite Ht3, Hs3, upd_upd.
Qed.

(** A mapping that is refused within the probe leaves what the probe left. *)
Lemma map_refused mmap_ok s s1 n q a i e s2 :
  shm_ok s -> refused s s1 n [q] -> finds_free s n [] q -> q <= a < q + shm_page_size s -> shm_inv s1 ->
  0 <= n -> page_count s1 n * shm_page_size s = n -> at_ (shm_entries s1) i = Some e -> same_tables s1 s2 ->
  mehcached_shm_map mmap_ok s1 i a 0 n = Some (false, s2) -> refused s s2 n [q].
Proof.
  intros Hok [(H1 & H2 & H3 & H4) Hf Hz] Hfree Ha Hinv Hn Hc He (T1 & T2 & T3 & T4) Hm.
  pose proof Hfree as [[Hq Hend] Hff]. pose proof (page_size_pos _ (proj2 Hok)) as Hps.
  assert (0 <= page_count s1 n) as Hc0 by (apply (Z.mul_nonneg_cancel_r _ (shm_page_size s)); lia).
  destruct (map_space mmap_ok s1 i a 0 n false s2) as (_ & Hback & k & Hk0 & Hk & Hzk);
    [done|lia|done|rewrite H1; lia|done|].
  rewrite H1 in *. split; [repeat split; congruence| |].
  - rewrite <- Hf. apply Hback; [done|]. intros b Hb%page_in_range; [|lia]. rewrite Hf.
    eapply finds_free_key; [lia|exact Hfree|]. lia.
  - intros x. rewrite Hzk, Hz, leaked_one. split; [tauto|]. intros Hx. split; [done|]. intros Hin.
    assert (a + k * shm_page_size s <= q + n \/ k = 0) as [|Hk']; [destruct Hk; [by right|left; nia]| |lia].
    destruct Hx as [Hx|Hx]; [|lia]. by destruct (Hff x ltac:(lia)) as (_ & ? & _).
Qed.

Section Contiguous.
Context (n : Z) (Hn : 0 <= n < 2 ^ 63) (Hn4 : (4096 | n)).

Lemma contiguous_loop_block i e (os : list os_round) : forall s p s',
  shm_ok s -> 4096 <= shm_page_size s -> (shm_page_size s | n) -> honest s n (omap fst os) ->
  at_ (shm_entries s) i = Some e -> is_Some (pages e) -> refcount e = 0 ->
  contiguous_loop os s i n = Some (p, s') -> p <> 0 ->
  exists used q rest s1, omap fst os = used ++ q :: rest /\ refused s s1 n (used ++ [q]) /\
    q <= p < q + shm_page_size s /\ shm_ok s1 /\ shm_ok s' /\ block s1 s' i p n e.
Proof.
  induction os as [|[[q|] mmap_ok] os IH]; intros s p s' Hok Hps Hdiv Hh He Hids Hr H Hp;
    cbn [contiguous_loop] in H; [done| |].
  2:{ exfalso. destruct (mehcached_shm_find_free_address s None n) as [[a s1]|] eqn:Ha; [|done].
      assert (a = 0) as ->.
      { unfold mehcached_shm_find_free_address in Ha. apply bind_Some in Ha as (? & _ & Ha).
        destruct (negb _); by injection Ha as <- _. }
      cbn [mbind option_bind Z.eqb] in H. apply bind_Some in H as ([? ?] & _ & H). by injection H as <- _. }
  pose proof (honest_head _ _ _ _ Hh) as Hfree. pose proof Hfree as [[Hq Hend] Hff].
  destruct (find_free_spec s n [] q (proj2 Hok) Hps (proj1 Hn) Hn4 Hfree) as (a & s1 & Ha & Hs1 & Har & Hal & Href).
  rewrite Ha in H. cbn [mbind option_bind] in H. rewrite (proj2 (Z.eqb_neq _ _)) in H by lia.
  pose proof Href as [(R1 & R2 & R3 & R4) _ _].
  assert (shm_ok s1) as Hok1.
  { split; [rewrite Hs1; apply Hok|]. eapply shm_inv_ext; [| | | |apply Hok]; by rewrite Hs1. }
  rewrite <- R3 in He. pose proof (at_range _ _ _ He) as Hi. rewrite (so_entries _ (proj2 Hok1)) in Hi.
  pose proof (page_size_pos _ (proj2 Hok)) as Hpos.
  assert (page_count s1 n * shm_page_size s = n) as Hc.
  { rewrite <- R1 in *. apply page_count_exact; (done || lia). }
  destruct (map_ok mmap_ok s1 i a 0 n Hok1 Hi) as (ok & s2 & Hm & Hok2 & _); [lia|lia|lia|lia|].
  rewrite Hm in H. cbn [mbind option_bind] in H. pose proof (map_result _ _ _ _ _ _ _ _ Hok1 Hm) as Hres.
  destruct ok.
  - apply bind_Some in H as ([okr s3] & Hrem & [= <- <-]).
    destruct (schedule_remove_ok s2 i Hok2 Hi) as (? & ? & Hrem' & Hok3 & _).
    rewrite Hrem in Hrem'. injection Hrem' as <- <-.
    exists [], q, (omap fst os), s1. split; [done|]. split; [done|]. split; [lia|]. split; [done|]. split; [done|].
    apply (map_remove_block mmap_ok s1 i a n e s2 okr); rewrite ?R1; try done; nia.
  - pose proof (map_refused mmap_ok s s1 n q a i e s2 Hok Href Hfree Har (proj2 Hok1) (proj1 Hn) Hc He Hres Hm) as Href2.
    pose proof Href2 as [(T1 & T2 & T3 & T4) _ _].
    destruct (IH s2 p s' Hok2) as (used & q' & rest & s3 & Hos & Href3 & Hrest); rewrite ?T1, ?T3; try done.
    { exact (honest_next s s2 n q _ Hh Href2). }
    { by rewrite <- R3. }
    exists (q :: used), q', rest, s3. split; [cbn; by rewrite Hos|]. rewrite T1 in Hrest.
    split; [exact (refused_app _ _ _ _ [q] _ Href2 Href3)|done].
Qed.

End Contiguous.

(** The only element that a search can find. *)
Lemma index_of_le {A} (f : A -> bool) (l : list A) : forall n i x,
  l !! n = Some x -> f x = true -> index_of f l i <= i + Z.of_nat n.
Proof.
  induction l as [|y l IH]; intros n i x Hn Hx; [done|]. cbn [index_of].
  destruct (f y) eqn:Hy; [lia|]. destruct n as [|n]; [by injection Hn as ->; congruence|].
  pose proof (IH n (i + 1) x Hn Hx). lia.
Qed.

Lemma index_of_unique {A} (f : A -> bool) (l : list A) k x :
  at_ l k = Some x -> f x = true -> (forall j y, at_ l j = Some y -> f y = true -> j = k) ->
  index_of f l 0 = k.
Proof.
  intros Hk Hx Hu. pose proof (at_range _ _ _ Hk) as Hr. unfold at_ in Hk.
  rewrite (proj2 (Z.leb_le _ _)) in Hk by lia. pose proof (index_of_le f l _ 0 x Hk Hx) as Hle.
  destruct (index_of_spec f l 0) as [_ Hs]. destruct Hs as (y & Hy & Hfy); [lia|].
  rewrite Z.sub_0_r in Hy. by eapply Hu.
Qed.

(** The mapping in slot [k] is the only one at its address. *)
Definition sole_mapping (s : shm) (k : Z) (m : shm_mapping) : Prop :=
  at_ (shm_mappings s) k = Some m /\ map_addr m <> 0 /\
  forall j m', at_ (shm_mappings s) j = Some m' -> map_addr m' = map_addr m -> j = k.

(** What unmapping leaves: one reference less, or, after the last reference of an entry that
    is to be removed, free pages. *)
Definition dereferenced (s s' : shm) (k i : Z) (e : shm_entry) (ids : list Z) : Prop :=
  shm_page_size s' = shm_page_size s /\ shm_mappings s' = upd (shm_mappings s) k zero_mapping /\
  if (refcount e =? 1) && negb (to_remove e =? 0)
  then mark (shm_pages s) ids 0 = Some (shm_pages s') /\ shm_entries s' = upd (shm_entries s) i zero_entry
  else shm_pages s' = shm_pages s /\ shm_entries s' = upd (shm_entries s) i (decr_refcount e).

Lemma unmap_result s k m e ids :
  shm_ok s -> sole_mapping s k m -> at_ (shm_entries s) (entry_id m) = Some e -> pages e = Some ids ->
  exists s', mehcached_shm_unmap s (map_addr m) = Some (true, s') /\ shm_ok s' /\
    dereferenced s s' k (entry_id m) e ids /\ space_unmapped s s' (map_addr m) (map_num_pages m).
Proof.
  intros Hok (Hk & Hm & Hu) He Hids. destruct (unmap_ok s (map_addr m) Hok Hm) as (ok & s' & H & Hok').
  assert (ok = true /\ dereferenced s s' k (entry_id m) e ids /\
    space_unmapped s s' (map_addr m) (map_num_pages m)) as [-> Hd]; [|by exists s'].
  destruct (so_pages _ (proj2 Hok) _ e ids He Hids) as (_ & Hn & _).
  pose proof (at_range _ _ _ Hk) as Hkr. rewrite (so_mappings _ (proj2 Hok)) in Hkr.
  unfold mehcached_shm_unmap in H. rewrite (proj1 (locked s Hok)) in H. cbn [mbind option_bind] in H.
  cbn [shm_mappings shm_entries set_state_lock set_entries set_space] in H.
  rewrite (index_of_unique _ _ k m Hk) in H; [|by apply Z.eqb_refl|].
  2:{ intros j m' Hj Hj'%Z.eqb_eq. by eapply Hu. }
  rewrite (proj2 (Z.eqb_neq _ _)), Hk in H by lia. cbn [mbind option_bind] in H.
  rewrite He in H. cbn [mbind option_bind] in H. unfold mehcached_shm_check_remove in H.
  cbn [shm_entries set_entries] in H. rewrite (upd_at _ _ _ _ He) in H.
  cbn [mbind option_bind refcount to_remove pages num_pages decr_refcount] in H.
  assert (1 <= refcount e < 2 ^ 64) as Hr.
  { rewrite (so_refs _ (proj2 Hok) _ e He). pose proof (refs_live _ (entry_id m) m k Hk ltac:(by split)).
    pose proof (refs_bound (shm_mappings s) (entry_id m)) as Hb. rewrite (so_mappings _ (proj2 Hok)) in Hb.
    unfold MEHCACHED_SHM_MAX_MAPPINGS in Hb. lia. }
  rewrite (wrap_small 64 (refcount e - 1)) in H by lia.
  replace (refcount e - 1 =? 0) with (refcount e =? 1) in H by (apply Bool.eq_iff_eq_true; rewrite !Z.eqb_eq; lia).
  unfold dereferenced. destruct (_ && _).
  - rewrite Hids in H. cbn [mbind option_bind] in H. rewrite Hn, Nat2Z.id, take_ge in H by lia.
    apply bind_Some in H as (s2 & H & Hfin). apply bind_Some in H as (ps & Hmark & H).
    apply bind_Some in H as (e' & _ & H). injection H as <-. injection Hfin as <- <-.
    split; [done|]. split; [|done]. split; [done|]. split; [done|]. split; [done|].
    apply list_insert_insert_eq.
  - cbn [mbind option_bind] in H. injection H as <- <-. by repeat split.
Qed.

(** Writing a slot whose mapping had address 0 back to empty. *)
Lemma clear_mapping ms k mp mp' :
  at_ ms k = Some mp -> map_addr mp = 0 -> map_addr <$> upd (upd ms k mp') k zero_mapping = map_addr <$> ms.
Proof.
  intros Hk Hmp. rewrite upd_upd. unfold upd. rewrite list_fmap_insert. apply list_insert_id.
  pose proof (at_range _ _ _ Hk). unfold at_ in Hk. rewrite (proj2 (Z.leb_le _ _)) in Hk by lia.
  rewrite list_lookup_fmap, Hk. simpl. by rewrite Hmp.
Qed.

(** A mapping at an address that no other one has. *)
Lemma sole_upd ms k mp i p len po n s :
  at_ ms k = Some mp -> p <> 0 -> (forall m, m ∈ ms -> map_addr m <> p) ->
  shm_mappings s = upd ms k (ShmMapping i p len po n) -> sole_mapping s k (ShmMapping i p len po n).
Proof.
  intros Hk Hp Hf Hms. pose proof (at_range _ _ _ Hk). unfold sole_mapping. rewrite Hms.
  split; [by eapply upd_at|]. split; [done|]. intros j m'. rewrite at_upd by (lia || by eexists).
  case_decide; [done|]. intros Hj%at_elem Hp'. by destruct (Hf m' Hj).
Qed.

(** Unmapping a block releases its pages, and its addresses. *)
Lemma unmap_block s s1 i p len e ids :
  shm_ok s -> shm_ok s1 -> block s s1 i p len e -> 0 < p -> 0 <= page_count s len ->
  p + page_count s len * shm_page_size s <= 2 ^ 64 ->
  at_ (shm_entries s) i = Some e -> pages e = Some ids -> refcount e = 0 ->
  (forall m, m ∈ shm_mappings s -> map_addr m <> p) ->
  (forall a, page_in (shm_page_size s) p (page_count s len) a -> address_space s !! a = None) ->
  exists s2, mehcached_shm_free_contiguous s1 p = Some s2 /\ shm_ok s2 /\
    mark (shm_pages s) ids 0 = Some (shm_pages s2) /\
    shm_entries s2 = upd (shm_entries s) i zero_entry /\
    map_addr <$> shm_mappings s2 = map_addr <$> shm_mappings s /\
    address_space s2 = address_space s /\
    forall x, zero_at (zero_space s2) x <->
      zero_at (zero_space s) x /\ ~ (p <= x < p + page_count s len * shm_page_size s).
Proof.
  intros Hok Hok1 [(k & mp & po & Hk & Hmp & Hs4) Hs1 Hs2 Hs3 Hfiles Hzeros] Hp Hn Hend He Hids Hr Hfresh Hkeys.
  pose proof (page_size_pos _ (proj2 Hok)) as Hps.
  pose proof (sole_upd _ k mp i p len po _ s1 Hk ltac:(lia) Hfresh Hs4) as Hsole.
  destruct (unmap_result s1 k _ (set_to_remove (incr_refcount e)) ids Hok1 Hsole)
    as (s2 & Hu & Hok2 & (Hd1 & Hd2 & Hd3) & Hd4 & Hd5); [|done|].
  { rewrite Hs3. by eapply upd_at. }
  cbn [map_addr entry_id refcount to_remove set_to_remove incr_refcount map_num_pages] in *. rewrite Hr in Hd3.
  destruct Hd3 as [Hm Hes]. unfold mehcached_shm_free_contiguous. rewrite Hu. cbn [mbind option_bind].
  exists s2. split; [done|]. split; [done|]. rewrite Hs2 in Hm. split; [done|].
  rewrite Hes, Hs3, upd_upd. split; [done|]. rewrite Hd2, Hs4. split; [by eapply clear_mapping|].
  rewrite Hd4, Hd5, Hs1. split.
  - apply unmap_pages_restores; rewrite ?Z2Nat.id by lia; try done; lia.
  - intros x. rewrite zero_at_cut_pages by (rewrite ?Z2Nat.id; lia). rewrite Hzeros, Z2Nat.id by lia. tauto.
Qed.

Lemma adjust_size_range size :
  0 <= size <= 2 ^ 62 -> 0 <= mehcached_shm_adjust_size size < 2 ^ 63.
Proof.
  intros Hs. unfold mehcached_shm_adjust_size. rewrite roundup2m by lia.
  Z.to_euclidean_division_equations. lia.
Qed.

Lemma mark_roundtrip ps ids ps1 ps2 :
  (forall x, x ∈ ids -> exists p, at_ ps x = Some p /\ in_use p = 0) ->
  mark ps ids 1 = Some ps1 -> mark ps1 ids 0 = Some ps2 -> ps2 = ps.
Proof.
  intros Hids H1 H2. destruct (mark_spec 1 ids ps) as (? & Hm1 & Hl1 & Hat1).
  { intros x (p & Hp & _)%Hids. by exists p. }
  rewrite H1 in Hm1. injection Hm1 as <-.
  destruct (mark_spec 0 ids ps1) as (? & Hm2 & Hl2 & Hat2).
  { intros x Hx. rewrite Hat1, decide_True by done. destruct (Hids x Hx) as (p & -> & _). by eexists. }
  rewrite H2 in Hm2. injection Hm2 as <-. apply list_eq. intros j.
  specialize (Hat1 (Z.of_nat j)). specialize (Hat2 (Z.of_nat j)). revert Hat2. rewrite Hat1.
  unfold at_ in *. rewrite (proj2 (Z.leb_le _ _)), !Nat2Z.id in * by lia. intros ->.
  case_decide as Hx; [|done]. destruct (Hids _ Hx) as (p & Hp & Hu). unfold at_ in Hp.
  rewrite (proj2 (Z.leb_le _ _)), Nat2Z.id in Hp by lia. rewrite Hp. simpl. by destruct p; simpl in *; subst.
Qed.

(** Sizes are multiples of 2 MB, so pages of 4 KB to 2 MB divide them. *)
Lemma adjust_size_divides s size :
  shm_inv s -> 4096 <= shm_page_size s <= 2097152 -> 0 <= size <= 2 ^ 62 ->
  (4096 | mehcached_shm_adjust_size size) /\ (shm_page_size s | mehcached_shm_adjust_size size).
Proof.
  intros [(k & Hk & ->) _ _ _ _ _ _ _ _ _] Hps Hs. unfold mehcached_shm_adjust_size. rewrite roundup2m by lia.
  split; apply Z.divide_mul_r.
  - by exists 512.
  - change 2097152 with (2 ^ 21) in *. apply pow2_divides. split; [lia|]. apply (Z.pow_le_mono_r_iff 2); lia.
Qed.

Lemma honest_ext s s' n probes :
  shm_page_size s' = shm_page_size s -> address_space s' = address_space s ->
  zero_space s' = zero_space s -> shm_mappings s' = shm_mappings s -> honest s n probes -> honest s' n probes.
Proof.
  intros H1 H2 H3 H4 Hh used q rest Heq. destruct (Hh used q rest Heq) as [Hr Hf].
  split; unfold file_at, leaked in *; by rewrite ?H1, ?H2, ?H3, ?H4.
Qed.

(** C18: Blocks of 1 to 2^62 bytes on a machine whose shared pages have 4 KB to 2 MB, while
    [malloc] has memory and each probe of [mehcached_shm_find_free_address] finds addresses
    where nothing is mapped, neither a page of a file nor what earlier probes left.  A block
    that [mehcached_shm_malloc_contiguous] returns, after any number of refused attempts, is
    given back by [mehcached_shm_free_contiguous] up to these leftovers: the table of pages,
    the table of entries, the addresses of the table of mappings and the files of the address
    space are what they were before the allocation.  But the address space keeps one page size
    of zeros for each refused attempt, and behind the place of the block the rest of the last
    probe, at least one byte of it: [mehcached_shm_find_free_address] unmaps its probe short. *)
Theorem malloc_free_roundtrip os s size lcore p s1 :
  let n := mehcached_shm_adjust_size size in
  shm_ok s -> 4096 <= shm_page_size s <= 2097152 -> 0 < size <= 2 ^ 62 ->
  honest s n (omap fst os) ->
  mehcached_shm_malloc_contiguous true os s size lcore = Some (p, s1) -> p <> 0 ->
  exists s2 used q rest, mehcached_shm_free_contiguous s1 p = Some s2 /\ shm_ok s2 /\
    shm_pages s2 = shm_pages s /\ shm_entries s2 = shm_entries s /\
    map_addr <$> shm_mappings s2 = map_addr <$> shm_mappings s /\
    address_space s2 = address_space s /\
    omap fst os = used ++ q :: rest /\ q <= p < q + shm_page_size s /\
    forall x, zero_at (zero_space s2) x <->
      zero_at (zero_space s) x \/ leaked s n used x \/ p + n <= x < q + n + shm_page_size s.
Proof.
  intros n Hok Hps Hsz Hh H Hp. unfold mehcached_shm_malloc_contiguous in H.
  pose proof (adjust_size_range size ltac:(lia)) as Hadj.
  destruct (adjust_size_divides s size (proj2 Hok) Hps ltac:(lia)) as [Hd4 Hd]. fold n in Hadj, Hd4, Hd, H.
  assert (shm_page_size s <= n) as Hpn.
  { apply Z.divide_pos_le; [|done]. unfold n, mehcached_shm_adjust_size. rewrite roundup2m by lia.
    Z.to_euclidean_division_equations. lia. } apply bind_Some in H as ([i s0] & Ha & H).
  destruct (Z.eqb_spec i SIZE_MAX) as [|Hi]; [by injection H as <- _|].
  destruct (alloc_ok s n 0 Hok Hadj) as (? & ? & Ha' & Hok0 & _). rewrite Ha in Ha'. injection Ha' as <- <-.
  destruct (alloc_result s n 0 i s0 Hok Hadj Ha Hi) as (ids & He & Hids & Hm & Hes & Hms).
  destruct (alloc_space _ _ _ _ _ _ Ha) as (Hs0 & Hf0 & Hz0).
  set (e := ShmEntry 0 0 n _ (Some ids)) in *.
  assert (at_ (shm_entries s0) i = Some e) as He0 by (rewrite Hes; by eapply upd_at).
  destruct (contiguous_loop_block n Hadj Hd4 i e os s0 p s1 Hok0)
    as (used & q & rest & s0' & Hos & [(R1 & R2 & R3 & R4) Rf Rz] & Hpq & Hok0' & Hok1 & Hb); rewrite ?Hs0; try done; [lia| |].
  { by apply (honest_ext s). }
  destruct (Hh used q rest Hos) as [[Hq Hend] Hff]. pose proof (Hh used q rest Hos) as Hfree.
  rewrite Hs0 in R1, Hpq. pose proof (page_size_pos _ (proj2 Hok)) as Hpos.
  assert (page_count s0' n * shm_page_size s = n) as Hc.
  { rewrite <- R1 in *. apply page_count_exact; (done || lia). }
  destruct (unmap_block s0' s1 i p n e ids Hok0' Hok1 Hb) as (s2 & Hfr & Hok2 & Hm2 & Hes2 & Hms2 & Hf2 & Hz2);
    rewrite ?R1, ?R3, ?Hc; try done; [lia| |lia| | |].
  { apply (Z.mul_nonneg_cancel_r _ (shm_page_size s)); lia. }
  { intros m Hin Hmp. destruct (Hff p ltac:(lia)) as (_ & _ & _ & Hnin). apply Hnin.
    rewrite <- Hms, <- R4. apply list_elem_of_fmap. by exists m. }
  { intros a Ha'%page_in_range; [|lia]. rewrite Rf, Hf0. eapply finds_free_key; [lia|exact Hfree|lia]. }
  exists s2, used, q, rest. split; [done|]. split; [done|].
  split; [rewrite R2 in Hm2; by eapply mark_roundtrip|].
  rewrite Hes2, R3, Hes, upd_upd, Hms2, R4, Hms, Hf2, Rf, Hf0. split.
  { apply list_insert_id. pose proof (at_range _ _ _ He). unfold at_ in He.
    by rewrite (proj2 (Z.leb_le _ _)) in He by lia. }
  split; [done|]. split; [done|]. split; [done|]. split; [done|].
  intros x. rewrite Hz2, Rz, Hz0, leaked_app, leaked_one, R1, Hc. unfold leaked. rewrite Hs0. fold (leaked s n used x).
  split; [intros [[?|[?|?]] ?]; [by left|by right; left|right; right; lia]|].
  intros [Hx|[Hx|Hx]].
  - split; [by left|]. intros Hin. by destruct (Hff x ltac:(lia)) as (_ & ? & _).
  - split; [by right; left|]. intros Hin. by destruct (Hff x ltac:(lia)) as (_ & _ & ? & _).
  - split; [right; right; lia|lia].
Qed.

(** 3 MB: the first attempt is refused, the second succeeds. *)
Definition two_attempts : list os_round :=
  [(Some 0x600000001000, fun p => p =? 0x600000200000); (Some 0x610000000000, fun _ => true)].

Lemma two_attempts_honest : honest (four_run []) 4194304 (omap fst two_attempts).
Proof.
  assert (shm_page_size (four_run []) = 2097152) as Hps by (vm_compute; reflexivity).
  assert (forall lo hi x, forallb (fun '(a, _) => (a + 2097152 <=? lo) || (hi <=? a)) (map_to_list (address_space (four_run []))) = true ->
    lo <= x < hi -> ~ file_at (four_run []) x) as Hfile.
  { intros lo hi x Hall Hx (a & Ha & file & Hf). rewrite Hps in Ha. rewrite forallb_forall in Hall.
    specialize (Hall (a, file) (proj1 (list_elem_of_In _ _) (proj2 (elem_of_map_to_list _ _ _) Hf))).
    apply orb_prop in Hall as [?%Z.leb_le|?%Z.leb_le]; lia. }
  assert (forall x, ~ zero_at (zero_space (four_run [])) x) as Hzero by (intros x Hx; exact (zero_at_nil x Hx)).
  assert (forall x, 0 < x -> x ∉ map_addr <$> shm_mappings (four_run [])) as Htable.
  { intros x Hx Hin.
    assert (Forall (fun y => y = 0) (map_addr <$> shm_mappings (four_run []))) as Hz.
    { apply (bool_decide_unpack (Forall (fun y => y = 0) _)). vm_compute. exact I. }
    rewrite Forall_forall in Hz. specialize (Hz x Hin). lia. }
  intros used q rest Hos. unfold two_attempts in Hos. cbn [omap list_omap fst] in Hos.
  destruct used as [|q1 [|q2 used]]; cbn [app] in Hos.
  - injection Hos as <- _. split; [rewrite Hps; lia|]. rewrite Hps. intros x Hx.
    split; [by apply (Hfile 0x600000001000 (0x600000001000 + 4194304 + 2097152))|].
    split; [apply Hzero|]. split; [apply leaked_nil|apply Htable; lia].
  - injection Hos as <- <- _. split; [rewrite Hps; lia|]. rewrite Hps. intros x Hx.
    split; [by apply (Hfile 0x610000000000 (0x610000000000 + 4194304 + 2097152))|].
    split; [apply Hzero|]. split; [rewrite leaked_one, Hps; lia|apply Htable; lia].
  - injection Hos as _ _ Hos. by destruct used.
Qed.

Theorem malloc_free_roundtrip_witness :
  exists s s1 s2, mehcached_shm_malloc_contiguous true two_attempts s 3000000 0 = Some (0x610000000000, s1) /\
    mehcached_shm_free_contiguous s1 0x610000000000 = Some s2 /\
    address_space s2 = address_space s /\ size (address_space s) = 4%nat /\
    ~ zero_at (zero_space s) 0x610000400000 /\ zero_at (zero_space s2) 0x610000400000.
Proof.
  destruct (init_ok 2097152 1 4 4 four_pages (fun _ => 0) (fun a => a) four_pages_config)
    as (s & Hs & Hok & _).
  assert (four_run [] = s) as Hrun by (unfold four_run, four_init; rewrite Hs; reflexivity).
  rewrite <- Hrun in Hok. exists (four_run []).
  set (o := mehcached_shm_malloc_contiguous true two_attempts (four_run []) 3000000 0).
  assert (o = Some (0x610000000000, snd (default (0, no_shm) o))) as Ho
    by (apply default_pair; vm_compute; reflexivity).
  exists (snd (default (0, no_shm) o)).
  destruct (malloc_free_roundtrip two_attempts (four_run []) 3000000 0 0x610000000000
    (snd (default (0, no_shm) o))) as (s2 & used & q & rest & Hfree & _ & _ & _ & _ & Hfiles & Hos & Hq & Hz).
  - exact Hok.
  - vm_compute. split; discriminate.
  - lia.
  - exact two_attempts_honest.
  - exact Ho.
  - discriminate.
  - exists s2. split; [exact Ho|]. split; [exact Hfree|]. split; [exact Hfiles|].
    split; [vm_compute; reflexivity|]. split; [apply zero_at_nil|]. apply Hz. right. right.
    assert (q = 0x610000000000) as ->.
    { assert (shm_page_size (four_run []) = 2097152) as Hps by (vm_compute; reflexivity).
      rewrite Hps in Hq. assert (q ∈ omap fst two_attempts) as Hin by (rewrite Hos; apply elem_of_app; right; left).
      unfold two_attempts in Hin. cbn [omap list_omap fst] in Hin.
      apply elem_of_cons in Hin as [->|Hin]; [lia|]. by apply list_elem_of_singleton in Hin. }
    vm_compute. split; [discriminate|reflexivity].
Defined.
