(* ===== verification/PoolShm.v ===== *)
(** * The memory of the log

    [mehcached_pool_init] of [alloc_pool.c] maps the pages of its log and, behind them, the
    first 2 MB once more; [mehcached_pool_free] gives them back.  [PoolAlloc] counts the
    addresses of the log modulo its size; here this is a theorem on the address space. *)
From S2P Require Import Prelude PoolAlloc Shm ShmSpec ShmSpace ShmAlloc.

(** ** Set-up and release *)

(** What the system answers in one round: the probe, and both mappings. *)
Definition pool_round : Type := option Z * (Z -> bool) * (Z -> bool).

(** [while (true)], with one round of answers for each iteration. *)
Fixpoint pool_map_loop (os : list pool_round) (s : shm) (shm_id size : Z) : option (Z * shm) :=
  match os with
  | [] => None
  | (probe, mmap_ok, mmap_ok2) :: os' =>
      '(data, s) ← mehcached_shm_find_free_address s probe (size + MEHCACHED_MINIMUM_POOL_SIZE);
      if data =? 0 then None else
      '(ok, s) ← mehcached_shm_map mmap_ok s shm_id data 0 size;
      if negb ok then pool_map_loop os' s shm_id size else
      '(ok, s) ← mehcached_shm_map mmap_ok2 s shm_id (u64 (data + size)) 0 MEHCACHED_MINIMUM_POOL_SIZE;
      if negb ok then
        '(_, s) ← mehcached_shm_unmap s data;
        pool_map_loop os' s shm_id size
      else Some (data, s)
  end.

(** The whole of [mehcached_pool_init]: the pool, [alloc->data], and the tables of [shm.c]. *)
Definition pool_init_shm (malloc_ok : bool) (os : list pool_round) (contents : gmap Z Z) (s : shm) (size : Z)
    (concurrent_alloc_read concurrent_alloc_write : bool) (numa_node : Z)
    : option (mehcached_pool * Z * shm) :=
  pool ← mehcached_pool_init contents size concurrent_alloc_read concurrent_alloc_write;
  '(shm_id, s) ← mehcached_shm_alloc malloc_ok s (pool_size pool) numa_node;
  if shm_id =? SIZE_MAX then None else
  '(data, s) ← pool_map_loop os s shm_id (pool_size pool);
  '(ok, s) ← mehcached_shm_schedule_remove s shm_id;
  if negb ok then None else Some (pool, data, s).

Definition mehcached_pool_free (pool : mehcached_pool) (data : Z) (s : shm) : option shm :=
  '(ok, s) ← mehcached_shm_unmap s data;
  if negb ok then None else
  '(ok, s) ← mehcached_shm_unmap s (u64 (data + pool_size pool));
  if negb ok then None else Some s.

(** ** The files behind the pages *)

(** Different pages are different files. *)
Definition files_distinct (s : shm) : Prop :=
  forall x y p q, at_ (shm_pages s) x = Some p -> at_ (shm_pages s) y = Some q ->
    addr p <> 0 -> addr q <> 0 -> path p = path q -> x = y.

(** The byte of memory that a program sees at address [a]: its file, and its place there. *)
Definition shown (s : shm) (a : Z) : option (Z * Z) :=
  let at_page := a mod shm_page_size s in
  (fun file => (file, at_page)) <$> address_space s !! (a - at_page).

Definition live_page (p : shm_page) : Prop := addr p <> 0.

#[global] Instance live_page_dec p : Decision (live_page p).
Proof. unfold live_page. apply _. Defined.

Lemma nodup_files (s : shm) : NoDup (path <$> filter live_page (shm_pages s)) -> files_distinct s.
Proof.
  unfold files_distinct, at_. intros Hnd x y p q Hx Hy Hp Hq Hpq.
  destruct (Z.leb_spec 0 x); [|done]. destruct (Z.leb_spec 0 y); [|done].
  cut (Z.to_nat x = Z.to_nat y); [lia|]. revert Hnd Hx Hy.
  generalize (Z.to_nat x) (Z.to_nat y). induction (shm_pages s) as [|r ps IH]; intros m n Hnd Hm Hn; [done|].
  rewrite filter_cons in Hnd.
  assert (NoDup (path <$> filter live_page ps)) as Hnd'.
  { destruct (decide (live_page r)); [by apply NoDup_cons in Hnd as [_ Hnd]|done]. }
  assert (forall k p', ps !! k = Some p' -> live_page p' -> live_page r -> path r <> path p') as Hr.
  { intros k p' Hk Hp' Hl Heq. rewrite decide_True in Hnd by done. apply NoDup_cons in Hnd as [Hnd _].
    apply Hnd. rewrite Heq. apply list_elem_of_fmap. exists p'. split; [done|].
    apply list_elem_of_filter. split; [done|]. by eapply list_elem_of_lookup_2. }
  destruct m as [|m], n as [|n]; cbn [lookup list_lookup] in Hm, Hn.
  - done.
  - injection Hm as ->. by destruct (Hr n q Hn).
  - injection Hn as ->. by destruct (Hr m p Hm).
  - f_equal. by apply IH.
Qed.

(** [mark] does not touch the files. *)
Lemma mark_files u ids s ps :
  (forall x, x ∈ ids -> is_Some (at_ (shm_pages s) x)) ->
  mark (shm_pages s) ids u = Some ps ->
  forall x p, at_ ps x = Some p ->
    exists p0, at_ (shm_pages s) x = Some p0 /\ path p0 = path p /\ addr p0 = addr p.
Proof.
  intros Hids Hm x p Hp. destruct (mark_spec u ids (shm_pages s) Hids) as (ps' & Hm' & _ & Hat).
  rewrite Hm in Hm'. injection Hm' as <-. rewrite Hat in Hp. case_decide; [|by exists p].
  apply fmap_Some in Hp as (p0 & Hp0 & ->). by exists p0.
Qed.

Lemma files_distinct_pages s s' :
  files_distinct s ->
  (forall x p, at_ (shm_pages s') x = Some p ->
    exists p0, at_ (shm_pages s) x = Some p0 /\ path p0 = path p /\ addr p0 = addr p) ->
  files_distinct s'.
Proof.
  intros Hd Hs x y p q Hx Hy. destruct (Hs x p Hx) as (p0 & Hp0 & <- & <-).
  destruct (Hs y q Hy) as (q0 & Hq0 & <- & <-). by apply Hd.
Qed.

(** [mehcached_shm_init] opens one file for each page. *)
Lemma reserve_pages_files per_node ps : forall reserved ps' reserved',
  reserve_pages per_node reserved ps = Some (ps', reserved') ->
  path <$> filter live_page ps' `sublist_of` path <$> ps.
Proof.
  induction ps as [|p ps IH]; intros reserved ps' reserved'; cbn [reserve_pages]; [by intros [= <- _]|].
  destruct (at_ reserved (numa_node p)) as [r|]; [|done]. cbn [mbind option_bind].
  destruct (r <? per_node); intros H; apply bind_Some in H as ([ps1 r1] & H%IH & [= <- _]).
  - rewrite filter_cons. case_decide; [by apply sublist_skip|by apply sublist_cons].
  - rewrite filter_cons, decide_False by (intros Hl; by apply Hl). by apply sublist_cons.
Qed.

Lemma init_files page_size nodes try reserve mapped numa_of paddr_of s :
  mehcached_shm_init page_size nodes try reserve mapped numa_of paddr_of = Some s -> files_distinct s.
Proof.
  unfold mehcached_shm_init. intros H. apply bind_Some in H as (a & _ & H).
  repeat (match type of H with (if ?b then _ else _) = _ => destruct b; [done|] end).
  cbv zeta in H. apply bind_Some in H as ([ps rs] & H%reserve_pages_files & Hs).
  apply Some_inj in Hs. subst s.
  apply nodup_files. cbn [shm_pages]. rewrite filter_app, fmap_app.
  match goal with |- context [filter live_page (replicate ?n _)] =>
    assert (filter live_page (replicate n zero_page) = []) as -> end.
  { apply elem_of_nil_inv. intros p [Hl [-> _]%elem_of_replicate]%list_elem_of_filter. by apply Hl. }
  cbn [fmap list_fmap]. rewrite app_nil_r. eapply sublist_NoDup; [|exact H].
  rewrite sort_by_perm, <- list_fmap_compose.
  rewrite (list_fmap_ext _ path) by (by intros). rewrite sort_by_perm, fmap_imap.
  apply NoDup_alt. intros m n x. rewrite !list_lookup_imap.
  intros (? & _ & ->)%fmap_Some (? & _ & Hx)%fmap_Some. unfold compose in Hx. cbn [path] in Hx. lia.
Qed.

(** ** Mapping and unmapping *)

Lemma mapped_at_ext s s1 m i p off len e e' :
  mapped_at s1 m i p off len -> at_ (shm_entries s) i = Some e -> at_ (shm_entries s1) i = Some e' ->
  pages e' = pages e -> length_ e' = length_ e -> shm_pages s1 = shm_pages s ->
  shm_page_size s1 = shm_page_size s -> mapped_at s m i p off len.
Proof.
  intros (e0 & ids & He0 & Hids & Hl & H) He He' Hp Hle Hps Hsz. rewrite He' in He0. injection He0 as <-.
  exists e, ids. split; [done|]. split; [congruence|]. split; [congruence|].
  unfold page_count in *. by rewrite Hps, Hsz in H.
Qed.

(** ** The double mapping *)

(** [n] bytes at [a] are addresses where no file and no mapping of the table is. *)
Definition free_region (s : shm) (a n : Z) : Prop :=
  0 < a /\ a + n <= 2 ^ 63 /\ forall x, a <= x < a + n ->
    x ∉ map_addr <$> shm_mappings s /\ address_space s !! x = None.

Lemma free_region_fresh s a n x m :
  free_region s a n -> a <= x < a + n -> m ∈ shm_mappings s -> map_addr m <> x.
Proof.
  intros (_ & _ & Hf) Hx Hm <-. apply (Hf (map_addr m) Hx). apply list_elem_of_fmap. by exists m.
Qed.

(** The block behind a probe. *)
Lemma probe_region s s1 n q a :
  0 < shm_page_size s -> finds_free s n [] q -> refused s s1 n [q] -> q <= a < q + shm_page_size s ->
  free_region s1 a n.
Proof.
  intros Hps Hf [(_ & _ & _ & R4) Rf _] Ha. pose proof Hf as [[Hq Hend] Hff].
  split; [lia|]. split; [lia|]. intros x Hx. rewrite R4, Rf. split.
  - by destruct (Hff x ltac:(lia)) as (_ & _ & _ & ?).
  - eapply finds_free_key; [done|exact Hf|lia].
Qed.

(** Entry [i], which was not mapped, is mapped at [data] and again behind its end. *)
Record doubled (s s' : shm) (i data size : Z) (e : shm_entry) : Prop := {
  db_divides : (shm_page_size s | data);
  db_region : free_region s data (size + MEHCACHED_MINIMUM_POOL_SIZE);
  db_page_size : shm_page_size s' = shm_page_size s;
  db_pages : shm_pages s' = shm_pages s;
  db_entries : shm_entries s' = upd (shm_entries s) i (incr_refcount (incr_refcount e));
  db_mappings : exists k1 k2 m1 m2 po1 po2, k1 <> k2 /\
    at_ (shm_mappings s) k1 = Some m1 /\ map_addr m1 = 0 /\
    at_ (shm_mappings s) k2 = Some m2 /\ map_addr m2 = 0 /\
    shm_mappings s' = upd (upd (shm_mappings s) k1 (ShmMapping i data size po1 (page_count s size))) k2
      (ShmMapping i (data + size) MEHCACHED_MINIMUM_POOL_SIZE po2 (page_count s MEHCACHED_MINIMUM_POOL_SIZE));
  db_front : mapped_at s (address_space s') i data 0 size;
  db_back : mapped_at s (address_space s') i (data + size) 0 MEHCACHED_MINIMUM_POOL_SIZE;
  db_files : forall a, ~ page_in (shm_page_size s) data (page_count s size) a ->
    ~ page_in (shm_page_size s) (data + size) (page_count s MEHCACHED_MINIMUM_POOL_SIZE) a ->
    address_space s' !! a = address_space s !! a;
  db_zeros : forall x, zero_at (zero_space s') x <->
    zero_at (zero_space s) x /\ ~ (data <= x < data + size + MEHCACHED_MINIMUM_POOL_SIZE) }.

(** A mapping that is taken back leaves the tables as they were. *)
Lemma map_unmap s s1 k mp i e ids p len po n :
  shm_ok s -> shm_ok s1 -> at_ (shm_entries s) i = Some e -> pages e = Some ids -> refcount e = 0 ->
  to_remove e = 0 -> at_ (shm_mappings s) k = Some mp -> map_addr mp = 0 -> p <> 0 ->
  (forall m, m ∈ shm_mappings s -> map_addr m <> p) ->
  shm_page_size s1 = shm_page_size s -> shm_pages s1 = shm_pages s ->
  shm_entries s1 = upd (shm_entries s) i (incr_refcount e) ->
  shm_mappings s1 = upd (shm_mappings s) k (ShmMapping i p len po n) ->
  exists s2, mehcached_shm_unmap s1 p = Some (true, s2) /\ shm_ok s2 /\ same_addrs s s2 /\
    space_unmapped s1 s2 p n.
Proof.
  intros Hok Hok1 He Hids Hr Ht Hk Hmp Hp Hf H1 H2 H3 H4.
  pose proof (sole_upd _ k mp i p len po n s1 Hk Hp Hf H4) as Hsole.
  destruct (unmap_result s1 k _ (incr_refcount e) ids Hok1 Hsole) as (s2 & Hu & Hok2 & (Hd1 & Hd2 & Hd3) & Hsp); [|done|].
  { rewrite H3. by eapply upd_at. }
  exists s2. split; [done|]. split; [done|]. cbn [entry_id refcount to_remove incr_refcount] in Hd3.
  rewrite Hr, Ht, andb_false_r in Hd3. destruct Hd3 as [Hd3 Hd4].
  split; [|exact Hsp]. split; [congruence|]. split; [congruence|].
  split; [|rewrite Hd2, H4; by eapply clear_mapping].
  rewrite Hd4, H3, upd_upd. pose proof (at_range _ _ _ He). apply list_insert_id. unfold at_ in He.
  rewrite (proj2 (Z.leb_le _ _)) in He by lia. rewrite He. destruct e. cbn in *. by subst.
Qed.

(** *** When a mapping is accepted *)

Lemma map_pages_all mmap_ok s ids n : forall idx p m m' rest,
  (forall q, mmap_ok q = true) -> map_pages mmap_ok s ids n idx p m = Some (m', rest) -> rest = 0%nat.
Proof.
  induction n as [|n IH]; intros idx p m m' rest Hall; cbn [map_pages]; [by intros [= _ <-]|].
  destruct (at_ ids idx) as [x|]; [|done]. cbn [mbind option_bind].
  destruct (at_ (shm_pages s) x) as [pg|]; [|done]. cbn [mbind option_bind]. rewrite Hall. by apply IH.
Qed.

Lemma aligned_true s x : shm_inv s -> (shm_page_size s | x) -> aligned s x = true.
Proof.
  intros [(k & Hk & Hps) _ _ _ _ _ _ _ _ _] [q ->]. unfold aligned. rewrite Hps, round_down by lia.
  rewrite Z.div_mul by lia. by apply Z.eqb_eq.
Qed.

Definition free_slot (s : shm) (k : Z) : Prop :=
  exists m, at_ (shm_mappings s) k = Some m /\ map_addr m = 0.

(** A mapping within an entry is refused only by the system or for want of a slot. *)
Lemma map_accepts mmap_ok s i ptr len e ids k :
  shm_ok s -> at_ (shm_entries s) i = Some e -> pages e = Some ids -> 0 <= len <= length_ e ->
  (shm_page_size s | ptr) -> free_slot s k -> (forall q, mmap_ok q = true) ->
  exists s', mehcached_shm_map mmap_ok s i ptr 0 len = Some (true, s').
Proof.
  intros Hok He Hids Hlen Hal (m & Hk & Hm) Hall. destruct (locked s Hok) as [Hl Hinv].
  destruct (so_pages _ Hinv i e ids He Hids) as (_ & Hcnt & Hbig & Hne).
  pose proof (page_size_pos _ Hinv) as Hps.
  unfold mehcached_shm_map. rewrite (aligned_true s ptr (proj2 Hok) Hal), (aligned_true s 0 (proj2 Hok)) by apply Z.divide_0_r.
  cbn [negb]. rewrite Hl. cbn [mbind option_bind]. set (s1 := set_state_lock s 1) in *.
  change (shm_entries s1) with (shm_entries s). rewrite He. cbn [mbind option_bind]. rewrite Hids.
  rewrite Z.add_0_l, (wrap_small 64) by lia.
  destruct (Z.gtb_spec 0 (length_ e)); [lia|]. destruct (Z.gtb_spec len (length_ e)); [lia|].
  change (shm_mappings s1) with (shm_mappings s). pose proof (at_range _ _ _ Hk) as Hkr.
  rewrite (so_mappings _ (proj2 Hok)) in Hkr.
  assert (index_of (fun m => map_addr m =? 0) (shm_mappings s) 0 <= k) as Hidx.
  { unfold at_ in Hk. rewrite (proj2 (Z.leb_le _ _)) in Hk by lia.
    pose proof (index_of_le (fun m => map_addr m =? 0) _ _ 0 m Hk (proj2 (Z.eqb_eq _ _) Hm)). lia. }
  destruct (Z.eqb_spec (index_of (fun m => map_addr m =? 0) (shm_mappings s) 0) MEHCACHED_SHM_MAX_MAPPINGS) as [|_]; [lia|].
  destruct (page_count_spec s1 len Hinv) as [Hn Hn0]; [lia|]. set (n := page_count s1 len) in *.
  rewrite Z.div_0_l by (change (shm_page_size s1) with (shm_page_size s) in *; lia).
  destruct (map_pages_spec mmap_ok s1 ids (Z.to_nat n) 0 ptr (address_space s1)) as (m' & rest & Hmp & _); [lia| | |].
  - enough (n <= num_pages e) by lia. rewrite Hn, Hne. apply Z.div_le_mono; lia.
  - intros x Hx. destruct (so_mapped _ Hinv i x) as (p & Hp & _); [by exists e, ids|by exists p].
  - rewrite Hmp. cbn [mbind option_bind]. rewrite (map_pages_all _ _ _ _ _ _ _ _ _ Hall Hmp).
    cbn [Nat.eqb negb]. by eexists.
Qed.

Section Loop.
Context (size : Z) (Hsize : MEHCACHED_MINIMUM_POOL_SIZE <= size <= 2 ^ 38).

Notation total := (size + MEHCACHED_MINIMUM_POOL_SIZE).

(** The pages of a machine divide both mappings. *)
Record page_fits (s : shm) : Prop := {
  pf_range : 4096 <= shm_page_size s <= MEHCACHED_MINIMUM_POOL_SIZE;
  pf_size : (shm_page_size s | size);
  pf_twice : (shm_page_size s | MEHCACHED_MINIMUM_POOL_SIZE) }.

Lemma fits_counts s s1 : shm_inv s -> page_fits s -> shm_page_size s1 = shm_page_size s ->
  page_count s1 size * shm_page_size s = size /\
  page_count s1 MEHCACHED_MINIMUM_POOL_SIZE * shm_page_size s = MEHCACHED_MINIMUM_POOL_SIZE /\
  0 <= page_count s1 size /\ 0 <= page_count s1 MEHCACHED_MINIMUM_POOL_SIZE.
Proof.
  intros Hinv [Hr Hd1 Hd2] Heq. unfold MEHCACHED_MINIMUM_POOL_SIZE in *. rewrite <- Heq in *.
  pose proof (page_count_exact s1 size ltac:(lia) ltac:(lia) ltac:(lia) Hd1) as H1.
  pose proof (page_count_exact s1 2097152 ltac:(lia) ltac:(lia) ltac:(lia) Hd2) as H2.
  split; [done|]. split; [done|]. split; apply (Z.mul_nonneg_cancel_r _ (shm_page_size s1)); lia.
Qed.

(** Both mappings of a round succeed. *)
Lemma double_mapping s s1 s2 i e ids data ok1 ok2 :
  shm_ok s -> 0 <= i < MEHCACHED_SHM_MAX_ENTRIES -> at_ (shm_entries s) i = Some e ->
  pages e = Some ids -> page_fits s -> (shm_page_size s | data) -> free_region s data total -> shm_ok s1 ->
  mehcached_shm_map ok1 s i data 0 size = Some (true, s1) ->
  mehcached_shm_map ok2 s1 i (data + size) 0 MEHCACHED_MINIMUM_POOL_SIZE = Some (true, s2) ->
  shm_ok s2 /\ doubled s s2 i data size e.
Proof.
  intros Hok Hi He Hids Hfits Hal Hfree Hok1 Hm1 Hm2. pose proof Hfree as (Hp & Hend & _).
  destruct (fits_counts s s (proj2 Hok) Hfits eq_refl) as (Hc1 & Hc2 & Hc3 & Hc4).
  pose proof (pf_range _ Hfits) as Hps. set (M := MEHCACHED_MINIMUM_POOL_SIZE) in *.
  assert (M = 2097152) as HM by done.
  destruct (map_ok ok1 s i data 0 size Hok Hi) as (? & ? & Hm1' & _ & Hat1); [lia..|].
  rewrite Hm1 in Hm1'. injection Hm1' as <- <-. specialize (Hat1 eq_refl ltac:(lia)).
  destruct (map_ok ok2 s1 i (data + size) 0 M Hok1 Hi) as (? & ? & Hm2' & Hok2 & Hat2); [lia..|].
  rewrite Hm2 in Hm2'. injection Hm2' as <- <-.
  destruct (map_result _ _ _ _ _ _ _ _ Hok Hm1) as (e0 & k1 & m1 & po1 & He0 & Hk1 & Hf1 & Hs1 & Hpg1 & Hes1 & Hms1).
  rewrite He in He0. injection He0 as <-.
  destruct (map_result _ _ _ _ _ _ _ _ Hok1 Hm2) as (e1 & k2 & m2 & po2 & He1 & Hk2 & Hf2 & Hs2 & Hpg2 & Hes2 & Hms2).
  assert (e1 = incr_refcount e) as ->.
  { rewrite Hes1, (upd_at _ _ _ _ He) in He1. by injection He1. }
  assert (page_count s1 M = page_count s M) as Hc by (unfold page_count; by rewrite Hs1).
  destruct (map_space ok1 s i data 0 size true s1 (proj2 Hok)) as (Hfs1 & _ & n1 & _ & -> & Hz1); [lia..|done|].
  destruct (map_space ok2 s1 i (data + size) 0 M true s2 (proj2 Hok1)) as (Hfs2 & _ & n2 & _ & -> & Hz2);
    [lia|lia|rewrite Hc, Hs1; lia|done|].
  rewrite Hc, Hs1 in *. specialize (Hat2 eq_refl ltac:(lia)).
  assert (k1 <> k2) as Hne.
  { intros <-. rewrite Hms1, (upd_at _ _ _ _ Hk1) in Hk2. injection Hk2 as <-. cbn in Hf2. lia. }
  pose proof (at_range _ _ _ Hk1). pose proof (at_range _ _ _ He).
  split; [done|]. split; fold M; try done; try congruence.
  - by rewrite Hes2, Hes1, upd_upd.
  - rewrite Hms1, at_upd, decide_False in Hk2 by (lia || done || by eexists).
    exists k1, k2, m1, m2, po1, po2. do 5 (split; [done|]). by rewrite Hms2, Hms1.
  - destruct Hat1 as (e0 & ids0 & ? & ? & ? & Hj). exists e0, ids0. do 3 (split; [done|]). intros j Hr.
    destruct (Hj j Hr) as (x & pg & ? & ? & Hl). exists x, pg. split; [done|]. split; [done|]. rewrite <- Hl.
    apply Hfs2. intros Hin%page_in_range; nia.
  - eapply mapped_at_ext; [exact Hat2|exact He|by rewrite Hes1; eapply upd_at|done..].
  - intros a Ha1 Ha2. rewrite Hfs2 by done. by apply Hfs1.
  - intros x. rewrite Hz2, Hz1, Hc1, Hc2. split; [intros [[? ?] ?]; (split; [done|lia])|].
    intros [? ?]. split; [split; [done|lia]|lia].
Qed.

(** The second mapping of a round is refused and the first one taken back. *)
Lemma double_refused s s1 s2 s3 s4 q i e a ok1 ok2 :
  shm_ok s -> page_fits s -> finds_free s total [] q -> refused s s1 total [q] ->
  q <= a < q + shm_page_size s -> shm_inv s1 -> shm_inv s2 -> shm_page_size s2 = shm_page_size s1 ->
  mehcached_shm_map ok1 s1 i a 0 size = Some (true, s2) ->
  mehcached_shm_map ok2 s2 i (a + size) 0 MEHCACHED_MINIMUM_POOL_SIZE = Some (false, s3) ->
  shm_page_size s3 = shm_page_size s1 -> space_unmapped s3 s4 a (page_count s1 size) ->
  same_addrs s1 s4 -> at_ (shm_entries s1) i = Some e -> refused s s4 total [q].
Proof.
  intros Hok Hfits Hfree Href Ha Hinv1 Hinv2 Hps2 Hm1 Hm2 Hps3 [Hsp1 Hsp2] (T1 & T2 & T3 & T4) He.
  pose proof (pf_range _ Hfits) as Hps.
  destruct (probe_region s s1 total q a ltac:(lia) Hfree Href Ha) as (Hp & Hend & Hkeys).
  pose proof Href as [(R1 & R2 & R3 & R4) Rf Rz]. pose proof Hfree as [[Hq Hqend] Hff].
  destruct (fits_counts s s1 (proj2 Hok) Hfits R1) as (Hc1 & Hc2 & Hc3 & Hc4).
  assert (page_count s2 MEHCACHED_MINIMUM_POOL_SIZE = page_count s1 MEHCACHED_MINIMUM_POOL_SIZE) as Hc
    by (unfold page_count; by rewrite Hps2).
  set (M := MEHCACHED_MINIMUM_POOL_SIZE) in *. assert (M = 2097152) as HM by done.
  destruct (map_space ok1 s1 i a 0 size true s2 Hinv1) as (Hfs1 & _ & n1 & _ & -> & Hz1); [lia|lia|rewrite R1; lia|done|].
  destruct (map_space ok2 s2 i (a + size) 0 M false s3 Hinv2) as (_ & Hback & k & Hk0 & Hk & Hz2);
    [lia|lia|rewrite Hc, Hps2, R1; lia|done|].
  rewrite Hc, Hps2, ?Hps3, ?R1 in *.
  assert (address_space s3 = address_space s2) as Hf3.
  { apply Hback; [done|]. intros b Hb%page_in_range; [|lia].
    rewrite Hfs1; [apply (Hkeys b); lia|]. intros Hb'%page_in_range; lia. }
  split; [repeat split; congruence| |].
  - rewrite Hsp1, Hf3, <- Rf. apply unmap_pages_restores; rewrite ?Z2Nat.id by lia; try done; try lia.
    intros b Hb%page_in_range; [|lia]. apply (Hkeys b). lia.
  - intros x. rewrite Hsp2, zero_at_cut_pages by (rewrite ?Z2Nat.id; lia).
    rewrite Z2Nat.id, Hz2, Hz1, Rz, leaked_one, Hc1 by lia. split; [tauto|].
    intros Hx. assert (~ (a <= x < a + size + k * shm_page_size s)) as Hnot.
    { intros Hin. assert (k * shm_page_size s <= M - shm_page_size s \/ k = 0) by (destruct Hk; [by right|left; nia]).
      destruct Hx as [Hx|Hx]; [|lia]. by destruct (Hff x ltac:(lia)) as (_ & ? & _). }
    split; [split; [split; [done|lia]|lia]|lia].
Qed.

(** Why a round is refused. *)
Definition round_refused (s : shm) (i a : Z) (e : shm_entry) (ok1 ok2 : Z -> bool) : Prop :=
  (exists s1, mehcached_shm_map ok1 s i a 0 size = Some (false, s1)) \/
  (exists s1 s2 k mp po n, mehcached_shm_map ok2 s1 i (a + size) 0 MEHCACHED_MINIMUM_POOL_SIZE = Some (false, s2) /\
    shm_ok s1 /\ at_ (shm_mappings s) k = Some mp /\ shm_page_size s1 = shm_page_size s /\
    shm_entries s1 = upd (shm_entries s) i (incr_refcount e) /\
    shm_mappings s1 = upd (shm_mappings s) k (ShmMapping i a size po n)).

(** One round: the double mapping, or the next round with what the probe left. *)
Lemma pool_round_step s i e ids q ok1 ok2 os :
  shm_ok s -> page_fits s -> at_ (shm_entries s) i = Some e -> pages e = Some ids -> refcount e = 0 ->
  to_remove e = 0 -> finds_free s total [] q ->
  exists a s1, refused s s1 total [q] /\ shm_ok s1 /\ q <= a < q + shm_page_size s /\
    (shm_page_size s | a) /\
    ((exists s', pool_map_loop ((Some q, ok1, ok2) :: os) s i size = Some (a, s') /\ shm_ok s' /\
       doubled s1 s' i a size e) \/
     (exists s', pool_map_loop ((Some q, ok1, ok2) :: os) s i size = pool_map_loop os s' i size /\
       shm_ok s' /\ refused s s' total [q] /\ round_refused s1 i a e ok1 ok2)).
Proof.
  intros Hok Hfits He Hids Hr Ht Hfree. pose proof Hfree as [[Hq Hend] Hff]. pose proof (pf_range _ Hfits) as Hps.
  pose proof (pf_size _ Hfits) as Hd1. assert (MEHCACHED_MINIMUM_POOL_SIZE = 2097152) as HM by done.
  assert (4096 | total) as Hd4.
  { assert (4096 | shm_page_size s) as H4.
    { destruct (so_page_size _ (proj2 Hok)) as (k & Hk & Hk'). rewrite Hk' in *. change 4096 with (2 ^ 12) in *.
      apply pow2_divides. split; [done|]. apply (Z.pow_le_mono_r_iff 2); lia. }
    apply Z.divide_add_r; (eapply Z.divide_trans; [exact H4|apply Hfits]). }
  destruct (find_free_spec s total [] q (proj2 Hok)) as (a & s1 & Ha & Hs1 & Har & Hal & Href); [lia|lia|done|done|].
  pose proof Href as [(R1 & R2 & R3 & R4) Rf Rz].
  assert (shm_ok s1) as Hok1.
  { split; [rewrite Hs1; apply Hok|]. eapply shm_inv_ext; [| | | |apply Hok]; by rewrite Hs1. }
  pose proof (probe_region s s1 total q a ltac:(lia) Hfree Href Har) as Hreg. pose proof Hreg as (Hp & Haend & _).
  exists a, s1. do 4 (split; [done|]). rewrite <- R3 in He. pose proof (at_range _ _ _ He) as Hi.
  rewrite (so_entries _ (proj2 Hok1)) in Hi. cbn [pool_map_loop]. rewrite Ha. cbn [mbind option_bind].
  rewrite (proj2 (Z.eqb_neq _ _)) by lia.
  assert (page_fits s1) as Hfits1 by (destruct Hfits; split; by rewrite R1).
  destruct (fits_counts s s1 (proj2 Hok) Hfits R1) as (Hc1 & _).
  destruct (map_ok ok1 s1 i a 0 size Hok1 Hi) as (okr & s2 & Hm & Hok2 & _); [lia..|].
  rewrite Hm. cbn [mbind option_bind]. pose proof (map_result _ _ _ _ _ _ _ _ Hok1 Hm) as Hres.
  destruct okr; cbn [negb].
  2:{ right. exists s2. split; [done|]. split; [done|]. split; [|left; by exists s2].
      destruct Hres as (T1 & T2 & T3 & T4).
      destruct (map_space ok1 s1 i a 0 size false s2 (proj2 Hok1)) as (_ & Hback & k & Hk0 & Hk & Hz2);
        [lia|nia|rewrite R1; lia|done|]. rewrite R1 in *.
      split; [repeat split; congruence| |].
      - rewrite <- Rf. apply Hback; [done|]. intros b Hb%page_in_range; [|lia]. apply Hreg. lia.
      - intros x. rewrite Hz2, Rz, leaked_one. split; [tauto|]. intros Hx. split; [done|]. intros Hin.
        assert (k * shm_page_size s <= size - shm_page_size s \/ k = 0) by (destruct Hk; [by right|left; nia]).
        destruct Hx as [Hx|Hx]; [|lia]. by destruct (Hff x ltac:(lia)) as (_ & ? & _). }
  destruct (map_ok ok2 s2 i (a + size) 0 2097152 Hok2 Hi) as (okr & s3 & Hm2 & Hok3 & _); [lia..|].
  rewrite (wrap_small 64) by lia. rewrite HM, Hm2. cbn [mbind option_bind]. destruct okr; cbn [negb].
  - left. exists s3. split; [done|]. rewrite <- R1 in Hal. by eapply (double_mapping s1 s2 s3).
  - destruct Hres as (e0 & k & mp & po & He0 & Hk & Hmp & Hs2 & Hp2 & Hes2 & Hms2).
    rewrite He in He0. injection He0 as <-.
    destruct (map_result _ _ _ _ _ _ _ _ Hok2 Hm2) as (Ht1 & Ht2 & Ht3 & Ht4).
    destruct (map_unmap s1 s3 k mp i e ids a size po (page_count s1 size) Hok1 Hok3)
      as (s4 & Hu & Hok4 & Hsame & Hsp); try done; try congruence; [lia| |].
    { intros m Hin. eapply free_region_fresh; [exact Hreg|lia|done]. }
    rewrite Hu. cbn [mbind option_bind]. right. exists s4. split; [done|]. split; [done|].
    split; [|right; by exists s2, s3, k, mp, po, (page_count s1 size)].
    eapply (double_refused s s1 s2 s3 s4); try done; [apply Hok1|apply Hok2|congruence].
Qed.

(** The state between two rounds: entry [i] waits to be mapped. *)
Record waiting (s : shm) (i : Z) (e : shm_entry) (probes : list Z) : Prop := {
  wt_ok : shm_ok s;
  wt_entry : at_ (shm_entries s) i = Some e;
  wt_pages : is_Some (pages e);
  wt_unused : refcount e = 0 /\ to_remove e = 0;
  wt_fits : page_fits s;
  wt_probes : honest s total probes }.

Lemma waiting_next s s1 i e q probes :
  waiting s i e (q :: probes) -> shm_ok s1 -> refused s s1 total [q] -> waiting s1 i e probes.
Proof.
  intros [Hok He Hids Hu [F1 F2 F3] Hf] Hok1 Href. pose proof Href as [(R1 & R2 & R3 & R4) _ _].
  split; try done; [congruence|split; by rewrite R1|by eapply honest_next].
Qed.

(** The probes of the rounds. *)
Definition answered (os : list pool_round) (probes : list Z) : Prop :=
  (fun r => r.1.1) <$> os = Some <$> probes.

Lemma answered_cons r os probes : answered (r :: os) probes ->
  exists q probes', probes = q :: probes' /\ r = (Some q, r.1.2, r.2) /\ answered os probes'.
Proof.
  destruct probes as [|q probes]; [done|]. intros [= Hr Hos]. exists q, probes.
  split; [done|]. split; [|done]. destruct r as [[? ?] ?]. cbn in *. by rewrite Hr.
Qed.

(** The loop ends with the double mapping, after any number of rounds that the system refused. *)
Lemma pool_map_loop_doubled i e os : forall s data s' probes,
  answered os probes -> waiting s i e probes -> pool_map_loop os s i size = Some (data, s') ->
  exists used q rest s1, probes = used ++ q :: rest /\ q <= data < q + shm_page_size s /\
    refused s s1 total (used ++ [q]) /\ shm_ok s1 /\ shm_ok s' /\ doubled s1 s' i data size e.
Proof.
  induction os as [|r os IH]; intros s data s' probes Hans Hw H; [done|].
  apply answered_cons in Hans as (q & probes' & -> & Hrd & Hans). rewrite Hrd in H.
  pose proof Hw as [Hok He [ids Hids] [Hr Ht] Hfits Hh].
  destruct (pool_round_step s i e ids q r.1.2 r.2 os Hok Hfits He Hids Hr Ht (honest_head _ _ _ _ Hh))
    as (a & s1 & Href & Hok1 & Ha & _ & [(s2 & Hl & Hok2 & Hdb)|(s2 & Hl & Hok2 & Href2 & _)]).
  - pose proof (eq_trans (eq_sym H) Hl) as [= -> ->]. by exists [], q, probes', s1.
  - pose proof (eq_trans (eq_sym Hl) H) as Hl'.
    destruct (IH s2 data s' probes' Hans (waiting_next _ _ _ _ _ _ Hw Hok2 Href2) Hl')
      as (used & q' & rest & s3 & -> & Hq & Href3 & Hrest).
    exists (q :: used), q', rest, s3. split; [done|]. rewrite <- (proj1 (rf_tables _ _ _ _ Href2)).
    split; [done|]. split; [exact (refused_app _ _ _ _ [q] _ Href2 Href3)|done].
Qed.

(** The system accepts every mapping of the round. *)
Definition accepting (r : pool_round) : Prop := (forall q, r.1.2 q = true) /\ (forall q, r.2 q = true).

Lemma free_slot_addrs s s1 k :
  map_addr <$> shm_mappings s1 = map_addr <$> shm_mappings s -> free_slot s k -> free_slot s1 k.
Proof.
  unfold free_slot, at_. intros Hm (m & Hk & H0). destruct (0 <=? k); [|done].
  pose proof (f_equal (.!! Z.to_nat k) Hm) as Hl. rewrite !list_lookup_fmap, Hk in Hl.
  destruct (shm_mappings s1 !! Z.to_nat k) as [m1|]; [|done]. exists m1. injection Hl as ->. done.
Qed.

(** It does end: at the latest with a round that the system accepts. *)
Lemma pool_map_loop_ends i e os last k1 k2 : forall s probes,
  answered (os ++ [last]) probes -> waiting s i e probes -> size <= length_ e ->
  free_slot s k1 -> free_slot s k2 -> k1 <> k2 ->
  accepting last -> is_Some (pool_map_loop (os ++ [last]) s i size).
Proof.
  induction os as [|r os IH]; intros s probes Hans Hw Hlen Hk1 Hk2 Hne Hacc; cbn [app] in *.
  all: apply answered_cons in Hans as (q & probes' & -> & Hrd & Hans); rewrite Hrd.
  all: pose proof Hw as [Hok He [ids Hids] [Hr Ht] Hfits Hh].
  - destruct Hacc as [Hacc1 Hacc2].
    destruct (pool_round_step s i e ids q last.1.2 last.2 [] Hok Hfits He Hids Hr Ht (honest_head _ _ _ _ Hh))
      as (a & s0 & [(R1 & R2 & R3 & R4) _ _] & Hok0 & Ha & Hal & [(s' & Hl & _)|(s' & _ & _ & _ & Hrefused)]).
    { exists (a, s'). exact Hl. }
    exfalso. rewrite <- R3 in He. apply (free_slot_addrs s s0) in Hk1, Hk2; try done. rewrite <- R1 in Hal.
    destruct Hrefused as [[s1 Hm]|(s1 & s2 & k & mp & po & n & Hm & Hok1 & Hk & Hs1 & Hes1 & Hms1)].
    + destruct (map_accepts last.1.2 s0 i a size e ids k1) as (s2 & Hm'); try done; [|congruence].
      unfold MEHCACHED_MINIMUM_POOL_SIZE in *. lia.
    + pose proof (at_range _ _ _ Hk).
      assert (exists k', free_slot s1 k') as [k' Hk'].
      { assert (exists k', k' <> k /\ free_slot s0 k') as (k' & Hkk & m & Hm1 & Hm2).
        { destruct (decide (k1 = k)) as [->|]; [by exists k2|by exists k1]. }
        exists k', m. split; [|done]. rewrite Hms1, at_upd, decide_False by (lia || done || by eexists). done. }
      destruct (map_accepts last.2 s1 i (a + size) MEHCACHED_MINIMUM_POOL_SIZE (incr_refcount e) ids k')
        as (s3 & Hm'); try done; [by rewrite Hes1; eapply upd_at| | |congruence].
      * cbn. unfold MEHCACHED_MINIMUM_POOL_SIZE in *. lia.
      * rewrite Hs1. apply Z.divide_add_r; [done|]. rewrite R1. apply Hfits.
  - destruct (pool_round_step s i e ids q r.1.2 r.2 (os ++ [last]) Hok Hfits He Hids Hr Ht (honest_head _ _ _ _ Hh))
      as (a & s0 & _ & _ & _ & _ & [(s' & Hl & _)|(s' & Hl & Hok' & Href & _)]).
    { exists (a, s'). exact Hl. }
    destruct (IH s' probes') as [x Hx]; [done|by eapply waiting_next|done| | |done|done|].
    + eapply free_slot_addrs; [|exact Hk1]. apply Href.
    + eapply free_slot_addrs; [|exact Hk2]. apply Href.
    + exists x. exact (eq_trans Hl Hx).
Qed.

End Loop.

(** ** What the program sees *)

(** Address [data + a] shows the page and the place of [a] in it, counted modulo the size. *)
Lemma doubled_shows s s' i data size e ids a :
  shm_inv s -> doubled s s' i data size e -> at_ (shm_entries s) i = Some e -> pages e = Some ids ->
  MEHCACHED_MINIMUM_POOL_SIZE <= size <= 2 ^ 38 ->
  (shm_page_size s | size) -> (shm_page_size s | MEHCACHED_MINIMUM_POOL_SIZE) ->
  0 <= a < size + MEHCACHED_MINIMUM_POOL_SIZE ->
  exists x pg, at_ ids (a mod size / shm_page_size s) = Some x /\ at_ (shm_pages s) x = Some pg /\
    shown s' (data + a) = Some (path pg, a mod size mod shm_page_size s).
Proof.
  intros Hinv [[d Hd] _ Hps _ _ _ Hfront Hback _ _] He Hids Hsz [q Hq] [r Hr] Ha.
  unfold MEHCACHED_MINIMUM_POOL_SIZE in *. pose proof (page_size_pos s Hinv) as Hp.
  set (P := shm_page_size s) in *.
  assert (forall off n b, mapped_at s (address_space s') i (data + off) 0 n -> (P | off) -> (P | n) ->
    0 <= b < n -> n <= 2 ^ 39 ->
    exists x pg, at_ ids (b / P) = Some x /\ at_ (shm_pages s) x = Some pg /\
      shown s' (data + (off + b)) = Some (path pg, b mod P)) as Hone.
  { intros off n b (e0 & ids0 & He0 & Hids0 & _ & Hj) [o ->] Hn Hb Hbig. rewrite He in He0. injection He0 as <-.
    rewrite Hids in Hids0. injection Hids0 as <-.
    assert (P <= n) as HPn by (apply Z.divide_pos_le; [lia|done]).
    pose proof (page_count_exact s n ltac:(lia) ltac:(lia) ltac:(unfold P in *; lia) Hn) as Hc. fold P in Hc.
    pose proof (Z.mul_div_le b P ltac:(lia)) as Hmb. pose proof (Z.div_pos b P ltac:(lia) ltac:(lia)).
    destruct (Hj (b / P)) as (x & pg & Hx & Hpg & Hl); [split; [done|nia]|].
    fold P in Hx, Hl. rewrite Z.div_0_l in Hx by lia. exists x, pg. split; [done|]. split; [done|].
    unfold shown. rewrite Hps. fold P.
    assert ((data + (o * P + b)) mod P = b mod P) as ->.
    { rewrite Hd. replace (d * P + (o * P + b)) with (b + (d + o) * P) by lia. apply Z.mod_add. lia. }
    pose proof (Z.div_mod b P ltac:(lia)).
    replace (data + (o * P + b) - b mod P) with (data + o * P + b / P * P) by lia.
    by rewrite Hl. }
  destruct (decide (a < size)).
  - rewrite (Z.mod_small a size) by lia. destruct (Hone 0 size a) as (x & pg & H); try done; try lia.
    + by rewrite Z.add_0_r.
    + apply Z.divide_0_r.
    + by exists q.
    + by exists x, pg.
  - assert (a mod size = a - size) as ->.
    { symmetry. apply (Z.mod_unique_pos a size 1); lia. }
    destruct (Hone size 2097152 (a - size)) as (x & pg & H); try done; try lia.
    + by exists q.
    + by exists r.
    + exists x, pg. by rewrite Z.add_sub_assoc, Z.add_simpl_l in H.
Qed.

(** Two addresses show the same byte exactly if they are equal modulo the size. *)
Lemma doubled_circular s s' i data size e ids a b :
  shm_inv s -> files_distinct s -> doubled s s' i data size e -> at_ (shm_entries s) i = Some e ->
  pages e = Some ids -> MEHCACHED_MINIMUM_POOL_SIZE <= size <= 2 ^ 38 ->
  (shm_page_size s | size) -> (shm_page_size s | MEHCACHED_MINIMUM_POOL_SIZE) ->
  0 <= a < size + MEHCACHED_MINIMUM_POOL_SIZE -> 0 <= b < size + MEHCACHED_MINIMUM_POOL_SIZE ->
  shown s' (data + a) = shown s' (data + b) <-> a mod size = b mod size.
Proof.
  intros Hinv Hf Hdb He Hids Hsz Hd1 Hd2 Ha Hb.
  destruct (doubled_shows s s' i data size e ids a) as (x & p & Hx & Hp & ->); try done.
  destruct (doubled_shows s s' i data size e ids b) as (y & q & Hy & Hq & ->); try done.
  pose proof (page_size_pos s Hinv) as HP. destruct (so_pages _ Hinv i e ids He Hids) as (Hnd & _).
  split; [|intros Hab; rewrite Hab in *; congruence]. intros [= Hpq Hmod].
  assert (forall z r, at_ (shm_pages s) z = Some r -> z ∈ ids -> addr r <> 0) as Hlive.
  { intros z r Hz Hin. destruct (so_mapped _ Hinv i z) as (r' & Hr' & ?); [by exists e, ids|congruence]. }
  assert (x = y) as <- by (apply (Hf x y p q); eauto using at_elem).
  unfold MEHCACHED_MINIMUM_POOL_SIZE in *.
  pose proof (at_range _ _ _ Hx). pose proof (at_range _ _ _ Hy).
  assert (a mod size / shm_page_size s = b mod size / shm_page_size s) as Hdiv.
  { unfold at_ in Hx, Hy. rewrite (proj2 (Z.leb_le _ _)) in Hx by lia.
    rewrite (proj2 (Z.leb_le _ _)) in Hy by lia.
    pose proof (NoDup_lookup _ _ _ _ Hnd Hx Hy). lia. }
  rewrite (Z.div_mod (a mod size) (shm_page_size s)), (Z.div_mod (b mod size) (shm_page_size s)) by lia.
  by rewrite Hdiv, Hmod.
Qed.

(** ** Release *)

Lemma upd_comm {A} (l : list A) i j x y :
  0 <= i -> 0 <= j -> i <> j -> upd (upd l i x) j y = upd (upd l j y) i x.
Proof. intros. apply list_insert_insert_ne. lia. Qed.

Lemma elem_of_upd {A} (l : list A) i x y : y ∈ upd l i x -> y = x \/ y ∈ l.
Proof.
  intros [n Hn]%list_elem_of_lookup. unfold upd in Hn.
  apply list_lookup_insert_Some in Hn as [(_ & -> & _)|(_ & Hn)]; [by left|right].
  by eapply list_elem_of_lookup_2.
Qed.

(** The two mappings of the log are taken back one after the other. *)
Lemma doubled_free s s' s2 i e ids pool data :
  shm_ok s -> page_fits (pool_size pool) s -> MEHCACHED_MINIMUM_POOL_SIZE <= pool_size pool <= 2 ^ 38 ->
  shm_ok s2 -> doubled s s' i data (pool_size pool) e -> at_ (shm_entries s) i = Some e ->
  pages e = Some ids -> refcount e = 0 ->
  shm_page_size s2 = shm_page_size s' -> shm_pages s2 = shm_pages s' -> shm_mappings s2 = shm_mappings s' ->
  shm_entries s2 = upd (shm_entries s') i (set_to_remove (incr_refcount (incr_refcount e))) ->
  exists s3 s4, mehcached_pool_free pool data s2 = Some s4 /\ shm_ok s4 /\
    mark (shm_pages s) ids 0 = Some (shm_pages s4) /\ shm_entries s4 = upd (shm_entries s) i zero_entry /\
    map_addr <$> shm_mappings s4 = map_addr <$> shm_mappings s /\ shm_page_size s3 = shm_page_size s /\
    space_unmapped s2 s3 data (page_count s (pool_size pool)) /\
    space_unmapped s3 s4 (data + pool_size pool) (page_count s MEHCACHED_MINIMUM_POOL_SIZE).
Proof.
  intros Hok Hfits Hsz Hok2 [_ Hfree Hpsz Hpg Hes (k1 & k2 & m1 & m2 & po1 & po2 & Hne &
    Hk1 & Hf1 & Hk2 & Hf2 & Hms) _ _ _ _] He Hids Hr Hs1 Hs2 Hs3 Hs4. pose proof Hfree as (Hp & Hend & _).
  unfold MEHCACHED_MINIMUM_POOL_SIZE in *. set (size := pool_size pool) in *.
  set (M1 := ShmMapping i data size po1 _) in *. set (M2 := ShmMapping i (data + size) _ po2 _) in *.
  pose proof (at_range _ _ _ Hk1). pose proof (at_range _ _ _ Hk2).
  assert (forall x m, data <= x <= data + size -> m ∈ shm_mappings s -> map_addr m <> x) as Hfresh.
  { intros x m Hx Hm. eapply free_region_fresh; [exact Hfree|lia|done]. }
  assert (forall k x, k <> k1 -> 0 <= k -> at_ (upd (shm_mappings s) k1 x) k = at_ (shm_mappings s) k) as Hoth.
  { intros k x Hk Hk0. rewrite at_upd by (lia || by eexists). by rewrite decide_False. }
  rewrite Hes, upd_upd in Hs4. set (e2 := set_to_remove _) in *.
  rewrite Hms, upd_comm in Hs3 by lia.
  destruct (unmap_result s2 k1 M1 e2 ids Hok2) as (s4 & Hu4 & Hok4 & (Hsz4 & Hm4 & Hd4) & Hsp4).
  { eapply (sole_upd _ k1 m1); [|cbn; lia| |exact Hs3].
    - by rewrite at_upd, decide_False by (lia || done || by eexists).
    - intros m [-> | Hm]%elem_of_upd; [cbn; lia|by apply Hfresh; [lia|]]. }
  { rewrite Hs4. by eapply upd_at. }
  { done. }
  assert (refcount e2 = 2) as Hr2 by (cbn; by rewrite Hr). rewrite Hr2 in Hd4. cbn [Z.eqb andb] in Hd4.
  destruct Hd4 as [Hp4 He4]. rewrite Hs4, upd_upd in He4. rewrite Hs3, upd_upd, upd_comm in Hm4 by lia.
  destruct (unmap_result s4 k2 M2 (decr_refcount e2) ids Hok4) as (s5 & Hu5 & Hok5 & (_ & Hm5 & Hd5) & Hsp5).
  { eapply (sole_upd _ k2 m2); [by rewrite Hoth by lia|cbn; lia| |exact Hm4].
    intros m [-> | Hm]%elem_of_upd; [cbn; lia|by apply Hfresh; [lia|]]. }
  { rewrite He4. by eapply upd_at. }
  { done. }
  assert (refcount (decr_refcount e2) = 1) as Hr1 by (cbn; by rewrite Hr). rewrite Hr1 in Hd5.
  cbn [Z.eqb andb] in Hd5. destruct Hd5 as [Hp5 He5]. exists s4, s5.
  unfold mehcached_pool_free. change (map_addr M1) with data in Hu4. rewrite Hu4.
  cbn [mbind option_bind negb]. fold size. rewrite (wrap_small 64) by lia.
  change (map_addr M2) with (data + size) in Hu5. rewrite Hu5. cbn [mbind option_bind negb].
  split; [done|]. split; [done|]. split; [by rewrite <- Hp5, Hp4, Hs2, Hpg|].
  split; [by rewrite He5, He4, upd_upd|]. split; [|by rewrite Hsz4, Hs1, Hpsz]. rewrite Hm5, Hm4.
  rewrite (clear_mapping _ k2 m2) by (done || by rewrite Hoth by lia).
  rewrite <- (upd_upd _ _ M1). by eapply clear_mapping.
Qed.

(** So the address space is what it was before the log was mapped. *)
Lemma doubled_free_space s s1 s2 s3 s4 i data size e :
  shm_inv s -> page_fits size s -> MEHCACHED_MINIMUM_POOL_SIZE <= size <= 2 ^ 38 -> doubled s s1 i data size e ->
  address_space s2 = address_space s1 -> zero_space s2 = zero_space s1 -> shm_page_size s2 = shm_page_size s1 ->
  shm_page_size s3 = shm_page_size s -> space_unmapped s2 s3 data (page_count s size) ->
  space_unmapped s3 s4 (data + size) (page_count s MEHCACHED_MINIMUM_POOL_SIZE) ->
  address_space s4 = address_space s /\
  forall x, zero_at (zero_space s4) x <->
    zero_at (zero_space s) x /\ ~ (data <= x < data + size + MEHCACHED_MINIMUM_POOL_SIZE).
Proof.
  intros Hinv Hfits Hsz [_ (Hp & Hend & Hkeys) Hps _ _ _ _ _ Hfiles Hzeros] Hf2 Hz2 Hps2 Hps3 [Hu1 Hv1] [Hu2 Hv2].
  pose proof (pf_range _ _ Hfits) as Hr. destruct (fits_counts size Hsz s s Hinv Hfits eq_refl) as (Hc1 & Hc2 & Hc3 & Hc4).
  set (M := MEHCACHED_MINIMUM_POOL_SIZE) in *. assert (M = 2097152) as HM by done.
  rewrite Hps3, Hps2, Hps, ?Hf2, ?Hz2 in *. split.
  - rewrite Hu2, Hu1. apply unmap_pages_restores; rewrite ?Z2Nat.id by lia; [lia|lia|lia| |].
    + intros a Ha. destruct (page_in_dec (shm_page_size s) data (page_count s size) a) as [Hin|Hout]; [lia| |].
      * rewrite unmap_pages_gone; rewrite ?Z2Nat.id by lia; try done; try lia.
        symmetry. apply (Hkeys a). apply page_in_range in Hin; lia.
      * rewrite unmap_pages_frame; rewrite ?Z2Nat.id by lia; try done; try lia. by apply Hfiles.
    + intros a Ha%page_in_range; [|lia]. apply (Hkeys a). lia.
  - intros x. rewrite Hv2, Hv1, !zero_at_cut_pages by (rewrite ?Z2Nat.id; lia).
    rewrite Hzeros, !Z2Nat.id, Hc1, Hc2 by lia. split; [tauto|]. intros [? ?]. split; [split; [|lia]|lia].
    split; [done|lia].
Qed.

(** ** The whole set-up *)

Lemma next_pow2_loop_result fuel v : forall t r, 0 <= t ->
  next_pow2_loop fuel v t = Some r -> exists k, t <= k <= t + Z.of_nat fuel /\ r = u64 (1 <<' k).
Proof.
  induction fuel as [|fuel IH]; intros t r Ht; cbn [next_pow2_loop]; destruct (_ <? v); try done.
  - intros [= <-]. exists t. split; [lia|done].
  - intros (k & Hk & ->)%IH; [|lia]. exists k. split; [lia|done].
  - intros [= <-]. exists t. split; [lia|done].
Qed.

(** Whatever size is asked for: the size of a pool is a power of two from 2 MB to 2^38. *)
Lemma pool_init_size contents size rd wr pool :
  mehcached_pool_init contents size rd wr = Some pool -> exists k, 21 <= k <= 38 /\ pool_size pool = 2 ^ k.
Proof.
  unfold mehcached_pool_init. set (asked := mehcached_shm_adjust_size _). intros H.
  apply bind_Some in H as (n & Hn & H).
  destruct (Z.leb_spec n (MEHCACHED_ITEM_OFFSET_MASK >>' 1)) as [Hle|]; [|done].
  destruct (Z.eqb_spec n (mehcached_shm_adjust_size n)) as [Hr|]; [|done].
  cbn [negb] in H. injection H as <-. cbn [pool_size].
  apply next_pow2_loop_result in Hn as (k & Hk & ->); [|done].
  rewrite Z.shiftl_mul_pow2, Z.mul_1_l in * by lia.
  assert (2 ^ k < 2 ^ 64) as Hk64 by (apply Z.pow_lt_mono_r; lia).
  rewrite (wrap_small 64) in * by lia.
  change (MEHCACHED_ITEM_OFFSET_MASK >>' 1) with (2 ^ 39 - 1) in Hle.
  exists k. split; [|done].
  assert (k < 39) as Hk39 by (apply (Z.pow_lt_mono_r_iff 2); lia). split; [|lia].
  unfold mehcached_shm_adjust_size in Hr. rewrite roundup2m in Hr.
  - apply (Z.pow_le_mono_r_iff 2); [lia..|]. change (2 ^ 21) with 2097152.
    assert (0 < 2 ^ k) by lia. set (x := 2 ^ k) in *. zlia.
  - split; [lia|]. apply Z.pow_lt_mono_r; lia.
Qed.

(** What the set-up of a pool of [n] bytes needs of the machine: pages of 4 KB to 2 MB with a
    file each, pages and an entry to allocate, two free slots for mappings, probes that find
    addresses where nothing is mapped, and a last round in which the system accepts the
    mappings. *)
Record pool_machine (s : shm) (n node : Z) (os : list pool_round) (last : pool_round)
    (probes : list Z) : Prop := {
  pm_ok : shm_ok s;
  pm_files : files_distinct s;
  pm_page_size : 4096 <= shm_page_size s <= MEHCACHED_MINIMUM_POOL_SIZE;
  pm_alloc : exists r s0, mehcached_shm_alloc true s n node = Some (r, s0) /\ r <> SIZE_MAX;
  pm_slots : exists k1 k2, k1 <> k2 /\ free_slot s k1 /\ free_slot s k2;
  pm_answers : answered (os ++ [last]) probes;
  pm_probes : honest s (n + MEHCACHED_MINIMUM_POOL_SIZE) probes;
  pm_last : accepting last }.

(** The page size divides 2 MB and the size of the pool. *)
Lemma page_divides s k :
  shm_inv s -> shm_page_size s <= MEHCACHED_MINIMUM_POOL_SIZE -> 21 <= k ->
  (shm_page_size s | 2 ^ k) /\ (shm_page_size s | MEHCACHED_MINIMUM_POOL_SIZE).
Proof.
  intros [(j & Hj & ->) _ _ _ _ _ _ _ _ _] Hle Hk. change MEHCACHED_MINIMUM_POOL_SIZE with (2 ^ 21) in *.
  apply Z.pow_le_mono_r_iff in Hle; [|lia..]. split; apply pow2_divides; lia.
Qed.

Lemma alloc_waiting s n node os last probes k :
  pool_machine s n node os last probes -> n = 2 ^ k -> 21 <= k <= 38 ->
  exists r s0 ids, let e := ShmEntry 0 0 n (Z.of_nat (length ids)) (Some ids) in
    mehcached_shm_alloc true s n node = Some (r, s0) /\ r <> SIZE_MAX /\
    waiting n s0 r e probes /\ files_distinct s0 /\
    (exists k1 k2, k1 <> k2 /\ free_slot s0 k1 /\ free_slot s0 k2) /\
    (forall x, x ∈ ids -> exists p, at_ (shm_pages s) x = Some p /\ in_use p = 0) /\
    mark (shm_pages s) ids 1 = Some (shm_pages s0) /\
    at_ (shm_entries s) r = Some zero_entry /\ shm_entries s0 = upd (shm_entries s) r e /\
    shm_mappings s0 = shm_mappings s.
Proof.
  intros [Hok Hfiles Hps (r & s0 & Ha & Hr) (k1 & k2 & Hne & Hk1 & Hk2) _ Hprobes Hacc] -> Hk.
  assert (0 < 2 ^ k < 2 ^ 63) as Hn by (split; [lia|apply Z.pow_lt_mono_r; lia]).
  destruct (alloc_ok s (2 ^ k) node Hok) as (? & ? & Ha' & Hok0 & _); [lia|].
  rewrite Ha in Ha'. injection Ha' as <- <-.
  destruct (alloc_result s (2 ^ k) node r s0 Hok) as (ids & He & Hids & Hm & Hes & Hms); [lia|done|done|].
  destruct (alloc_space _ _ _ _ _ _ Ha) as (Hsz & Hf0 & Hz0).
  destruct (page_divides s k (proj2 Hok) (proj2 Hps)) as [Hd1 Hd2]; [lia|].
  exists r, s0, ids. intros e. unfold free_slot. rewrite Hms.
  split; [done|]. split; [done|]. split.
  { split; try done.
    - rewrite Hes. by eapply upd_at.
    - split; by rewrite Hsz.
    - by apply (honest_ext s). }
  split.
  { eapply files_distinct_pages; [exact Hfiles|]. apply (mark_files 1 ids); [|done].
    intros x (p & Hp & _)%Hids. by exists p. }
  split; [by exists k1, k2|]. done.
Qed.

(** The entry is given up as soon as it is mapped. *)
Lemma doubled_remove s s' i data size e :
  shm_ok s' -> doubled s s' i data size e -> at_ (shm_entries s) i = Some e -> is_Some (pages e) -> refcount e = 0 ->
  exists s2, mehcached_shm_schedule_remove s' i = Some (true, s2) /\ shm_ok s2 /\
    shm_page_size s2 = shm_page_size s' /\
    (address_space s2 = address_space s' /\ zero_space s2 = zero_space s') /\
    shm_pages s2 = shm_pages s' /\ shm_mappings s2 = shm_mappings s' /\
    shm_entries s2 = upd (shm_entries s') i (set_to_remove (incr_refcount (incr_refcount e))).
Proof.
  intros Hok [_ _ _ _ Hes _ _ _ _ _] He Hids Hr. pose proof (upd_at _ _ _ (incr_refcount (incr_refcount e)) He) as Hi.
  rewrite <- Hes in Hi. pose proof (at_range _ _ _ Hi) as Hb. rewrite (so_entries _ (proj2 Hok)) in Hb.
  destruct (schedule_remove_ok s' i Hok Hb) as (ok & s2 & H & Hok2 & Hms).
  destruct (schedule_remove_mapped s' i _ ok s2 Hok Hi Hids) as (-> & ? & ? & ? & ?); [|done|].
  { cbn. by rewrite Hr. }
  exists s2. split; [done|]. split; [done|]. split; [done|]. split; [|done].
  by eapply schedule_remove_space.
Qed.

Lemma shown_ext s s' a :
  shm_page_size s' = shm_page_size s -> address_space s' = address_space s -> shown s' a = shown s a.
Proof. unfold shown. by intros -> ->. Qed.

(** C14: The memory of the log, on a machine whose shared pages have 4 KB to 2 MB and enough
    free pages, entries and mapping slots, where [malloc] has memory and each probe finds
    addresses where nothing is mapped.  However often the system refuses a mapping, if only
    it accepts one round in the end, [mehcached_pool_init] ends; then the bytes at two
    addresses of the log, which goes 2 MB beyond its size, are the same byte of memory exactly
    if their distances from its start are equal modulo the size: the log is the circle that
    the allocator takes it for.  [mehcached_pool_free] then gives back every page, every entry
    and every address of the log: tables and files of the address space are what they were.
    What stays are zeros that no one unmaps: a page size behind each refused probe, and the
    rest of the last probe behind the place of the log. *)
Theorem pool_memory_circular contents size rd wr pool s node os last probes :
  let n := pool_size pool in
  let total := n + MEHCACHED_MINIMUM_POOL_SIZE in
  mehcached_pool_init contents size rd wr = Some pool ->
  pool_machine s n node os last probes ->
  exists data s', pool_init_shm true (os ++ [last]) contents s size rd wr node = Some (pool, data, s') /\
    (forall a b, 0 <= a < total -> 0 <= b < total ->
       is_Some (shown s' (data + a)) /\
       (shown s' (data + a) = shown s' (data + b) <-> a mod n = b mod n)) /\
    exists s2 used q rest, mehcached_pool_free pool data s' = Some s2 /\ shm_ok s2 /\
      shm_pages s2 = shm_pages s /\ shm_entries s2 = shm_entries s /\
      map_addr <$> shm_mappings s2 = map_addr <$> shm_mappings s /\
      address_space s2 = address_space s /\
      probes = used ++ q :: rest /\ q <= data < q + shm_page_size s /\
      forall x, zero_at (zero_space s2) x <->
        zero_at (zero_space s) x \/ leaked s total used x \/
        data + total <= x < q + total + shm_page_size s.
Proof.
  intros n total Hp Hm. destruct (pool_init_size _ _ _ _ _ Hp) as (k & Hk & Hsz). fold n in Hsz.
  assert (MEHCACHED_MINIMUM_POOL_SIZE <= n <= 2 ^ 38) as Hsize.
  { rewrite Hsz. change MEHCACHED_MINIMUM_POOL_SIZE with (2 ^ 21). split; apply Z.pow_le_mono_r; lia. }
  destruct (alloc_waiting _ _ _ _ _ _ k Hm Hsz Hk) as (r & s0 & ids & Ha & Hr & Hw & Hfiles & (k1 & k2 & Hne & Hk1 & Hk2)
    & Hfree & Hmark & He & Hes & Hms). destruct (alloc_space _ _ _ _ _ _ Ha) as (A1 & A2 & A3).
  set (e := ShmEntry _ _ _ _ _) in *.
  destruct (pool_map_loop_ends n Hsize r e os last k1 k2 s0 probes) as [[data s1] Hl];
    [apply Hm|done|cbn; lia|done|done|done|apply Hm|].
  destruct (pool_map_loop_doubled n Hsize r e _ s0 data s1 probes (pm_answers _ _ _ _ _ _ Hm) Hw Hl)
    as (used & q & rest & s0' & Hpr & Hq & [(R1 & R2 & R3 & R4) Rf Rz] & Hok0' & Hok1 & Hdb).
  pose proof Hw as [_ He0 _ _ Hfits Hh]. destruct (Hh used q rest Hpr) as [[Hq0 Hqend] Hff].
  assert (page_fits n s0') as Hfits' by (destruct Hfits; split; by rewrite R1).
  rewrite <- R3 in He0.
  destruct (doubled_remove _ _ _ _ _ _ Hok1 Hdb He0) as (s2 & Hrem & Hok2 & Hps2 & [Has2 Hzs2] & Hpg2 & Hms2 & Hes2);
    [by eexists|done|].
  exists data, s2. split; [|split].
  - unfold pool_init_shm. rewrite Hp. cbn [mbind option_bind]. fold n. rewrite Ha. cbn [mbind option_bind].
    rewrite (proj2 (Z.eqb_neq _ _) Hr), Hl. cbn [mbind option_bind]. by rewrite Hrem.
  - intros a b Hra Hrb. destruct Hfits'. rewrite !(shown_ext s1 s2) by done. split.
    + destruct (doubled_shows s0' s1 r data n e ids a) as (x & pg & _ & _ & ->); try done. apply Hok0'.
    + apply (doubled_circular s0' s1 r data n e ids); try done; [apply Hok0'|].
      unfold files_distinct. by rewrite R2.
  - destruct (doubled_free s0' s1 s2 r e ids pool data) as (s3 & s4 & Hf & Hok4 & Hm4 & He4 & Hms4 & Hps3 & Hu1 & Hu2);
      try done. fold n in Hu1, Hu2.
    destruct (doubled_free_space s0' s1 s2 s3 s4 r data n e) as [Hf4 Hz4]; try done; [apply Hok0'|].
    exists s4, used, q, rest. split; [done|]. split; [done|].
    split; [rewrite R2 in Hm4; by eapply mark_roundtrip|].
    rewrite Hms4, R4, Hms, He4, R3, Hes, upd_upd. split.
    { pose proof (at_range _ _ _ He). unfold at_ in He. rewrite (proj2 (Z.leb_le _ _)) in He by lia.
      by apply list_insert_id. }
    split; [done|]. split; [congruence|]. split; [done|]. rewrite A1 in *. split; [done|].
    intros x. rewrite Hz4, Rz, leaked_app, leaked_one, A1, A3. fold total.
    assert (leaked s0 total used x <-> leaked s total used x) as -> by (unfold leaked; by rewrite A1).
    pose proof (pf_range _ _ Hfits) as Hr4. rewrite A1 in Hr4. unfold file_at, leaked in Hff. rewrite A1, A3 in Hff.
    fold total in Hff. fold (leaked s total used) in Hff.
    split; [intros [[?|[?|?]] ?]; [by left|by right; left|right; right; lia]|].
    intros [Hx|[Hx|Hx]].
    + split; [by left|]. intros Hin. by destruct (Hff x ltac:(lia)) as (_ & ? & _).
    + split; [by right; left|]. intros Hin. by destruct (Hff x ltac:(lia)) as (_ & _ & ? & _).
    + split; [right; right; lia|lia].
Qed.

(** 80000 bytes on the four pages: the second mapping of the first round is refused. *)
Definition refused_round : pool_round := (Some 0x600000001000, fun _ => true, fun _ => false).
Definition accepted_round : pool_round := (Some 0x610000000000, fun _ => true, fun _ => true).

Definition small_pool : mehcached_pool := Pool 2 0 ∅ 2097152 2097151 0 0.

Lemma small_machine :
  pool_machine (four_run []) 2097152 0 [refused_round] accepted_round [0x600000001000; 0x610000000000].
Proof.
  destruct (init_ok 2097152 1 4 4 four_pages (fun _ => 0) (fun a => a) four_pages_config)
    as (s & Hs & Hok & _).
  assert (four_run [] = s) as Hrun by (unfold four_run, four_init; rewrite Hs; reflexivity).
  split.
  - by rewrite Hrun.
  - rewrite Hrun. by eapply init_files.
  - apply (bool_decide_unpack (_ <= _ <= _)). vm_compute. exact I.
  - set (o := mehcached_shm_alloc true (four_run []) 2097152 0).
    assert (o = Some (0, snd (default (0, no_shm) o))) as Ho by (apply default_pair; vm_compute; reflexivity).
    exists 0, (snd (default (0, no_shm) o)). split; [exact Ho|done].
  - exists 0, 1. split; [done|].
    split; exists zero_mapping; (split; [vm_compute; reflexivity|reflexivity]).
  - done.
  - exact two_attempts_honest.
  - by split.
Qed.

Theorem pool_memory_circular_witness :
  exists data s', pool_init_shm true [refused_round; accepted_round] ∅ (four_run []) 80000 true true 0 =
      Some (small_pool, data, s') /\
    shown s' (data + 5) = shown s' (data + 2097157) /\
    exists s2, mehcached_pool_free small_pool data s' = Some s2 /\
      address_space s2 = address_space (four_run []).
Proof.
  destruct (pool_memory_circular ∅ 80000 true true small_pool (four_run []) 0 [refused_round] accepted_round
    [0x600000001000; 0x610000000000])
    as (data & s' & H & Hsee & s2 & used & q & rest & Hf & _ & _ & _ & _ & Hspace & _).
  - vm_compute. reflexivity.
  - exact small_machine.
  - exists data, s'. split; [exact H|]. split.
    + apply (Hsee 5 2097157); [vm_compute; split; [discriminate|reflexivity]..|reflexivity].
    + exists s2. split; [exact Hf|exact Hspace].
Defined.
