(* ===== verification/MallocAlloc.v ===== *)
(** * Allocation with malloc: [ported-mica/alloc_malloc.c]

    Items are blocks of the C heap, named by their distance from a base pointer so that the
    name fits the 40 offset bits of an item vector.  The heap is the set of live blocks with
    their sizes and the words at their starts; what malloc answers is an argument of the
    operations, freeing a pointer that is not a live block is [None]. *)
From S2P Require Import Prelude PoolAlloc.

Definition MEHCACHED_MALLOC_INSUFFICIENT_SPACE : Z := 2 ^ 64 - 1.

Record heap := Heap { live_blocks : gmap Z Z; item_sizes : gmap Z Z }.

Definition c_malloc (h : heap) (answer : option Z) (size : Z) : option Z * heap :=
  match answer with
  | Some p => (Some p, Heap (<[p := size]> (live_blocks h)) (item_sizes h))
  | None => (None, h)
  end.

Definition c_free (h : heap) (p : Z) : option heap :=
  _ ← live_blocks h !! p; Some (Heap (delete p (live_blocks h)) (delete p (item_sizes h))).

Record mehcached_malloc := Malloc { pointer_base : Z }.

Definition mehcached_malloc_init (ptr : Z) : mehcached_malloc := Malloc (u64 (ptr - 0x7fffffff)).

Definition mehcached_malloc_item (alloc : mehcached_malloc) (malloc_offset : Z) : Z :=
  u64 (pointer_base alloc + malloc_offset).

Definition mehcached_malloc_allocate (alloc : mehcached_malloc) (h : heap) (answer : option Z)
    (item_size : Z) : option (Z * heap) :=
  match c_malloc h answer item_size with
  | (None, h) => Some (MEHCACHED_MALLOC_INSUFFICIENT_SPACE, h)
  | (Some p, h) =>
      let malloc_offset := u64 (p - pointer_base alloc) in
      if malloc_offset >? MEHCACHED_ITEM_OFFSET_MASK then None else
      Some (malloc_offset, Heap (live_blocks h) (<[p := item_size]> (item_sizes h)))
  end.

Definition mehcached_malloc_deallocate (alloc : mehcached_malloc) (h : heap) (malloc_offset : Z)
    : option heap :=
  c_free h (u64 (pointer_base alloc + malloc_offset)).

(** ** Offsets name blocks *)

Lemma malloc_offset_item alloc p :
  0 <= p < 2 ^ 64 -> mehcached_malloc_item alloc (u64 (p - pointer_base alloc)) = p.
Proof.
  intros Hp. unfold mehcached_malloc_item, u64, wrap. rewrite Zplus_mod_idemp_r.
  replace (pointer_base alloc + (p - pointer_base alloc)) with p by lia. by apply Z.mod_small.
Qed.

(** An offset finds its block and its size again, giving it back frees exactly that block;
    it is refused when the block is not within 2^40 bytes above the base, 2^31 - 1 bytes
    below the first block of the process. *)
Theorem malloc_offsets_roundtrip ptr h p n :
  0 <= p < 2 ^ 63 -> 0x7fffffff <= ptr < 2 ^ 63 -> live_blocks h !! p = None ->
  item_sizes h !! p = None ->
  let alloc := mehcached_malloc_init ptr in
  (0 <= p - (ptr - 0x7fffffff) < 2 ^ 40 ->
     exists o h', mehcached_malloc_allocate alloc h (Some p) n = Some (o, h') /\ 0 <= o < 2 ^ 40 /\
       mehcached_malloc_item alloc o = p /\ item_sizes h' !! p = Some n /\
       mehcached_malloc_deallocate alloc h' o = Some h) /\
  (~ 0 <= p - (ptr - 0x7fffffff) < 2 ^ 40 -> mehcached_malloc_allocate alloc h (Some p) n = None).
Proof.
  intros Hp Hptr Hl Hs alloc. unfold mehcached_malloc_allocate. cbn [c_malloc live_blocks item_sizes].
  assert (pointer_base alloc = ptr - 0x7fffffff) as Hb by (cbn; apply wrap_small; lia).
  split; intros Hr.
  - rewrite (wrap_small 64) by (rewrite Hb; lia).
    change MEHCACHED_ITEM_OFFSET_MASK with (2 ^ 40 - 1).
    destruct (Z.gtb_spec (p - pointer_base alloc) (2 ^ 40 - 1)); [lia|]. eexists _, _.
    split; [done|]. split; [lia|].
    assert (u64 (pointer_base alloc + (p - pointer_base alloc)) = p) as Hi.
    { replace (pointer_base alloc + (p - pointer_base alloc)) with p by lia. apply (wrap_small 64). lia. }
    split; [done|]. split; [apply lookup_insert_eq|]. unfold mehcached_malloc_deallocate, c_free.
    rewrite Hi. cbn [live_blocks item_sizes]. rewrite lookup_insert_eq. cbn [mbind option_bind].
    rewrite !delete_insert_id by done. by destruct h.
  - change MEHCACHED_ITEM_OFFSET_MASK with (2 ^ 40 - 1).
    destruct (Z.gtb_spec (u64 (p - pointer_base alloc)) (2 ^ 40 - 1)) as [|Hle]; [done|]. exfalso.
    apply Hr. rewrite Hb in Hle. destruct (decide (0 <= p - (ptr - 0x7fffffff))) as [Hpos|Hneg].
    + rewrite (wrap_small 64) in Hle by lia. lia.
    + unfold u64, wrap in Hle. rewrite <- (Z_mod_plus_full _ 1), Z.mod_small in Hle by lia. lia.
Qed.

Lemma malloc_offsets_roundtrip_witness :
  mehcached_malloc_allocate (mehcached_malloc_init (2 ^ 40)) (Heap ∅ ∅) (Some 4096) 16 = None.
Proof.
  apply (malloc_offsets_roundtrip (2 ^ 40) (Heap ∅ ∅) 4096 16); [lia|lia|reflexivity|reflexivity|lia].
Defined.
