(* ===== verification/DynAlloc.v ===== *)
(** * Dynamic allocator of MICA: [ported-mica/alloc_dynamic.c]

    Segregated fit over one region: chunks carry their size and status in their first and
    last word, and free chunks are linked in a list for each size class.  The region is a
    map from addresses to 64-bit words; every access of the code is to an aligned word.
    [None] is a failed assertion, an access outside the region or the table of list heads,
    or a lock that is never released. *)
From S2P Require Import Prelude PoolAlloc Shm.

(** ** Data *)

Definition MEHCACHED_DYNAMIC_FREE : Z := 0.
Definition MEHCACHED_DYNAMIC_OCCUPIED : Z := 1.

Definition MEHCACHED_DYNAMIC_TAG_SIZE (vec : Z) : Z := vec &' (2 ^ 63 - 1).
Definition MEHCACHED_DYNAMIC_TAG_STATUS (vec : Z) : Z := vec >>' 63.
Definition MEHCACHED_DYNAMIC_TAG_VEC (size status : Z) : Z := size |' u64 (status <<' 63).

Definition MEHCAHCED_DYNAMIC_OVERHEAD : Z := 16.
Definition MEHCACHED_DYNAMIC_MIN_SIZE : Z := 32.
Definition MEHCACHED_DYNAMIC_MAX_SIZE : Z := 2 ^ 40 - 1.
Definition MEHCACHED_DYNAMIC_NUM_CLASSES : Z := 32.
Definition MEHCACHED_DYNAMIC_CLASS_INCREMENT : Z := 8.
Definition MEHCACHED_DYNAMIC_INSUFFICIENT_SPACE : Z := 2 ^ 64 - 1.

(** [struct mehcached_dynamic], and the words of the region; 0 is the null pointer. *)
Record mehcached_dynamic := Dynamic {
  concurrent_access_mode : Z;
  dyn_lock : Z;
  dyn_size : Z;
  dyn_data : Z;
  free_head : list Z;
  words : gmap Z Z }.

Definition set_dyn_lock (d : mehcached_dynamic) (l : Z) : mehcached_dynamic :=
  Dynamic (concurrent_access_mode d) l (dyn_size d) (dyn_data d) (free_head d) (words d).
Definition set_free_head (d : mehcached_dynamic) (c x : Z) : mehcached_dynamic :=
  Dynamic (concurrent_access_mode d) (dyn_lock d) (dyn_size d) (dyn_data d)
    (upd (free_head d) c x) (words d).
Definition set_words (d : mehcached_dynamic) (m : gmap Z Z) : mehcached_dynamic :=
  Dynamic (concurrent_access_mode d) (dyn_lock d) (dyn_size d) (dyn_data d) (free_head d) m.

Definition load_word (d : mehcached_dynamic) (a : Z) : option Z := words d !! a.

Definition store_word (d : mehcached_dynamic) (a v : Z) : option mehcached_dynamic :=
  _ ← words d !! a; Some (set_words d (<[a := v]> (words d))).

(** ** Locking *)

Definition mehcached_dynamic_lock (d : mehcached_dynamic) : option mehcached_dynamic :=
  if concurrent_access_mode d =? 2 then
    if dyn_lock d =? 0 then Some (set_dyn_lock d 1) else None
  else Some d.

Definition mehcached_dynamic_unlock (d : mehcached_dynamic) : option mehcached_dynamic :=
  if concurrent_access_mode d =? 2 then
    if dyn_lock d &' 1 =? 1 then Some (set_dyn_lock d 0) else None
  else Some d.

(** ** Size classes *)

Definition mehcached_dynamic_size_to_class_roundup (size : Z) : option Z :=
  if negb (size <=? MEHCACHED_DYNAMIC_MAX_SIZE) then None else
  Some (if size <=? MEHCACHED_DYNAMIC_MIN_SIZE +
                    (MEHCACHED_DYNAMIC_NUM_CLASSES - 1) * MEHCACHED_DYNAMIC_CLASS_INCREMENT
        then u64 (size - MEHCACHED_DYNAMIC_MIN_SIZE + MEHCACHED_DYNAMIC_CLASS_INCREMENT - 1)
               / MEHCACHED_DYNAMIC_CLASS_INCREMENT
        else MEHCACHED_DYNAMIC_NUM_CLASSES - 1).

Definition mehcached_dynamic_size_to_class_rounddown (size : Z) : option Z :=
  if negb (size <=? MEHCACHED_DYNAMIC_MAX_SIZE) then None else
  if negb (size >=? MEHCACHED_DYNAMIC_MIN_SIZE) then None else
  Some (if size <? MEHCACHED_DYNAMIC_MIN_SIZE +
                   MEHCACHED_DYNAMIC_NUM_CLASSES * MEHCACHED_DYNAMIC_CLASS_INCREMENT
        then (size - MEHCACHED_DYNAMIC_MIN_SIZE) / MEHCACHED_DYNAMIC_CLASS_INCREMENT
        else MEHCACHED_DYNAMIC_NUM_CLASSES - 1).

(** ** Free lists *)

Definition mehcached_dynamic_insert_free_chunk (d : mehcached_dynamic) (chunk_start chunk_size : Z)
    : option mehcached_dynamic :=
  chunk_class ← mehcached_dynamic_size_to_class_rounddown chunk_size;
  let tag := MEHCACHED_DYNAMIC_TAG_VEC chunk_size MEHCACHED_DYNAMIC_FREE in
  d ← store_word d (chunk_start + chunk_size - 8) tag;
  d ← store_word d chunk_start tag;
  d ← store_word d (chunk_start + 8) 0;
  head ← at_ (free_head d) chunk_class;
  d ← store_word d (chunk_start + 16) head;
  d ← (if negb (head =? 0) then
         prev ← load_word d (head + 8);
         if negb (prev =? 0) then None else store_word d (head + 8) chunk_start
       else Some d);
  Some (set_free_head d chunk_class chunk_start).

Definition mehcached_dynamic_remove_free_chunk_from_free_list (d : mehcached_dynamic)
    (chunk_start chunk_size : Z) : option mehcached_dynamic :=
  prev_chunk_start ← load_word d (chunk_start + 8);
  next_chunk_start ← load_word d (chunk_start + 16);
  d ← (if negb (prev_chunk_start =? 0) then store_word d (prev_chunk_start + 16) next_chunk_start
       else
         chunk_class ← mehcached_dynamic_size_to_class_rounddown chunk_size;
         head ← at_ (free_head d) chunk_class;
         if negb (head =? chunk_start) then None
         else Some (set_free_head d chunk_class next_chunk_start));
  if negb (next_chunk_start =? 0) then store_word d (next_chunk_start + 8) prev_chunk_start
  else Some d.

(** [for (; chunk_class < NUM_CLASSES; chunk_class++)]: [n] classes are left. *)
Fixpoint class_loop (n : nat) (heads : list Z) (chunk_class : Z) : option Z :=
  match n with
  | O => Some chunk_class
  | S n' =>
      head ← at_ heads chunk_class;
      if negb (head =? 0) then Some chunk_class else class_loop n' heads (chunk_class + 1)
  end.

(** The result is the chunk and its size; [None] inside is [false]. *)
Definition mehcached_dynamic_remove_free_chunk_from_head (d : mehcached_dynamic)
    (minimum_chunk_size : Z) : option (option (Z * Z) * mehcached_dynamic) :=
  chunk_class ← mehcached_dynamic_size_to_class_roundup minimum_chunk_size;
  chunk_class ← class_loop (Z.to_nat (MEHCACHED_DYNAMIC_NUM_CLASSES - chunk_class))
                  (free_head d) chunk_class;
  if chunk_class =? MEHCACHED_DYNAMIC_NUM_CLASSES then Some (None, d) else
  chunk_start ← at_ (free_head d) chunk_class;
  tag ← load_word d chunk_start;
  if negb (MEHCACHED_DYNAMIC_TAG_STATUS tag =? MEHCACHED_DYNAMIC_FREE) then None else
  let chunk_size := MEHCACHED_DYNAMIC_TAG_SIZE tag in
  tag' ← load_word d (chunk_start + chunk_size - 8);
  if negb (tag =? tag') then None else
  if negb (chunk_size >=? minimum_chunk_size) then None else
  d ← mehcached_dynamic_remove_free_chunk_from_free_list d chunk_start chunk_size;
  Some (Some (chunk_start, chunk_size), d).

Definition mehcached_dynamic_reset (d : mehcached_dynamic) : option mehcached_dynamic :=
  let d := Dynamic (concurrent_access_mode d) (dyn_lock d) (dyn_size d) (dyn_data d)
             (replicate (Z.to_nat MEHCACHED_DYNAMIC_NUM_CLASSES) 0) (words d) in
  mehcached_dynamic_insert_free_chunk d (dyn_data d) (dyn_size d).

(** The address of an item. *)
Definition mehcached_dynamic_item (d : mehcached_dynamic) (dynamic_offset : Z) : Z :=
  dyn_data d + dynamic_offset.

(** ** Coalescing: the new start and size of the chunk. *)

Definition mehcached_dynamic_coalese_free_chunk_left (d : mehcached_dynamic)
    (chunk_start chunk_size : Z) : option (Z * Z * mehcached_dynamic) :=
  if chunk_start =? dyn_data d then Some (chunk_start, chunk_size, d) else
  if negb (chunk_start >? dyn_data d) then None else
  tag ← load_word d (chunk_start - 8);
  if MEHCACHED_DYNAMIC_TAG_STATUS tag =? MEHCACHED_DYNAMIC_OCCUPIED
  then Some (chunk_start, chunk_size, d) else
  let adj_chunk_size := MEHCACHED_DYNAMIC_TAG_SIZE tag in
  let adj_chunk_start := chunk_start - adj_chunk_size in
  tag1 ← load_word d adj_chunk_start;
  tag2 ← load_word d (adj_chunk_start + adj_chunk_size - 8);
  if negb (tag1 =? tag2) then None else
  d ← mehcached_dynamic_remove_free_chunk_from_free_list d adj_chunk_start adj_chunk_size;
  Some (adj_chunk_start, u64 (chunk_size + adj_chunk_size), d).

Definition mehcached_dynamic_coalese_free_chunk_right (d : mehcached_dynamic)
    (chunk_start chunk_size : Z) : option (Z * Z * mehcached_dynamic) :=
  if chunk_start + chunk_size =? dyn_data d + dyn_size d then Some (chunk_start, chunk_size, d) else
  if negb (chunk_start + chunk_size <? dyn_data d + dyn_size d) then None else
  tag ← load_word d (chunk_start + chunk_size);
  if MEHCACHED_DYNAMIC_TAG_STATUS tag =? MEHCACHED_DYNAMIC_OCCUPIED
  then Some (chunk_start, chunk_size, d) else
  let adj_chunk_start := chunk_start + chunk_size in
  let adj_chunk_size := MEHCACHED_DYNAMIC_TAG_SIZE tag in
  tag2 ← load_word d (adj_chunk_start + adj_chunk_size - 8);
  if negb (tag =? tag2) then None else
  d ← mehcached_dynamic_remove_free_chunk_from_free_list d adj_chunk_start adj_chunk_size;
  Some (chunk_start, u64 (chunk_size + adj_chunk_size), d).

(** ** Allocation *)

Definition mehcached_dynamic_allocate (d : mehcached_dynamic) (item_size : Z)
    : option (Z * mehcached_dynamic) :=
  let minimum_chunk_size := u64 (MEHCACHED_ROUNDUP8 item_size + MEHCAHCED_DYNAMIC_OVERHEAD) in
  '(r, d) ← mehcached_dynamic_remove_free_chunk_from_head d minimum_chunk_size;
  match r with
  | None => Some (MEHCACHED_DYNAMIC_INSUFFICIENT_SPACE, d)
  | Some (chunk_start, chunk_size) =>
      let leftover_chunk_size := chunk_size - minimum_chunk_size in
      '(chunk_size, d) ←
        (if leftover_chunk_size >=? MEHCACHED_DYNAMIC_MIN_SIZE then
           d ← mehcached_dynamic_insert_free_chunk d (chunk_start + minimum_chunk_size)
                 leftover_chunk_size;
           Some (minimum_chunk_size, d)
         else Some (chunk_size, d));
      let tag := MEHCACHED_DYNAMIC_TAG_VEC chunk_size MEHCACHED_DYNAMIC_OCCUPIED in
      d ← store_word d (chunk_start + chunk_size - 8) tag;
      d ← store_word d chunk_start tag;
      let alloc_item := chunk_start + 8 in
      d ← store_word d alloc_item item_size;
      Some (alloc_item - dyn_data d, d)
  end.

Definition mehcached_dynamic_deallocate (d : mehcached_dynamic) (dynamic_offset : Z)
    : option mehcached_dynamic :=
  let alloc_item := mehcached_dynamic_item d dynamic_offset in
  let chunk_start := alloc_item - 8 in
  tag ← load_word d chunk_start;
  if negb (MEHCACHED_DYNAMIC_TAG_STATUS tag =? MEHCACHED_DYNAMIC_OCCUPIED) then None else
  let chunk_size := MEHCACHED_DYNAMIC_TAG_SIZE tag in
  '(chunk_start, chunk_size, d) ← mehcached_dynamic_coalese_free_chunk_left d chunk_start chunk_size;
  '(chunk_start, chunk_size, d) ← mehcached_dynamic_coalese_free_chunk_right d chunk_start chunk_size;
  mehcached_dynamic_insert_free_chunk d chunk_start chunk_size.

(** ** Set-up: [while (true)] with one round of answers of the system for each iteration;
    [contents]: the words of the pages that were mapped. *)

Fixpoint dynamic_map_loop (os : list os_round) (s : shm) (shm_id size : Z) : option (Z * shm) :=
  match os with
  | [] => None
  | (probe, mmap_ok) :: os' =>
      '(data, s) ← mehcached_shm_find_free_address s probe size;
      if data =? 0 then None else
      '(ok, s) ← mehcached_shm_map mmap_ok s shm_id data 0 size;
      if negb ok then dynamic_map_loop os' s shm_id size else Some (data, s)
  end.

Definition mehcached_dynamic_init (malloc_ok : bool) (os : list os_round) (contents : Z -> gmap Z Z)
    (s : shm) (size : Z) (concurrent_alloc_read concurrent_alloc_write : bool) (numa_node : Z)
    : option (mehcached_dynamic * shm) :=
  let mode := if negb concurrent_alloc_read then 0
              else if negb concurrent_alloc_write then 1 else 2 in
  let size := mehcached_shm_adjust_size size in
  if negb (size <=? MEHCACHED_DYNAMIC_MAX_SIZE) then None else
  '(shm_id, s) ← mehcached_shm_alloc malloc_ok s size numa_node;
  if shm_id =? SIZE_MAX then None else
  '(data, s) ← dynamic_map_loop os s shm_id size;
  '(ok, s) ← mehcached_shm_schedule_remove s shm_id;
  if negb ok then None else
  d ← mehcached_dynamic_reset (Dynamic mode 0 size data [] (contents data));
  Some (d, s).

Definition mehcached_dynamic_free (d : mehcached_dynamic) (s : shm) : option shm :=
  '(ok, s) ← mehcached_shm_unmap s (dyn_data d);
  if negb ok then None else Some s.
