(* ===== verification/DynSpec.v ===== *)
(** * Correctness of the dynamic allocator

    The region is tiled by chunks; the free ones are exactly the nodes of the free lists of
    their classes.  A chunk that is neither in use nor in a list is called loose: the
    operations loosen chunks, merge or split them, and put them back. *)
From S2P Require Import Prelude PoolAlloc Shm ShmSpec DynAlloc.

(** ** Tags and classes *)

Lemma tag_value n o :
  0 <= n < 2 ^ 63 -> o = 0 \/ o = 1 -> MEHCACHED_DYNAMIC_TAG_VEC n o = n + o * 2 ^ 63.
Proof.
  intros Hn Ho. unfold MEHCACHED_DYNAMIC_TAG_VEC.
  replace (u64 (o <<' 63)) with (o <<' 63) by (by destruct Ho as [->| ->]).
  rewrite Z.lor_comm, lor_shiftl by done. lia.
Qed.

Lemma tag_size n o :
  0 <= n < 2 ^ 63 -> o = 0 \/ o = 1 ->
  MEHCACHED_DYNAMIC_TAG_SIZE (MEHCACHED_DYNAMIC_TAG_VEC n o) = n.
Proof.
  intros Hn Ho. rewrite tag_value by done. unfold MEHCACHED_DYNAMIC_TAG_SIZE.
  change (2 ^ 63 - 1) with (Z.ones 63). rewrite Z.land_ones, Z_mod_plus_full by lia.
  by apply Z.mod_small.
Qed.

Lemma tag_status n o :
  0 <= n < 2 ^ 63 -> o = 0 \/ o = 1 ->
  MEHCACHED_DYNAMIC_TAG_STATUS (MEHCACHED_DYNAMIC_TAG_VEC n o) = o.
Proof.
  intros Hn Ho. rewrite tag_value by done. unfold MEHCACHED_DYNAMIC_TAG_STATUS.
  rewrite Z.shiftr_div_pow2, Z_div_plus_full by lia. rewrite Z.div_small by lia. lia.
Qed.

(** The class of a chunk. *)
Definition cls (n : Z) : Z := if n <? 288 then (n - 32) / 8 else 31.

Lemma cls_range n : 32 <= n -> 0 <= cls n < 32.
Proof. intros Hn. unfold cls. destruct (Z.ltb_spec n 288); Z.to_euclidean_division_equations; lia. Qed.

Lemma rounddown_cls n :
  32 <= n <= MEHCACHED_DYNAMIC_MAX_SIZE -> mehcached_dynamic_size_to_class_rounddown n = Some (cls n).
Proof.
  intros [Hn Hm]. unfold mehcached_dynamic_size_to_class_rounddown, MEHCACHED_DYNAMIC_MIN_SIZE.
  rewrite (proj2 (Z.leb_le _ _) Hm), (proj2 (Z.geb_le _ _) Hn). done.
Qed.

(** A request of up to 280 bytes is served by every chunk of its class and above. *)
Lemma roundup_cls m :
  32 <= m <= 280 -> (8 | m) ->
  mehcached_dynamic_size_to_class_roundup m = Some ((m - 32) / 8) /\ 0 <= (m - 32) / 8 < 32 /\
    forall n, 32 <= n -> (m - 32) / 8 <= cls n <-> m <= n.
Proof.
  intros Hm [q ->]. unfold mehcached_dynamic_size_to_class_roundup, MEHCACHED_DYNAMIC_MAX_SIZE.
  rewrite (proj2 (Z.leb_le _ _)) by lia. cbn [negb].
  unfold MEHCACHED_DYNAMIC_MIN_SIZE, MEHCACHED_DYNAMIC_NUM_CLASSES, MEHCACHED_DYNAMIC_CLASS_INCREMENT.
  rewrite (proj2 (Z.leb_le _ _)), (wrap_small 64) by lia. split; [|split].
  - f_equal. Z.to_euclidean_division_equations. lia.
  - Z.to_euclidean_division_equations. lia.
  - intros n Hn. unfold cls. destruct (Z.ltb_spec n 288); Z.to_euclidean_division_equations; lia.
Qed.

(** ** Chunks *)

Inductive kind := Free | Used | Loose.

#[export] Instance kind_eq_dec : EqDecision kind.
Proof. solve_decision. Defined.

Record chunk := Chunk { cstart : Z; csize : Z; ckind : kind }.

#[export] Instance chunk_eq_dec : EqDecision chunk.
Proof. solve_decision. Defined.

Definition cend (k : chunk) : Z := cstart k + csize k.

(** The chunks follow each other from [a] to [b]. *)
Fixpoint tiles (a : Z) (cs : list chunk) (b : Z) : Prop :=
  match cs with
  | [] => a = b
  | k :: cs' => cstart k = a /\ 32 <= csize k /\ (8 | csize k) /\ tiles (a + csize k) cs' b
  end.

Lemma tiles_app cs1 cs2 : forall a b,
  tiles a (cs1 ++ cs2) b <-> exists m, tiles a cs1 m /\ tiles m cs2 b.
Proof.
  induction cs1 as [|k cs1 IH]; intros a b; cbn [tiles app].
  - split; [by exists a|by intros (m & <- & ?)].
  - rewrite IH. split.
    + intros (? & ? & ? & m & ? & ?). by exists m.
    + intros (m & (? & ? & ? & ?) & ?). split; [done|]. split; [done|]. split; [done|by exists m].
Qed.

Lemma tiles_bounds cs : forall a b, tiles a cs b ->
  a <= b /\ forall k, k ∈ cs ->
    a <= cstart k /\ cend k <= b /\ 32 <= csize k /\ (8 | csize k) /\ (8 | cstart k - a).
Proof.
  induction cs as [|k cs IH]; intros a b; cbn [tiles].
  - intros ->. split; [done|]. by intros k Hk%not_elem_of_nil.
  - intros (Hs & Hn & Hd & Ht). destruct (IH _ _ Ht) as [Hab Hin]. split; [lia|].
    intros k' [->|Hk']%elem_of_cons.
    + unfold cend. rewrite Hs, Z.sub_diag. split; [done|]. split; [lia|]. split; [done|].
      split; [done|apply Z.divide_0_r].
    + destruct (Hin k' Hk') as (? & ? & ? & ? & [q Hq]). split; [lia|]. split; [done|].
      split; [done|]. split; [done|]. destruct Hd as [q' Hd]. exists (q + q'). lia.
Qed.

Lemma tiles_disjoint cs : forall a b k1 k2, tiles a cs b -> k1 ∈ cs -> k2 ∈ cs ->
  k1 = k2 \/ cend k1 <= cstart k2 \/ cend k2 <= cstart k1.
Proof.
  induction cs as [|k cs IH]; intros a b k1 k2 Ht; [by intros ?%not_elem_of_nil|].
  cbn [tiles] in Ht. destruct Ht as (Hs & Hn & _ & Ht). destruct (tiles_bounds _ _ _ Ht) as [_ Hin].
  intros [->|H1]%elem_of_cons [->|H2]%elem_of_cons; [by left|..].
  - right; left. apply Hin in H2. unfold cend. lia.
  - right; right. apply Hin in H1. unfold cend. lia.
  - by eapply IH.
Qed.

(** Addresses in different chunks differ. *)
Definition inside (k : chunk) (a : Z) : Prop := cstart k <= a < cend k.

Lemma tiles_sep cs a b k1 k2 x y :
  tiles a cs b -> k1 ∈ cs -> k2 ∈ cs -> k1 <> k2 -> inside k1 x -> inside k2 y -> x <> y.
Proof.
  intros Ht H1 H2 Hne Hx Hy. unfold inside in *.
  destruct (tiles_disjoint cs a b k1 k2 Ht H1 H2) as [|[|]]; [done|lia|lia].
Qed.

Lemma tiles_start cs a b k1 k2 :
  tiles a cs b -> k1 ∈ cs -> k2 ∈ cs -> cstart k1 = cstart k2 -> k1 = k2.
Proof.
  intros Ht H1 H2 Heq. destruct (tiles_bounds _ _ _ Ht) as [_ Hin].
  pose proof (Hin _ H1). pose proof (Hin _ H2). unfold cend in *.
  destruct (tiles_disjoint cs a b k1 k2 Ht H1 H2) as [|[|]]; [done|unfold cend in *; lia..].
Qed.

(** ** Doubly linked segments *)

Definition hdd (nx : Z) (l : list Z) : Z := default nx (head l).
Definition lst (p : Z) (l : list Z) : Z := default p (last l).

(** The nodes [l], after node [p] and before node [nx]. *)
Fixpoint seg (h : gmap Z Z) (p : Z) (l : list Z) (nx : Z) : Prop :=
  match l with
  | [] => True
  | x :: l' => h !! (x + 8) = Some p /\ h !! (x + 16) = Some (hdd nx l') /\ seg h x l' nx
  end.

Lemma lst_cons p x l : lst p (x :: l) = lst x l.
Proof. unfold lst. rewrite last_cons. by destruct (last l). Qed.

Lemma hdd_app nx l1 l2 : hdd nx (l1 ++ l2) = hdd (hdd nx l2) l1.
Proof. by destruct l1. Qed.

Lemma seg_app h l1 : forall p l2 nx,
  seg h p (l1 ++ l2) nx <-> seg h p l1 (hdd nx l2) /\ seg h (lst p l1) l2 nx.
Proof.
  induction l1 as [|x l1 IH]; intros p l2 nx; cbn [seg app].
  - unfold lst; simpl. tauto.
  - rewrite IH, lst_cons, hdd_app. tauto.
Qed.

(** Only the links of the nodes matter. *)
Lemma seg_ext h h' l : forall p nx,
  (forall x, x ∈ l -> h' !! (x + 8) = h !! (x + 8) /\ h' !! (x + 16) = h !! (x + 16)) ->
  seg h p l nx -> seg h' p l nx.
Proof.
  induction l as [|x l IH]; intros p nx Hx; cbn [seg]; [done|]. intros (H1 & H2 & H3).
  destruct (Hx x) as [-> ->]; [by left|]. split; [done|]. split; [done|]. apply IH; [|done].
  intros y Hy. apply Hx. by right.
Qed.

(** The first node gets another predecessor. *)
Lemma seg_set_prev h h' p p' x l nx :
  seg h p (x :: l) nx -> h' !! (x + 8) = Some p' -> h' !! (x + 16) = h !! (x + 16) ->
  (forall y, y ∈ l -> h' !! (y + 8) = h !! (y + 8) /\ h' !! (y + 16) = h !! (y + 16)) ->
  seg h' p' (x :: l) nx.
Proof.
  cbn [seg]. intros (_ & H2 & H3) -> -> Hl. split; [done|]. split; [done|]. by eapply seg_ext.
Qed.

(** The last node gets another successor. *)
Lemma seg_set_next h h' l : forall p nx nx',
  seg h p l nx -> NoDup l ->
  (forall x, x ∈ l -> h' !! (x + 8) = h !! (x + 8)) ->
  (forall x, x ∈ l -> x <> lst p l -> h' !! (x + 16) = h !! (x + 16)) ->
  (l <> [] -> h' !! (lst p l + 16) = Some nx') ->
  seg h' p l nx'.
Proof.
  induction l as [|x l IH]; intros p nx nx' Hs Hnd H8 H16 Hlast; cbn [seg]; [done|].
  apply NoDup_cons in Hnd as [Hx Hnd]. cbn [seg] in Hs. destruct Hs as (S1 & S2 & S3).
  rewrite lst_cons in *. split; [by rewrite H8 by (by left)|]. destruct l as [|y l].
  - split; [|done]. by apply Hlast.
  - split.
    + rewrite H16; [done|by left|]. rewrite lst_cons. intros Hxl. apply Hx. rewrite Hxl.
      unfold lst. destruct (last l) as [z|] eqn:Hz; simpl; [right; by apply last_Some_elem_of|left].
    + apply (IH x nx nx'); try done.
      * intros z Hz. apply H8. by right.
      * intros z Hz Hne. apply H16; [by right|done].
      * intros _. by apply Hlast.
Qed.

(** ** The invariant *)

Definition status (k : chunk) : Z :=
  match ckind k with Used => MEHCACHED_DYNAMIC_OCCUPIED | _ => MEHCACHED_DYNAMIC_FREE end.

Definition tag_of (k : chunk) : Z := MEHCACHED_DYNAMIC_TAG_VEC (csize k) (status k).

Definition set_kind (kd : kind) (k : chunk) : chunk := Chunk (cstart k) (csize k) kd.

Record dyn_inv (d : mehcached_dynamic) (cs : list chunk) (fl : Z -> list Z) : Prop := {
  di_data : 0 < dyn_data d;
  di_size : dyn_size d <= MEHCACHED_DYNAMIC_MAX_SIZE;
  di_end : dyn_data d + dyn_size d < 2 ^ 64;
  di_tiles : tiles (dyn_data d) cs (dyn_data d + dyn_size d);
  di_heads : length (free_head d) = 32%nat;
  di_words : forall a, dyn_data d <= a < dyn_data d + dyn_size d -> (8 | a - dyn_data d) ->
    is_Some (words d !! a);
  di_tags : forall k, k ∈ cs -> ckind k <> Loose ->
    words d !! cstart k = Some (tag_of k) /\ words d !! (cend k - 8) = Some (tag_of k);
  di_list : forall c, 0 <= c < 32 ->
    at_ (free_head d) c = Some (hdd 0 (fl c)) /\ seg (words d) 0 (fl c) 0 /\ NoDup (fl c);
  di_mem : forall c x, 0 <= c < 32 ->
    x ∈ fl c <-> exists k, k ∈ cs /\ ckind k = Free /\ cstart k = x /\ cls (csize k) = c }.

(** What an operation leaves alone: the geometry, and all words of the used chunks. *)
Record keeps (d d' : mehcached_dynamic) (cs : list chunk) : Prop := {
  kp_mode : concurrent_access_mode d' = concurrent_access_mode d;
  kp_lock : dyn_lock d' = dyn_lock d;
  kp_size : dyn_size d' = dyn_size d;
  kp_data : dyn_data d' = dyn_data d;
  kp_used : forall k a, k ∈ cs -> ckind k = Used -> inside k a -> words d' !! a = words d !! a }.

Lemma keeps_refl d cs : keeps d d cs.
Proof. by split. Qed.

Lemma dyn_keeps_trans d1 d2 d3 cs cs' :
  keeps d1 d2 cs -> keeps d2 d3 cs' ->
  (forall k, k ∈ cs -> ckind k = Used -> k ∈ cs') -> keeps d1 d3 cs.
Proof.
  intros [? ? ? ? H1] [? ? ? ? H2] Hin. split; try congruence.
  intros k a Hk Hu Ha. rewrite (H2 k a), (H1 k a); auto.
Qed.

(** Words of a chunk. *)
Lemma chunk_bounds d cs fl k :
  dyn_inv d cs fl -> k ∈ cs ->
  dyn_data d <= cstart k /\ cend k <= dyn_data d + dyn_size d /\
  32 <= csize k <= MEHCACHED_DYNAMIC_MAX_SIZE /\ (8 | csize k) /\ (8 | cstart k - dyn_data d).
Proof.
  intros Hinv Hk. destruct (tiles_bounds _ _ _ (di_tiles _ _ _ Hinv)) as [_ Hb].
  destruct (Hb k Hk) as (? & ? & ? & ? & ?). pose proof (di_size _ _ _ Hinv). unfold cend in *.
  split; [done|]. split; [done|]. split; [lia|done].
Qed.

Lemma chunk_word d cs fl k o :
  dyn_inv d cs fl -> k ∈ cs -> 0 <= o < csize k -> (8 | o) -> is_Some (words d !! (cstart k + o)).
Proof.
  intros Hinv Hk Ho Hd. destruct (chunk_bounds d cs fl k Hinv Hk) as (? & ? & ? & ? & ?).
  apply (di_words _ _ _ Hinv); [unfold cend in *; lia|].
  replace (cstart k + o - dyn_data d) with ((cstart k - dyn_data d) + o) by lia.
  by apply Z.divide_add_r.
Qed.

Lemma chunk_cls d cs fl k : dyn_inv d cs fl -> k ∈ cs ->
  mehcached_dynamic_size_to_class_rounddown (csize k) = Some (cls (csize k)) /\
  0 <= cls (csize k) < 32.
Proof.
  intros Hinv Hk. destruct (chunk_bounds d cs fl k Hinv Hk) as (_ & _ & Hn & _).
  split; [by apply rounddown_cls|]. apply cls_range. lia.
Qed.

(** The words of a node of a list lie in its chunk. *)
Lemma node_chunk d cs fl c x :
  dyn_inv d cs fl -> 0 <= c < 32 -> x ∈ fl c ->
  exists k, k ∈ cs /\ ckind k = Free /\ cstart k = x /\ cls (csize k) = c /\
    inside k x /\ inside k (x + 8) /\ inside k (x + 16) /\ x + 32 <= cend k.
Proof.
  intros Hinv Hc Hx. apply (di_mem _ _ _ Hinv c x Hc) in Hx as (k & Hk & Hf & <- & Hcl).
  destruct (chunk_bounds d cs fl k Hinv Hk) as (_ & _ & Hn & _).
  exists k. unfold inside, cend. split; [done|]. split; [done|]. split; [done|]. split; [done|]. lia.
Qed.

Lemma node_pos d cs fl c x : dyn_inv d cs fl -> 0 <= c < 32 -> x ∈ fl c -> x <> 0.
Proof.
  intros Hinv Hc Hx. destruct (node_chunk d cs fl c x Hinv Hc Hx) as (k & Hk & _ & <- & _).
  destruct (chunk_bounds d cs fl k Hinv Hk) as (? & _). pose proof (di_data _ _ _ Hinv). lia.
Qed.

(** A word outside a set of addresses is not changed by stores there. *)
Lemma store_word_ok d a v :
  is_Some (words d !! a) -> store_word d a v = Some (set_words d (<[a := v]> (words d))).
Proof. intros [w Hw]. unfold store_word. by rewrite Hw. Qed.

Lemma insert_is_Some (m : gmap Z Z) a v x : is_Some (m !! x) -> is_Some (<[a := v]> m !! x).
Proof. intros Hx. destruct (decide (a = x)) as [->|]; [rewrite lookup_insert_eq; by eexists|by rewrite lookup_insert_ne]. Qed.

(** ** Insertion *)

Section inserted.
Context (h : gmap Z Z) (s n tag hd : Z).

Definition inserted : gmap Z Z :=
  let h1 := <[s + 16 := hd]> (<[s + 8 := 0]> (<[s := tag]> (<[s + n - 8 := tag]> h))) in
  if hd =? 0 then h1 else <[hd + 8 := s]> h1.

Lemma inserted_other a :
  a <> s -> a <> s + 8 -> a <> s + 16 -> a <> s + n - 8 -> (hd <> 0 -> a <> hd + 8) ->
  inserted !! a = h !! a.
Proof.
  intros ? ? ? ? Hh. unfold inserted. destruct (Z.eqb_spec hd 0).
  - by rewrite !lookup_insert_ne by lia.
  - specialize (Hh n0). by rewrite !lookup_insert_ne by lia.
Qed.

Lemma inserted_chunk :
  32 <= n -> (hd <> 0 -> ~ (s <= hd + 8 < s + n)) ->
  inserted !! s = Some tag /\ inserted !! (s + n - 8) = Some tag /\
  inserted !! (s + 8) = Some 0 /\ inserted !! (s + 16) = Some hd.
Proof.
  intros Hn Hh. unfold inserted.
  set (h1 := <[s + 16 := hd]> (<[s + 8 := 0]> (<[s := tag]> (<[s + n - 8 := tag]> h)))).
  assert (h1 !! s = Some tag /\ h1 !! (s + n - 8) = Some tag /\ h1 !! (s + 8) = Some 0 /\
    h1 !! (s + 16) = Some hd) as (H1 & H2 & H3 & H4).
  { unfold h1. split; [|split; [|split]].
    - by rewrite !lookup_insert_ne, lookup_insert_eq by lia.
    - rewrite !(lookup_insert_ne _ _ (s + n - 8)) by lia. by rewrite lookup_insert_eq.
    - by rewrite lookup_insert_ne, lookup_insert_eq by lia.
    - by rewrite lookup_insert_eq. }
  destruct (Z.eqb_spec hd 0) as [->|Hne]; [done|]. specialize (Hh Hne).
  by rewrite !(lookup_insert_ne _ (hd + 8)) by lia.
Qed.

Lemma inserted_head : hd <> 0 -> inserted !! (hd + 8) = Some s.
Proof. intros Hh. unfold inserted. rewrite (proj2 (Z.eqb_neq _ _) Hh). apply lookup_insert_eq. Qed.

Lemma inserted_is_Some x : is_Some (h !! x) -> is_Some (inserted !! x).
Proof.
  intros Hx. unfold inserted. destruct (_ =? _); repeat apply insert_is_Some; done.
Qed.

End inserted.

Lemma insert_eval d s n c hd :
  mehcached_dynamic_size_to_class_rounddown n = Some c -> at_ (free_head d) c = Some hd ->
  is_Some (words d !! s) -> is_Some (words d !! (s + 8)) -> is_Some (words d !! (s + 16)) ->
  is_Some (words d !! (s + n - 8)) -> 32 <= n ->
  (hd <> 0 -> words d !! (hd + 8) = Some 0 /\ ~ (s <= hd + 8 < s + n)) ->
  mehcached_dynamic_insert_free_chunk d s n =
    Some (set_free_head (set_words d
      (inserted (words d) s n (MEHCACHED_DYNAMIC_TAG_VEC n MEHCACHED_DYNAMIC_FREE) hd)) c s).
Proof.
  intros Hc Hhd H1 H2 H3 H4 Hn Hh. unfold mehcached_dynamic_insert_free_chunk. rewrite Hc.
  cbn [mbind option_bind]. set (tag := MEHCACHED_DYNAMIC_TAG_VEC n MEHCACHED_DYNAMIC_FREE).
  rewrite store_word_ok by done. cbn [mbind option_bind].
  rewrite store_word_ok by (by apply insert_is_Some). cbn [mbind option_bind].
  rewrite store_word_ok by (by repeat apply insert_is_Some). cbn [mbind option_bind].
  cbn [free_head set_words]. rewrite Hhd. cbn [mbind option_bind].
  rewrite store_word_ok by (by repeat apply insert_is_Some). cbn [mbind option_bind].
  unfold inserted. destruct (Z.eqb_spec hd 0) as [->|Hne]; [done|]. cbn [negb].
  destruct (Hh Hne) as [H8 Ho]. unfold load_word. cbn [words set_words].
  rewrite !lookup_insert_ne, H8 by lia. cbn [mbind option_bind Z.eqb negb].
  rewrite store_word_ok; [done|]. cbn [words set_words]. repeat apply insert_is_Some. by rewrite H8.
Qed.

(** Pieces of a tiling around a chunk. *)
Lemma tiles_others cs1 k cs2 a b x :
  tiles a (cs1 ++ k :: cs2) b -> x ∈ cs1 ++ cs2 -> cend x <= cstart k \/ cend k <= cstart x.
Proof.
  intros (m & H1 & H2)%tiles_app. cbn [tiles] in H2. destruct H2 as (Hs & Hn & _ & H2).
  destruct (tiles_bounds _ _ _ H1) as [_ B1], (tiles_bounds _ _ _ H2) as [_ B2].
  intros [Hx|Hx]%elem_of_app; [apply B1 in Hx|apply B2 in Hx]; unfold cend in *; lia.
Qed.

Lemma elem_of_mid {A} (x k : A) cs1 cs2 : x ∈ cs1 ++ k :: cs2 <-> x = k \/ x ∈ cs1 ++ cs2.
Proof. rewrite !elem_of_app, elem_of_cons. tauto. Qed.

(** The chunk [k] of the tiling is replaced by tiles of the same room. *)
Lemma tiles_replace cs1 k ks cs2 a b :
  tiles a (cs1 ++ k :: cs2) b -> tiles (cstart k) ks (cend k) -> tiles a (cs1 ++ ks ++ cs2) b.
Proof.
  intros (m & H1 & H2)%tiles_app Hk. cbn [tiles] in H2. destruct H2 as (Hs & Hn & _ & H2).
  apply tiles_app. exists m. split; [done|]. apply tiles_app. exists (cend k).
  rewrite <- Hs. split; [done|]. unfold cend. by rewrite Hs.
Qed.

Lemma tiles_one k : 32 <= csize k -> (8 | csize k) -> tiles (cstart k) [k] (cend k).
Proof. done. Qed.

(** The head of a list, its node and its links. *)
Lemma list_head d cs fl c hd :
  dyn_inv d cs fl -> 0 <= c < 32 -> at_ (free_head d) c = Some hd ->
  (hd = 0 /\ fl c = []) \/ (hd <> 0 /\ exists l, fl c = hd :: l /\ words d !! (hd + 8) = Some 0).
Proof.
  intros Hinv Hc Hhd. destruct (di_list _ _ _ Hinv c Hc) as (Hat & Hseg & _).
  rewrite Hat in Hhd. injection Hhd as <-. destruct (fl c) as [|y l] eqn:Hfl; [by left|]. right.
  split; [|exists l; split; [done|apply Hseg]].
  apply (node_pos d cs fl c y Hinv Hc). rewrite Hfl. by left.
Qed.

(** A node of a list other than of chunk [k] stays clear of [k]. *)
Lemma node_clear d cs1 k cs2 fl c x :
  dyn_inv d (cs1 ++ k :: cs2) fl -> 0 <= c < 32 -> x ∈ fl c -> x <> cstart k \/ ckind k <> Free ->
  x + 32 <= cstart k \/ cend k <= x.
Proof.
  intros Hinv Hc Hx Hne. destruct (node_chunk _ _ _ _ _ Hinv Hc Hx) as (k' & Hk' & Hf & Hs & _ & _ & _ & _ & Hn).
  apply elem_of_mid in Hk' as [->|Hk']; [destruct Hne; congruence|].
  destruct (tiles_others _ _ _ _ _ _ (di_tiles _ _ _ Hinv) Hk'); lia.
Qed.

(** Nodes of lists are 32 bytes apart. *)
Lemma node_apart d cs fl c c' x y :
  dyn_inv d cs fl -> 0 <= c < 32 -> 0 <= c' < 32 -> x ∈ fl c -> y ∈ fl c' -> x <> y \/ c <> c' ->
  x + 32 <= y \/ y + 32 <= x.
Proof.
  intros Hinv Hc Hc' Hx Hy Hne.
  destruct (node_chunk _ _ _ _ _ Hinv Hc Hx) as (k1 & H1 & _ & Hs1 & Hc1 & _ & _ & _ & Hn1).
  destruct (node_chunk _ _ _ _ _ Hinv Hc' Hy) as (k2 & H2 & _ & Hs2 & Hc2 & _ & _ & _ & Hn2).
  destruct (tiles_disjoint _ _ _ k1 k2 (di_tiles _ _ _ Hinv) H1 H2) as [->|[|]]; [|lia|lia].
  destruct Hne; congruence.
Qed.

Section insertion.
Context (d : mehcached_dynamic) (cs1 : list chunk) (k : chunk) (cs2 : list chunk).
Context (fl : Z -> list Z) (hd : Z).
Local Notation cs := (cs1 ++ k :: cs2).
Local Notation s := (cstart k).
Local Notation n := (csize k).
Local Notation c := (cls (csize k)).
Context (Hinv : dyn_inv d cs fl) (Hk : ckind k = Loose) (Hhd : at_ (free_head d) c = Some hd).

Definition ins_words : gmap Z Z :=
  inserted (words d) s n (MEHCACHED_DYNAMIC_TAG_VEC n MEHCACHED_DYNAMIC_FREE) hd.
Definition ins_lists (c' : Z) : list Z := if decide (c' = c) then s :: fl c else fl c'.
Definition ins_state : mehcached_dynamic := set_free_head (set_words d ins_words) c s.

Lemma ins_in : k ∈ cs.
Proof. apply elem_of_mid. by left. Qed.

Lemma ins_bounds : dyn_data d <= s /\ s + n <= dyn_data d + dyn_size d /\
  32 <= n <= MEHCACHED_DYNAMIC_MAX_SIZE /\ (8 | n) /\ 0 <= c < 32.
Proof.
  destruct (chunk_bounds d cs fl k Hinv ins_in) as (? & ? & ? & ? & _).
  by destruct (chunk_cls d cs fl k Hinv ins_in) as [_ ?].
Qed.

Lemma ins_head :
  hd = 0 /\ fl c = [] \/ hd <> 0 /\ exists l, fl c = hd :: l /\ words d !! (hd + 8) = Some 0.
Proof. destruct ins_bounds as (_ & _ & _ & _ & Hc). by apply (list_head d cs fl c hd Hinv Hc). Qed.

(** The nodes of the lists lie beside the chunk. *)
Lemma ins_clear c' x : 0 <= c' < 32 -> x ∈ fl c' -> x + 32 <= s \/ s + n <= x.
Proof. intros Hc' Hx. apply (node_clear d cs1 k cs2 fl c' x Hinv Hc' Hx). right. congruence. Qed.

Lemma ins_head_in : hd <> 0 -> hd ∈ fl c /\ words d !! (hd + 8) = Some 0.
Proof. intros Hne. destruct ins_head as [[? _]|(_ & l & -> & H8)]; [done|]. split; [by left|done]. Qed.

Lemma ins_head_clear : hd <> 0 -> words d !! (hd + 8) = Some 0 /\ ~ (s <= hd + 8 < s + n).
Proof.
  intros Hne. destruct (ins_head_in Hne) as [Hx H8]. split; [done|].
  destruct ins_bounds as (_ & _ & _ & _ & Hc). pose proof (ins_clear c hd Hc Hx). lia.
Qed.

Lemma ins_eval : mehcached_dynamic_insert_free_chunk d s n = Some ins_state.
Proof.
  destruct ins_bounds as (B1 & B2 & B3 & B4 & Hc).
  assert (forall o, 0 <= o < n -> (8 | o) -> is_Some (words d !! (s + o))) as Hw
    by (intros o ? ?; by apply (chunk_word d cs fl k); [|apply ins_in|..]).
  destruct (chunk_cls d cs fl k Hinv ins_in) as [Hcl _].
  apply insert_eval; try done; [| | | |lia|by apply ins_head_clear].
  - replace s with (s + 0) by lia. apply Hw; [lia|apply Z.divide_0_r].
  - apply Hw; [lia|by exists 1].
  - apply Hw; [lia|by exists 2].
  - replace (s + n - 8) with (s + (n - 8)) by lia. apply Hw; [lia|]. apply Z.divide_sub_r; [done|by exists 1].
Qed.

Lemma ins_other a :
  a < s \/ s + n <= a -> (hd <> 0 -> a <> hd + 8) -> ins_words !! a = words d !! a.
Proof. intros Ha Hah. destruct ins_bounds as (_ & _ & B3 & _). apply inserted_other; lia || done. Qed.

(** Only the first node of the class gets a new predecessor. *)
Lemma ins_node c' x : 0 <= c' < 32 -> x ∈ fl c' -> c' <> c \/ x <> hd ->
  ins_words !! (x + 8) = words d !! (x + 8) /\ ins_words !! (x + 16) = words d !! (x + 16).
Proof.
  intros Hc' Hx Hne. destruct ins_bounds as (_ & _ & _ & _ & Hc). pose proof (ins_clear c' x Hc' Hx).
  assert (hd <> 0 -> x + 32 <= hd \/ hd + 32 <= x) as Hap.
  { intros Hhd0. destruct (ins_head_in Hhd0) as [Hh _].
    apply (node_apart d cs fl c' c x hd); [done..|tauto]. }
  split; apply ins_other; lia.
Qed.

(** The other chunks keep their words, but for the link of that node. *)
Lemma ins_chunk k' a : k' ∈ cs1 ++ cs2 -> cstart k' <= a < cend k' ->
  ckind k' = Free -> ~ (cstart k' + 8 <= a < cend k' - 8) -> ins_words !! a = words d !! a.
Proof.
  intros Hk' Ha Hf Hout. assert (k' ∈ cs) as Hk'' by (apply elem_of_mid; by right).
  pose proof (tiles_others _ _ _ _ _ _ (di_tiles _ _ _ Hinv) Hk') as Ho. unfold cend in *.
  apply ins_other; [lia|]. intros Hhd0. destruct (ins_head_in Hhd0) as [Hh _].
  destruct ins_bounds as (_ & _ & _ & _ & Hc).
  destruct (node_chunk d cs fl c hd Hinv Hc Hh) as (kh & Hkh & _ & Hsh & _ & _ & _ & _ & Hnh).
  destruct (tiles_disjoint _ _ _ kh k' (di_tiles _ _ _ Hinv) Hkh Hk'') as [<-|[|]]; unfold cend in *; lia.
Qed.

Lemma ins_used k' a : k' ∈ cs1 ++ cs2 -> inside k' a -> ckind k' <> Free -> ins_words !! a = words d !! a.
Proof.
  intros Hk' Ha Hf. assert (k' ∈ cs) as Hk'' by (apply elem_of_mid; by right).
  pose proof (tiles_others _ _ _ _ _ _ (di_tiles _ _ _ Hinv) Hk') as Ho. unfold inside in Ha.
  apply ins_other; [unfold cend in *; lia|]. intros Hhd0. destruct (ins_head_in Hhd0) as [Hh _].
  destruct ins_bounds as (_ & _ & _ & _ & Hc).
  destruct (node_chunk d cs fl c hd Hinv Hc Hh) as (kh & Hkh & Hfh & _ & _ & _ & Hi & _).
  apply (tiles_sep cs _ _ k' kh a (hd + 8) (di_tiles _ _ _ Hinv)); try done. congruence.
Qed.

Lemma ins_tags k' : k' ∈ cs1 ++ set_kind Free k :: cs2 -> ckind k' <> Loose ->
  ins_words !! cstart k' = Some (tag_of k') /\ ins_words !! (cend k' - 8) = Some (tag_of k').
Proof.
  destruct ins_bounds as (_ & _ & B3 & _).
  destruct (inserted_chunk (words d) s n (MEHCACHED_DYNAMIC_TAG_VEC n MEHCACHED_DYNAMIC_FREE) hd)
    as (V1 & V2 & _ & _); [lia|intros Hne; by apply ins_head_clear|].
  intros [->|Hk']%elem_of_mid Hl; [by split|].
  assert (k' ∈ cs) as Hk'' by (apply elem_of_mid; by right).
  destruct (chunk_bounds d cs fl k' Hinv Hk'') as (_ & _ & Bn & _).
  assert (forall a, inside k' a -> ~ (cstart k' + 8 <= a < cend k' - 8) -> ins_words !! a = words d !! a) as Ha.
  { intros a Hi Hout. destruct (decide (ckind k' = Free)); [by apply (ins_chunk k')|by apply (ins_used k')]. }
  rewrite !Ha by (unfold inside, cend; lia). by apply (di_tags _ _ _ Hinv).
Qed.

Lemma ins_list c' : 0 <= c' < 32 ->
  at_ (free_head ins_state) c' = Some (hdd 0 (ins_lists c')) /\
  seg ins_words 0 (ins_lists c') 0 /\ NoDup (ins_lists c').
Proof.
  intros Hc'. destruct ins_bounds as (_ & _ & B3 & _ & Hc).
  cbn [free_head set_free_head set_words ins_state]. unfold ins_lists.
  rewrite at_upd by (lia || by eexists). destruct (di_list _ _ _ Hinv c' Hc') as (L1 & L2 & L3).
  case_decide as Hcc; [subst c'|].
  - split; [done|]. split.
    + destruct (inserted_chunk (words d) s n (MEHCACHED_DYNAMIC_TAG_VEC n MEHCACHED_DYNAMIC_FREE) hd)
        as (_ & _ & V3 & V4); [lia|intros Hne; by apply ins_head_clear|].
      cbn [seg]. unfold ins_words. rewrite V3, V4. split; [done|].
      destruct ins_head as [[-> Hl]|(Hne & l & Hl & _)]; rewrite Hl; [done|]. split; [done|].
      rewrite Hl in L2, L3. apply NoDup_cons in L3 as [Hnin _].
      apply (seg_set_prev (words d) _ 0 s hd l 0 L2); [by apply inserted_head| |].
      * destruct (ins_head_in Hne) as [Hx _]. pose proof (ins_clear c hd Hc Hx). apply ins_other; lia.
      * intros y Hy. apply (ins_node c); [done|rewrite Hl; by right|right]. by intros ->.
    + apply NoDup_cons. split; [|done]. intros Hs. pose proof (ins_clear c s Hc Hs). lia.
  - split; [done|]. split; [|done]. eapply seg_ext; [|done]. intros x Hx. apply (ins_node c'); tauto.
Qed.

Lemma ins_mem c' x : 0 <= c' < 32 -> x ∈ ins_lists c' <->
  exists k', k' ∈ cs1 ++ set_kind Free k :: cs2 /\ ckind k' = Free /\ cstart k' = x /\ cls (csize k') = c'.
Proof.
  intros Hc'. assert (x ∈ ins_lists c' <-> (c' = c /\ x = s) \/ x ∈ fl c') as ->.
  { unfold ins_lists. case_decide as Hcc; [subst c'; rewrite elem_of_cons|]; tauto. }
  rewrite (di_mem _ _ _ Hinv c' x Hc'). split.
  - intros [[-> ->]|(k' & Hk' & Hf & Hs & Hcls)].
    + exists (set_kind Free k). split; [apply elem_of_mid; by left|done].
    + exists k'. split; [|done]. apply elem_of_mid. apply elem_of_mid in Hk' as [->|]; [congruence|by right].
  - intros (k' & [->|Hk']%elem_of_mid & Hf & Hs & Hcls); [by left|]. right. exists k'.
    split; [apply elem_of_mid; by right|done].
Qed.

Lemma ins_inv : dyn_inv ins_state (cs1 ++ set_kind Free k :: cs2) ins_lists.
Proof.
  destruct ins_bounds as (_ & _ & B3 & B4 & _). split; cbn; try apply Hinv.
  - eapply (tiles_replace cs1 k [set_kind Free k]); [apply Hinv|].
    apply (tiles_one (set_kind Free k)); [simpl; lia|done].
  - rewrite upd_length. apply Hinv.
  - intros a Ha Hd. apply inserted_is_Some. by apply Hinv.
  - apply ins_tags.
  - apply ins_list.
  - apply ins_mem.
Qed.

Lemma ins_keeps : keeps d ins_state cs.
Proof.
  split; try done. intros k' a [->|Hk']%elem_of_mid Hu Ha; [congruence|]. apply (ins_used k'); congruence.
Qed.
End insertion.

Lemma insert_ok d cs1 k cs2 fl :
  dyn_inv d (cs1 ++ k :: cs2) fl -> ckind k = Loose ->
  exists d' fl', mehcached_dynamic_insert_free_chunk d (cstart k) (csize k) = Some d' /\
    dyn_inv d' (cs1 ++ set_kind Free k :: cs2) fl' /\ keeps d d' (cs1 ++ k :: cs2).
Proof.
  intros Hinv Hk. destruct (at_Some (free_head d) (cls (csize k))) as [hd Hhd].
  { rewrite (di_heads _ _ _ Hinv). apply (ins_bounds d cs1 k cs2 fl Hinv). }
  exists (ins_state d k hd), (ins_lists k fl).
  split; [by eapply ins_eval|]. split; [by eapply ins_inv|by eapply ins_keeps].
Qed.

(** ** Removal *)

Definition removed (h : gmap Z Z) (prev next : Z) : gmap Z Z :=
  let h1 := if prev =? 0 then h else <[prev + 16 := next]> h in
  if next =? 0 then h1 else <[next + 8 := prev]> h1.

Lemma removed_other h prev next a :
  (prev <> 0 -> a <> prev + 16) -> (next <> 0 -> a <> next + 8) -> removed h prev next !! a = h !! a.
Proof.
  intros Hp Hn. unfold removed. destruct (Z.eqb_spec next 0), (Z.eqb_spec prev 0); try done;
    rewrite ?lookup_insert_ne; try done; intros ?; [by apply Hp|by apply Hn|by apply Hp|by apply Hn].
Qed.

Lemma removed_prev h prev next :
  prev <> 0 -> (next <> 0 -> prev + 16 <> next + 8) -> removed h prev next !! (prev + 16) = Some next.
Proof.
  intros Hp Hn. unfold removed. rewrite (proj2 (Z.eqb_neq _ _) Hp).
  destruct (Z.eqb_spec next 0) as [|Hne]; [apply lookup_insert_eq|].
  rewrite lookup_insert_ne by (intros ?; by apply Hn). apply lookup_insert_eq.
Qed.

Lemma removed_next h prev next : next <> 0 -> removed h prev next !! (next + 8) = Some prev.
Proof. intros Hn. unfold removed. rewrite (proj2 (Z.eqb_neq _ _) Hn). apply lookup_insert_eq. Qed.

Lemma removed_is_Some h prev next x : is_Some (h !! x) -> is_Some (removed h prev next !! x).
Proof. intros Hx. unfold removed. destruct (next =? 0), (prev =? 0); repeat apply insert_is_Some; done. Qed.

Lemma remove_eval d s n c prev next :
  words d !! (s + 8) = Some prev -> words d !! (s + 16) = Some next ->
  (prev = 0 -> mehcached_dynamic_size_to_class_rounddown n = Some c /\ at_ (free_head d) c = Some s) ->
  (prev <> 0 -> is_Some (words d !! (prev + 16))) -> (next <> 0 -> is_Some (words d !! (next + 8))) ->
  mehcached_dynamic_remove_free_chunk_from_free_list d s n =
    Some (set_words (if prev =? 0 then set_free_head d c next else d) (removed (words d) prev next)).
Proof.
  intros Hp Hn Hc Hsp Hsn. unfold mehcached_dynamic_remove_free_chunk_from_free_list, load_word.
  rewrite Hp, Hn. cbn [mbind option_bind]. unfold removed. destruct (Z.eqb_spec prev 0) as [->|Hp0]; cbn [negb].
  - destruct (Hc eq_refl) as [-> Hat]. cbn [mbind option_bind]. rewrite Hat. cbn [mbind option_bind].
    rewrite Z.eqb_refl. cbn [negb mbind option_bind].
    destruct (Z.eqb_spec next 0) as [->|Hn0]; cbn [negb]; [by destruct d|].
    rewrite store_word_ok by (by apply Hsn). done.
  - rewrite store_word_ok by (by apply Hsp). cbn [mbind option_bind].
    destruct (Z.eqb_spec next 0) as [->|Hn0]; cbn [negb]; [done|].
    rewrite store_word_ok by (cbn; apply insert_is_Some; by apply Hsn). done.
Qed.

Lemma lst_elem p l : l <> [] -> lst p l ∈ l.
Proof.
  destruct l as [|x l] using rev_ind; [done|]. intros _. unfold lst. rewrite last_snoc. simpl.
  apply elem_of_app. right. by left.
Qed.

Lemma hdd_elem nx l : l <> [] -> hdd nx l ∈ l.
Proof. destruct l; [done|]. intros _. by left. Qed.

(** The neighbours of a node in its list. *)
Record neighbours (d : mehcached_dynamic) (fl : Z -> list Z) (c s : Z) (l1 l2 : list Z) : Prop := {
  nb_split : fl c = l1 ++ s :: l2;
  nb_prev : words d !! (s + 8) = Some (lst 0 l1);
  nb_next : words d !! (s + 16) = Some (hdd 0 l2);
  nb_seg1 : seg (words d) 0 l1 s;
  nb_seg2 : seg (words d) s l2 0;
  nb_nodup : NoDup (l1 ++ l2) /\ s ∉ l1 ++ l2;
  nb_prev0 : lst 0 l1 = 0 <-> l1 = [];
  nb_next0 : hdd 0 l2 = 0 <-> l2 = [] }.

Lemma neighbours_of d cs fl c s :
  dyn_inv d cs fl -> 0 <= c < 32 -> s ∈ fl c -> exists l1 l2, neighbours d fl c s l1 l2.
Proof.
  intros Hinv Hc Hs. apply list_elem_of_split in Hs as (l1 & l2 & Hl). exists l1, l2.
  destruct (di_list _ _ _ Hinv c Hc) as (_ & Hseg & Hnd). rewrite Hl in Hseg, Hnd.
  apply seg_app in Hseg as [H1 (H2 & H3 & H4)].
  assert (forall x, x ∈ l1 ++ l2 -> x <> 0) as Hpos.
  { intros x Hx. apply (node_pos d cs fl c x Hinv Hc). rewrite Hl. apply elem_of_mid. by right. }
  split; try done.
  - apply NoDup_app in Hnd as (N1 & N2 & N3). apply NoDup_cons in N3 as [N3 N4]. split.
    + apply NoDup_app. split; [done|]. split; [|done]. intros x Hx Hx2. apply (N2 x Hx). by right.
    + intros [Hx|Hx]%elem_of_app; [|done]. apply (N2 s Hx). by left.
  - split; [|by intros ->]. intros H0. destruct l1 as [|y l1]; [done|]. exfalso.
    apply (Hpos 0); [|done]. apply elem_of_app. left. rewrite <- H0. by apply lst_elem.
  - split; [|by intros ->]. intros H0. destruct l2 as [|y l2]; [done|]. exfalso.
    apply (Hpos 0); [|done]. apply elem_of_app. right. rewrite <- H0. by apply hdd_elem.
Qed.

(** Nodes [x] and [y]: the same, or 32 bytes apart. *)
Definition apart (x y : Z) : Prop := x = y \/ x + 32 <= y \/ y + 32 <= x.

Lemma removed_seg d fl c s l1 l2 :
  neighbours d fl c s l1 l2 ->
  (forall x y, x ∈ l1 ++ l2 -> y ∈ l1 ++ l2 -> apart x y) ->
  seg (removed (words d) (lst 0 l1) (hdd 0 l2)) 0 (l1 ++ l2) 0.
Proof.
  intros [_ _ _ H1 H2 [Hnd _] Hp0 Hn0] Hap. apply NoDup_app in Hnd as (N1 & N12 & N2).
  set (prev := lst 0 l1) in *. set (next := hdd 0 l2) in *.
  assert (prev <> 0 -> prev ∈ l1) as Hprev by (intros Hne; apply lst_elem; tauto).
  assert (next <> 0 -> next ∈ l2) as Hnext by (intros Hne; apply hdd_elem; tauto).
  assert (forall x y, x ∈ l1 -> y ∈ l2 -> x <> y /\ apart x y) as H12.
  { intros x y Hx Hy. split; [intros ->; by apply (N12 y)|]. apply Hap; apply elem_of_app; tauto. }
  assert (forall x y, x ∈ l1 -> y ∈ l1 -> apart x y) as H11 by (intros; apply Hap; apply elem_of_app; tauto).
  assert (forall x y, x ∈ l2 -> y ∈ l2 -> apart x y) as H22 by (intros; apply Hap; apply elem_of_app; tauto).
  unfold apart in *. apply seg_app. split.
  - apply (seg_set_next (words d) _ l1 0 s next); try done.
    + intros x Hx. apply removed_other; intros Hne.
      * specialize (H11 x prev Hx (Hprev Hne)). lia.
      * specialize (H12 x next Hx (Hnext Hne)). lia.
    + intros x Hx Hxp. apply removed_other; intros Hne.
      * specialize (H11 x prev Hx (Hprev Hne)). fold prev in Hxp. lia.
      * specialize (H12 x next Hx (Hnext Hne)). lia.
    + intros Hl1. assert (prev <> 0) as Hne by tauto. apply removed_prev; [done|].
      intros Hne'. specialize (H12 prev next (Hprev Hne) (Hnext Hne')). lia.
  - destruct l2 as [|y l2]; [done|]. assert (next <> 0) as Hne by (intros H0; apply Hn0 in H0; done).
    apply NoDup_cons in N2 as [N2 _]. change next with y in *.
    apply (seg_set_prev (words d) _ s prev y l2 0 H2); [by apply removed_next| |].
    + apply removed_other; intros ?; [|lia]. specialize (H12 prev y (Hprev H) ltac:(by left)). lia.
    + intros z Hz. assert (z <> y) by (intros ->; done).
      specialize (H22 z y ltac:(by right) ltac:(by left)).
      split; apply removed_other; intros Hp; try lia;
        specialize (H12 prev z (Hprev Hp) ltac:(by right)); lia.
Qed.

Section removal.
Context (d : mehcached_dynamic) (cs1 : list chunk) (k : chunk) (cs2 : list chunk).
Context (fl : Z -> list Z) (l1 l2 : list Z).
Local Notation cs := (cs1 ++ k :: cs2).
Local Notation s := (cstart k).
Local Notation n := (csize k).
Local Notation c := (cls (csize k)).
Local Notation prev := (lst 0 l1).
Local Notation next := (hdd 0 l2).
Context (Hinv : dyn_inv d cs fl) (Hk : ckind k = Free) (Hnb : neighbours d fl c s l1 l2).

Definition rem_words : gmap Z Z := removed (words d) prev next.
Definition rem_lists (c' : Z) : list Z := if decide (c' = c) then l1 ++ l2 else fl c'.
Definition rem_state : mehcached_dynamic :=
  set_words (if prev =? 0 then set_free_head d c next else d) rem_words.

Lemma rem_class : 0 <= c < 32.
Proof. apply (chunk_cls d cs fl k Hinv). apply elem_of_mid. by left. Qed.

Lemma rem_sub x : x ∈ l1 ++ l2 -> x ∈ fl c.
Proof. intros Hx. destruct Hnb as [-> _ _ _ _ _ _ _]. apply elem_of_mid. by right. Qed.

(** The neighbours are nodes of the class, other than the chunk. *)
Lemma rem_prev : prev <> 0 -> prev ∈ fl c /\ prev <> s.
Proof.
  intros Hne. destruct Hnb as [_ _ _ _ _ [_ Hsn] Hp0 _].
  assert (prev ∈ l1 ++ l2) as Hx by (apply elem_of_app; left; apply lst_elem; tauto).
  split; [by apply rem_sub|]. intros Heq. by rewrite Heq in Hx.
Qed.

Lemma rem_next : next <> 0 -> next ∈ fl c /\ next <> s.
Proof.
  intros Hne. destruct Hnb as [_ _ _ _ _ [_ Hsn] _ Hn0].
  assert (next ∈ l1 ++ l2) as Hx by (apply elem_of_app; right; apply hdd_elem; tauto).
  split; [by apply rem_sub|]. intros Heq. by rewrite Heq in Hx.
Qed.

Lemma rem_eval : mehcached_dynamic_remove_free_chunk_from_free_list d s n = Some rem_state.
Proof.
  assert (k ∈ cs) as Hin by (apply elem_of_mid; by left).
  destruct (chunk_cls d cs fl k Hinv Hin) as [Hcl Hc].
  assert (forall x, x ∈ fl c -> is_Some (words d !! (x + 8)) /\ is_Some (words d !! (x + 16))) as Hnw.
  { intros x Hx. destruct (node_chunk d cs fl c x Hinv Hc Hx) as (kx & Hkx & _ & <- & _).
    pose proof (chunk_bounds d cs fl kx Hinv Hkx).
    split; apply (chunk_word d cs fl kx); first [done|lia|by exists 1|by exists 2]. }
  pose proof Hnb as [Hl Hp Hn _ _ _ Hp0 _]. apply remove_eval; try done.
  - intros H0. split; [done|]. rewrite (proj1 (di_list _ _ _ Hinv c Hc)), Hl. apply Hp0 in H0. by rewrite H0.
  - intros Hne. by apply Hnw, rem_prev.
  - intros Hne. by apply Hnw, rem_next.
Qed.

(** Only links of nodes of the class change. *)
Lemma rem_other a :
  (forall x, x ∈ fl c -> x <> s -> ~ (x + 8 <= a <= x + 16)) -> rem_words !! a = words d !! a.
Proof.
  intros Ha. apply removed_other; intros Hne ->.
  - destruct (rem_prev Hne) as [Hx Hs]. apply (Ha prev Hx Hs). lia.
  - destruct (rem_next Hne) as [Hx Hs]. apply (Ha next Hx Hs). lia.
Qed.

Lemma rem_outside k' a :
  k' ∈ cs -> inside k' a -> ckind k' <> Free \/ ~ (cstart k' + 8 <= a < cend k' - 8) ->
  rem_words !! a = words d !! a.
Proof.
  intros Hk' Ha Hout. apply rem_other. intros x Hx _ Hxa.
  destruct (node_chunk d cs fl c x Hinv rem_class Hx) as (kx & Hkx & Hfx & Hsx & _ & _ & _ & _ & Hnx).
  unfold inside in Ha.
  destruct (tiles_disjoint _ _ _ kx k' (di_tiles _ _ _ Hinv) Hkx Hk') as [->|[|]]; unfold cend in *; [|lia..].
  destruct Hout; [done|lia].
Qed.

Lemma rem_fields : words rem_state = rem_words /\ dyn_data rem_state = dyn_data d /\
  dyn_size rem_state = dyn_size d /\ concurrent_access_mode rem_state = concurrent_access_mode d /\
  dyn_lock rem_state = dyn_lock d /\ length (free_head rem_state) = length (free_head d).
Proof. unfold rem_state. destruct (prev =? 0); [|done]. cbn. by rewrite upd_length. Qed.

Lemma rem_heads c' : 0 <= c' < 32 -> at_ (free_head rem_state) c' = Some (hdd 0 (rem_lists c')).
Proof.
  intros Hc'. pose proof rem_class as Hc. pose proof Hnb as [Hl _ _ _ _ _ Hp0 _].
  destruct (di_list _ _ _ Hinv c Hc) as (Hat & _). destruct (di_list _ _ _ Hinv c' Hc') as (Hat' & _).
  unfold rem_state, rem_lists. destruct (Z.eqb_spec prev 0) as [Hz|Hz]; cbn [free_head set_words set_free_head].
  - rewrite at_upd by (lia || by eexists). case_decide; [|done]. apply Hp0 in Hz. by rewrite Hz.
  - case_decide as Hcc; [subst c'|done]. rewrite Hat', Hl. destruct l1; [|done]. by destruct Hz.
Qed.

Lemma rem_list c' : 0 <= c' < 32 -> seg rem_words 0 (rem_lists c') 0 /\ NoDup (rem_lists c').
Proof.
  intros Hc'. pose proof rem_class as Hc. destruct (di_list _ _ _ Hinv c' Hc') as (_ & L2 & L3).
  unfold rem_lists. case_decide as Hcc; [split; [|by destruct Hnb as [_ _ _ _ _ [? _] _ _]]|split; [|done]].
  - apply (removed_seg d fl c s l1 l2 Hnb). intros x y Hx Hy. unfold apart.
    destruct (decide (x = y)) as [|Hxy]; [by left|right]. apply (node_apart d cs fl c c x y); auto using rem_sub.
  - eapply seg_ext; [|done]. intros x Hx.
    split; apply rem_other; intros y Hy _; pose proof (node_apart d cs fl c' c x y Hinv Hc' Hc Hx Hy ltac:(tauto)); lia.
Qed.

Lemma rem_mem c' x : 0 <= c' < 32 -> x ∈ rem_lists c' <->
  exists k', k' ∈ cs1 ++ set_kind Loose k :: cs2 /\ ckind k' = Free /\ cstart k' = x /\ cls (csize k') = c'.
Proof.
  intros Hc'. pose proof Hnb as [Hl _ _ _ _ [_ Hsn] _ _].
  assert (x ∈ rem_lists c' <-> x ∈ fl c' /\ x <> s) as ->.
  { unfold rem_lists. case_decide as Hcc; [subst c'; rewrite Hl, elem_of_mid|].
    - split; [|tauto]. intros Hx. split; [by right|]. by intros ->.
    - split; [|tauto]. intros Hx. split; [done|]. intros ->.
      apply (di_mem _ _ _ Hinv c' s Hc') in Hx as (k' & Hk' & _ & Hs & Hcl).
      assert (k' = k) as ->; [|done]. eapply tiles_start; [apply Hinv|done| |done]. apply elem_of_mid. by left. }
  rewrite (di_mem _ _ _ Hinv c' x Hc'). split.
  - intros [(k' & Hk' & Hf & Hs & Hcls) Hne]. exists k'. split; [|done]. apply elem_of_mid.
    apply elem_of_mid in Hk' as [->|]; [by destruct Hne|by right].
  - intros (k' & [->|Hk']%elem_of_mid & Hf & Hs & Hcls); [done|].
    assert (k' ∈ cs) as Hk'' by (apply elem_of_mid; by right).
    split; [by exists k'|]. pose proof (tiles_others _ _ _ _ _ _ (di_tiles _ _ _ Hinv) Hk') as Ho.
    assert (k ∈ cs) as Hin by (apply elem_of_mid; by left).
    destruct (chunk_bounds d cs fl k Hinv Hin) as (_ & _ & B3 & _).
    destruct (chunk_bounds d cs fl k' Hinv Hk'') as (_ & _ & Bn & _). unfold cend in *. lia.
Qed.

Lemma rem_inv : dyn_inv rem_state (cs1 ++ set_kind Loose k :: cs2) rem_lists.
Proof.
  destruct rem_fields as (Hw & Hd & Hs & _ & _ & Hlen).
  assert (k ∈ cs) as Hin by (apply elem_of_mid; by left).
  destruct (chunk_bounds d cs fl k Hinv Hin) as (_ & _ & B3 & B4 & _).
  split; rewrite ?Hw, ?Hd, ?Hs, ?Hlen; try apply Hinv.
  - eapply (tiles_replace cs1 k [set_kind Loose k]); [apply Hinv|].
    apply (tiles_one (set_kind Loose k)); [simpl; lia|done].
  - intros a Ha Hd8. apply removed_is_Some. by apply Hinv.
  - intros k' [->|Hk']%elem_of_mid Hloose; [done|].
    assert (k' ∈ cs) as Hk'' by (apply elem_of_mid; by right).
    destruct (chunk_bounds d cs fl k' Hinv Hk'') as (_ & _ & Bn & _).
    rewrite !(rem_outside k') by (done || unfold inside, cend; lia). by apply (di_tags _ _ _ Hinv).
  - intros c' Hc'. split; [by apply rem_heads|by apply rem_list].
  - apply rem_mem.
Qed.

Lemma rem_keeps : keeps d rem_state cs.
Proof.
  destruct rem_fields as (Hw & Hd & Hs & Hm & Hl & _). split; try done.
  intros k' a Hk' Hu Ha. rewrite Hw. apply (rem_outside k'); [done|done|left; congruence].
Qed.
End removal.

Lemma remove_ok d cs1 k cs2 fl :
  dyn_inv d (cs1 ++ k :: cs2) fl -> ckind k = Free ->
  exists d' fl', mehcached_dynamic_remove_free_chunk_from_free_list d (cstart k) (csize k) = Some d' /\
    dyn_inv d' (cs1 ++ set_kind Loose k :: cs2) fl' /\ keeps d d' (cs1 ++ k :: cs2).
Proof.
  intros Hinv Hk. assert (k ∈ cs1 ++ k :: cs2) as Hin by (apply elem_of_mid; by left).
  destruct (chunk_cls d _ fl k Hinv Hin) as [_ Hc].
  assert (cstart k ∈ fl (cls (csize k))) as Hs by (apply (di_mem _ _ _ Hinv _ _ Hc); by exists k).
  destruct (neighbours_of d _ fl _ _ Hinv Hc Hs) as (l1 & l2 & Hnb).
  exists (rem_state d k l1 l2), (rem_lists k fl l1 l2).
  split; [by eapply rem_eval|]. split; [by eapply rem_inv|by eapply rem_keeps].
Qed.

(** ** Other changes of chunks *)

(** Chunks that are in no list can be loosened, merged and split. *)
Lemma relabel_inv d cs1 ks ks' cs2 fl :
  dyn_inv d (cs1 ++ ks ++ cs2) fl ->
  Forall (fun k => ckind k <> Free) ks -> Forall (fun k => ckind k = Loose) ks' ->
  (forall a b, tiles a ks b -> tiles a ks' b) ->
  dyn_inv d (cs1 ++ ks' ++ cs2) fl.
Proof.
  intros Hinv Hks Hks' Ht. rewrite Forall_forall in Hks. rewrite Forall_forall in Hks'.
  assert (forall k, ckind k = Free -> k ∈ cs1 ++ ks ++ cs2 <-> k ∈ cs1 ++ ks' ++ cs2) as Hfree.
  { intros k Hk. rewrite !elem_of_app. split; (intros [?|[Hin|?]]; [tauto| |tauto]).
    - by destruct (Hks k Hin).
    - apply Hks' in Hin. congruence. }
  split; try apply Hinv.
  - pose proof (di_tiles _ _ _ Hinv) as (m & H1 & (m' & H2 & H3)%tiles_app)%tiles_app.
    apply tiles_app. exists m. split; [done|]. apply tiles_app. exists m'. split; [by apply Ht|done].
  - intros k Hk Hl. apply (di_tags _ _ _ Hinv); [|done]. rewrite !elem_of_app in *.
    destruct Hk as [?|[Hk|?]]; [tauto| |tauto]. by apply Hks' in Hk.
  - intros c x Hc. rewrite (di_mem _ _ _ Hinv c x Hc).
    split; intros (k & Hk & Hf & ?); exists k; (split; [|done]); by apply Hfree.
Qed.

Lemma loosen_inv d cs1 k cs2 fl :
  dyn_inv d (cs1 ++ k :: cs2) fl -> ckind k = Used -> dyn_inv d (cs1 ++ set_kind Loose k :: cs2) fl.
Proof.
  intros Hinv Hk. apply (relabel_inv d cs1 [k] [set_kind Loose k] cs2 fl Hinv); [|by constructor|done].
  constructor; [congruence|done].
Qed.

Lemma merge_inv d cs1 k1 k2 cs2 fl :
  dyn_inv d (cs1 ++ k1 :: k2 :: cs2) fl -> ckind k1 = Loose -> ckind k2 = Loose ->
  dyn_inv d (cs1 ++ Chunk (cstart k1) (csize k1 + csize k2) Loose :: cs2) fl.
Proof.
  intros Hinv H1 H2. apply (relabel_inv d cs1 [k1; k2] [Chunk (cstart k1) (csize k1 + csize k2) Loose] cs2 fl Hinv).
  - constructor; [congruence|]. constructor; [congruence|done].
  - by constructor.
  - intros a b (? & ? & ? & ? & ? & ? & <-). cbn. split; [done|]. split; [lia|].
    split; [by apply Z.divide_add_r|lia].
Qed.

Lemma split_inv d cs1 k cs2 fl m :
  dyn_inv d (cs1 ++ k :: cs2) fl -> ckind k = Loose -> 32 <= m -> m + 32 <= csize k -> (8 | m) ->
  dyn_inv d (cs1 ++ Chunk (cstart k) m Loose :: Chunk (cstart k + m) (csize k - m) Loose :: cs2) fl.
Proof.
  intros Hinv Hk Hm Hn Hd.
  apply (relabel_inv d cs1 [k] [Chunk (cstart k) m Loose; Chunk (cstart k + m) (csize k - m) Loose] cs2 fl Hinv).
  - constructor; [congruence|done].
  - constructor; [done|]. by constructor.
  - intros a b (? & ? & ? & <-). cbn. split; [done|]. split; [done|]. split; [done|].
    split; [lia|]. split; [lia|]. split; [by apply Z.divide_sub_r|lia].
Qed.

(** Words within a loose chunk are free to change; with both tags it is used. *)
Lemma occupy_inv d cs1 k cs2 fl h :
  dyn_inv d (cs1 ++ k :: cs2) fl -> ckind k = Loose ->
  (forall a, ~ inside k a -> h !! a = words d !! a) ->
  (forall a, is_Some (words d !! a) -> is_Some (h !! a)) ->
  h !! cstart k = Some (tag_of (set_kind Used k)) -> h !! (cend k - 8) = Some (tag_of (set_kind Used k)) ->
  dyn_inv (set_words d h) (cs1 ++ set_kind Used k :: cs2) fl.
Proof.
  intros Hinv Hk Hout Hsome T1 T2.
  assert (forall k' a, k' ∈ cs1 ++ cs2 -> inside k' a -> h !! a = words d !! a) as Hoth.
  { intros k' a Hk' Ha. apply Hout. unfold inside in *.
    destruct (tiles_others _ _ _ _ _ _ (di_tiles _ _ _ Hinv) Hk'); lia. }
  split; cbn [dyn_data dyn_size free_head words set_words]; try apply Hinv.
  - destruct (chunk_bounds d _ fl k Hinv) as (_ & _ & Bn & Bd & _); [apply elem_of_mid; by left|].
    eapply (tiles_replace cs1 k [set_kind Used k]); [apply Hinv|].
    apply (tiles_one (set_kind Used k)); [simpl; lia|done].
  - intros a Ha Hd. by apply Hsome, Hinv.
  - intros k' [->|Hk']%elem_of_mid Hl; [done|].
    assert (k' ∈ cs1 ++ k :: cs2) as Hk'' by (apply elem_of_mid; by right).
    destruct (chunk_bounds d _ fl k' Hinv Hk'') as (_ & _ & Bn & _).
    rewrite !(Hoth k') by (done || (unfold inside, cend; lia)). by apply (di_tags _ _ _ Hinv).
  - intros c Hc. destruct (di_list _ _ _ Hinv c Hc) as (L1 & L2 & L3). split; [done|]. split; [|done].
    eapply seg_ext; [|done]. intros x Hx.
    pose proof (node_clear d cs1 k cs2 fl c x Hinv Hc Hx ltac:(right; congruence)) as Hclr.
    split; apply Hout; unfold inside; lia.
  - intros c x Hc. rewrite (di_mem _ _ _ Hinv c x Hc).
    split; intros (k' & [->|Hk']%elem_of_mid & Hf & ?); try congruence; try done;
      exists k'; (split; [apply elem_of_mid; by right|done]).
Qed.

(** The three stores that end an allocation. *)
Lemma occupy_ok d cs1 k cs2 fl v :
  dyn_inv d (cs1 ++ k :: cs2) fl -> ckind k = Loose ->
  let tag := MEHCACHED_DYNAMIC_TAG_VEC (csize k) MEHCACHED_DYNAMIC_OCCUPIED in
  exists d', (d ← store_word d (cstart k + csize k - 8) tag; d ← store_word d (cstart k) tag;
              store_word d (cstart k + 8) v) = Some d' /\
    dyn_inv d' (cs1 ++ set_kind Used k :: cs2) fl /\ keeps d d' (cs1 ++ k :: cs2) /\
    words d' !! (cstart k + 8) = Some v.
Proof.
  intros Hinv Hk tag. assert (k ∈ cs1 ++ k :: cs2) as Hin by (apply elem_of_mid; by left).
  destruct (chunk_bounds d _ fl k Hinv Hin) as (B1 & B2 & B3 & B4 & B5).
  assert (forall o, 0 <= o < csize k -> (8 | o) -> is_Some (words d !! (cstart k + o))) as Hw
    by (intros o ? ?; by apply (chunk_word d (cs1 ++ k :: cs2) fl k)).
  pose proof (Hw 0 ltac:(lia) (Z.divide_0_r 8)) as W0. rewrite Z.add_0_r in W0.
  pose proof (Hw 8 ltac:(lia) (ex_intro _ 1 eq_refl)) as W8.
  pose proof (Hw (csize k - 8) ltac:(lia) ltac:(apply Z.divide_sub_r; [done|by exists 1])) as Wn.
  rewrite Z.add_sub_assoc in Wn.
  rewrite store_word_ok by done. cbn [mbind option_bind].
  rewrite store_word_ok by (by apply insert_is_Some). cbn [mbind option_bind].
  rewrite store_word_ok by (by repeat apply insert_is_Some). eexists. split; [done|].
  cbn [words set_words]. set (h := <[_ := v]> _).
  assert (forall a, ~ inside k a -> h !! a = words d !! a) as Hout.
  { intros a Ha. unfold inside, cend in Ha. unfold h. by rewrite !lookup_insert_ne by lia. }
  split; [|split; [|apply lookup_insert_eq]].
  - apply (occupy_inv d cs1 k cs2 fl h); try done.
    + intros a Ha. unfold h. by repeat apply insert_is_Some.
    + unfold h. by rewrite lookup_insert_ne, lookup_insert_eq by lia.
    + unfold h, cend. rewrite !(lookup_insert_ne _ _ (cstart k + csize k - 8)) by lia.
      by rewrite lookup_insert_eq.
  - split; try done. intros k' a Hk' Hu Ha. apply Hout. intros Hka.
    apply (tiles_sep _ _ _ k' k a a (di_tiles _ _ _ Hinv) Hk' Hin); try done. congruence.
Qed.
