(* ===== verification/DynRun.v ===== *)
(** * Runs of the dynamic allocator

    Allocation and deallocation on the tiling of [DynSpec.v], and what every sequence of
    them keeps: blocks are apart from each other and keep their words, and free chunks are
    merged with their neighbours. *)
From S2P Require Import Prelude PoolAlloc Shm ShmSpec DynAlloc DynSpec.

(** ** The search for a chunk *)

Lemma class_loop_spec heads n : forall c,
  length heads = 32%nat -> 0 <= c -> c + Z.of_nat n = 32 ->
  exists c', class_loop n heads c = Some c' /\ c <= c' <= 32 /\
    (forall i, c <= i < c' -> at_ heads i = Some 0) /\
    (c' < 32 -> exists x, at_ heads c' = Some x /\ x <> 0).
Proof.
  induction n as [|n IH]; intros c Hl Hc Hn; cbn [class_loop].
  { exists c. split; [done|]. split; [lia|]. split; intros; lia. }
  destruct (at_Some heads c) as [x Hx]; [lia|]. rewrite Hx. cbn [mbind option_bind].
  destruct (Z.eqb_spec x 0) as [->|Hne]; cbn [negb].
  - destruct (IH (c + 1)) as (c' & -> & Hc' & Hz & Hf); [done|lia|lia|]. exists c'.
    split; [done|]. split; [lia|]. split; [|done]. intros i Hi.
    destruct (decide (i = c)) as [->|]; [done|]. apply Hz. lia.
  - exists c. split; [done|]. split; [lia|]. split; [intros; lia|]. intros _. by exists x.
Qed.

Lemma elem_of_split_mid {A} (x : A) l : x ∈ l -> exists l1 l2, l = l1 ++ x :: l2.
Proof. apply list_elem_of_split. Qed.

(** The tags of a chunk that is not loose. *)
Lemma chunk_tag d cs fl k :
  dyn_inv d cs fl -> k ∈ cs -> ckind k <> Loose ->
  words d !! cstart k = Some (tag_of k) /\ words d !! (cend k - 8) = Some (tag_of k) /\
  MEHCACHED_DYNAMIC_TAG_SIZE (tag_of k) = csize k /\
  MEHCACHED_DYNAMIC_TAG_STATUS (tag_of k) = status k.
Proof.
  intros Hinv Hk Hl. destruct (di_tags _ _ _ Hinv k Hk Hl) as [T1 T2].
  destruct (chunk_bounds d cs fl k Hinv Hk) as (_ & _ & Hn & _).
  unfold MEHCACHED_DYNAMIC_MAX_SIZE in Hn. split; [done|]. split; [done|]. unfold tag_of.
  assert (status k = 0 \/ status k = 1) by (unfold status; destruct (ckind k); tauto).
  split; [apply tag_size|apply tag_status]; lia || done.
Qed.

Lemma remove_from_head_ok d cs fl m :
  dyn_inv d cs fl -> 32 <= m <= 280 -> (8 | m) ->
  (mehcached_dynamic_remove_free_chunk_from_head d m = Some (None, d) /\
   forall k, k ∈ cs -> ckind k = Free -> csize k < m) \/
  (exists cs1 k cs2 d' fl', cs = cs1 ++ k :: cs2 /\ ckind k = Free /\ m <= csize k /\
   mehcached_dynamic_remove_free_chunk_from_head d m = Some (Some (cstart k, csize k), d') /\
   dyn_inv d' (cs1 ++ set_kind Loose k :: cs2) fl' /\ keeps d d' cs).
Proof.
  intros Hinv Hm Hd. destruct (roundup_cls m Hm Hd) as (Hup & Hcr & Hcls).
  unfold mehcached_dynamic_remove_free_chunk_from_head. rewrite Hup. cbn [mbind option_bind].
  set (c0 := (m - 32) / 8) in *. unfold MEHCACHED_DYNAMIC_NUM_CLASSES.
  destruct (class_loop_spec (free_head d) (Z.to_nat (32 - c0)) c0) as (c & -> & Hc & Hz & Hf);
    [apply Hinv|lia|lia|]. cbn [mbind option_bind].
  destruct (Z.eqb_spec c 32) as [->|Hc32].
  - left. split; [done|]. intros k Hk Hfree.
    destruct (chunk_bounds d cs fl k Hinv Hk) as (_ & _ & Hn & _).
    destruct (decide (m <= csize k)) as [Hle|]; [|lia]. exfalso.
    apply Hcls in Hle; [|lia]. destruct (chunk_cls d cs fl k Hinv Hk) as [_ Hck].
    destruct (di_list _ _ _ Hinv (cls (csize k)) Hck) as (Hat & _). rewrite Hz in Hat by lia.
    injection Hat as Hat. assert (cstart k ∈ fl (cls (csize k))) as Hin
      by (apply (di_mem _ _ _ Hinv); [done|by exists k]).
    destruct (fl (cls (csize k))) as [|y l] eqn:Hfl; [by apply not_elem_of_nil in Hin|].
    apply (node_pos d cs fl (cls (csize k)) y Hinv Hck); [rewrite Hfl; by left|]. by symmetry.
  - right. destruct Hf as (x & Hx & Hx0); [lia|]. rewrite Hx. cbn [mbind option_bind].
    destruct (list_head d cs fl c x Hinv ltac:(lia) Hx) as [[? _]|(_ & l & Hl & _)]; [done|].
    destruct (node_chunk d cs fl c x Hinv ltac:(lia)) as (k & Hk & Hfree & <- & Hck & _); [rewrite Hl; by left|].
    destruct (chunk_tag d cs fl k Hinv Hk) as (T1 & T2 & T3 & T4); [congruence|].
    destruct (chunk_bounds d cs fl k Hinv Hk) as (_ & _ & Hn & _).
    unfold load_word. rewrite T1. cbn [mbind option_bind]. rewrite T4. unfold status. rewrite Hfree.
    rewrite Z.eqb_refl. cbn [negb]. rewrite T3. unfold cend in T2. rewrite T2. cbn [mbind option_bind].
    rewrite Z.eqb_refl. cbn [negb]. assert (m <= csize k) as Hle by (apply Hcls; lia).
    rewrite (proj2 (Z.geb_le _ _) Hle). cbn [negb].
    destruct (elem_of_split_mid k cs Hk) as (cs1 & cs2 & Hcs). rewrite Hcs in Hinv.
    destruct (remove_ok d cs1 k cs2 fl Hinv Hfree) as (d' & fl' & -> & Hinv' & Hkp).
    cbn [mbind option_bind]. exists cs1, k, cs2, d', fl'. rewrite Hcs. done.
Qed.

(** ** Merging with the neighbours *)

Definition settled (cs : list chunk) : Prop := Forall (fun k => ckind k <> Loose) cs.

Definition is_free (k : chunk) : bool := bool_decide (ckind k = Free).

(** No two neighbours are free; [p]: the chunk before is. *)
Fixpoint coalesced (p : bool) (cs : list chunk) : Prop :=
  match cs with
  | [] => True
  | k :: cs' => ~ (p = true /\ ckind k = Free) /\ coalesced (is_free k) cs'
  end.

Definition last_free (p : bool) (cs : list chunk) : bool :=
  match last cs with Some k => is_free k | None => p end.

Lemma last_free_cons p k cs : last_free p (k :: cs) = last_free (is_free k) cs.
Proof. unfold last_free. rewrite last_cons. by destruct (last cs). Qed.

Lemma coalesced_app cs1 cs2 : forall p,
  coalesced p (cs1 ++ cs2) <-> coalesced p cs1 /\ coalesced (last_free p cs1) cs2.
Proof.
  induction cs1 as [|k cs1 IH]; intros p; cbn [coalesced app].
  - unfold last_free; simpl. tauto.
  - rewrite IH, last_free_cons. tauto.
Qed.

Lemma coalesced_weaken cs : coalesced true cs -> coalesced false cs.
Proof. destruct cs; cbn; [done|]. intros [_ ?]. split; [by intros []|done]. Qed.

Lemma is_free_false k : ckind k <> Free -> is_free k = false.
Proof. intros Hk. unfold is_free. by rewrite bool_decide_eq_false_2. Qed.

Lemma is_free_true k : ckind k = Free -> is_free k = true.
Proof. intros Hk. unfold is_free. by rewrite bool_decide_eq_true_2. Qed.

Definition used (cs : list chunk) : list chunk := filter (fun k => ckind k = Used) cs.

Lemma used_app cs1 cs2 : used (cs1 ++ cs2) = used cs1 ++ used cs2.
Proof. apply filter_app. Qed.

Lemma used_cons_not k cs : ckind k <> Used -> used (k :: cs) = used cs.
Proof. intros Hk. unfold used. by rewrite filter_cons_False. Qed.

(** The left neighbour is taken in if it is free. *)
Lemma coalesce_left_ok d cs1 k cs2 fl :
  dyn_inv d (cs1 ++ k :: cs2) fl -> ckind k = Loose -> settled cs1 -> coalesced false cs1 ->
  exists cs1' k' d' fl', mehcached_dynamic_coalese_free_chunk_left d (cstart k) (csize k) =
      Some (cstart k', csize k', d') /\
    dyn_inv d' (cs1' ++ k' :: cs2) fl' /\ ckind k' = Loose /\ keeps d d' (cs1 ++ k :: cs2) /\
    settled cs1' /\ coalesced false cs1' /\ last_free false cs1' = false /\ used cs1' = used cs1.
Proof.
  intros Hinv Hk Hset Hco. unfold mehcached_dynamic_coalese_free_chunk_left.
  destruct cs1 as [|p cs1 _] using rev_ind.
  { pose proof (di_tiles _ _ _ Hinv) as Ht. cbn [app tiles] in Ht. destruct Ht as (Hs & _).
    rewrite Hs, Z.eqb_refl, <- Hs. exists [], k, d, fl. split; [done|]. split; [done|]. split; [done|].
    split; [apply keeps_refl|]. done. }
  rewrite <- app_assoc in Hinv. cbn [app] in Hinv.
  apply Forall_app in Hset as [Hset Hp]. apply Forall_cons in Hp as [Hp _].
  apply coalesced_app in Hco as [Hco1 [Hcp _]].
  assert (p ∈ cs1 ++ p :: k :: cs2) as Hpin by (apply elem_of_mid; by left).
  destruct (chunk_bounds d _ fl p Hinv Hpin) as (B1 & B2 & B3 & B4 & B5).
  destruct (chunk_tag d _ fl p Hinv Hpin Hp) as (T1 & T2 & T3 & T4).
  pose proof (di_tiles _ _ _ Hinv) as (m & _ & Ht)%tiles_app. cbn [tiles] in Ht.
  destruct Ht as (Hm & _ & _ & Hsk & Hnk & _). rewrite <- Hm in Hsk.
  rewrite (proj2 (Z.eqb_neq _ _)) by lia. rewrite (proj2 (Z.gtb_lt _ _)) by lia. cbn [negb].
  unfold load_word. replace (cstart k - 8) with (cend p - 8) by (unfold cend; lia). rewrite T2.
  cbn [mbind option_bind]. rewrite T4. unfold status. destruct (ckind p) eqn:Hkp; [..|done].
  2:{ rewrite Z.eqb_refl. exists (cs1 ++ [p]), k, d, fl. split; [done|].
      split; [by rewrite <- app_assoc|]. split; [done|]. split; [apply keeps_refl|].
      split; [apply Forall_app; split; [done|]; by constructor; [rewrite Hkp|]|].
      split; [apply coalesced_app; split; [done|]; split; [|done]; intros [_ ?]; congruence|].
      split; [|done]. unfold last_free. rewrite last_snoc. apply is_free_false. congruence. }
  cbn [Z.eqb]. rewrite T3. replace (cstart k - csize p) with (cstart p) by lia.
  rewrite T1. cbn [mbind option_bind]. unfold cend in T2. rewrite T2. cbn [mbind option_bind].
  rewrite Z.eqb_refl. cbn [negb].
  destruct (remove_ok d cs1 p (k :: cs2) fl Hinv Hkp) as (d' & fl' & -> & Hinv' & Hkeep).
  cbn [mbind option_bind].
  exists cs1, (Chunk (cstart p) (csize p + csize k) Loose), d', fl'.
  assert (k ∈ cs1 ++ p :: k :: cs2) as Hkin by (apply elem_of_app; right; right; by left).
  destruct (chunk_bounds d _ fl k Hinv Hkin) as (_ & _ & Bk & _).
  split; [|split; [|split; [done|split; [|split; [done|split; [done|split]]]]]].
  - cbn [cstart csize]. rewrite (wrap_small 64); [by rewrite Z.add_comm|].
    unfold MEHCACHED_DYNAMIC_MAX_SIZE in *. lia.
  - by apply (merge_inv d' cs1 (set_kind Loose p) k cs2 fl').
  - by rewrite <- app_assoc.
  - destruct (last_free false cs1) eqn:Hlf; [|done]. exfalso. by apply Hcp.
  - rewrite used_app, (used_cons_not p) by congruence. unfold used; simpl. by rewrite app_nil_r.
Qed.

(** The right neighbour is taken in if it is free. *)
Lemma coalesce_right_ok d cs1 k cs2 fl :
  dyn_inv d (cs1 ++ k :: cs2) fl -> ckind k = Loose -> settled cs2 -> coalesced false cs2 ->
  exists cs2' k' d' fl', mehcached_dynamic_coalese_free_chunk_right d (cstart k) (csize k) =
      Some (cstart k', csize k', d') /\
    dyn_inv d' (cs1 ++ k' :: cs2') fl' /\ ckind k' = Loose /\ keeps d d' (cs1 ++ k :: cs2) /\
    settled cs2' /\ coalesced true cs2' /\ used cs2' = used cs2.
Proof.
  intros Hinv Hk Hset Hco. unfold mehcached_dynamic_coalese_free_chunk_right.
  pose proof (di_tiles _ _ _ Hinv) as (m & _ & Ht)%tiles_app. cbn [tiles] in Ht.
  destruct Ht as (Hm & _ & _ & Ht). rewrite <- Hm in Ht.
  destruct cs2 as [|q cs2]; cbn [tiles] in Ht.
  { rewrite Ht, Z.eqb_refl. exists [], k, d, fl. split; [done|]. split; [done|]. split; [done|].
    split; [apply keeps_refl|done]. }
  destruct Ht as (Hq & _ & _ & _). apply Forall_cons in Hset as [Hql Hset].
  cbn [coalesced] in Hco. destruct Hco as [_ Hco].
  assert (q ∈ cs1 ++ k :: q :: cs2) as Hqin by (apply elem_of_app; right; right; by left).
  destruct (chunk_bounds d _ fl q Hinv Hqin) as (B1 & B2 & B3 & B4 & B5). unfold cend in B2.
  destruct (chunk_tag d _ fl q Hinv Hqin Hql) as (T1 & T2 & T3 & T4).
  rewrite (proj2 (Z.eqb_neq _ _)), (proj2 (Z.ltb_lt _ _)) by lia. cbn [negb].
  unfold load_word. rewrite <- Hq, T1. cbn [mbind option_bind]. rewrite T4. unfold status.
  destruct (ckind q) eqn:Hkq; [..|done].
  2:{ rewrite Z.eqb_refl. exists (q :: cs2), k, d, fl. split; [done|]. split; [done|].
      split; [done|]. split; [apply keeps_refl|]. split; [by constructor; [rewrite Hkq|]|].
      split; [|done]. split; [intros [_ ?]; congruence|done]. }
  cbn [Z.eqb]. rewrite T3. unfold cend in T2. rewrite T2. cbn [mbind option_bind].
  rewrite Z.eqb_refl. cbn [negb].
  replace (cs1 ++ k :: q :: cs2) with ((cs1 ++ [k]) ++ q :: cs2) in Hinv by (by rewrite <- app_assoc).
  destruct (remove_ok d (cs1 ++ [k]) q cs2 fl Hinv Hkq) as (d' & fl' & -> & Hinv' & Hkeep).
  cbn [mbind option_bind]. rewrite <- app_assoc in Hinv'. cbn [app] in Hinv'.
  exists cs2, (Chunk (cstart k) (csize k + csize q) Loose), d', fl'.
  assert (k ∈ (cs1 ++ [k]) ++ q :: cs2) as Hkin by (rewrite <- app_assoc; apply elem_of_mid; by left).
  destruct (chunk_bounds d _ fl k Hinv Hkin) as (_ & _ & Bk & _).
  split; [|split; [|split; [done|split; [|split; [done|split]]]]].
  - cbn [cstart csize]. rewrite (wrap_small 64); [done|]. unfold MEHCACHED_DYNAMIC_MAX_SIZE in *. lia.
  - by apply (merge_inv d' cs1 k (set_kind Loose q) cs2 fl').
  - by rewrite <- app_assoc in Hkeep.
  - by rewrite (is_free_true q) in Hco.
  - by rewrite used_cons_not by congruence.
Qed.

(** ** Allocation and deallocation *)

Lemma settled_mid cs1 k cs2 :
  settled (cs1 ++ k :: cs2) <-> settled cs1 /\ ckind k <> Loose /\ settled cs2.
Proof. unfold settled. rewrite Forall_app, Forall_cons. tauto. Qed.

Lemma used_mid cs1 k cs2 : ckind k = Used -> used (cs1 ++ k :: cs2) = used cs1 ++ k :: used cs2.
Proof. intros Hk. unfold used. by rewrite filter_app, filter_cons_True. Qed.

(** The chunk size that a request asks for. *)
Definition request (item_size : Z) : Z := u64 (MEHCACHED_ROUNDUP8 item_size + MEHCAHCED_DYNAMIC_OVERHEAD).

Lemma request_range v : 9 <= v <= 264 -> v + 16 <= request v /\ 32 <= request v <= 280 /\ (8 | request v).
Proof.
  intros Hv. unfold request, MEHCAHCED_DYNAMIC_OVERHEAD. rewrite roundup8_val by lia.
  rewrite wrap_small by zlia. split; [zlia|]. split; [zlia|].
  apply Z.divide_add_r; [by exists ((v + 7) / 8)|by exists 2].
Qed.

(** Kept words of used chunks, across a change of the other chunks. *)
Lemma keeps_step d1 d2 d3 cs cs' :
  keeps d1 d2 cs -> keeps d2 d3 cs' ->
  (forall k, ckind k = Used -> k ∈ cs -> k ∈ cs') -> keeps d1 d3 cs.
Proof. intros H1 H2 H. eapply dyn_keeps_trans; [done|done|]. auto. Qed.

(** The part of a chunk that an allocation does not need goes back to the lists. *)
Lemma leftover_ok d cs1 k cs2 fl m :
  dyn_inv d (cs1 ++ k :: cs2) fl -> ckind k = Loose -> 32 <= m -> m <= csize k -> (8 | m) ->
  exists n d' rest fl',
    (if csize k - m >=? MEHCACHED_DYNAMIC_MIN_SIZE then
       d ← mehcached_dynamic_insert_free_chunk d (cstart k + m) (csize k - m); Some (m, d)
     else Some (csize k, d)) = Some (n, d') /\
    dyn_inv d' (cs1 ++ Chunk (cstart k) n Loose :: rest ++ cs2) fl' /\ m <= n /\
    (rest = [] \/ exists x, rest = [x] /\ ckind x = Free) /\
    keeps d d' (cs1 ++ k :: cs2).
Proof.
  intros Hinv Hk Hm Hle Hd. unfold MEHCACHED_DYNAMIC_MIN_SIZE.
  destruct (Z.geb_spec (csize k - m) 32) as [Hge|Hlt].
  - set (k1 := Chunk (cstart k) m Loose). set (k2 := Chunk (cstart k + m) (csize k - m) Loose).
    assert (dyn_inv d ((cs1 ++ [k1]) ++ k2 :: cs2) fl) as Hinv2.
    { rewrite <- app_assoc. apply split_inv; (done || lia). }
    destruct (insert_ok d (cs1 ++ [k1]) k2 cs2 fl Hinv2 eq_refl) as (d' & fl' & Hi & Hinv3 & Hkeep).
    cbn [cstart csize k2] in Hi. rewrite Hi. cbn [mbind option_bind].
    exists m, d', [set_kind Free k2], fl'. rewrite <- app_assoc in Hinv3.
    split; [done|]. split; [done|]. split; [done|]. split; [right; by eexists|].
    destruct Hkeep as [? ? ? ? Hu]. split; try done. intros k' a Hk' Hku Ha. apply (Hu k' a); [|done|done].
    apply elem_of_mid in Hk' as [->|Hk']; [congruence|]. rewrite !elem_of_app in *.
    destruct Hk'; [tauto|]. right. by right.
  - exists (csize k), d, [], fl. split; [done|]. split; [|split; [done|split; [by left|apply keeps_refl]]].
    cbn [app]. destruct k as [s n kd]; simpl in *. by subst kd.
Qed.

Lemma allocate_ok d cs fl v :
  dyn_inv d cs fl -> settled cs -> coalesced false cs -> 9 <= v <= 264 ->
  exists r d', mehcached_dynamic_allocate d v = Some (r, d') /\
  ((r = MEHCACHED_DYNAMIC_INSUFFICIENT_SPACE /\ d' = d /\
    forall k, k ∈ cs -> ckind k = Free -> csize k < request v) \/
   (exists cs1 k cs2 n cs' fl', cs = cs1 ++ k :: cs2 /\ ckind k = Free /\
    r = cstart k + 8 - dyn_data d /\ request v <= n /\
    dyn_inv d' cs' fl' /\ settled cs' /\ coalesced false cs' /\ keeps d d' cs /\
    used cs' = used cs1 ++ Chunk (cstart k) n Used :: used cs2 /\
    words d' !! (cstart k + 8) = Some v)).
Proof.
  intros Hinv Hset Hco Hv. destruct (request_range v Hv) as (_ & Hr & Hd).
  unfold mehcached_dynamic_allocate. fold (request v).
  destruct (remove_from_head_ok d cs fl (request v) Hinv Hr Hd)
    as [[-> Hno]|(cs1 & k & cs2 & d1 & fl1 & -> & Hfree & Hle & -> & Hinv1 & Hk1)].
  { cbn [mbind option_bind]. exists MEHCACHED_DYNAMIC_INSUFFICIENT_SPACE, d. split; [done|]. by left. }
  cbn [mbind option_bind].
  destruct (leftover_ok d1 cs1 (set_kind Loose k) cs2 fl1 (request v) Hinv1 eq_refl)
    as (n & d2 & rest & fl2 & Hl & Hinv2 & Hn & Hrest & Hk2); [lia|done|done|].
  cbn [cstart csize set_kind] in Hl. rewrite Hl. cbn [mbind option_bind].
  destruct (occupy_ok d2 cs1 (Chunk (cstart k) n Loose) (rest ++ cs2) fl2 v Hinv2 eq_refl)
    as (d3 & H3 & Hinv3 & Hk3 & Hv3). cbn [cstart csize] in H3. 
  apply bind_Some in H3 as (e1 & -> & H3). apply bind_Some in H3 as (e2 & H3a & H3).
  cbn [mbind option_bind]. rewrite H3a. cbn [mbind option_bind]. rewrite H3. cbn [mbind option_bind].
  eexists _, d3. split; [done|]. right.
  apply settled_mid in Hset as (Hs1 & _ & Hs2). apply coalesced_app in Hco as [Hc1 [_ Hc2]].
  rewrite (is_free_true k Hfree) in Hc2.
  assert (settled rest) as Hsr.
  { destruct Hrest as [->|(x & -> & Hx)]; [constructor|]. constructor; [congruence|constructor]. }
  assert (coalesced false (rest ++ cs2)) as Hcr.
  { destruct Hrest as [->|(x & -> & Hx)]; [by apply coalesced_weaken|]. cbn [app coalesced].
    split; [by intros []|]. by rewrite (is_free_true x Hx). }
  assert (used rest = []) as Hur.
  { destruct Hrest as [->|(x & -> & Hx)]; [done|]. by rewrite used_cons_not by congruence. }
  exists cs1, k, cs2, n, (cs1 ++ Chunk (cstart k) n Used :: rest ++ cs2), fl2.
  split; [done|]. split; [done|]. split; [|split; [done|split; [done|split; [|split; [|split; [|split]]]]]].
  - destruct Hk1 as [_ _ _ E1 _], Hk2 as [_ _ _ E2 _], Hk3 as [_ _ _ E3 _]. lia.
  - apply settled_mid. split; [done|]. split; [done|]. by apply Forall_app.
  - apply coalesced_app. split; [done|]. split; [by intros []|done].
  - eapply keeps_step; [exact Hk1| |].
    + eapply keeps_step; [exact Hk2|exact Hk3|]. intros x Hx. rewrite !elem_of_mid, !elem_of_app.
      intros [->|]; [done|]. tauto.
    + intros x Hx. rewrite !elem_of_mid. intros [->|]; [congruence|tauto].
  - by rewrite used_mid, used_app, Hur by done.
  - done.
Qed.

Lemma deallocate_ok d cs1 k cs2 fl :
  dyn_inv d (cs1 ++ k :: cs2) fl -> settled (cs1 ++ k :: cs2) -> coalesced false (cs1 ++ k :: cs2) ->
  ckind k = Used ->
  exists d' cs' fl', mehcached_dynamic_deallocate d (cstart k + 8 - dyn_data d) = Some d' /\
    dyn_inv d' cs' fl' /\ settled cs' /\ coalesced false cs' /\
    used cs' = used cs1 ++ used cs2 /\ keeps d d' (cs1 ++ cs2).
Proof.
  intros Hinv Hset Hco Hk. unfold mehcached_dynamic_deallocate, mehcached_dynamic_item, load_word.
  replace (dyn_data d + (cstart k + 8 - dyn_data d) - 8) with (cstart k) by lia.
  assert (k ∈ cs1 ++ k :: cs2) as Hin by (apply elem_of_mid; by left).
  destruct (chunk_tag d _ fl k Hinv Hin) as (T1 & _ & T3 & T4); [congruence|].
  rewrite T1. cbn [mbind option_bind]. rewrite T4. unfold status. rewrite Hk, Z.eqb_refl. cbn [negb].
  rewrite T3. apply settled_mid in Hset as (Hs1 & _ & Hs2).
  apply coalesced_app in Hco as [Hc1 [_ Hc2]]. rewrite (is_free_false k) in Hc2 by congruence.
  assert (dyn_inv d (cs1 ++ set_kind Loose k :: cs2) fl) as Hinv0 by (by apply loosen_inv).
  destruct (coalesce_left_ok d cs1 (set_kind Loose k) cs2 fl Hinv0 eq_refl Hs1 Hc1)
    as (cs1' & k1 & d1 & fl1 & Hl & Hinv1 & Hk1 & Hkeep1 & Hs1' & Hc1' & Hlf & Hu1).
  cbn [cstart csize set_kind] in Hl. rewrite Hl. cbn [mbind option_bind].
  destruct (coalesce_right_ok d1 cs1' k1 cs2 fl1 Hinv1 Hk1 Hs2 Hc2)
    as (cs2' & k2 & d2 & fl2 & -> & Hinv2 & Hk2 & Hkeep2 & Hs2' & Hc2' & Hu2). cbn [mbind option_bind].
  destruct (insert_ok d2 cs1' k2 cs2' fl2 Hinv2 Hk2) as (d3 & fl3 & -> & Hinv3 & Hkeep3).
  exists d3, (cs1' ++ set_kind Free k2 :: cs2'), fl3. split; [done|]. split; [done|].
  split; [by apply settled_mid|]. split.
  { apply coalesced_app. rewrite Hlf. split; [done|]. split; [by intros []|].
    by rewrite is_free_true. }
  split; [by rewrite used_app, used_cons_not, Hu1, Hu2|].
  assert (forall x, x ∈ cs1' -> ckind x = Used -> x ∈ used cs1') as Hus
    by (intros x Hx Hxu; by apply list_elem_of_filter).
  assert (forall x (l l' : list chunk), used l' = used l -> ckind x = Used -> x ∈ l -> x ∈ l') as Hmove.
  { intros x l l' Hll Hx Hxl. assert (x ∈ used l) as Hxu by (by apply list_elem_of_filter).
    rewrite <- Hll in Hxu. by apply list_elem_of_filter in Hxu as [_ ?]. }
  assert (keeps d d3 (cs1 ++ set_kind Loose k :: cs2)) as [? ? ? ? Hw].
  { eapply keeps_step; [exact Hkeep1| |].
    - eapply keeps_step; [exact Hkeep2|exact Hkeep3|]. intros x Hx. rewrite !elem_of_mid, !elem_of_app.
      intros [->|[|]]; [congruence|tauto|]. right; right. by apply (Hmove x cs2 cs2').
    - intros x Hx. rewrite !elem_of_mid, !elem_of_app. intros [->|[|]]; [done| |tauto].
      right; left. by apply (Hmove x cs1 cs1'). }
  split; try done. intros x a Hx. apply Hw. apply elem_of_mid. by right.
Qed.

(** ** Runs *)

Inductive dyn_op :=
  | OpAllocate (item_size : Z)
  | OpDeallocate (i : nat)
  | OpStore (i : nat) (j w : Z).

(** The blocks that are allocated: offset and size.  [OpDeallocate i] gives back the [i]-th;
    [OpStore i j w] is its owner, who writes its [j]-th word. *)
Definition dyn_step (d : mehcached_dynamic) (live : list (Z * Z)) (op : dyn_op)
    : option (mehcached_dynamic * list (Z * Z)) :=
  match op with
  | OpAllocate v =>
      '(r, d) ← mehcached_dynamic_allocate d v;
      Some (d, if r =? MEHCACHED_DYNAMIC_INSUFFICIENT_SPACE then live else live ++ [(r, v)])
  | OpDeallocate i =>
      match live !! i with
      | Some (o, _) => d ← mehcached_dynamic_deallocate d o; Some (d, delete i live)
      | None => Some (d, live)
      end
  | OpStore i j w =>
      match live !! i with
      | Some (o, v) =>
          if (0 <=? j) && (8 * j <? v) then
            d ← store_word d (mehcached_dynamic_item d o + 8 * j) w; Some (d, live)
          else Some (d, live)
      | None => Some (d, live)
      end
  end.

Fixpoint dyn_run (d : mehcached_dynamic) (live : list (Z * Z)) (ops : list dyn_op)
    : option (mehcached_dynamic * list (Z * Z)) :=
  match ops with
  | [] => Some (d, live)
  | op :: ops => '(d, live) ← dyn_step d live op; dyn_run d live ops
  end.

Definition dyn_pre (op : dyn_op) : Prop :=
  match op with OpAllocate v => 9 <= v <= 264 | _ => True end.

(** The blocks are the used chunks, in some order. *)
Record blocks (d : mehcached_dynamic) (live : list (Z * Z)) (cs : list chunk) : Prop := {
  bl_settled : settled cs;
  bl_coalesced : coalesced false cs;
  bl_starts : (fun p => dyn_data d + p.1 - 8) <$> live ≡ₚ cstart <$> used cs;
  bl_sizes : forall o v, (o, v) ∈ live -> exists k, k ∈ cs /\ ckind k = Used /\
    cstart k = dyn_data d + o - 8 /\ request v <= csize k /\ 9 <= v <= 264 }.

Lemma elem_of_used k cs : k ∈ used cs <-> ckind k = Used /\ k ∈ cs.
Proof. unfold used. by rewrite list_elem_of_filter. Qed.

Lemma delete_none {A} (l : list A) : forall i, l !! i = None -> delete i l = l.
Proof.
  induction l as [|x l IH]; intros [|i] Hi; [done|done|done|]. cbn. f_equal. by apply IH.
Qed.

Lemma elem_of_delete_inv {A} (x : A) (l : list A) : forall i : nat, x ∈ delete i l -> x ∈ l.
Proof.
  induction l as [|y l IH]; intros [|i]; cbn; try done; [by right|].
  intros [->|Hx]%elem_of_cons; [by left|right; by eapply IH].
Qed.

Lemma starts_nodup d cs fl : dyn_inv d cs fl -> NoDup (cstart <$> cs).
Proof.
  intros Hinv. pose proof (di_tiles _ _ _ Hinv) as Ht. clear Hinv. revert Ht.
  generalize (dyn_data d + dyn_size d). generalize (dyn_data d).
  induction cs as [|k cs IH]; intros a b Ht; [constructor|]. cbn [tiles] in Ht.
  destruct Ht as (Hs & Hn & _ & Ht). rewrite fmap_cons. apply NoDup_cons. split; [|by eapply IH].
  intros (k' & Hk' & Hin)%list_elem_of_fmap. destruct (tiles_bounds _ _ _ Ht) as [_ Hb].
  apply Hb in Hin. lia.
Qed.

Lemma used_starts_nodup d cs fl : dyn_inv d cs fl -> NoDup (cstart <$> used cs).
Proof.
  intros Hinv. pose proof (starts_nodup d cs fl Hinv) as Hnd. clear Hinv.
  induction cs as [|k cs IH]; [constructor|]. rewrite fmap_cons in Hnd.
  apply NoDup_cons in Hnd as [Hk Hnd]. unfold used. rewrite filter_cons.
  destruct (decide _); [|by apply IH]. rewrite fmap_cons. apply NoDup_cons. split; [|by apply IH].
  intros (k' & Hs & Hk')%list_elem_of_fmap. apply Hk. rewrite Hs. apply list_elem_of_fmap_2.
  by apply elem_of_used in Hk' as [_ ?].
Qed.

Lemma allocate_blocks d live cs fl v :
  dyn_inv d cs fl -> blocks d live cs -> 9 <= v <= 264 ->
  exists d' live' cs' fl', dyn_step d live (OpAllocate v) = Some (d', live') /\
    dyn_inv d' cs' fl' /\ blocks d' live' cs' /\ keeps d d' cs /\
    (live' = live \/ exists r, live' = live ++ [(r, v)] /\ words d' !! (dyn_data d' + r) = Some v).
Proof.
  intros Hinv [Hset Hco Hst Hsz] Hv. cbn [dyn_step].
  destruct (allocate_ok d cs fl v Hinv Hset Hco Hv)
    as (r & d' & -> & [(-> & -> & _)|(cs1 & k & cs2 & n & cs' & fl' & -> & Hf & -> & Hn & Hinv' & Hset' & Hco' & Hk & Hu & Hw)]);
    cbn [mbind option_bind].
  { exists d, live, cs, fl. rewrite Z.eqb_refl. split; [done|]. split; [done|]. split; [done|].
    split; [apply keeps_refl|by left]. }
  assert (k ∈ cs1 ++ k :: cs2) as Hin by (apply elem_of_mid; by left).
  destruct (chunk_bounds d _ fl k Hinv Hin) as (B1 & B2 & B3 & _).
  pose proof (di_end _ _ _ Hinv) as He. pose proof (di_data _ _ _ Hinv) as Hd0. unfold cend in B2.
  rewrite (proj2 (Z.eqb_neq _ _)) by (unfold MEHCACHED_DYNAMIC_INSUFFICIENT_SPACE, MEHCACHED_DYNAMIC_MAX_SIZE in *; lia).
  exists d', (live ++ [(cstart k + 8 - dyn_data d, v)]), cs', fl'.
  split; [done|]. split; [done|]. split; [|split; [done|]].
  - rewrite used_app, used_cons_not in Hst by congruence. pose proof (kp_data _ _ _ Hk) as Hdd.
    split; try done.
    + rewrite Hu, !fmap_app, Hdd, Hst. cbn [fmap list_fmap cstart fst].
      replace (dyn_data d + (cstart k + 8 - dyn_data d) - 8) with (cstart k) by lia.
      rewrite fmap_app, <- app_assoc. apply Permutation_app_head. symmetry. apply Permutation_cons_append.
    + intros o v0 [Ho|Ho%list_elem_of_singleton]%elem_of_app.
      * destruct (Hsz o v0 Ho) as (k' & Hk' & Hku & Hs & ? & ?). exists k'. rewrite Hdd.
        split; [|done]. assert (k' ∈ used cs') as [_ ?]%elem_of_used; [|done]. rewrite Hu.
        apply elem_of_mid in Hk' as [->|Hk']; [congruence|]. rewrite elem_of_app, elem_of_cons, !elem_of_used.
        apply elem_of_app in Hk'. tauto.
      * injection Ho as -> ->. exists (Chunk (cstart k) n Used). rewrite Hdd.
        split; [|split; [done|split; [simpl; lia|done]]].
        assert (Chunk (cstart k) n Used ∈ used cs') as [_ ?]%elem_of_used; [|done]. rewrite Hu.
        apply elem_of_mid. by left.
  - right. eexists. split; [done|]. rewrite (kp_data _ _ _ Hk).
    by replace (dyn_data d + (cstart k + 8 - dyn_data d)) with (cstart k + 8) by lia.
Qed.

Lemma deallocate_blocks d live cs fl i :
  dyn_inv d cs fl -> blocks d live cs ->
  exists d' live' cs' fl', dyn_step d live (OpDeallocate i) = Some (d', live') /\
    dyn_inv d' cs' fl' /\ blocks d' live' cs' /\ live' = delete i live /\
    dyn_data d' = dyn_data d /\ dyn_size d' = dyn_size d /\
    forall o v a, (o, v) ∈ live' -> dyn_data d + o <= a < dyn_data d + o + v -> words d' !! a = words d !! a.
Proof.
  intros Hinv [Hset Hco Hst Hsz]. cbn [dyn_step]. destruct (live !! i) as [[o v]|] eqn:Hi.
  2:{ exists d, live, cs, fl. split; [done|]. split; [done|]. split; [done|].
      split; [|done]. symmetry. by apply delete_none. }
  pose proof (list_elem_of_lookup_2 _ _ _ Hi) as Hin.
  destruct (Hsz o v Hin) as (k & Hk & Hku & Hs & _ & _).
  destruct (elem_of_split_mid k cs Hk) as (cs1 & cs2 & ->).
  destruct (deallocate_ok d cs1 k cs2 fl Hinv Hset Hco Hku) as (d' & cs' & fl' & Hd & Hinv' & Hset' & Hco' & Hu & Hkeep).
  replace (cstart k + 8 - dyn_data d) with o in Hd by lia. rewrite Hd. cbn [mbind option_bind].
  exists d', (delete i live), cs', fl'. split; [done|]. split; [done|].
  pose proof (kp_data _ _ _ Hkeep) as Hdd.
  pose proof (used_starts_nodup _ _ _ Hinv) as Hnd. rewrite used_mid, fmap_app, fmap_cons in Hnd, Hst by done.
  assert (live ≡ₚ (o, v) :: delete i live) as Hperm by (by apply delete_Permutation).
  assert ((fun p => dyn_data d + p.1 - 8) <$> delete i live ≡ₚ cstart <$> used cs1 ++ used cs2) as Hst'.
  { apply (Permutation_cons_inv (a := cstart k)). rewrite fmap_app, Permutation_middle, <- Hst.
    rewrite Hperm at 2. rewrite fmap_cons. cbn [fst]. by rewrite Hs. }
  assert (forall o' v', (o', v') ∈ delete i live -> exists k', k' ∈ cs1 ++ cs2 /\ ckind k' = Used /\
    cstart k' = dyn_data d + o' - 8 /\ request v' <= csize k' /\ 9 <= v' <= 264) as Hrest.
  { intros o' v' Ho'. assert ((o', v') ∈ live) as Hl by (rewrite Hperm; by right).
    destruct (Hsz o' v' Hl) as (k' & Hk' & Hku' & Hs' & ? & ?). exists k'. split; [|done].
    apply elem_of_mid in Hk' as [->|]; [|done]. exfalso.
    assert (cstart k ∈ cstart <$> used cs1 ++ used cs2) as Hbad.
    { rewrite <- Hst', Hs'. apply list_elem_of_fmap. by exists (o', v'). }
    apply NoDup_app in Hnd as (_ & N2 & N3). rewrite fmap_app in Hbad. apply elem_of_app in Hbad as [Hb|Hb].
    - apply (N2 _ Hb). by left.
    - by apply NoDup_cons in N3 as [? _]. }
  split; [|split; [done|split; [done|split; [apply Hkeep|]]]].
  - split; try done.
    + by rewrite Hdd, Hu.
    + intros o' v' Ho'. destruct (Hrest o' v' Ho') as (k' & Hk' & Hku' & Hs' & ?). exists k'.
      rewrite Hdd. split; [|done]. assert (k' ∈ used cs') as [_ ?]%elem_of_used; [|done].
      rewrite Hu, elem_of_app, !elem_of_used. apply elem_of_app in Hk'. tauto.
  - intros o' v' a Ho' Ha. destruct (Hrest o' v' Ho') as (k' & Hk' & Hku' & Hs' & Hreq & Hv').
    destruct (request_range v' Hv') as (Hr & _ & _).
    apply (kp_used _ _ _ Hkeep k'); [done|done|]. unfold inside, cend. lia.
Qed.

(** The owner of a block writes between the tags. *)
Lemma store_used d cs fl k a w :
  dyn_inv d cs fl -> k ∈ cs -> ckind k = Used -> cstart k + 8 <= a -> a + 8 < cend k ->
  (8 | a - dyn_data d) ->
  store_word d a w = Some (set_words d (<[a := w]> (words d))) /\
  dyn_inv (set_words d (<[a := w]> (words d))) cs fl.
Proof.
  intros Hinv Hk Hu Ha1 Ha2 Ha8. destruct (chunk_bounds d cs fl k Hinv Hk) as (B1 & B2 & _).
  pose proof (di_tiles _ _ _ Hinv) as Ht.
  assert (forall k' x, k' ∈ cs -> k' <> k -> inside k' x -> x <> a) as Hne.
  { intros k' x Hk' Hkk Hx. eapply tiles_sep; [exact Ht|exact Hk'|exact Hk|done|done|].
    unfold inside, cend in *. lia. }
  split.
  { apply store_word_ok, (di_words _ _ _ Hinv); [unfold cend in *; lia|done]. }
  split; cbn [set_words words dyn_data dyn_size free_head]; try apply Hinv.
  - intros x Hx Hx8. by apply insert_is_Some, Hinv.
  - intros k' Hk' Hl. destruct (di_tags _ _ _ Hinv k' Hk' Hl) as [T1 T2].
    destruct (chunk_bounds d cs fl k' Hinv Hk') as (_ & _ & Hn & _).
    assert (cstart k' <> a /\ cend k' - 8 <> a) as [N1 N2].
    { destruct (decide (k' = k)) as [->|Hkk]; [unfold cend in *; lia|].
      split; apply (Hne k'); try done; unfold inside, cend in *; lia. }
    by rewrite !lookup_insert_ne by congruence.
  - intros c Hc. destruct (di_list _ _ _ Hinv c Hc) as (H1 & H2 & H3). split; [done|].
    split; [|done]. eapply seg_ext; [|exact H2]. intros x Hx.
    destruct (node_chunk d cs fl c x Hinv Hc Hx) as (k' & Hk' & Hf & _ & _ & _ & I8 & I16 & _).
    assert (k' <> k) as Hkk by congruence.
    pose proof (Hne k' _ Hk' Hkk I8). pose proof (Hne k' _ Hk' Hkk I16).
    by rewrite !lookup_insert_ne by congruence.
Qed.

Lemma fmap_nodup_inj {A B} (f : A -> B) l x y :
  NoDup (f <$> l) -> x ∈ l -> y ∈ l -> f x = f y -> x = y.
Proof.
  intros Hnd [i Hi]%list_elem_of_lookup [j Hj]%list_elem_of_lookup Hf.
  assert (i = j) as ->; [|congruence].
  apply (NoDup_lookup (f <$> l) _ _ (f x) Hnd); rewrite list_lookup_fmap; [by rewrite Hi|].
  by rewrite Hj, Hf.
Qed.

Lemma live_nodup d live cs fl :
  dyn_inv d cs fl -> blocks d live cs -> NoDup ((fun p => dyn_data d + p.1 - 8) <$> live).
Proof. intros Hinv Hb. rewrite (bl_starts _ _ _ Hb). by eapply used_starts_nodup. Qed.

Lemma roundup8_ceil v j : 0 <= j -> 8 * j < v -> 9 <= v <= 264 -> 8 * j + 24 <= request v.
Proof.
  intros Hj Hjv Hv. destruct (request_range v Hv) as (Hr & _ & [q Hq]). lia.
Qed.

Lemma store_blocks d live cs fl i j w :
  dyn_inv d cs fl -> blocks d live cs ->
  exists d', dyn_step d live (OpStore i j w) = Some (d', live) /\
    dyn_inv d' cs fl /\ blocks d' live cs /\ dyn_data d' = dyn_data d /\ dyn_size d' = dyn_size d /\
    forall o v a, (o, v) ∈ live -> live !! i <> Some (o, v) ->
      dyn_data d + o <= a < dyn_data d + o + v -> words d' !! a = words d !! a.
Proof.
  intros Hinv Hb. cbn [dyn_step]. destruct (live !! i) as [[o v]|] eqn:Hi; [|by exists d].
  destruct ((0 <=? j) && (8 * j <? v)) eqn:Hj; [|by exists d].
  apply andb_true_iff in Hj as [Hj1%Z.leb_le Hj2%Z.ltb_lt].
  destruct (bl_sizes _ _ _ Hb o v (list_elem_of_lookup_2 _ _ _ Hi)) as (k & Hk & Hku & Hs & Hr & Hv).
  pose proof (roundup8_ceil v j Hj1 Hj2 Hv). unfold mehcached_dynamic_item.
  destruct (chunk_bounds d cs fl k Hinv Hk) as (_ & _ & _ & _ & Hd8).
  destruct (store_used d cs fl k (dyn_data d + o + 8 * j) w) as [-> Hinv']; [done|done|done|..].
  - lia.
  - unfold cend. lia.
  - replace (dyn_data d + o + 8 * j - dyn_data d) with (cstart k - dyn_data d + (j + 1) * 8) by lia.
    apply Z.divide_add_r; [done|]. by apply Z.divide_factor_r.
  - cbn [mbind option_bind]. eexists. split; [done|]. split; [done|]. split; [by destruct Hb; split|].
    split; [done|]. split; [done|].
    intros o' v' a Ho' Hne Ha. cbn [set_words words]. apply lookup_insert_ne.
    destruct (bl_sizes _ _ _ Hb o' v' Ho') as (k' & Hk' & Hku' & Hs' & Hr' & Hv').
    destruct (request_range v' Hv') as (Hr1 & _).
    destruct (decide (k' = k)) as [->|Hkk].
    + destruct Hne. f_equal.
      apply (fmap_nodup_inj _ live _ _ (live_nodup d live cs fl Hinv Hb)); cbn [fst]; [|done|lia].
      by eapply list_elem_of_lookup_2.
    + intros Heq. revert Heq. eapply (tiles_sep cs _ _ k k'); [apply Hinv|done|done|congruence|..];
        unfold inside, cend; lia.
Qed.

(** ** Steps, runs and the fresh region *)

(** The block that an operation writes. *)
Definition writes (live : list (Z * Z)) (op : dyn_op) (p : Z * Z) : Prop :=
  match op with OpStore i _ _ => live !! i = Some p | _ => False end.

(** Before the step and after it. *)
Record step_keeps (d d' : mehcached_dynamic) (live live' : list (Z * Z)) (op : dyn_op) : Prop := {
  sk_data : dyn_data d' = dyn_data d;
  sk_size : dyn_size d' = dyn_size d;
  sk_old : forall o v a, (o, v) ∈ live -> (o, v) ∈ live' -> ~ writes live op (o, v) ->
    dyn_data d + o <= a < dyn_data d + o + v -> words d' !! a = words d !! a;
  sk_new : forall o v, (o, v) ∈ live' -> (o, v) ∈ live \/ words d' !! (dyn_data d + o) = Some v }.

Lemma dyn_step_ok d live cs fl op :
  dyn_inv d cs fl -> blocks d live cs -> dyn_pre op ->
  exists d' live' cs' fl', dyn_step d live op = Some (d', live') /\
    dyn_inv d' cs' fl' /\ blocks d' live' cs' /\ step_keeps d d' live live' op.
Proof.
  intros Hinv Hb Hpre. destruct op as [v|i|i j w].
  - destruct (allocate_blocks d live cs fl v Hinv Hb Hpre)
      as (d' & live' & cs' & fl' & -> & Hinv' & Hb' & Hk & Hl).
    exists d', live', cs', fl'. split; [done|]. split; [done|]. split; [done|].
    split; [apply Hk|apply Hk|..].
    + intros o v0 a Ho _ _ Ha. destruct (bl_sizes _ _ _ Hb o v0 Ho) as (k & ? & ? & Hs & Hr & Hv).
      destruct (request_range v0 Hv) as (Hr' & _).
      apply (kp_used _ _ _ Hk k); [done|done|]. unfold inside, cend. lia.
    + intros o v0 Ho. destruct Hl as [->|(r & -> & Hr)]; [by left|].
      apply elem_of_app in Ho as [|[= -> ->]%list_elem_of_singleton]; [by left|right].
      by rewrite <- (kp_data _ _ _ Hk).
  - destruct (deallocate_blocks d live cs fl i Hinv Hb)
      as (d' & live' & cs' & fl' & -> & Hinv' & Hb' & -> & Hd & Hn & Hw).
    exists d', (delete i live), cs', fl'. split; [done|]. split; [done|]. split; [done|].
    split; [done|done|..].
    + intros o v a _ Ho _ Ha. by apply (Hw o v).
    + intros o v Ho. left. by eapply elem_of_delete_inv.
  - destruct (store_blocks d live cs fl i j w Hinv Hb) as (d' & -> & Hinv' & Hb' & Hd & Hn & Hw).
    exists d', live, cs, fl. split; [done|]. split; [done|]. split; [done|].
    split; [done|done|..].
    + intros o v a Ho _ Hne Ha. by apply (Hw o v).
    + intros o v Ho. by left.
Qed.

Lemma dyn_run_ok ops : forall d live cs fl,
  dyn_inv d cs fl -> blocks d live cs -> Forall dyn_pre ops ->
  exists d' live' cs' fl', dyn_run d live ops = Some (d', live') /\
    dyn_inv d' cs' fl' /\ blocks d' live' cs' /\ dyn_data d' = dyn_data d /\ dyn_size d' = dyn_size d.
Proof.
  induction ops as [|op ops IH]; intros d live cs fl Hinv Hb Hpre; cbn [dyn_run].
  { by exists d, live, cs, fl. }
  apply Forall_cons in Hpre as [Hop Hpre].
  destruct (dyn_step_ok d live cs fl op Hinv Hb Hop) as (d1 & live1 & cs1 & fl1 & -> & H1 & H2 & Hk).
  cbn [mbind option_bind]. destruct (IH d1 live1 cs1 fl1 H1 H2 Hpre) as (d' & live' & cs' & fl' & H').
  exists d', live', cs', fl'. by rewrite <- (sk_data _ _ _ _ _ Hk), <- (sk_size _ _ _ _ _ Hk).
Qed.

(** What [mehcached_dynamic_init] hands to the reset. *)
Record region_ok (d : mehcached_dynamic) : Prop := {
  ro_data : 0 < dyn_data d;
  ro_size : 32 <= dyn_size d <= MEHCACHED_DYNAMIC_MAX_SIZE;
  ro_div : (8 | dyn_size d);
  ro_end : dyn_data d + dyn_size d < 2 ^ 64;
  ro_words : forall a, dyn_data d <= a < dyn_data d + dyn_size d -> (8 | a - dyn_data d) ->
    is_Some (words d !! a) }.

Lemma reset_ok d : region_ok d ->
  exists d' fl, mehcached_dynamic_reset d = Some d' /\
    dyn_inv d' [Chunk (dyn_data d) (dyn_size d) Free] fl /\
    blocks d' [] [Chunk (dyn_data d) (dyn_size d) Free] /\
    dyn_data d' = dyn_data d /\ dyn_size d' = dyn_size d.
Proof.
  intros [Hd Hs H8 He Hw]. unfold mehcached_dynamic_reset.
  set (d0 := Dynamic _ _ _ _ _ _).
  assert (dyn_inv d0 ([] ++ Chunk (dyn_data d) (dyn_size d) Loose :: []) (fun _ => [])) as Hinv.
  { split; cbn [d0 dyn_data dyn_size free_head words]; try done; try lia.
    - cbn [tiles app cstart csize]. split; [done|]. split; [lia|]. by split.
    - by intros k ->%list_elem_of_singleton Hl.
    - intros c Hc. split; [|split; [done|constructor]].
      unfold at_. rewrite (proj2 (Z.leb_le _ _)) by lia. apply lookup_replicate. split; [done|].
      unfold MEHCACHED_DYNAMIC_NUM_CLASSES. lia.
    - intros c x _. split; [by intros ?%not_elem_of_nil|].
      by intros (k & ->%list_elem_of_singleton & Hf & _). }
  destruct (insert_ok d0 [] (Chunk (dyn_data d) (dyn_size d) Loose) [] _ Hinv eq_refl)
    as (d' & fl & Hins & Hinv' & [_ _ Hks Hkd _]).
  cbn [cstart csize] in Hins. exists d', fl. split; [done|]. split; [done|]. split; [|done].
  split; cbn; try done.
  - unfold settled. by repeat constructor.
  - split; [by intros []|done].
  - intros o v Ho. by apply not_elem_of_nil in Ho.
Qed.

(** When nothing is in use, the region is one free chunk again. *)
Lemma all_free d cs fl :
  dyn_inv d cs fl -> 0 < dyn_size d -> settled cs -> coalesced false cs -> used cs = [] ->
  cs = [Chunk (dyn_data d) (dyn_size d) Free].
Proof.
  intros Hinv Hpos Hset Hco Hu. pose proof (di_tiles _ _ _ Hinv) as Ht.
  assert (forall k, k ∈ cs -> ckind k = Free) as Hall.
  { intros k Hk. destruct (ckind k) eqn:Hkk; [done|..].
    - assert (k ∈ used cs) as Hbad by (by apply elem_of_used). rewrite Hu in Hbad.
      by apply not_elem_of_nil in Hbad.
    - unfold settled in Hset. rewrite Forall_forall in Hset. by destruct (Hset k Hk). }
  destruct cs as [|k [|k' cs]]; cbn [tiles] in Ht; [lia|..].
  - destruct Ht as (Hs & _ & _ & He). pose proof (Hall k (list_elem_of_here _ _)).
    destruct k as [s n kd]; cbn in *. subst. f_equal. f_equal. lia.
  - exfalso. pose proof (Hall k (list_elem_of_here _ _)) as H1.
    pose proof (Hall k' (list_elem_of_further _ _ _ (list_elem_of_here _ _))) as H2.
    cbn [coalesced] in Hco. rewrite !is_free_true in Hco by done. destruct Hco as [_ [Hco _]]. by apply Hco.
Qed.

(** The heads are determined when there is one chunk. *)
Lemma heads_one d k fl c :
  dyn_inv d [k] fl -> ckind k = Free -> 0 <= c < 32 ->
  at_ (free_head d) c = Some (if c =? cls (csize k) then cstart k else 0).
Proof.
  intros Hinv Hk Hc. destruct (di_list _ _ _ Hinv c Hc) as (-> & _ & Hnd). f_equal.
  pose proof (fun x => di_mem _ _ _ Hinv c x Hc) as Hm. destruct (Z.eqb_spec c (cls (csize k))) as [->|Hne].
  - assert (cstart k ∈ fl (cls (csize k))) as Hin.
    { apply Hm. exists k. split; [by apply list_elem_of_singleton|done]. }
    destruct (fl (cls (csize k))) as [|x l]; [by apply not_elem_of_nil in Hin|]. cbn.
    destruct (proj1 (Hm x) (list_elem_of_here _ _)) as (k' & ->%list_elem_of_singleton & _ & ? & _). done.
  - destruct (fl c) as [|x l]; [done|].
    destruct (proj1 (Hm x) (list_elem_of_here _ _)) as (k' & ->%list_elem_of_singleton & _ & _ & ?). done.
Qed.

Lemma blocks_apart d live cs fl i j o1 v1 o2 v2 :
  dyn_inv d cs fl -> blocks d live cs ->
  live !! i = Some (o1, v1) -> live !! j = Some (o2, v2) -> i <> j ->
  o1 + v1 + 16 <= o2 \/ o2 + v2 + 16 <= o1.
Proof.
  intros Hinv Hb Hi Hj Hij.
  destruct (bl_sizes _ _ _ Hb o1 v1 (list_elem_of_lookup_2 _ _ _ Hi)) as (k1 & K1 & _ & S1 & R1 & V1).
  destruct (bl_sizes _ _ _ Hb o2 v2 (list_elem_of_lookup_2 _ _ _ Hj)) as (k2 & K2 & _ & S2 & R2 & V2).
  destruct (request_range v1 V1) as (Q1 & _), (request_range v2 V2) as (Q2 & _).
  destruct (tiles_disjoint cs _ _ k1 k2 (di_tiles _ _ _ Hinv) K1 K2) as [->|[H|H]];
    [|unfold cend in H; lia..].
  destruct Hij. apply (NoDup_lookup _ _ _ (dyn_data d + o1 - 8) (live_nodup d live cs fl Hinv Hb));
    rewrite list_lookup_fmap; [by rewrite Hi|rewrite Hj; cbn; f_equal; lia].
Qed.

Lemma block_bounds d live cs fl o v :
  dyn_inv d cs fl -> blocks d live cs -> (o, v) ∈ live -> 8 <= o /\ (8 | o) /\ o + v <= dyn_size d - 8.
Proof.
  intros Hinv Hb Ho. destruct (bl_sizes _ _ _ Hb o v Ho) as (k & Hk & _ & Hs & Hr & Hv).
  destruct (request_range v Hv) as (Q & _).
  destruct (chunk_bounds d cs fl k Hinv Hk) as (B1 & B2 & _ & _ & [q B5]). unfold cend in B2.
  split; [lia|]. split; [|lia]. exists (q + 1). lia.
Qed.

Lemma heads_reset d d' cs fl fl' n :
  dyn_inv d [Chunk (dyn_data d) n Free] fl -> dyn_inv d' cs fl' -> cs = [Chunk (dyn_data d) n Free] ->
  free_head d' = free_head d.
Proof.
  intros Hinv Hinv' ->. apply list_eq. intros i. destruct (decide (i < 32)%nat) as [Hi|Hi].
  - pose proof (heads_one d _ fl (Z.of_nat i) Hinv eq_refl) as H1.
    pose proof (heads_one d' _ fl' (Z.of_nat i) Hinv' eq_refl) as H2.
    unfold at_ in H1, H2. rewrite (proj2 (Z.leb_le _ _)), Nat2Z.id in H1, H2 by lia.
    by rewrite H1, H2 by lia.
  - rewrite !lookup_ge_None_2; [done|..]; rewrite (di_heads _ _ _ Hinv) || rewrite (di_heads _ _ _ Hinv'); lia.
Qed.

(** C17: Every sequence of allocations of 9 to 264 bytes, deallocations and stores of the owners
    into their blocks succeeds in a fresh region: no assertion fails and no access leaves the
    region.  The blocks are aligned, inside the region and at least 16 bytes apart; a step
    changes no word of a block other than the one its owner writes, and a new block starts
    with its size.  When everything is given back, the free lists are as after the reset:
    all chunks have been merged. *)
Theorem dynamic_blocks_safe d ops :
  region_ok d -> Forall dyn_pre ops ->
  exists d0 d1 live, mehcached_dynamic_reset d = Some d0 /\ dyn_run d0 [] ops = Some (d1, live) /\
    (forall i j o1 v1 o2 v2, live !! i = Some (o1, v1) -> live !! j = Some (o2, v2) -> i <> j ->
       o1 + v1 + 16 <= o2 \/ o2 + v2 + 16 <= o1) /\
    (forall o v, (o, v) ∈ live -> 8 <= o /\ (8 | o) /\ o + v <= dyn_size d - 8) /\
    (live = [] -> free_head d1 = free_head d0) /\
    (forall op, dyn_pre op -> exists d2 live2, dyn_step d1 live op = Some (d2, live2) /\
       step_keeps d1 d2 live live2 op).
Proof.
  intros Hro Hpre. destruct (reset_ok d Hro) as (d0 & fl0 & Hres & Hinv0 & Hb0 & Hd0 & Hs0).
  destruct (dyn_run_ok ops d0 [] _ fl0 Hinv0 Hb0 Hpre) as (d1 & live & cs & fl & Hrun & Hinv & Hb & Hd1 & Hs1).
  exists d0, d1, live. split; [done|]. split; [done|]. split; [|split; [|split]].
  - intros i j o1 v1 o2 v2. by eapply blocks_apart.
  - intros o v Ho. rewrite <- Hs0, <- Hs1. by eapply block_bounds.
  - intros ->. rewrite <- Hd0, <- Hs0 in Hinv0. apply (heads_reset d0 d1 cs fl0 fl (dyn_size d0)); [done..|].
    rewrite <- Hd1, <- Hs1. apply (all_free d1 cs fl); [done| |apply Hb|apply Hb|].
    + destruct Hro. lia.
    + pose proof (bl_starts _ _ _ Hb) as Hst. symmetry in Hst. apply Permutation_nil_r in Hst.
      by apply fmap_nil_inv in Hst.
  - intros op Hop. destruct (dyn_step_ok d1 live cs fl op Hinv Hb Hop) as (d2 & live2 & ? & ? & ? & _ & _ & ?).
    by exists d2, live2.
Qed.

(** ** A region *)

Definition grid (base n : Z) : gmap Z Z := list_to_map ((fun i => (base + 8 * i, 0)) <$> seqZ 0 n).

Lemma grid_words base n a : base <= a < base + 8 * n -> (8 | a - base) -> is_Some (grid base n !! a).
Proof.
  intros Ha [q Hq]. apply not_eq_None_Some. intros Hn. apply not_elem_of_list_to_map_2 in Hn.
  apply Hn. apply list_elem_of_fmap. exists (a, 0). split; [done|].
  apply list_elem_of_fmap. exists q. split; [f_equal; lia|]. apply elem_of_seqZ. lia.
Qed.

Definition page : mehcached_dynamic := Dynamic 2 0 4096 4096 [] (grid 4096 512).

Lemma page_ok : region_ok page.
Proof.
  split; cbn [page dyn_data dyn_size words]; unfold MEHCACHED_DYNAMIC_MAX_SIZE; try lia.
  - by exists 512.
  - intros a Ha Hd. apply grid_words; [lia|done].
Qed.

Lemma dynamic_blocks_safe_witness :
  exists d0 d1 live, mehcached_dynamic_reset page = Some d0 /\
    dyn_run d0 [] [OpAllocate 16; OpAllocate 264; OpStore 1 32 7; OpDeallocate 0] = Some (d1, live) /\
    forall o v, (o, v) ∈ live -> 8 <= o /\ (8 | o) /\ o + v <= 4096 - 8.
Proof.
  destruct (dynamic_blocks_safe page [OpAllocate 16; OpAllocate 264; OpStore 1 32 7; OpDeallocate 0])
    as (d0 & d1 & live & H1 & H2 & _ & H3 & _).
  - exact page_ok.
  - repeat constructor; cbn; lia.
  - exists d0, d1, live. split; [exact H1|]. split; [exact H2|exact H3].
Defined.

(** ** The requests outside these bounds *)

Definition after_three (d : mehcached_dynamic) : option (mehcached_dynamic * list (Z * Z)) :=
  d ← mehcached_dynamic_reset d;
  dyn_run d [] [OpAllocate 400; OpAllocate 16; OpDeallocate 0].

(** The first chunk of the last class, the chunk after it and that chunk's tag, and the
    answer to a request. *)
Definition last_class (v : Z) (d : mehcached_dynamic) : option (Z * Z * Z * option Z) :=
  first ← at_ (free_head d) 31;
  second ← load_word d (first + 16);
  tag ← load_word d second;
  Some (first, second, tag, fst <$> mehcached_dynamic_allocate d v).

Lemma remove_from_head_small d v :
  length (free_head d) = 32%nat -> 0 <= v <= 8 ->
  mehcached_dynamic_remove_free_chunk_from_head d
    (u64 (MEHCACHED_ROUNDUP8 v + MEHCAHCED_DYNAMIC_OVERHEAD)) = None.
Proof.
  intros Hl Hv. set (m := u64 _).
  assert (exists c, mehcached_dynamic_size_to_class_roundup m = Some c /\ 32 < c) as (c & Hc & Hbig).
  { assert (m = 16 \/ m = 24) as [->| ->].
    { unfold m. rewrite roundup8_val by lia. destruct (decide (v = 0)) as [->|]; [by left|right].
      by replace ((v + 7) / 8 * 8) with 8 by zlia. }
    - exists (2 ^ 61 - 2). split; [vm_compute; reflexivity|lia].
    - exists (2 ^ 61 - 1). split; [vm_compute; reflexivity|lia]. }
  unfold mehcached_dynamic_remove_free_chunk_from_head. rewrite Hc. cbn [mbind option_bind].
  replace (Z.to_nat (MEHCACHED_DYNAMIC_NUM_CLASSES - c)) with O
    by (unfold MEHCACHED_DYNAMIC_NUM_CLASSES; lia).
  cbn [class_loop mbind option_bind]. unfold MEHCACHED_DYNAMIC_NUM_CLASSES.
  rewrite (proj2 (Z.eqb_neq _ _)) by lia. unfold at_. rewrite (proj2 (Z.leb_le _ _)) by lia.
  by rewrite lookup_ge_None_2 by lia.
Qed.

(** C39: Requests outside 9 to 264 bytes.  A request of at most 8 bytes is smaller than the
    smallest class, the subtraction wraps and the index is outside the table of heads.  Above
    264 bytes all chunks share the last class and only its first chunk is tried: a request of
    1000 bytes stops at the assertion on the size although the next chunk of the list is free
    and has 3648 bytes, which the same request gets when that chunk comes first. *)
Theorem dynamic_requests_out_of_range :
  (forall d v, length (free_head d) = 32%nat -> 0 <= v <= 8 -> mehcached_dynamic_allocate d v = None) /\
  ('(d, live) ← after_three page; last_class 1000 d) =
    Some (4096, 4544, MEHCACHED_DYNAMIC_TAG_VEC 3648 MEHCACHED_DYNAMIC_FREE, None) /\
  ('(d, live) ← after_three page; '(d, live) ← dyn_step d live (OpAllocate 300);
   fst <$> mehcached_dynamic_allocate d 1000) = Some 456.
Proof.
  split; [|split; vm_compute; reflexivity]. intros d v Hl Hv. unfold mehcached_dynamic_allocate.
  by rewrite remove_from_head_small by done.
Qed.

Definition page0 : mehcached_dynamic := Dynamic 2 0 4096 4096 (replicate 32 0) (grid 4096 512).

Lemma dynamic_requests_out_of_range_witness : mehcached_dynamic_allocate page0 8 = None.
Proof. apply (proj1 dynamic_requests_out_of_range page0 8); [reflexivity|lia]. Defined.
